(* ===== verification/_CoqProject ===== *)
-Q . S2P
Prelude.v
GoStrings.v
Url.v
Paths.v
Models.v
Formatter.v
Pipelinepath.v
Archive.v
Git.v
Graph.v
CycleCheck.v
Parser.v
Wellformed.v
Verifier.v
Typing.v
Planner.v
Store.v
Sql.v
Schema.v
SqlStore.v
StageState.v
Mq.v
Connections.v
Publisher.v
Orchestrator.v
Execution.v
Callbacks.v
Steps.v
Http.v
Validation.v
Startup.v
Reporting.v
Observability.v
Gateway.v
Cli.v
Commands.v
Worker.v
Workerpool.v
Wiring.v
Entrypoints.v
Endpoints.v
System.v
Concurrent.v
Lively.v
Completion.v
Race.v
Footprint.v
Fleet.v
