(* ===== verification/Prelude.v ===== *)
(** * Verification of the CI/CD pipeline system

    The program (Go, under src/internal) validates a pipeline written in YAML,
    plans its jobs, runs them in containers on workers, and records what
    happened. Its services talk over HTTP and a RabbitMQ queue:

    - the CLI and the gateway forward a user's request;
    - the validation service parses and verifies the YAML, behind a cache;
    - the orchestrator has it validated, creates the run's rows in MySQL, keeps a
      runtime of the run in memory and publishes the jobs that are ready;
    - a worker takes a job message, reports that the job started, runs its script
      in a container, and reports how it ended;
    - on each report the orchestrator updates the rows, releases the jobs that
      waited for this one, and moves to the next stage or ends the run;
    - the reporting service answers queries over the rows.

    ** Files, and what they model

    - Prelude: outcomes of Go code ([go] for panics, [res] for errors, [goerr]
      for wrapped errors), legal iteration orders of a Go map, shared lemmas,
      the hint database [cicd].
    - GoStrings: packages strings and strconv as the code uses them, with
      64-bit ranges ([ParseInt64], [wrap64]).
    - Models: models/, messages/, the bodies of api/types.go and yaml.v3 trees.
    - Graph, CycleCheck: directed graphs, and the depth-first search of the
      verifier's cycle check, proved to find a cycle exactly when there is one.
    - Parser (common/parser): from a tree to a pipeline.
    - Wellformed: the specification of a valid pipeline ([valid_pipeline]),
      which the verifier establishes and planner and orchestrator rely on.
    - Verifier (common/verifier): all checks, in order, with their locations.
    - Planner (common/planner): Kahn scheduling, execution plans, stage plans.
    - Store (internal/store): the tables as finite maps keyed by their unique keys
      up to collation, one function per method.
    - Sql: the SQL of the program, a language of its own: a lexer and a parser for
      its text, and what its statements do, as MySQL documents them. Schema
      (migrations/): the migration files and the script that applies them, which
      may be killed. SqlStore (internal/store): the methods with the text of their
      statements, on the tables of Schema.
    - StageState (orchestrator/service.go): the dependency counters of a stage.
    - Formatter (common/formatter): the YAML tree of a plan.
    - Typing: the verifier's type checks as inductive judgements.
    - Mq (internal/mq): publishing with retries, consuming with acknowledgement,
      jobs as messages on both sides, trace contexts in message headers.
    - Connections (mq/rabbitmq_cli.go, publisher.go, consumer.go and the code of
      the services that dials): connections, channels and clients of the queue,
      and what of them is held after each step.
    - Publisher (orchestrator/publisher.go, dispatch.go): reference-counted
      sets of publishers under interleaved calls; it implements the interface
      [JobSink] that the orchestrator publishes through.
    - Orchestrator (orchestrator/service.go, callbacks.go, dispatch.go,
      persistence.go): [runPlan] is Run after its validation, [HandleJobStarted]
      and [HandleJobFinished] are the callbacks, in a state and error monad over
      a [world]: the tables, the runtime map, the heap of runtimes (shared
      through pointers, as the Go maps are), the job sink, the clock, and
      faults of the store.
    - Execution: executions of the orchestrator from the start of a run to its
      end, by an invariant over the rows and the runtime.
    - Callbacks: callbacks out of order, repeated, malformed, or failing.
    - Steps (orchestrator/callbacks.go, dispatch.go): the same handlers as
      programs of small steps, each one access to what handlers share.
    - Http (internal/api, config/): requests, responses, error codes.
    - Url (net/url): query strings, built and read.
    - Validation (internal/cache, services/validation,
      orchestrator/validation.go): the cache interface [CacheStore] and its two
      implementations, the service, and [prepareRun].
    - Reporting (services/reporting): queries, reports, error classes.
    - Observability (internal/observability): telemetry providers and their
      set-up, names of tracers and spans, attributes of loggers.
    - Startup (store/store.go, cache/redis_store.go, the services' NewService,
      Close and readiness): what a service opens when it starts and closes.
    - Endpoints (orchestrator/handler.go, Run): the orchestrator over HTTP.
    - Archive (worker/execute.go): the tar archive of a workspace, over what the
      file system answers for each entry.
    - Worker (services/worker): one message from start to finish, and the steps
      of a job in its container.
    - Workerpool (worker/consumer.go, service.go, docker.go): the worker's
      service loop, its dependencies, and the goroutines of its consumers.
    - System: orchestrator, queue and any number of workers as one transition
      system; a worker's callbacks are requests to the endpoints.
    - Concurrent, Lively, Completion, Race: the workers of a run and the dispatching
      goroutine, with the steps of their handlers interleaved; what no schedule
      breaks (Concurrent), what holds while every job passes (Lively), when
      it ends and how (Completion), and the race of two callbacks of which one
      reports a failure (Race).
    - Footprint, Fleet (Run): what the handlers of a run touch, and any number of
      runs in one orchestrator, started at any time.
    - Wiring (RegisterRoutes, config/defaults.go): routes, addresses, and the
      requests that the services and the CLI send each other.
    - Entrypoints (cmd/*/main.go): the services from start to exit.
    - Paths (path, path/filepath), Pipelinepath (common/pipelinepath), Git
      (common/gitutil): paths of pipeline files, and the repository behind the
      git library, the git command and the file system.
    - Gateway (services/gateway): forwarding, error mapping, readiness.
    - Cli (cli/gateway_client.go, report.go, root.go), Commands (cli/validate.go,
      dryrun.go, run.go, repo_context.go): the commands of the user.

    A definition has the name of the Go function it models, a record field the
    name of the Go field with a prefix for its type.

    ** What the theorems show

    - The system (System, Endpoints): from a run request to its verdict, when each
      callback is handled to its end before the next one, no call of the store fails,
      every publish is confirmed and validation has no cache. A valid
      pipeline posted to the run endpoint is answered with its number; whatever
      the interleaving of the workers, the run then takes at most four steps per
      job, runs no job before all it waits for, and ends as a success exactly
      when no job failed that may not; each worker does what
      [handleJobMessage] does on its own.
    - Concurrency (Steps, Concurrent, Completion, Fleet): handlers that are stepped
      alone do what the atomic handlers do; for any number of runs, under any
      schedule of their requests and concurrent callbacks, whatever fails, no message is
      asked to be published twice, nothing is executed too early, and nothing is
      executed twice but after a lost report, or if the broker was left with two
      copies of a message because a publish that took effect was not confirmed and
      was tried again; when nothing fails, every schedule ends, and each run of which all
      executions pass is recorded as a success with every job executed, however many
      workers are lost and however the other runs go. When a job fails beside one that
      passes, a failed run may be recorded as a success (Race); a started callback that is
      handled late leaves its job as running for ever (Completion).
    - Runs (Execution), under the conditions of System: a run of a valid pipeline starts, hands out each job once
      and only after its needs, and when every job is reported successful (or its
      failure is allowed), in whatever order, it ends as a success with all rows
      terminal; a failure that is not allowed ends it at once.
    - Dispatch (StageState): under any sequence of events a job is handed out at
      most once and after its needs, and a stage whose jobs succeed never sticks.
    - Validation (Parser, Typing, Verifier, Validation): the parser inverts a
      canonical rendering and does not panic, the verifier accepts exactly the
      well-typed documents of valid pipelines, its cycle errors name real cycles,
      the cache is transparent when path and commit determine the content and no
      commit has a colon, and without it only valid pipelines are prepared. A valid
      document is one the verifier takes, which is not what the README says: the
      pipeline's name is required, the image and the script of a job are not.
    - Planning (Planner, Formatter): termination on every input, topological
      order, plans that contain each job once and that print without loss.
    - Storage and reports (Store, Schema, SqlStore, Reporting, Cli): numbering and
      deduplication invariants under any sequence of calls; migrations that bring
      any version of the tables, with its rows, to the last one; methods whose
      statements, parsed and executed on these tables, do what Store says, so that
      the theorems over Store are about the SQL; reports that show the rows, and a
      report command that shows the user what the service answered.
    - Messaging (Mq, Connections, Publisher, Worker, Workerpool): bounded retries and
      how many copies of a message they leave, what the broker is told of each
      delivery (an acknowledgement only after handling), no use of a closed publisher, no leaked
      connection or container on any path, doubling retry delays up to their
      bound; the worker's loop holds exactly what it opened and did not close,
      comes up whenever a turn succeeds, runs its consumers only with all they need,
      and waits for all its goroutines; the
      archive of a workspace holds exactly its entries.
    - The user's side (Pipelinepath, Git, Gateway, Commands): a resolved pipeline
      file lies in the pipeline directory and is read from the worktree of the
      commit, the gateway passes answers unchanged or reports its own errors, a
      directory is validated up to its first invalid file, and which request a
      local run sends.
    - Processes (Entrypoints, Wiring, Observability): what a service leaves behind
      when it ends, on every path; with nothing configured, each request arrives
      at the handler it is meant for; telemetry comes up whole or not at all.
    - What goes wrong, as theorems about the code: a release lost by a failed
      publish, a message published more than once, a cached validation that answers for another pipeline (in the
      orchestrator, and between files of one name), a dedup lookup in a stale
      snapshot, a started callback that reverts a finished job, a failed run
      recorded as a success, spellings of booleans, blank names, empty trace ids,
      the round robin's counter, an error appended to a partial answer, a worktree
      left behind, a consumer's error lost in a [select], a store connection kept by
      a failed start-up, a start-up error that is not exported, a workspace with a
      link that cannot be archived.

    ** Bounds and fuel

    [scheduleJobsInStage] and the depth-first search take fuel computed from
    their input and are proved never to run out. Retry loops that the code
    bounds (three attempts) recurse on the count; loops that may go on for ever
    (consuming, reporting a finished job, the worker's turns and rounds) read a
    list of what their environment answers and answer [None] when the list ends,
    and their theorems state when they return. Interleavings are step relations;
    the system's theorems bound the length of every execution: four steps per job
    with atomic handlers, 2 and 17 per job with small steps, and 17 more for
    each worker that is lost.
    Integers are Z, with ranges and wrap-around where the code can reach them:
    run numbers (32-bit column), counters and byte sizes (64-bit).

    ** What is left out

    Metrics (metrics.go and its recorders are commented out), the spans themselves and the
    OpenTelemetry SDK, the registration of commands and flags. The YAML decoder,
    go-git and the git command, Docker, the broker, Redis, MySQL's driver and the
    network are parameters, with their documented behaviour as hypotheses. A
    timeout is an error an operation may return; wall-clock time does not occur.
    The services' base URLs carry no query string of their own. The code does not
    lock the maps of a stage; a method of a stage's state is one step even where
    handlers are interleaved, so that a torn access, which Go leaves undefined, is
    not modelled. What Docker answers to the removal of a container, the code ignores
    and the model leaves out; a container that exists although its creation answered an
    error is not modelled. In Fleet, Run is one step: until its last call nothing refers to
    its run but rows of its own number. *)

From stdpp Require Export base gmap strings list fin_maps relations pretty.
From Stdlib Require Export ZArith.

(** ** Go outcomes: a value, or a run-time panic

    Index expressions out of range and method calls through [nil] panic in Go.
    Code that can panic is modelled in the [go] monad, so that "this function
    never panics" is a theorem and not a modelling assumption. *)
Inductive go (A : Type) : Type :=
| Ret (a : A)
| Panic.
Arguments Ret {A} a.
Arguments Panic {A}.

#[export] Instance go_ret : MRet go := @Ret.
#[export] Instance go_bind : MBind go :=
  fun A B (f : A -> go B) (m : go A) => match m with Ret a => f a | Panic => Panic end.
#[export] Instance go_fmap : FMap go :=
  fun A B (f : A -> B) (m : go A) => match m with Ret a => Ret (f a) | Panic => Panic end.

(** ** Go errors

    An error is either created from a format and its arguments ([ErrNew]),
    a package-level sentinel ([ErrIs]), or a wrapping of another error with
    [%w] ([ErrWrap]). [%v] copies only the text of an error, so an error
    formatted with [%v] is an [ErrNew] whose arguments hold that text. The
    model keeps the format and the arguments apart: no theorem depends on how
    the format verbs [%q], [%d] render. *)
Inductive goerr : Type :=
| ErrNew (format : string) (args : list string)
| ErrIs (sentinel : string)
| ErrWrap (format : string) (args : list string) (inner : goerr).

#[export] Instance goerr_eq_dec : EqDecision goerr.
Proof. solve_decision. Defined.

(** [errors.Is(err, target)] for a sentinel target: walk the chain of wrapped errors. *)
Fixpoint errors_Is (e : goerr) (target : string) : bool :=
  match e with
  | ErrNew _ _ => false
  | ErrIs s => bool_decide (s = target)
  | ErrWrap _ _ inner => errors_Is inner target
  end.

(** The result type of a fallible operation: [(value, nil)] or [(_, err)]. *)
Definition res (A : Type) : Type := (A + goerr)%type.
Definition ok {A} (a : A) : res A := inl a.
Definition err {A} (e : goerr) : res A := inr e.

#[export] Instance res_bind : MBind res :=
  fun A B f m => match m with inl a => f a | inr e => inr e end.

Lemma res_bind_ok {A B} (m : res A) (f : A -> res B) b : (m ≫= f) = ok b <-> exists a, m = ok a /\ f a = ok b.
Proof. destruct m as [a|e]; simpl; unfold ok; naive_solver. Qed.

(** Calls made so far, and a value or an error. *)
Definition traced (X A : Type) : Type := list X * res A.
#[export] Instance traced_ret {X} : MRet (traced X) := fun A a => ([], ok a).
#[export] Instance traced_bind {X} : MBind (traced X) := fun A B f m =>
  match m with
  | (tr, inl a) => let '(tr', r) := f a in (tr ++ tr', r)
  | (tr, inr e) => (tr, err e)
  end.

(** ** Occurrence counting *)
Fixpoint occ (x : string) (l : list string) : nat :=
  match l with
  | [] => 0
  | y :: l' => if decide (x = y) then S (occ x l') else occ x l'
  end.

(** A legal iteration order of a Go [map]: each key exactly once, in any order. *)
Definition iteration_order {V} (m : gmap string V) (order : list string) : Prop :=
  order ≡ₚ (map_to_list m).*1.

(** ** Inverting the monads *)
Lemma bind_Ret {A B} (m : go A) (f : A -> go B) b :
  (m ≫= f) = Ret b <-> exists a, m = Ret a /\ f a = Ret b.
Proof. destruct m; simpl; naive_solver. Qed.

Lemma fmap_Ret {A B} (m : go A) (f : A -> B) b :
  (f <$> m) = Ret b <-> exists a, m = Ret a /\ f a = b.
Proof. destruct m; simpl; naive_solver. Qed.

(** ** Lists *)
Lemma occ_app x l k : occ x (l ++ k) = occ x l + occ x k.
Proof. induction l; simpl; [done|]. case_decide; lia. Qed.

Lemma occ_0 x l : occ x l = 0 <-> x ∉ l.
Proof.
  induction l as [|y l IH]; simpl; [split; [set_solver|done]|].
  case_decide as Hd; [subst; split; [done|set_solver]|].
  rewrite IH, not_elem_of_cons. naive_solver.
Qed.

Lemma occ_pos x l : 0 < occ x l <-> x ∈ l.
Proof.
  pose proof (occ_0 x l) as H0. destruct (decide (x ∈ l)); destruct (occ x l); naive_solver lia.
Qed.

Lemma occ_NoDup x l : NoDup l -> occ x l <= 1.
Proof.
  induction 1 as [|y l Hy _ IH]; simpl; [lia|].
  case_decide; [subst; apply occ_0 in Hy; lia|done].
Qed.

Lemma NoDup_snoc {A} (l : list A) x : NoDup l -> x ∉ l -> NoDup (l ++ [x]).
Proof.
  intros Hl Hx. apply NoDup_app. split_and!; [done| |apply NoDup_singleton].
  set_solver.
Qed.

Lemma NoDup_sub {A} (l k : list A) : l ⊆+ k -> NoDup k -> NoDup l.
Proof. intros [r E]%submseteq_Permutation. rewrite E. by intros [? _]%NoDup_app. Qed.

Lemma elem_of_sub {A} (l k : list A) x : l ⊆+ k -> x ∈ l -> x ∈ k.
Proof. intros [r E]%submseteq_Permutation. rewrite E. set_solver. Qed.

(** What one element contributes, set apart. *)
Lemma bind_apart {A B} (f f' : A -> list B) l x :
  NoDup l -> x ∈ l -> (forall y, y ≠ x -> f' y = f y) ->
  exists rest, l ≫= f ≡ₚ f x ++ rest /\ l ≫= f' ≡ₚ f' x ++ rest.
Proof.
  intros Hnd (l1 & l2 & ->)%list_elem_of_split Hf. exists ((l1 ≫= f) ++ (l2 ≫= f)).
  apply NoDup_app in Hnd as (_ & Hx & [Hx2 _]%NoDup_cons).
  assert (E : forall k, x ∉ k -> k ≫= f' = k ≫= f).
  { intros k. induction k as [|y k IH]; [done|]. intros [Hne Hk]%not_elem_of_cons. by rewrite !bind_cons, Hf, IH. }
  rewrite !bind_app, !bind_cons, !E; [|done|intros H; apply (Hx x H); left].
  split; by rewrite !app_assoc, (Permutation_app_comm (l1 ≫= f)).
Qed.

Lemma sum_apart {A} (f f' : A -> nat) l x :
  NoDup l -> x ∈ l -> (forall y, y ≠ x -> f' y = f y) -> sum_list (f' <$> l) + f x = sum_list (f <$> l) + f' x.
Proof.
  intros Hnd Hx Hf. induction Hnd as [|y l Hy Hnd IH]; [by apply elem_of_nil in Hx|]. rewrite !fmap_cons.
  cbn [sum_list_with]. unfold id at 1 3. apply elem_of_cons in Hx as [->|Hx].
  - assert (f' <$> l = f <$> l) as ->; [|lia]. apply list_fmap_ext. intros i z Hz. apply Hf. intros ->.
    by apply Hy, (list_elem_of_lookup_2 _ i).
  - specialize (IH Hx). rewrite (Hf y) by (intros ->; done). lia.
Qed.

(** Elements of a list that is updated. *)
Lemma insert_apart {A} (l : list A) i x y : l !! i = Some x ->
  exists l1 l2, l = l1 ++ x :: l2 /\ <[i := y]> l = l1 ++ y :: l2.
Proof.
  intros Hi. exists (take i l), (drop (S i) l). split; [by rewrite take_drop_middle|].
  apply insert_take_drop. by apply lookup_lt_Some in Hi.
Qed.

Lemma list_filter_all {A} (P : A -> Prop) `{!forall x, Decision (P x)} (l : list A) : Forall P l -> filter P l = l.
Proof. induction 1 as [|x l Hx _ IH]; [done|]. by rewrite filter_cons_True, IH. Qed.
Lemma list_filter_none {A} (P : A -> Prop) `{!forall x, Decision (P x)} (l : list A) : Forall (fun x => ~ P x) l -> filter P l = [].
Proof. induction 1 as [|x l Hx _ IH]; [done|]. by rewrite filter_cons_False. Qed.

(** Induction two elements at a time, for loops with step 2. *)
Lemma list_ind2 {A} (P : list A -> Prop) :
  P [] -> (forall x, P [x]) -> (forall x y l, P l -> P (x :: y :: l)) -> forall l, P l.
Proof.
  intros H0 H1 H2. fix FIX 1. intros [|x [|y l]]; [exact H0|apply H1|apply H2, FIX].
Qed.

Lemma iteration_order_NoDup {V} (m : gmap string V) order :
  iteration_order m order -> NoDup order.
Proof. intros Ho. rewrite Ho. apply NoDup_fst_map_to_list. Qed.

Lemma iteration_order_elem_of {V} (m : gmap string V) order k :
  iteration_order m order -> k ∈ order <-> is_Some (m !! k).
Proof.
  intros Ho. rewrite Ho, list_elem_of_fmap. split.
  - intros ([k' v] & -> & Hin). apply elem_of_map_to_list in Hin. by eexists.
  - intros [v Hv]. exists (k, v). split; [done|]. by apply elem_of_map_to_list.
Qed.

(** ** Maps built by [for _, a := range l { m[f(a)] = g(a) }] *)
Lemma foldl_insert_dom {A V} `{Countable K} (f : A -> K) (g : A -> V) l (m : gmap K V) k :
  is_Some (foldl (fun m a => <[f a := g a]> m) m l !! k) <-> k ∈ f <$> l \/ is_Some (m !! k).
Proof.
  revert m. induction l as [|a l IH]; intros m; simpl.
  - rewrite elem_of_nil. naive_solver.
  - rewrite IH, elem_of_cons. destruct (decide (f a = k)) as [<-|Hne].
    + rewrite lookup_insert_eq. naive_solver.
    + rewrite lookup_insert_ne by done. naive_solver.
Qed.

Lemma foldl_insert_ne {A V} `{Countable K} (f : A -> K) (g : A -> V) l (m : gmap K V) k :
  k ∉ f <$> l -> foldl (fun m a => <[f a := g a]> m) m l !! k = m !! k.
Proof.
  revert m. induction l as [|a l IH]; intros m; simpl; [done|].
  rewrite not_elem_of_cons. intros [Hne Hl]. rewrite IH by done. by rewrite lookup_insert_ne.
Qed.

Lemma foldl_insert_spec {A V} `{Countable K} (f : A -> K) (g : A -> V) l (m : gmap K V) a :
  NoDup (f <$> l) -> a ∈ l -> foldl (fun m a => <[f a := g a]> m) m l !! f a = Some (g a).
Proof.
  revert m. induction l as [|b l IH]; intros m Hnd Hin; [by apply elem_of_nil in Hin|].
  rewrite fmap_cons in Hnd. apply NoDup_cons in Hnd as [Hb Hnd]. simpl.
  apply elem_of_cons in Hin as [->|Hin]; [|by apply IH].
  rewrite foldl_insert_ne by done. apply lookup_insert_eq.
Qed.

(** ** Automation

    [go_inv] decomposes hypotheses that say a [go] computation returned;
    [res_inv] does the same for pairs and options produced by the state monad. *)
Ltac go_inv :=
  repeat match goal with
  | H : (_ ≫= _) = Ret _ |- _ => apply bind_Ret in H; destruct H as (? & ? & H)
  | H : (_ <$> _) = Ret _ |- _ => apply fmap_Ret in H; destruct H as (? & ? & H)
  | H : Ret _ = Ret _ |- _ => injection H; clear H; intros; subst
  | H : mret _ = Ret _ |- _ => injection H; clear H; intros; subst
  | H : Panic = Ret _ |- _ => discriminate H
  end.

Create HintDb cicd.
#[export] Hint Resolve NoDup_snoc iteration_order_NoDup : cicd.
#[export] Hint Rewrite occ_app : cicd.
