(* ===== verification/GoStrings.v ===== *)
(** * Go strings and decimal conversions

    Go strings are byte strings, and so is [string]. This file models what the
    program uses of the packages [strings], [strconv] and [fmt]:
    [strings.TrimSpace] (with the multi-byte Unicode spaces), [HasPrefix],
    [Contains], [Join], [TrimRight], [ToLower], [strconv.Atoi]/[ParseInt] at 64 bits and
    [%d]/[strconv.Itoa]; and proves that printing and parsing integers round
    trips and that keys built with a separator are injective. *)

From Stdlib Require Import Ascii.
From S2P Require Import Prelude.

Declare Scope gostring_scope.
Delimit Scope gostring_scope with gs.
Infix "+++" := String.append (at level 60, right associativity) : gostring_scope.
Open Scope gostring_scope.

(** ** strings.TrimSpace *)

(** One-byte spaces: tab, newline, vertical tab, form feed, carriage return, blank. *)
Definition space1 (a : ascii) : bool :=
  let n := N_of_ascii a in ((9 <=? n) && (n <=? 13) || (n =? 32))%N.

(** U+0085 and U+00A0. *)
Definition space2 (a b : ascii) : bool :=
  let x := N_of_ascii a in let y := N_of_ascii b in
  ((x =? 194) && ((y =? 133) || (y =? 160)))%N.

(** U+1680, U+2000..U+200A, U+2028, U+2029, U+202F, U+205F and U+3000. *)
Definition space3 (a b c : ascii) : bool :=
  let x := N_of_ascii a in let y := N_of_ascii b in let z := N_of_ascii c in
  ((x =? 225) && (y =? 154) && (z =? 128)
   || (x =? 226) && (y =? 128) && ((128 <=? z) && (z <=? 138) || (z =? 168) || (z =? 169) || (z =? 175))
   || (x =? 226) && (y =? 129) && (z =? 159)
   || (x =? 227) && (y =? 128) && (z =? 128))%N.

Fixpoint trimLeftSpace (s : string) : string :=
  match s with
  | EmptyString => EmptyString
  | String a s1 =>
    if space1 a then trimLeftSpace s1 else
    match s1 with
    | EmptyString => s
    | String b s2 =>
      if space2 a b then trimLeftSpace s2 else
      match s2 with
      | EmptyString => s
      | String c s3 => if space3 a b c then trimLeftSpace s3 else s
      end
    end
  end.

(** Trailing spaces of [s], where the argument is [s] reversed. *)
Fixpoint trimRevSpace (s : string) : string :=
  match s with
  | EmptyString => EmptyString
  | String a s1 =>
    if space1 a then trimRevSpace s1 else
    match s1 with
    | EmptyString => s
    | String b s2 =>
      if space2 b a then trimRevSpace s2 else
      match s2 with
      | EmptyString => s
      | String c s3 => if space3 c b a then trimRevSpace s3 else s
      end
    end
  end.

Definition TrimSpace (s : string) : string :=
  String.rev (trimRevSpace (String.rev (trimLeftSpace s))).

(** ** Searching and joining *)

Definition HasPrefix (s p : string) : bool := String.prefix p s.

Fixpoint Contains (s sub : string) : bool :=
  String.prefix sub s ||
  match s with EmptyString => false | String _ s' => Contains s' sub end.

Fixpoint Join (l : list string) (sep : string) : string :=
  match l with
  | [] => ""
  | [x] => x
  | x :: l' => x +++ sep +++ Join l' sep
  end.

(** [strings.TrimRight(s, "/")], on the reversed string. *)
Fixpoint dropSlashes (s : string) : string :=
  match s with
  | String "/" s' => dropSlashes s'
  | _ => s
  end.
Definition TrimRightSlash (s : string) : string := String.rev (dropSlashes (String.rev s)).

(** ** strings.ToLower *)

Definition lower (a : ascii) : ascii :=
  let n := N_of_ascii a in if ((65 <=? n) && (n <=? 90))%N then ascii_of_N (n + 32) else a.

(** The lower case, as far as its ASCII letters go: of ASCII letters, and of the
    two other letters whose lower case is ASCII (U+0130 and U+212A). Every use
    compares the result with ASCII text. *)
Fixpoint ToLower (s : string) : string :=
  match s with
  | EmptyString => EmptyString
  | String a s1 =>
    match s1 with
    | String b s2 =>
      if decide (a = "196"%char /\ b = "176"%char) then String "i" (ToLower s2) else
      match s2 with
      | String c s3 =>
        if decide (a = "226"%char /\ b = "132"%char /\ c = "170"%char) then String "k" (ToLower s3)
        else String (lower a) (ToLower s1)
      | EmptyString => String (lower a) (ToLower s1)
      end
    | EmptyString => String (lower a) EmptyString
    end
  end.

(** ** strconv *)

(** [strconv.Itoa] and the verb [%d]. *)
Definition Itoa (z : Z) : string := pretty z.

Definition digit (a : ascii) : option N :=
  let n := N_of_ascii a in if ((48 <=? n) && (n <=? 57))%N then Some (n - 48)%N else None.

Fixpoint parseDigits (acc : N) (s : string) : option N :=
  match s with
  | EmptyString => Some acc
  | String a s' =>
    match digit a with Some d => parseDigits (10 * acc + d) s' | None => None end
  end.

Definition parseUnsigned (s : string) : option N :=
  match s with EmptyString => None | _ => parseDigits 0 s end.

(** [strconv.ParseInt(s, 10, 64)], and [strconv.Atoi] on a 64-bit platform:
    [None] is a syntax or range error. *)
Definition ParseInt64 (s : string) : option Z :=
  match s with
  | String "-" s' =>
    n ← parseUnsigned s'; if (Z.of_N n <=? 2 ^ 63)%Z then Some (- Z.of_N n)%Z else None
  | String "+" s' =>
    n ← parseUnsigned s'; if (Z.of_N n <? 2 ^ 63)%Z then Some (Z.of_N n) else None
  | _ => n ← parseUnsigned s; if (Z.of_N n <? 2 ^ 63)%Z then Some (Z.of_N n) else None
  end.

(** Signed 64-bit wrap-around, for Go's [int] and [int64] arithmetic. *)
Definition wrap64 (z : Z) : Z := ((z + 2 ^ 63) mod 2 ^ 64 - 2 ^ 63)%Z.

(** ** Round trip of integers *)

Lemma parse_pretty_go x s :
  parseDigits 0 (pretty_N_go x s) = parseDigits x s.
Proof.
  revert s. induction (N.lt_wf_0 x) as [x _ IH]; intros s.
  destruct (decide (0 < x)%N) as [Hx|Hx].
  - rewrite pretty_N_go_step by done.
    rewrite IH by (apply N.div_lt; lia). simpl.
    assert (Hd : digit (pretty_N_char (x `mod` 10)) = Some (x `mod` 10)%N).
    { assert (x `mod` 10 < 10)%N as Hlt by (apply N.mod_lt; lia). revert Hlt.
      generalize (x `mod` 10)%N. intros d Hd. cut (d ∈ [0;1;2;3;4;5;6;7;8;9]%N).
      - intros Hin. repeat (apply elem_of_cons in Hin as [->|Hin]; [done|]). inversion Hin.
      - rewrite !elem_of_cons. lia. }
    rewrite Hd. f_equal. pose proof (N.div_mod x 10 ltac:(done)). lia.
  - replace x with 0%N by lia. by rewrite pretty_N_go_0.
Qed.

Lemma pretty_N_go_head x s :
  (0 < x)%N -> exists a s', pretty_N_go x s = String a s' /\ is_Some (digit a).
Proof.
  revert s. induction (N.lt_wf_0 x) as [x _ IH]; intros s Hx.
  rewrite pretty_N_go_step by done.
  destruct (decide (0 < x `div` 10)%N) as [Hq|Hq].
  - apply IH; [apply N.div_lt; lia|done].
  - assert (x `div` 10 = 0)%N as -> by (by apply N.le_0_r, N.nlt_ge).
    rewrite pretty_N_go_0. eexists _, _; split; [done|]. unfold pretty_N_char. repeat case_match; done.
Qed.

Lemma pretty_N_head (n : N) : exists a s', pretty n = String a s' /\ is_Some (digit a).
Proof.
  unfold pretty, pretty_N. case_decide; [by eexists _, _|].
  apply pretty_N_go_head. lia.
Qed.

Lemma parseUnsigned_pretty (n : N) : parseUnsigned (pretty n) = Some n.
Proof.
  destruct (pretty_N_head n) as (a & s' & E & _). unfold parseUnsigned. rewrite E, <- E.
  unfold pretty, pretty_N. case_decide; [by subst|]. by rewrite parse_pretty_go.
Qed.

(** Parsing what [Itoa] prints gives the integer back, for every int64. *)
Lemma ParseInt64_Itoa z : (- 2 ^ 63 <= z < 2 ^ 63)%Z -> ParseInt64 (Itoa z) = Some z.
Proof.
  intros Hz. unfold Itoa, pretty, pretty_Z. destruct z as [|p|p]; [done| |].
  - unfold pretty, pretty_positive. destruct (pretty_N_head (N.pos p)) as (a & s' & E & Ha).
    pose proof (parseUnsigned_pretty (N.pos p)) as Hp. rewrite E in *.
    assert (Hm : ParseInt64 (String a s') =
      (n ← parseUnsigned (String a s'); if (Z.of_N n <? 2 ^ 63)%Z then Some (Z.of_N n) else None)).
    { destruct a as [[] [] [] [] [] [] [] []]; try done; by destruct Ha. }
    rewrite Hm, Hp. simpl. case_match; [done|lia].
  - change (String.append "-" ?x) with (String "-" x). unfold ParseInt64.
    change ("" +:+ ?x) with x. unfold pretty, pretty_positive.
    rewrite parseUnsigned_pretty. simpl. case_match; [done|lia].
Qed.

(** ** Keys with a separator *)

Abbreviation chars := String.list_ascii_of_string.

Lemma chars_app s t : chars (s +++ t) = chars s ++ chars t.
Proof. induction s; simpl; [done|]. by f_equal. Qed.

Lemma chars_inj s t : chars s = chars t -> s = t.
Proof.
  intros E. rewrite <- (String.string_of_list_ascii_of_string s), E.
  apply String.string_of_list_ascii_of_string.
Qed.

Lemma append_inj_l s t u : s +++ t = s +++ u -> t = u.
Proof. induction s; simpl; [done|]. intros [=]. auto. Qed.

Lemma append_inj_r s t u : s +++ u = t +++ u -> s = t.
Proof.
  intros E. apply (f_equal chars) in E. rewrite !chars_app in E.
  by apply app_inv_tail, chars_inj in E.
Qed.

(** Splitting at the last occurrence of a separator is unambiguous. *)
Lemma sep_last_inj s1 s2 (c : ascii) t1 t2 :
  c ∉ chars t1 -> c ∉ chars t2 ->
  s1 +++ String c t1 = s2 +++ String c t2 -> s1 = s2 /\ t1 = t2.
Proof.
  intros H1 H2 E. apply (f_equal chars) in E. rewrite !chars_app in E. simpl in E.
  cut (chars s1 = chars s2 /\ chars t1 = chars t2).
  { intros [E1 E2]. by apply chars_inj in E1; apply chars_inj in E2. }
  revert E. generalize (chars s1), (chars s2), (chars t1), (chars t2), H1, H2. clear.
  intros l1. induction l1 as [|a l1 IH]; intros [|b l2] u1 u2 H1 H2 E; simplify_eq/=; [done| | |].
  - exfalso. apply H1. set_solver.
  - exfalso. apply H2. set_solver.
  - destruct (IH l2 u1 u2 H1 H2) as [-> ->]; done.
Qed.

(** And so is splitting at the first one. *)
Lemma sep_first_inj s1 s2 (c : ascii) t1 t2 :
  c ∉ chars s1 -> c ∉ chars s2 -> s1 +++ String c t1 = s2 +++ String c t2 -> s1 = s2 /\ t1 = t2.
Proof.
  intros H1 H2 E. apply (f_equal chars) in E. rewrite !chars_app in E. simpl in E.
  cut (chars s1 = chars s2 /\ chars t1 = chars t2).
  { intros [E1 E2]. by apply chars_inj in E1; apply chars_inj in E2. }
  revert E H1 H2. generalize (chars s1), (chars s2), (chars t1), (chars t2). clear.
  intros l1. induction l1 as [|a l1 IH]; intros [|b l2] u1 u2 E H1 H2; simplify_eq/=; [done| | |].
  - exfalso. apply H2. set_solver.
  - exfalso. apply H1. set_solver.
  - destruct (IH l2 u1 u2) as [-> ->]; set_solver.
Qed.

Lemma pretty_N_go_chars c x s :
  c ∈ chars (pretty_N_go x s) -> is_Some (digit c) \/ c ∈ chars s.
Proof.
  revert s. induction (N.lt_wf_0 x) as [x _ IH]; intros s.
  destruct (decide (0 < x)%N) as [Hx|Hx].
  - rewrite pretty_N_go_step by done. intros [?|Hin]%IH; [by left| |by apply N.div_lt; lia].
    simpl in Hin. apply elem_of_cons in Hin as [->|?]; [|by right].
    left. unfold pretty_N_char. repeat case_match; done.
  - replace x with 0%N by lia. rewrite pretty_N_go_0. by right.
Qed.

(** A printed integer contains digits and at most a sign. *)
Lemma Itoa_chars c z : c ∈ chars (Itoa z) -> is_Some (digit c) \/ c = "-"%char.
Proof.
  assert (HN : forall n : N, c ∈ chars (pretty n) -> is_Some (digit c)).
  { intros n. unfold pretty, pretty_N. case_decide.
    - simpl. intros ->%list_elem_of_singleton. done.
    - intros [?|Hin]%pretty_N_go_chars; [done|]. by apply elem_of_nil in Hin. }
  unfold Itoa. destruct z as [|p|p].
  - simpl. intros ->%list_elem_of_singleton. by left.
  - left. by apply (HN (N.pos p)).
  - change (chars (pretty (Z.neg p))) with ("-"%char :: chars (pretty (N.pos p))).
    intros [->|Hin]%elem_of_cons; [by right|]. left. by apply (HN (N.pos p)).
Qed.

Lemma Itoa_no_colon z : ":"%char ∉ chars (Itoa z).
Proof. intros [[? ?]|?]%Itoa_chars; done. Qed.

Lemma Itoa_inj z1 z2 : Itoa z1 = Itoa z2 -> z1 = z2.
Proof. apply (inj pretty). Qed.

(** ** Substrings *)

Lemma prefix_append p s : String.prefix p (p +++ s) = true.
Proof. induction p; simpl; [by destruct s|]. by case_match. Qed.

Lemma prefix_cons a p b s : String.prefix (String a p) (String b s) = bool_decide (a = b) && String.prefix p s.
Proof.
  cbn -[ascii_dec]. destruct (ascii_dec a b) as [->|Hne]; [by rewrite bool_decide_eq_true_2|by rewrite bool_decide_eq_false_2].
Qed.
Lemma prefix_nil s : String.prefix "" s = true.
Proof. by destruct s. Qed.

(** ** Trimming twice *)

Definition starts_space (s : string) : bool :=
  match s with
  | EmptyString => false
  | String a s1 => space1 a ||
    match s1 with
    | EmptyString => false
    | String b s2 => space2 a b || match s2 with EmptyString => false | String c _ => space3 a b c end
    end
  end.

Lemma trimLeftSpace_fixed s : starts_space s = false -> trimLeftSpace s = s.
Proof.
  destruct s as [|a [|b [|c s]]]; simpl; rewrite ?orb_false_iff; [done|by intros [-> _]| |].
  - intros (-> & -> & _). done.
  - by intros (-> & -> & ->).
Qed.

(** Induction over what the trimming loops drop at once. *)
Lemma string_length_ind (P : string -> Prop) :
  (forall s, (forall s', String.length s' < String.length s -> P s') -> P s) -> forall s, P s.
Proof. intros H s. apply (induction_ltof1 _ String.length). intros x IH. by apply H. Qed.

Lemma trimLeftSpace_clean s : starts_space (trimLeftSpace s) = false.
Proof.
  induction s as [s IH] using string_length_ind.
  destruct s as [|a s1]; [done|]. simpl. destruct (space1 a) eqn:E1; [apply IH; simpl; lia|].
  destruct s1 as [|b s2]; [by simpl; rewrite E1|].
  destruct (space2 a b) eqn:E2; [apply IH; simpl; lia|].
  destruct s2 as [|c s3]; [by simpl; rewrite E1, E2|].
  destruct (space3 a b c) eqn:E3; [apply IH; simpl; lia|]. simpl. by rewrite E1, E2, E3.
Qed.

(** The trailing side, on the reversed string. *)
Definition starts_space_rev (s : string) : bool :=
  match s with
  | EmptyString => false
  | String a s1 => space1 a ||
    match s1 with
    | EmptyString => false
    | String b s2 => space2 b a || match s2 with EmptyString => false | String c _ => space3 c b a end
    end
  end.

Lemma trimRevSpace_fixed s : starts_space_rev s = false -> trimRevSpace s = s.
Proof.
  destruct s as [|a [|b [|c s]]]; simpl; rewrite ?orb_false_iff; [done|by intros [-> _]| |].
  - intros (-> & -> & _). done.
  - by intros (-> & -> & ->).
Qed.

Lemma trimRevSpace_clean s : starts_space_rev (trimRevSpace s) = false.
Proof.
  induction s as [s IH] using string_length_ind.
  destruct s as [|a s1]; [done|]. simpl. destruct (space1 a) eqn:E1; [apply IH; simpl; lia|].
  destruct s1 as [|b s2]; [by simpl; rewrite E1|].
  destruct (space2 b a) eqn:E2; [apply IH; simpl; lia|].
  destruct s2 as [|c s3]; [by simpl; rewrite E1, E2|].
  destruct (space3 c b a) eqn:E3; [apply IH; simpl; lia|]. simpl. by rewrite E1, E2, E3.
Qed.

Lemma trimRevSpace_suffix s : exists p, s = p +++ trimRevSpace s.
Proof.
  induction s as [s IH] using string_length_ind.
  destruct s as [|a s1]; [by exists ""|]. simpl. destruct (space1 a).
  { destruct (IH s1) as [p E]; [simpl; lia|]. exists (String a p). by rewrite E at 1. }
  destruct s1 as [|b s2]; [by exists ""|]. destruct (space2 b a).
  { destruct (IH s2) as [p E]; [simpl; lia|]. exists (String a (String b p)). by rewrite E at 1. }
  destruct s2 as [|c s3]; [by exists ""|]. destruct (space3 c b a); [|by exists ""].
  destruct (IH s3) as [p E]; [simpl; lia|]. exists (String a (String b (String c p))). by rewrite E at 1.
Qed.

Lemma append_assoc s t u : s +++ t +++ u = (s +++ t) +++ u.
Proof. induction s as [|a s IH]; [done|]. change (String a (s +++ t +++ u) = String a ((s +++ t) +++ u)). by rewrite IH. Qed.
Lemma append_nil s : s +++ "" = s.
Proof. induction s as [|a s IH]; [done|]. change (String a (s +++ "") = String a s). by rewrite IH. Qed.

Lemma rev_app_append s t : String.rev_app s t = String.rev s +++ t.
Proof.
  revert t. induction s as [|a s IH]; intros t; [done|].
  change (String.rev_app s (String a t) = String.rev_app s (String a "") +++ t).
  rewrite IH, (IH (String a "")), <- append_assoc. done.
Qed.
Lemma string_rev_cons a s : String.rev (String a s) = String.rev s +++ String a "".
Proof. exact (rev_app_append s (String a "")). Qed.
Lemma string_rev_app s t : String.rev (s +++ t) = String.rev t +++ String.rev s.
Proof.
  induction s as [|a s IH]; [by rewrite append_nil|].
  change (String a s +++ t) with (String a (s +++ t)). by rewrite !string_rev_cons, IH, append_assoc.
Qed.
Lemma string_rev_involutive s : String.rev (String.rev s) = s.
Proof. induction s as [|a s IH]; [done|]. by rewrite string_rev_cons, string_rev_app, IH. Qed.

(** A prefix of a string that starts with no space starts with none. *)
Lemma starts_space_prefix s t : starts_space (s +++ t) = false -> starts_space s = false.
Proof.
  destruct s as [|a [|b [|c s]]]; [done| | |done].
  - change (String a "" +++ t) with (String a t). simpl. rewrite !orb_false_iff. by intros [-> _].
  - change (String a (String b "") +++ t) with (String a (String b t)). simpl. rewrite !orb_false_iff. by intros (-> & -> & _).
Qed.

Lemma TrimSpace_idempotent s : TrimSpace (TrimSpace s) = TrimSpace s.
Proof.
  unfold TrimSpace. set (l := trimLeftSpace s). destruct (trimRevSpace_suffix (String.rev l)) as [p E].
  set (r := trimRevSpace (String.rev l)) in *.
  assert (El : l = String.rev r +++ String.rev p) by (by rewrite <- string_rev_app, <- E, string_rev_involutive).
  assert (Hl : starts_space (String.rev r) = false).
  { apply (starts_space_prefix _ (String.rev p)). rewrite <- El. apply trimLeftSpace_clean. }
  rewrite (trimLeftSpace_fixed _ Hl), string_rev_involutive. f_equal. apply trimRevSpace_fixed, trimRevSpace_clean.
Qed.

Lemma elem_of_chars_rev c s : c ∈ chars (String.rev s) <-> c ∈ chars s.
Proof.
  induction s as [|a s IH]; [done|]. rewrite string_rev_cons, chars_app, elem_of_app, IH. simpl.
  rewrite list_elem_of_singleton, elem_of_cons. tauto.
Qed.

(** Printable ASCII, without the blank. *)
Definition graphic (c : ascii) : Prop := (33 <= N_of_ascii c <= 126)%N.

Lemma space1_graphic a : graphic a -> space1 a = false.
Proof. unfold graphic, space1. intros H. apply not_true_is_false. rewrite ?orb_true_iff, ?andb_true_iff, ?N.leb_le, ?N.eqb_eq. lia. Qed.
Lemma space2_graphic a b : graphic a -> space2 a b = false.
Proof. unfold graphic, space2. intros H. apply not_true_is_false. rewrite ?orb_true_iff, ?andb_true_iff, ?orb_true_iff, ?N.leb_le, ?N.eqb_eq. lia. Qed.
Lemma space3_graphic a b c : graphic a -> space3 a b c = false.
Proof. unfold graphic, space3. intros H. apply not_true_is_false. rewrite ?orb_true_iff, ?andb_true_iff, ?orb_true_iff, ?andb_true_iff, ?N.leb_le, ?N.eqb_eq. lia. Qed.

Lemma graphic_no_space s : (forall c, c ∈ chars s -> graphic c) -> starts_space s = false /\ starts_space_rev s = false.
Proof.
  intros H. destruct s as [|a s1]; [done|]. assert (H1 : graphic a) by (apply H; left).
  simpl. rewrite space1_graphic by done. destruct s1 as [|b s2]; [done|]. assert (H2 : graphic b) by (apply H; right; left).
  rewrite !space2_graphic by done. destruct s2 as [|c s3]; [done|]. assert (H3 : graphic c) by (apply H; right; right; left).
  by rewrite !space3_graphic by done.
Qed.

Lemma TrimSpace_graphic s : (forall c, c ∈ chars s -> graphic c) -> TrimSpace s = s.
Proof.
  intros H. unfold TrimSpace. rewrite (trimLeftSpace_fixed s (proj1 (graphic_no_space s H))).
  assert (Hr : starts_space_rev (String.rev s) = false).
  { refine (proj2 (graphic_no_space _ _)). intros c Hc. apply H. by apply elem_of_chars_rev. }
  by rewrite (trimRevSpace_fixed _ Hr), string_rev_involutive.
Qed.

Lemma TrimSpace_Itoa z : TrimSpace (Itoa z) = Itoa z.
Proof.
  apply TrimSpace_graphic. intros c Hc. apply Itoa_chars in Hc as [[d Hd]| ->]; [|done].
  unfold digit in Hd. case_match eqn:E; [|done]. apply andb_true_iff in E. rewrite !N.leb_le in E. unfold graphic. lia.
Qed.

Lemma Itoa_nonempty z : Itoa z ≠ "".
Proof.
  unfold Itoa. destruct z as [|p|p]; [done| |done].
  destruct (pretty_N_head (N.pos p)) as (a & s & E & _). change (pretty (Z.pos p)) with (pretty (N.pos p)). by rewrite E.
Qed.
