(* ===== verification/Url.v ===== *)
(** * Query strings (net/url, as the CLI, the gateway and the services use it)

    [url.Values.Encode] and [URL.Query] over byte strings: the CLI and the
    gateway build the report query with the one, the gateway and the reporting
    service read it with the other. A query is the list of its pairs; the CLI and
    the gateway set each key once. Theorem: reading what was encoded gives the
    pairs back, whatever bytes they hold. *)

From Stdlib Require Import Ascii.
From stdpp Require Import sorting.
From S2P Require Import Prelude GoStrings.

(** ** Escaping one component *)

Definition unreserved (c : ascii) : bool :=
  let n := N_of_ascii c in
  ((97 <=? n) && (n <=? 122) || (65 <=? n) && (n <=? 90) || (48 <=? n) && (n <=? 57)
   || (n =? 45) || (n =? 95) || (n =? 46) || (n =? 126))%N.

(** "0123456789ABCDEF"[n] *)
Definition upperhex (n : N) : ascii := ascii_of_N (if (n <? 10)%N then 48 + n else 55 + n).

Definition unhex (c : ascii) : option N :=
  let n := N_of_ascii c in
  if ((48 <=? n) && (n <=? 57))%N then Some (n - 48)%N
  else if ((97 <=? n) && (n <=? 102))%N then Some (n - 87)%N
  else if ((65 <=? n) && (n <=? 70))%N then Some (n - 55)%N else None.

Fixpoint QueryEscape (s : string) : string :=
  match s with
  | EmptyString => EmptyString
  | String c s' =>
    if bool_decide (c = " "%char) then String "+" (QueryEscape s')
    else if unreserved c then String c (QueryEscape s')
    else String "%" (String (upperhex (N_of_ascii c / 16)) (String (upperhex (N_of_ascii c mod 16)) (QueryEscape s')))
  end.

(** [None] is an invalid escape. *)
Fixpoint QueryUnescape (s : string) : option string :=
  match s with
  | EmptyString => Some EmptyString
  | String "%" s1 =>
    match s1 with
    | String a (String b s2) =>
      x ← unhex a; y ← unhex b; String (ascii_of_N (16 * x + y)) <$> QueryUnescape s2
    | _ => None
    end
  | String "+" s1 => String " " <$> QueryUnescape s1
  | String c s1 => String c <$> QueryUnescape s1
  end.

(** ** Queries *)

Abbreviation Values := (list (string * string)).

(** [strings.Cut] at a one-byte separator; [None] when it does not occur. *)
Fixpoint Cut (sep : ascii) (s : string) : string * option string :=
  match s with
  | EmptyString => (EmptyString, None)
  | String c s' =>
    if bool_decide (c = sep) then (EmptyString, Some s')
    else let '(before, after) := Cut sep s' in (String c before, after)
  end.

Fixpoint Split (sep : ascii) (s : string) : list string :=
  match s with
  | EmptyString => [EmptyString]
  | String c s' =>
    if bool_decide (c = sep) then EmptyString :: Split sep s'
    else match Split sep s' with x :: l => String c x :: l | [] => [String c EmptyString] end
  end.

Definition parse_pair (segment : string) : option (string * string) :=
  if Contains segment ";" then None
  else if bool_decide (segment = "") then None
  else let '(k, v) := Cut "=" segment in k' ← QueryUnescape k; v' ← QueryUnescape (default "" v); Some (k', v').

(** [URL.Query], which drops the pairs that do not parse. *)
Definition ParseQuery (query : string) : Values := omap parse_pair (Split "&" query).

(** [Values.Get]: the first value of the key. *)
Definition Get (v : Values) (key : string) : string := default "" ((list_to_map v : gmap string string) !! key).

Definition pair_le (x y : string * string) : Prop := String.leb x.1 y.1 = true.
#[global] Instance pair_le_dec x y : Decision (pair_le x y).
Proof. unfold pair_le. apply _. Defined.

(** [Values.Encode], of values with one entry per key. *)
Definition Encode (v : Values) : string :=
  Join ((fun kv => QueryEscape kv.1 +++ "=" +++ QueryEscape kv.2) <$> merge_sort pair_le v) "&".

(** ** Escaping round trips *)

Lemma hex_roundtrip (c : ascii) :
  unhex (upperhex (N_of_ascii c / 16)) = Some (N_of_ascii c / 16)%N /\
  unhex (upperhex (N_of_ascii c mod 16)) = Some (N_of_ascii c mod 16)%N.
Proof. destruct c as [[] [] [] [] [] [] [] []]; split; vm_compute; reflexivity. Qed.

Lemma unescape_plain (c : ascii) s : unreserved c = true -> QueryUnescape (String c s) = String c <$> QueryUnescape s.
Proof. destruct c as [[] [] [] [] [] [] [] []]; intros H; first [discriminate H|reflexivity]. Qed.

Lemma QueryUnescape_Escape s : QueryUnescape (QueryEscape s) = Some s.
Proof.
  induction s as [|c s IH]; [done|]. simpl. case_bool_decide as Hc; [subst c; simpl; by rewrite IH|].
  destruct (unreserved c) eqn:Hu; [by rewrite unescape_plain, IH|].
  destruct (hex_roundtrip c) as [H1 H2]. cbn [QueryUnescape]. rewrite H1, H2, IH. simpl.
  rewrite <- N.div_mod by done. by rewrite ascii_N_embedding.
Qed.

(** An escaped component holds only unreserved bytes, signs and blanks. *)
Definition escaped (c : ascii) : bool := unreserved c || bool_decide (c = "%"%char) || bool_decide (c = "+"%char).

Lemma upperhex_unreserved (c : ascii) :
  unreserved (upperhex (N_of_ascii c / 16)) = true /\ unreserved (upperhex (N_of_ascii c mod 16)) = true.
Proof. destruct c as [[] [] [] [] [] [] [] []]; split; vm_compute; reflexivity. Qed.

Lemma QueryEscape_chars c s : c ∈ chars (QueryEscape s) -> escaped c = true.
Proof.
  induction s as [|a s IH]; simpl; [by intros ?%elem_of_nil|]. case_bool_decide as Ha; [|destruct (unreserved a) eqn:Hu].
  - simpl. intros [->|?]%elem_of_cons; [done|auto].
  - simpl. intros [->|?]%elem_of_cons; [|auto]. unfold escaped. by rewrite Hu.
  - destruct (upperhex_unreserved a) as [H1 H2]. simpl. unfold escaped in *.
    intros [->|[->|[->|?]%elem_of_cons]%elem_of_cons]%elem_of_cons; [done|by rewrite H1|by rewrite H2|auto].
Qed.

Lemma separator_not_escaped (sep : ascii) s : escaped sep = false -> sep ∉ chars (QueryEscape s).
Proof. intros Hs Hin. apply QueryEscape_chars in Hin. congruence. Qed.

(** ** Cutting and splitting *)

Lemma Cut_append sep s t : sep ∉ chars s -> Cut sep (s +++ String sep t) = (s, Some t).
Proof.
  induction s as [|c s IH]; simpl; intros Hn; [by rewrite bool_decide_eq_true_2|].
  apply not_elem_of_cons in Hn as [Hc Hn]. rewrite bool_decide_eq_false_2 by congruence. by rewrite IH.
Qed.

Lemma Split_plain sep s : sep ∉ chars s -> Split sep s = [s].
Proof.
  induction s as [|c s IH]; simpl; intros Hn; [done|].
  apply not_elem_of_cons in Hn as [Hc Hn]. rewrite bool_decide_eq_false_2 by congruence. by rewrite IH.
Qed.

Lemma Split_append sep s t : sep ∉ chars s -> Split sep (s +++ String sep t) = s :: Split sep t.
Proof.
  induction s as [|c s IH]; simpl; intros Hn; [by rewrite bool_decide_eq_true_2|].
  apply not_elem_of_cons in Hn as [Hc Hn]. rewrite bool_decide_eq_false_2 by congruence. by rewrite IH.
Qed.

Lemma Split_Join sep l : l ≠ [] -> Forall (fun s => sep ∉ chars s) l -> Split sep (Join l (String sep "")) = l.
Proof.
  intros Hne Hl. induction Hl as [|s l Hs Hl IH]; [done|]. destruct l as [|s' l]; [by apply Split_plain|].
  change (Join (s :: s' :: l) (String sep "")) with (s +++ String sep (Join (s' :: l) (String sep ""))).
  rewrite Split_append by done. by rewrite IH.
Qed.

Lemma Contains_byte s c : Contains s (String c "") = true -> c ∈ chars s.
Proof.
  induction s as [|a s IH]; simpl; [done|]. intros [H|H]%orb_true_iff; [|right; auto].
  destruct (ascii_dec c a) as [->|]; [left|done].
Qed.

(** ** Reading what was encoded *)

Lemma Get_cons k v l key : Get ((k, v) :: l) key = if decide (k = key) then v else Get l key.
Proof. unfold Get. simpl. case_decide; [subst; by rewrite lookup_insert_eq|by rewrite lookup_insert_ne]. Qed.

Lemma parse_pair_encoded k v : parse_pair (QueryEscape k +++ "=" +++ QueryEscape v) = Some (k, v).
Proof.
  unfold parse_pair. destruct (Contains _ ";") eqn:Hc.
  { apply Contains_byte in Hc. rewrite !chars_app in Hc. exfalso. simpl in Hc.
    apply elem_of_app in Hc as [Hc|Hc]; [by apply separator_not_escaped in Hc|].
    apply elem_of_cons in Hc as [?|Hc]; [done|by apply separator_not_escaped in Hc]. }
  rewrite bool_decide_eq_false_2 by (by destruct (QueryEscape k)).
  change ("=" +++ QueryEscape v) with (String "=" (QueryEscape v)). rewrite Cut_append by (by apply separator_not_escaped).
  simpl. by rewrite !QueryUnescape_Escape.
Qed.

Lemma ParseQuery_segments (l : Values) :
  ParseQuery (Join ((fun kv => QueryEscape kv.1 +++ "=" +++ QueryEscape kv.2) <$> l) "&") = l.
Proof.
  destruct l as [|kv l]; [done|]. unfold ParseQuery. rewrite Split_Join; [|done|].
  - clear. induction (kv :: l) as [|[k v] l' IH]; [done|]. cbn. rewrite parse_pair_encoded. f_equal. exact IH.
  - apply Forall_fmap, Forall_forall. intros [k v] _. simpl. rewrite !chars_app. simpl.
    rewrite not_elem_of_app, not_elem_of_cons. split_and!; [by apply separator_not_escaped|done|by apply separator_not_escaped].
Qed.

Lemma ParseQuery_Encode v : ParseQuery (Encode v) ≡ₚ v.
Proof. unfold Encode. rewrite ParseQuery_segments. apply merge_sort_Permutation. Qed.

(** Reading one key of an encoded query. *)
Lemma Get_Encode v key : NoDup v.*1 -> Get (ParseQuery (Encode v)) key = Get v key.
Proof.
  intros Hnd. unfold Get. f_equal. apply (f_equal (fun m : gmap string string => m !! key)).
  apply list_to_map_proper; [|apply ParseQuery_Encode]. by rewrite ParseQuery_Encode.
Qed.

Example encoded_query : Encode [("pipeline", "a b&c=d"); ("job", "100%")] = "job=100%25&pipeline=a+b%26c%3Dd".
Proof. vm_compute. reflexivity. Qed.
Example bad_pairs_dropped : ParseQuery "a=1&b=%zz&&c=2;3&d" = [("a", "1"); ("d", "")].
Proof. vm_compute. reflexivity. Qed.
