(* ===== verification/Paths.v ===== *)
(** * Paths (packages path and path/filepath on Unix)

    What the program uses of the two packages: [Clean], [Join], [Base], [Ext],
    [IsAbs] and [Rel]. A cleaned absolute path is a list of names; the lemmas
    describe every operation by its effect on that list, and the test
    [pathEscapesParent], which two packages of the program share, by it too. *)

From Stdlib Require Import Ascii.
From S2P Require Import Prelude GoStrings.

Fixpoint splitSlash (s : string) : list string :=
  match s with
  | EmptyString => [""]
  | String a s' =>
    if decide (a = "/"%char) then "" :: splitSlash s' else
    match splitSlash s' with x :: l => String a x :: l | [] => [String a ""] end
  end.

Definition clean_step (rooted : bool) (out : list string) (c : string) : list string :=
  if decide (c = "" \/ c = ".") then out
  else if decide (c = "..") then
    match out with
    | x :: out' => if decide (x = "..") then if rooted then out else c :: out else out'
    | [] => if rooted then [] else [c]
    end
  else c :: out.

(** The components of a path, after [.] and [..] are resolved. *)
Definition filepath_IsAbs (s : string) : bool := String.prefix "/" s.
Definition components (s : string) : list string :=
  rev (foldl (clean_step (filepath_IsAbs s)) [] (splitSlash s)).

Definition filepath_Clean (s : string) : string :=
  let body := Join (components s) "/" in
  if filepath_IsAbs s then "/" +++ body else if decide (body = "") then "." else body.

Definition filepath_Join (a b : string) : string :=
  if decide (a = "") then if decide (b = "") then "" else filepath_Clean b
  else filepath_Clean (a +++ "/" +++ b).

Definition path_Base (s : string) : string :=
  if decide (s = "") then "."
  else let stripped := TrimRightSlash s in
       if decide (stripped = "") then "/" else List.last (splitSlash stripped) "".

(** What follows the last dot of the last component, with the dot. *)
Fixpoint ext_of (s : string) (found : option string) : string :=
  match s with
  | EmptyString => default "" found
  | String a s' =>
    if decide (a = "/"%char) then ext_of s' None
    else if decide (a = "."%char) then ext_of s' (Some s) else ext_of s' found
  end.
Definition filepath_Ext (s : string) : string := ext_of s None.

Fixpoint strip_common (b t : list string) : list string * list string :=
  match b, t with
  | x :: b', y :: t' => if decide (x = y) then strip_common b' t' else (b, t)
  | _, _ => (b, t)
  end.

(** The elements of a path that [Rel] compares. *)
Definition rel_elements (s : string) : list string :=
  if decide (filepath_Clean s = ".") then ["."] else components s.

Definition filepath_Rel (base targ : string) : res string :=
  if decide (filepath_Clean targ = filepath_Clean base) then ok "." else
  if negb (eqb (filepath_IsAbs base) (filepath_IsAbs targ)) then err (ErrNew "Rel: can't make %s relative to %s" [targ; base]) else
  let '(b, t) := strip_common (components base) (rel_elements targ) in
  if decide (head b = Some "..") then err (ErrNew "Rel: can't make %s relative to %s" [targ; base])
  else ok (Join (((fun _ => "..") <$> b) ++ t) "/").

(** [pathEscapesParent] of the packages gitutil and pipelinepath. *)
Definition pathEscapesParent (path : string) : bool :=
  bool_decide (path = "..") || HasPrefix path "../".

(** ** Names *)

Definition slash_free (c : string) : Prop := "/"%char ∉ chars c.
(** A component that [Clean] keeps. *)
Record plain (c : string) : Prop := {
  pl_slash : slash_free c; pl_empty : c ≠ ""; pl_dot : c ≠ "."; pl_dotdot : c ≠ ".." }.

Lemma splitSlash_nonempty s : splitSlash s ≠ [].
Proof. destruct s as [|a s]; simpl; [discriminate|]. case_decide; [discriminate|]. destruct (splitSlash s); discriminate. Qed.

Lemma splitSlash_app s t : splitSlash (s +++ "/" +++ t) = splitSlash s ++ splitSlash t.
Proof.
  induction s as [|a s IH]; [done|].
  change (String a s +++ "/" +++ t) with (String a (s +++ "/" +++ t)). simpl. rewrite IH.
  destruct (decide (a = "/"%char)); [done|]. pose proof (splitSlash_nonempty s). by destruct (splitSlash s) as [|x l].
Qed.

Lemma splitSlash_free s : slash_free s -> splitSlash s = [s].
Proof.
  unfold slash_free. induction s as [|a s IH]; [done|]. simpl. intros [Ha Hs]%not_elem_of_cons.
  rewrite decide_False by congruence. by rewrite IH.
Qed.

Lemma splitSlash_parts s : Forall slash_free (splitSlash s).
Proof.
  induction s as [|a s IH]; simpl; [repeat constructor; apply not_elem_of_nil|].
  case_decide as Ha; [constructor; [apply not_elem_of_nil|done]|].
  destruct (splitSlash s) as [|x l]; [repeat constructor|inversion_clear IH; constructor; [|done]].
  - simpl. by intros ?%list_elem_of_singleton.
  - unfold slash_free in *. simpl. apply not_elem_of_cons. by split; [congruence|].
Qed.

Lemma splitSlash_Join l : l ≠ [] -> Forall slash_free l -> splitSlash (Join l "/") = l.
Proof.
  intros Hne H. induction H as [|c l Hc Hl IH]; [done|]. destruct l as [|d l]; [by apply splitSlash_free|].
  change (Join (c :: d :: l) "/") with (c +++ "/" +++ Join (d :: l) "/"). rewrite splitSlash_app, splitSlash_free by done.
  by rewrite IH.
Qed.

(** ** Cleaning *)

Lemma clean_plain rooted out l : Forall plain l -> foldl (clean_step rooted) out l = rev l ++ out.
Proof.
  intros H. revert out. induction H as [|c l [H1 H2 H3 H4] _ IH]; intros out; [done|]. simpl.
  unfold clean_step at 2. rewrite !decide_False by naive_solver. by rewrite IH, <- app_assoc.
Qed.

Lemma clean_rooted out l : Forall plain out -> Forall slash_free l -> Forall plain (foldl (clean_step true) out l).
Proof.
  intros Hout Hl. revert out Hout. induction Hl as [|c l Hc _ IH]; intros out Hout; [done|]. simpl. apply IH.
  unfold clean_step. case_decide as H1; [done|]. case_decide as H2.
  - destruct Hout as [|x out Hx Hout]; [constructor|]. rewrite decide_False; [done|]. apply Hx.
  - constructor; [|done]. split; naive_solver.
Qed.

Lemma components_plain s : filepath_IsAbs s = true -> Forall plain (components s).
Proof. intros E. unfold components. rewrite E. apply Forall_rev, clean_rooted; [constructor|apply splitSlash_parts]. Qed.

(** The absolute path of a list of names. *)
Definition abs_path (l : list string) : string := "/" +++ Join l "/".

Lemma Clean_abs s : filepath_IsAbs s = true -> filepath_Clean s = abs_path (components s).
Proof. intros E. unfold filepath_Clean. by rewrite E. Qed.

Lemma abs_path_IsAbs l : filepath_IsAbs (abs_path l) = true.
Proof. apply (prefix_append "/"). Qed.

Lemma components_abs_path l : Forall plain l -> components (abs_path l) = l.
Proof.
  intros Hl. unfold components. rewrite abs_path_IsAbs. unfold abs_path.
  change ("/" +++ Join l "/") with ("" +++ "/" +++ Join l "/"). rewrite splitSlash_app.
  destruct (decide (l = [])) as [->|Hne]; [done|].
  rewrite splitSlash_Join; [|done|by eapply Forall_impl; [exact Hl|intros c []]].
  simpl. unfold clean_step at 2. rewrite decide_True by (by left). rewrite clean_plain by done.
  by rewrite app_nil_r, rev_involutive.
Qed.

Lemma IsAbs_app s t : filepath_IsAbs s = true -> filepath_IsAbs (s +++ t) = true.
Proof.
  unfold filepath_IsAbs. destruct s as [|a s]; [done|]. change (String a s +++ t) with (String a (s +++ t)).
  rewrite !prefix_cons, !prefix_nil. done.
Qed.

Lemma components_Clean s : filepath_IsAbs s = true -> components (filepath_Clean s) = components s.
Proof. intros E. rewrite Clean_abs by done. by apply components_abs_path, components_plain. Qed.

(** What [Join] adds to an absolute path. *)
Lemma Join_IsAbs a b : filepath_IsAbs a = true -> filepath_IsAbs (filepath_Join a b) = true.
Proof.
  intros E. unfold filepath_Join. rewrite decide_False by (by intros ->).
  rewrite Clean_abs; [apply abs_path_IsAbs|by apply IsAbs_app].
Qed.

Lemma components_Join a b : filepath_IsAbs a = true ->
  components (filepath_Join a b) = rev (foldl (clean_step true) (rev (components a)) (splitSlash b)).
Proof.
  intros E. unfold filepath_Join. rewrite decide_False by (by intros ->).
  rewrite components_Clean by (by apply IsAbs_app). unfold components at 1. rewrite (IsAbs_app a) by done.
  rewrite splitSlash_app, foldl_app. unfold components. by rewrite E, rev_involutive.
Qed.

Lemma components_Join_plain a l : filepath_IsAbs a = true -> l ≠ [] -> Forall plain l ->
  components (filepath_Join a (Join l "/")) = components a ++ l.
Proof.
  intros E Hne Hl. rewrite components_Join by done.
  rewrite splitSlash_Join; [|done|by eapply Forall_impl; [exact Hl|intros c []]].
  by rewrite clean_plain, rev_app_distr, !rev_involutive.
Qed.

Lemma abs_path_inj l k : Forall plain l -> Forall plain k -> abs_path l = abs_path k -> l = k.
Proof. intros Hl Hk E. by rewrite <- (components_abs_path l Hl), E, components_abs_path. Qed.

(** ** Relative paths *)

Lemma strip_common_spec b t : exists l, let '(b', t') := strip_common b t in
  b = l ++ b' /\ t = l ++ t' /\ (forall x y, head b' = Some x -> head t' = Some y -> x ≠ y).
Proof.
  revert t. induction b as [|x b IH]; intros [|y t]; simpl; try (by exists []).
  case_decide as E; [|exists []; naive_solver]. subst y. destruct (IH t) as [l H].
  destruct (strip_common b t) as [b' t']. exists (x :: l). simpl. naive_solver.
Qed.

Lemma rel_elements_abs s : filepath_IsAbs s = true -> rel_elements s = components s.
Proof. intros E. unfold rel_elements. rewrite Clean_abs by done. by rewrite decide_False. Qed.

(** Whether a joined list of names leaves its directory. *)
Lemma escapes_Join l : Forall slash_free l -> l ≠ [] ->
  pathEscapesParent (Join l "/") = bool_decide (head l = Some "..").
Proof.
  intros H Hne. destruct l as [|c l]; [done|]. inversion_clear H as [|? ? Hc Hl]. simpl head.
  unfold pathEscapesParent, HasPrefix. destruct l as [|d l].
  - simpl Join. destruct (String.prefix "../" c) eqn:Hp.
    + exfalso. destruct c as [|a1 [|a2 [|a3 c]]]; rewrite ?prefix_cons, ?andb_true_iff, ?bool_decide_eq_true in Hp;
        try by (simpl in Hp; naive_solver). destruct Hp as (_ & _ & <- & _). apply Hc. simpl. set_solver.
    + rewrite orb_false_r. apply bool_decide_ext. naive_solver.
  - change (Join (c :: d :: l) "/") with (c +++ String "/" (Join (d :: l) "/")). set (rest := Join (d :: l) "/").
    destruct (decide (c = "..")) as [->|Hc2].
    + rewrite (bool_decide_eq_true_2 (Some ".." = _)) by done. apply orb_true_iff. right.
      change (String.prefix "../" ("../" +++ rest) = true). apply prefix_append.
    + rewrite (bool_decide_eq_false_2 (Some c = _)) by naive_solver. apply orb_false_iff. split.
      * apply bool_decide_eq_false. intros E. apply (f_equal chars) in E. rewrite chars_app in E. simpl in E.
        assert (Hin : "/"%char ∈ ["."; "."]%char) by (rewrite <- E; apply elem_of_app; right; left).
        rewrite !elem_of_cons, elem_of_nil in Hin. by destruct Hin as [?|[?|[]]].
      * apply not_true_is_false. intros Hp. apply Hc2. destruct c as [|a1 [|a2 [|a3 c]]].
        -- done.
        -- change (String a1 "" +++ ?x) with (String a1 x) in Hp.
           rewrite !prefix_cons, !andb_true_iff, !bool_decide_eq_true in Hp. by destruct Hp as (_ & [=] & _).
        -- change (String a1 (String a2 "") +++ ?x) with (String a1 (String a2 x)) in Hp.
           rewrite !prefix_cons, !andb_true_iff, !bool_decide_eq_true in Hp. by destruct Hp as (<- & <- & _).
        -- change (String a1 (String a2 (String a3 c)) +++ ?x) with (String a1 (String a2 (String a3 (c +++ x)))) in Hp.
           rewrite !prefix_cons, !andb_true_iff, !bool_decide_eq_true in Hp. destruct Hp as (_ & _ & <- & _).
           exfalso. apply Hc. simpl. set_solver.
Qed.
