(* ===== verification/Models.v ===== *)
(** * Domain types (internal/models, internal/messages, internal/api)

    The records mirror the Go structs field by field. A [nil] slice and an
    empty one are both [[]]: the code only takes their length, ranges over
    them, appends to them, or prints them with [omitempty]. [yaml_node] is the
    syntax tree of gopkg.in/yaml.v3 with the fields the program reads; the
    YAML text parser itself is third-party code and a parameter of the files
    that use it. *)

From S2P Require Import Prelude GoStrings.

(** ** Pipelines *)

Record Stage := MkStage { Stage_Name : string }.

Record Job := MkJob {
  Job_Name : string;
  Job_Stage : string;
  Job_Image : string;
  Job_Script : list string;
  Job_Needs : list string;
  Job_Failures : bool;
}.

Record Pipeline := MkPipeline {
  Pipeline_Name : string;
  Pipeline_Stages : list Stage;
  Pipeline_Jobs : list Job;
}.

(** The zero value that a lookup of a missing key in a [map[string]Job] yields. *)
Definition zeroJob : Job := MkJob "" "" "" [] [] false.

Record Location := MkLoc { Line : Z; Column : Z }.

Record ValidationError := MkVErr {
  FilePath : string;
  VErr_Location : Location;
  Message : string;
}.

(** [(e *ValidationError) Error()]: "%s:%d:%d: %s". *)
Definition Error (e : ValidationError) : string :=
  FilePath e +++ ":" +++ Itoa (Line (VErr_Location e)) +++ ":" +++
  Itoa (Column (VErr_Location e)) +++ ": " +++ Message e.

(** ** Plans *)

Record JobExecutionPlan := MkJobPlan {
  JobPlan_Name : string;
  JobPlan_Image : string;
  JobPlan_Script : list string;
}.
Definition zeroJobPlan : JobExecutionPlan := MkJobPlan "" "" [].

Record StageExecutionPlan := MkStageExecutionPlan {
  StageExec_Name : string;
  StageExec_Jobs : list JobExecutionPlan;
}.

Record ExecutionPlan := MkExecutionPlan { Plan_Stages : list StageExecutionPlan }.

Record StagePlan := MkStagePlan {
  StagePlan_Name : string;
  StagePlan_Jobs : list JobExecutionPlan;
  StagePlan_Needs : gmap string (list string);
  Dependents : gmap string (list string);
  InDegree : gmap string Z;
  JobByName : gmap string JobExecutionPlan;
}.

(** ** Messages and requests *)

Record JobExecutionMessage := MkMsg {
  Msg_RunNo : Z;
  Msg_PipelineName : string;
  Msg_Stage : string;
  Msg_Branch : string;
  Msg_Commit : string;
  Msg_RepoURL : string;
  Msg_WorkspacePath : string;
  Msg_Job : JobExecutionPlan;
}.

#[export] Instance JobExecutionPlan_eq_dec : EqDecision JobExecutionPlan.
Proof. solve_decision. Defined.
#[export] Instance JobExecutionMessage_eq_dec : EqDecision JobExecutionMessage.
Proof. solve_decision. Defined.
#[export] Instance Job_eq_dec : EqDecision Job.
Proof. solve_decision. Defined.

Record RunRequest := MkRunRequest {
  YAMLContent : string;
  Branch : string;
  Commit : string;
  RepoURL : string;
  WorkspacePath : string;
}.

Record RunResponse := MkRunResponse {
  RunResp_Pipeline : string;
  RunResp_RunNo : Z;
  RunResp_Status : string;
  RunResp_Errors : list string;
  RunResp_Message : string;
}.

Record JobStatusCallbackRequest := MkCallback {
  Cb_Pipeline : string;
  Cb_RunNo : Z;
  Cb_Stage : string;
  Cb_Job : string;
  Cb_Status : string;
  Cb_Logs : string;
  Cb_Error : string;
}.

(** ** YAML syntax trees *)

(** [NoKind] is the zero [Kind] of a node that was never filled in: decoding
    an empty document leaves the root node zero. *)
Inductive Kind := NoKind | DocumentNode | SequenceNode | MappingNode | ScalarNode | AliasNode.

#[export] Instance Kind_eq_dec : EqDecision Kind.
Proof. solve_decision. Defined.

Inductive yaml_node := MkNode (k : Kind) (tag value : string) (loc : Location) (content : list yaml_node).

Definition nKind (n : yaml_node) : Kind := match n with MkNode k _ _ _ _ => k end.
Definition nTag (n : yaml_node) : string := match n with MkNode _ t _ _ _ => t end.
Definition nValue (n : yaml_node) : string := match n with MkNode _ _ v _ _ => v end.
Definition nLoc (n : yaml_node) : Location := match n with MkNode _ _ _ l _ => l end.
Definition nContent (n : yaml_node) : list yaml_node := match n with MkNode _ _ _ _ c => c end.

(** What yaml.v3 guarantees of the trees it builds and the program relies on:
    a mapping holds its keys and values alternately, so an even number of nodes. *)
Inductive wf_node : yaml_node -> Prop :=
| wf_MkNode k tag value loc content :
    (k = MappingNode -> Nat.Even (length content)) ->
    Forall wf_node content ->
    wf_node (MkNode k tag value loc content).

(** ** Reading mappings

    [for i := 0; i < len(c); i += 2 { ... c[i] ... c[i+1] ... }]: the loops of
    the parser and of the verifier over a mapping's content. Reading [c[i+1]]
    of an odd content panics; the loops that stop at a key read only its value. *)
Fixpoint find_value (key : string) (c : list yaml_node) : go (option yaml_node) :=
  match c with
  | [] => Ret None
  | k :: rest =>
    if decide (nValue k = key) then
      match rest with [] => Panic | v :: _ => Ret (Some v) end
    else match rest with [] => Ret None | _ :: rest' => find_value key rest' end
  end.

Fixpoint pairs (c : list yaml_node) : go (list (yaml_node * yaml_node)) :=
  match c with
  | [] => Ret []
  | [_] => Panic
  | k :: v :: rest => l ← pairs rest; Ret ((k, v) :: l)
  end.

(** The keys alone: [c[0], c[2], ...] without reading the values. *)
Fixpoint mapping_keys (c : list yaml_node) : list yaml_node :=
  match c with
  | [] => []
  | [k] => [k]
  | k :: _ :: rest => k :: mapping_keys rest
  end.

(** ** Well-formed trees do not panic *)

Lemma even_pairs_ind (P : list yaml_node -> Prop) :
  P [] -> (forall k v c, P c -> P (k :: v :: c)) -> forall c, Nat.Even (length c) -> P c.
Proof.
  intros H0 H2. refine (list_ind2 _ _ _ _); [done| |].
  - intros k [m Hm]. simpl in Hm. lia.
  - intros k v c IH [m Hm]. apply H2, IH. exists (m - 1). simpl in Hm. lia.
Qed.

Lemma find_value_even key c :
  Nat.Even (length c) -> exists o, find_value key c = Ret o.
Proof.
  revert c. apply even_pairs_ind; simpl; [by eexists|].
  intros k v c [o IH]. case_decide; eauto.
Qed.

Lemma pairs_even c : Nat.Even (length c) -> exists l, pairs c = Ret l.
Proof.
  revert c. apply even_pairs_ind; simpl; [by eexists|].
  intros k v c [l IH]. rewrite IH. by eexists.
Qed.

Lemma find_value_elem key c v :
  find_value key c = Ret (Some v) -> v ∈ c.
Proof.
  revert c. refine (list_ind2 _ _ _ _); simpl; [done|intros k; by case_decide|].
  intros k w c IH. case_decide; intros E; simplify_eq; [set_solver|]. apply IH in E. set_solver.
Qed.

Lemma pairs_elem c l k v : pairs c = Ret l -> (k, v) ∈ l -> k ∈ c /\ v ∈ c.
Proof.
  revert c l. refine (list_ind2 _ _ _ _); simpl; [|done|].
  - intros l [= <-] Hin. by apply elem_of_nil in Hin.
  - intros k' w c IH l E Hin. go_inv.
    apply elem_of_cons in Hin as [?|Hin]; [simplify_eq; set_solver|].
    destruct (IH _ ltac:(eassumption) Hin). set_solver.
Qed.

Lemma wf_content n v : wf_node n -> v ∈ nContent n -> wf_node v.
Proof. intros [????? _ HF]. simpl. intros Hv. by eapply Forall_forall in HF. Qed.

Lemma wf_mapping n : wf_node n -> nKind n = MappingNode -> Nat.Even (length (nContent n)).
Proof. intros [????? He _]. simpl. auto. Qed.
