(* ===== verification/Formatter.v ===== *)
(** * Printing an execution plan (common/formatter/formatter.go)

    The YAML tree of a plan: stages, in each its jobs, in each the image and the
    script, all in the order of the plan; the encoders of yaml.v3 and JSON are
    parameters. Theorem: reading the tree with the parser's own functions gives
    the plan back, so nothing is lost or reordered before the encoder. *)

From S2P Require Import Prelude GoStrings Models.

Definition node (k : Kind) (value : string) (content : list yaml_node) : yaml_node := MkNode k "" value (MkLoc 0 0) content.
Definition scalar_node (value : string) : yaml_node := node ScalarNode value [].

Definition scriptToYAMLNode (script : list string) : yaml_node := node SequenceNode "" (scalar_node <$> script).

Definition jobToYAMLNode (job : JobExecutionPlan) : yaml_node :=
  node MappingNode "" [scalar_node "image"; scalar_node (JobPlan_Image job); scalar_node "script"; scriptToYAMLNode (JobPlan_Script job)].

Definition stageToYAMLNode (stage : StageExecutionPlan) : yaml_node :=
  node MappingNode "" (StageExec_Jobs stage ≫= fun job => [scalar_node (JobPlan_Name job); jobToYAMLNode job]).

Definition planToYAMLNode (plan : ExecutionPlan) : yaml_node :=
  node MappingNode "" (Plan_Stages plan ≫= fun stage => [scalar_node (StageExec_Name stage); stageToYAMLNode stage]).

Section encoders.
Context (yaml_Marshal : yaml_node -> res string) (json_MarshalIndent : ExecutionPlan -> res string).

Definition FormatExecutionPlanYAML (plan : option ExecutionPlan) : res string :=
  match plan with None => err (ErrNew "plan is nil" []) | Some p => yaml_Marshal (planToYAMLNode p) end.
Definition FormatExecutionPlanJSON (plan : option ExecutionPlan) : res string :=
  match plan with None => err (ErrNew "plan is nil" []) | Some p => json_MarshalIndent p end.
End encoders.

(** The encoders of a report, which may be nil. *)
Definition FormatReport {R} (encode : R -> res string) (report : option R) : res string :=
  match report with None => err (ErrNew "report is nil" []) | Some r => encode r end.

(** ** Reading the tree back *)

Definition read_job (kv : yaml_node * yaml_node) : go JobExecutionPlan :=
  image ← find_value "image" (nContent kv.2);
  script ← find_value "script" (nContent kv.2);
  Ret (MkJobPlan (nValue kv.1) (default "" (nValue <$> image)) (default [] ((fun n => nValue <$> nContent n) <$> script))).
Definition read_stage (kv : yaml_node * yaml_node) : go StageExecutionPlan :=
  l ← pairs (nContent kv.2); jobs ← mapM read_job l; Ret (MkStageExecutionPlan (nValue kv.1) jobs).
Definition read_plan (root : yaml_node) : go ExecutionPlan :=
  l ← pairs (nContent root); stages ← mapM read_stage l; Ret (MkExecutionPlan stages).

Lemma pairs_bind {A} (k v : A -> yaml_node) (l : list A) : pairs (l ≫= fun a => [k a; v a]) = Ret ((fun a => (k a, v a)) <$> l).
Proof. induction l as [|a l IH]; [done|]. csimpl. by rewrite IH. Qed.

Lemma mapM_back {A B} (f : B -> go A) (g : A -> B) (l : list A) : (forall a, f (g a) = Ret a) -> mapM f (g <$> l) = Ret l.
Proof. intros H. induction l as [|a l IH]; [done|]. cbn. rewrite H. cbn. by rewrite IH. Qed.

Lemma read_job_node job : read_job (scalar_node (JobPlan_Name job), jobToYAMLNode job) = Ret job.
Proof.
  destruct job as [name image script]. unfold read_job. simpl. do 2 f_equal.
  induction script as [|s script IH]; [done|]. csimpl. by rewrite IH.
Qed.

Lemma read_stage_node stage : read_stage (scalar_node (StageExec_Name stage), stageToYAMLNode stage) = Ret stage.
Proof.
  destruct stage as [name jobs]. unfold read_stage. simpl. rewrite pairs_bind. cbn [mbind go_bind].
  rewrite (mapM_back read_job (fun job => (scalar_node (JobPlan_Name job), jobToYAMLNode job))) by apply read_job_node. done.
Qed.

Lemma even_bind {A} (k v : A -> yaml_node) (l : list A) : Nat.Even (length (l ≫= fun a => [k a; v a])).
Proof. induction l as [|a l [m IH]]; [by exists 0|]. csimpl. exists (S m). lia. Qed.

Lemma wf_pairs {A} (k v : A -> yaml_node) (l : list A) : (forall a, wf_node (k a)) -> (forall a, wf_node (v a)) ->
  wf_node (node MappingNode "" (l ≫= fun a => [k a; v a])).
Proof.
  intros Hk Hv. constructor; [intros _; apply even_bind|]. induction l as [|a l IH]; [constructor|]. csimpl. by repeat constructor.
Qed.

Lemma wf_scalar_node s : wf_node (scalar_node s).
Proof. by constructor. Qed.
Lemma wf_job job : wf_node (jobToYAMLNode job).
Proof.
  constructor; [intros _; by exists 2|]. repeat constructor; try done.
  apply Forall_fmap, Forall_forall. intros s _. apply wf_scalar_node.
Qed.

(** The tree of a plan is well formed, and reading it gives back the plan:
    the same stages with the same jobs, images and scripts in the same order. *)
Theorem planToYAMLNode_roundtrip plan : wf_node (planToYAMLNode plan) /\ read_plan (planToYAMLNode plan) = Ret plan.
Proof.
  split.
  - apply wf_pairs; [intros; apply wf_scalar_node|]. intros stage. apply wf_pairs; intros; [apply wf_scalar_node|apply wf_job].
  - destruct plan as [stages]. unfold read_plan. simpl. rewrite pairs_bind. cbn [mbind go_bind].
    rewrite (mapM_back read_stage (fun stage => (scalar_node (StageExec_Name stage), stageToYAMLNode stage))) by apply read_stage_node. done.
Qed.
