(* ===== verification/Pipelinepath.v ===== *)
(** * Pipeline paths (common/pipelinepath/resolver.go)

    The CLI resolves the path that a user gave, relative to the working
    directory or to the pipeline directory, to a file in the pipeline directory
    of the repository, or to that directory itself. What [os.Stat] answers is an
    argument. Theorem: whatever the user writes, a resolved file lies in the
    pipeline directory, lexically. *)

From Stdlib Require Import Ascii.
From S2P Require Import Prelude GoStrings Paths.

Definition DefaultPipelineDir : string := ".pipelines".

(** [os.Stat]: what the path is, or an error that says it does not exist or not. *)
Inductive stat_answer := StatDir | StatFile | StatNotExist (e : goerr) | StatError (e : goerr).

Definition toRepoRelativePipelinePath (rootDir inputPath : string) : res string :=
  match filepath_Rel rootDir inputPath with
  | inr e => err (ErrWrap "failed to resolve pipeline path %q relative to repository root: %w" [inputPath] e)
  | inl rel =>
    let rel := filepath_Clean rel in
    if pathEscapesParent rel then err (ErrNew "pipeline path must stay within the repository: %s" [inputPath]) else ok rel
  end.

Definition isPathWithinDir (root target : string) : bool :=
  match filepath_Rel root target with
  | inr _ => false
  | inl rel => let rel := filepath_Clean rel in bool_decide (rel = ".") || negb (pathEscapesParent rel)
  end.

Definition isPipelineRootRelativePath (path : string) : bool :=
  bool_decide (path = DefaultPipelineDir) || HasPrefix path (DefaultPipelineDir +++ "/").

Definition must_be_directory : goerr := ErrNew "pipeline directory must be %q" [DefaultPipelineDir].
Definition must_be_inside (inputPath : string) : goerr :=
  ErrNew "pipeline file must be inside %q: %s" [DefaultPipelineDir; inputPath].
Definition stat_failed (path : string) (e : goerr) : goerr := ErrWrap "failed to get the info of path %q: %w" [path] e.

Section resolver.
Context (stat : string -> stat_answer).

(** The path, and whether it is a directory. *)
Definition statPipelineTarget (path : string) : res bool :=
  match stat path with
  | StatDir => ok true
  | StatFile => ok false
  | StatNotExist e | StatError e => err (stat_failed path e)
  end.

(** The input under the working directory, or under the repository when it
    starts with the name of the pipeline directory. *)
Definition absoluteInput (rootDir workingDir cleanInput : string) : string :=
  filepath_Clean
    (if filepath_IsAbs cleanInput then cleanInput
     else if isPipelineRootRelativePath cleanInput then filepath_Join rootDir cleanInput
     else filepath_Join workingDir cleanInput).

(** What to do when the path under the repository is there. *)
Definition existing (rootDir inputPath repoRelativeInput explicitRepoPath : string) (isDir : bool) : res (string * bool) :=
  let pipelineRoot := filepath_Join rootDir DefaultPipelineDir in
  if decide (repoRelativeInput = DefaultPipelineDir) then
    if isDir then ok (pipelineRoot, true) else err (ErrNew "pipeline directory %q is not a directory" [pipelineRoot])
  else if isPathWithinDir pipelineRoot explicitRepoPath then
    if isDir then err must_be_directory else ok (explicitRepoPath, false)
  else if isDir then err must_be_directory
  else err (must_be_inside inputPath).

(** And when it is not: the input is taken relative to the pipeline directory. *)
Definition missing (rootDir inputPath cleanInput repoRelativeInput explicitRepoPath : string) (e : goerr) : res (string * bool) :=
  let pipelineRoot := filepath_Join rootDir DefaultPipelineDir in
  if bool_decide (repoRelativeInput = DefaultPipelineDir) || isPathWithinDir pipelineRoot explicitRepoPath
  then err (stat_failed explicitRepoPath e)
  else if filepath_IsAbs cleanInput then err (must_be_inside inputPath)
  else if pathEscapesParent cleanInput then err (must_be_inside inputPath)
  else
    let finalPath := filepath_Clean (filepath_Join pipelineRoot cleanInput) in
    if negb (isPathWithinDir pipelineRoot finalPath)
    then err (ErrNew "pipeline path escapes %q: %s" [DefaultPipelineDir; inputPath])
    else match statPipelineTarget finalPath with
         | inr e => err e
         | inl isDir => if (isDir : bool) then err must_be_directory else ok (finalPath, false)
         end.

Definition resolveInputPathFromWorkingDir (rootDir workingDir inputPath : string) : res (string * bool) :=
  let cleanInput := filepath_Clean (TrimSpace inputPath) in
  if decide (TrimSpace inputPath = "") then err (ErrNew "pipeline path must not be empty" []) else
  match toRepoRelativePipelinePath rootDir (absoluteInput rootDir workingDir cleanInput) with
  | inr e => err e
  | inl repoRelativeInput =>
    let explicitRepoPath := filepath_Clean (filepath_Join rootDir repoRelativeInput) in
    match stat explicitRepoPath with
    | StatDir => existing rootDir inputPath repoRelativeInput explicitRepoPath true
    | StatFile => existing rootDir inputPath repoRelativeInput explicitRepoPath false
    | StatError e => err (stat_failed explicitRepoPath e)
    | StatNotExist e => missing rootDir inputPath cleanInput repoRelativeInput explicitRepoPath e
    end
  end.

Definition ResolveInputPath (getwd : res string) (rootDir inputPath : string) : res (string * bool) :=
  match getwd with
  | inr e => err (ErrWrap "failed to get current working directory: %w" [] e)
  | inl cwd => resolveInputPathFromWorkingDir rootDir cwd inputPath
  end.

End resolver.

(** ** Being inside a directory *)

(** The names of [path] below the absolute directory [root]. *)
Definition inside (root path : string) (l : list string) : Prop :=
  filepath_IsAbs path = true /\ components path = components root ++ l.

(** What [Rel] answers for a path inside. *)
Definition rel_path (l : list string) : string := if decide (l = []) then "." else Join l "/".

Lemma Clean_Clean s : filepath_IsAbs s = true -> filepath_Clean (filepath_Clean s) = filepath_Clean s.
Proof.
  intros E. rewrite (Clean_abs s E), Clean_abs by apply abs_path_IsAbs.
  by rewrite components_abs_path by by apply components_plain.
Qed.

Lemma Clean_IsAbs s : filepath_IsAbs s = true -> filepath_IsAbs (filepath_Clean s) = true.
Proof. intros E. rewrite Clean_abs by done. apply abs_path_IsAbs. Qed.

Lemma Clean_Join a b : filepath_IsAbs a = true -> filepath_Clean (filepath_Join a b) = filepath_Join a b.
Proof.
  intros E. unfold filepath_Join. rewrite decide_False by (by intros ->). apply Clean_Clean. by apply IsAbs_app.
Qed.

Lemma Join_rel_not_abs l : Forall slash_free l -> (forall c, head l = Some c -> c ≠ "") -> filepath_IsAbs (Join l "/") = false.
Proof.
  intros H Hne. destruct H as [|c l Hc _]; [done|]. specialize (Hne c eq_refl). destruct c as [|a c]; [done|].
  assert (Ha : "/"%char ≠ a) by (intros <-; apply Hc; left).
  unfold filepath_IsAbs. destruct l as [|d l].
  - simpl Join. rewrite prefix_cons. by rewrite bool_decide_eq_false_2.
  - change (Join (String a c :: d :: l) "/") with (String a (c +++ "/" +++ Join (d :: l) "/")).
    rewrite prefix_cons. by rewrite bool_decide_eq_false_2.
Qed.

(** Steps up, then names: the paths that [Rel] returns are clean. *)
Lemma Clean_rel k l : Forall plain l -> replicate k ".." ++ l ≠ [] ->
  filepath_Clean (Join (replicate k ".." ++ l) "/") = Join (replicate k ".." ++ l) "/".
Proof.
  intros Hl Hne.
  assert (Hfree : Forall slash_free (replicate k ".." ++ l)).
  { apply Forall_app. split; [apply Forall_replicate; unfold slash_free; simpl; set_solver|].
    eapply Forall_impl; [exact Hl|by intros c []]. }
  assert (Habs : filepath_IsAbs (Join (replicate k ".." ++ l) "/") = false).
  { apply Join_rel_not_abs; [done|]. destruct k as [|k]; simpl; [|by intros c [= <-]].
    destruct Hl as [|c l [_ Hc _ _] _]; simpl; [done|]. by intros c' [= <-]. }
  assert (Hup : forall k out, Forall (eq "..") out -> foldl (clean_step false) out (replicate k "..") = replicate k ".." ++ out).
  { clear. induction k as [|k IH]; intros out Hout; [done|]. simpl. unfold clean_step at 2.
    assert (E : (match out with x :: out' => if decide (x = "..") then ".." :: out else out' | [] => [".."] end) = ".." :: out).
    { destruct Hout as [|x out <- _]; [done|]. by rewrite decide_True. }
    rewrite decide_False, decide_True, E, IH by (try constructor; naive_solver).
    change (replicate k ".." ++ [".."] ++ out = replicate (S k) ".." ++ out).
    rewrite app_assoc, <- replicate_S_end. done. }
  unfold filepath_Clean. rewrite Habs. unfold components. rewrite Habs, splitSlash_Join, foldl_app, Hup, clean_plain by (done || constructor).
  rewrite app_nil_r, rev_app_distr, List.rev_involutive.
  assert (E : rev (replicate k "..") = replicate k "..").
  { clear. induction k as [|k IH]; [done|]. simpl. rewrite IH. by rewrite <- replicate_S_end. }
  rewrite E, decide_False; [done|]. intros E'. apply (f_equal splitSlash) in E'. rewrite splitSlash_Join in E' by done.
  simpl in E'. destruct k as [|[|k]]; simpl in E'; [|done|done]. destruct Hl as [|c l [_ Hc _ _] _]; [done|].
  injection E'; intros; subst; done.
Qed.

Lemma Rel_spec root target : filepath_IsAbs root = true -> filepath_IsAbs target = true ->
  exists rel, filepath_Rel root target = ok rel /\
    (forall l, inside root target l -> filepath_Clean rel = rel_path l) /\
    (pathEscapesParent (filepath_Clean rel) = false -> exists l, inside root target l).
Proof.
  intros Hr Ht. pose proof (components_plain root Hr) as Pr. pose proof (components_plain target Ht) as Pt.
  unfold filepath_Rel. rewrite Hr, Ht, rel_elements_abs by done. case_decide as Ec.
  { exists ".". split; [done|]. rewrite !Clean_abs in Ec by done. apply abs_path_inj in Ec; [|done|done].
    split; [|intros _; exists []; unfold inside; by rewrite app_nil_r].
    intros l [_ El]. rewrite Ec in El. assert (l = []) as ->; [|done].
    apply (app_inv_head (components root)). by rewrite app_nil_r. }
  simpl. destruct (strip_common_spec (components root) (components target)) as [pre H].
  destruct (strip_common _ _) as [b t]. destruct H as (Eb & Et & Hne).
  assert (Pb : Forall plain b) by (rewrite Eb in Pr; apply Forall_app in Pr; apply Pr).
  assert (Pt' : Forall plain t) by (rewrite Et in Pt; apply Forall_app in Pt; apply Pt).
  rewrite decide_False. 2:{ destruct Pb as [|c b [] _]; naive_solver. }
  assert (Eup : ((fun _ => "..") <$> b) = replicate (length b) "..") by (clear; induction b as [|x b IH]; [done|]; rewrite fmap_cons, IH; done).
  rewrite Eup.
  assert (Hnonempty : replicate (length b) ".." ++ t ≠ []).
  { intros [E1 ->]%app_eq_nil. destruct b; [|done]. rewrite !app_nil_r in *. apply Ec. by rewrite !Clean_abs, Eb, Et. }
  eexists. split; [done|]. rewrite Clean_rel by done. split.
  - intros l [_ El]. assert (b = [] /\ t = l) as [-> ->].
    { rewrite Et in El. rewrite Eb in El. rewrite <- app_assoc in El. apply app_inv_head in El. destruct b as [|x b]; [done|].
      subst t. exfalso. by apply (Hne x x). }
    simpl. unfold rel_path. rewrite decide_False; [done|]. intros ->. done.
  - intros Hesc. rewrite escapes_Join in Hesc; [|apply Forall_app; split;
      [apply Forall_replicate; unfold slash_free; simpl; set_solver|eapply Forall_impl; [exact Pt'|by intros c []]]|done].
    apply bool_decide_eq_false in Hesc. destruct b as [|x b]; [|done]. exists t. split; [done|].
    rewrite app_nil_r in Eb. by rewrite Eb.
Qed.

Lemma within_inside root target : filepath_IsAbs root = true -> filepath_IsAbs target = true ->
  isPathWithinDir root target = true -> exists l, inside root target l.
Proof.
  intros Hr Ht. unfold isPathWithinDir. destruct (Rel_spec root target Hr Ht) as (rel & -> & _ & H).
  intros [E%bool_decide_eq_true|E%negb_true_iff]%orb_true_iff; apply H; [by rewrite E|done].
Qed.

Lemma pipelines_plain : plain DefaultPipelineDir.
Proof. split; [|done..]. unfold slash_free. simpl. set_solver. Qed.

Lemma components_pipelineRoot rootDir : filepath_IsAbs rootDir = true ->
  components (filepath_Join rootDir DefaultPipelineDir) = components rootDir ++ [DefaultPipelineDir].
Proof. intros E. apply (components_Join_plain rootDir [DefaultPipelineDir]); [done|done|]. constructor; [apply pipelines_plain|constructor]. Qed.

(** What the resolver may return: the pipeline directory, or a file inside it. *)
Definition confined (stat : string -> stat_answer) (rootDir path : string) (isDir : bool) : Prop :=
  filepath_Clean path = path /\ stat path = (if isDir then StatDir else StatFile) /\
  exists l, inside rootDir path (DefaultPipelineDir :: l) /\ (isDir = true -> l = []).

(** C39: whatever the input, from whatever working directory: a path that resolves is
    the pipeline directory of the repository or a file inside it, lexically, and
    it is there. *)
Theorem resolve_confined stat rootDir workingDir inputPath path isDir :
  filepath_IsAbs rootDir = true -> filepath_IsAbs workingDir = true ->
  resolveInputPathFromWorkingDir stat rootDir workingDir inputPath = ok (path, isDir) ->
  confined stat rootDir path isDir.
Proof.
  intros Hr Hw. unfold resolveInputPathFromWorkingDir. case_decide; [done|].
  destruct (toRepoRelativePipelinePath _ _) as [rel|e] eqn:Erel; [|done].
  set (explicit := filepath_Clean (filepath_Join rootDir rel)).
  assert (Eroot : filepath_IsAbs (filepath_Join rootDir DefaultPipelineDir) = true) by by apply Join_IsAbs.
  assert (Hin : forall p, filepath_IsAbs p = true -> isPathWithinDir (filepath_Join rootDir DefaultPipelineDir) p = true ->
    exists l, inside rootDir p (DefaultPipelineDir :: l)).
  { intros p Hp H1. destruct (within_inside _ _ Eroot Hp H1) as (l & _ & El). exists l. split; [done|].
    by rewrite El, components_pipelineRoot, <- app_assoc. }
  assert (Eexp : filepath_IsAbs explicit = true) by (by apply Clean_IsAbs, Join_IsAbs).
  assert (Hexisting : forall d : bool, stat explicit = (if d then StatDir else StatFile) ->
    existing rootDir inputPath rel explicit d = ok (path, isDir) -> confined stat rootDir path isDir).
  { intros d Hst. unfold existing. case_decide as Ed.
    - destruct d; [|done]. intros [= <- <-]. split; [by apply Clean_Join|]. split.
      + unfold explicit in Hst. by rewrite Ed, Clean_Join in Hst.
      + exists []. split; [|done]. split; [done|]. by apply components_pipelineRoot.
    - destruct (isPathWithinDir _ _) eqn:Ew; destruct d; try done. intros [= <- <-].
      split; [by apply Clean_Clean, Join_IsAbs|]. split; [done|]. destruct (Hin _ Eexp Ew) as [l Hl]. by exists l. }
  destruct (stat explicit) eqn:Hst; [by apply (Hexisting true)|by apply (Hexisting false)| |done].
  unfold missing. destruct (bool_decide (rel = DefaultPipelineDir) || isPathWithinDir _ explicit); [done|].
  destruct (filepath_IsAbs (filepath_Clean (TrimSpace inputPath))); [done|].
  destruct (pathEscapesParent (filepath_Clean (TrimSpace inputPath))); [done|].
  destruct (isPathWithinDir _ (filepath_Clean (filepath_Join _ _))) eqn:Ew; simpl; [|done].
  unfold statPipelineTarget. destruct (stat (filepath_Clean (filepath_Join _ _))) eqn:Hst2; simpl; try done. intros [= <- <-].
  assert (Ef : filepath_IsAbs (filepath_Clean (filepath_Join (filepath_Join rootDir DefaultPipelineDir) (filepath_Clean (TrimSpace inputPath)))) = true)
    by (by apply Clean_IsAbs, Join_IsAbs).
  split; [by apply Clean_Clean, Join_IsAbs|]. split; [done|]. destruct (Hin _ Ef Ew) as [l Hl]. by exists l.
Qed.

(** ** What the resolver finds *)

Lemma rel_path_stays l : Forall plain l -> pathEscapesParent (rel_path l) = false.
Proof.
  intros Hl. unfold rel_path. case_decide as Hn; [done|].
  rewrite escapes_Join; [|by eapply Forall_impl; [exact Hl|by intros c []]|done].
  apply bool_decide_eq_false. destruct Hl as [|c l [] _]; [done|]. simpl. congruence.
Qed.

Lemma inside_within root target l : filepath_IsAbs root = true -> inside root target l -> isPathWithinDir root target = true.
Proof.
  intros Hr [Ht El]. unfold isPathWithinDir. destruct (Rel_spec root target Hr Ht) as (rel & -> & Hc & _).
  cbv beta iota zeta delta [ok]. rewrite (Hc l) by done. rewrite rel_path_stays; [by rewrite orb_true_r|].
  pose proof (components_plain target Ht) as Hp. rewrite El in Hp. apply Forall_app in Hp. apply Hp.
Qed.

Lemma Clean_Join_plain l : Forall plain l -> l ≠ [] -> filepath_Clean (Join l "/") = Join l "/".
Proof. intros Hl Hne. by apply (Clean_rel 0 l). Qed.

Lemma Join_Clean_plain rootDir l : filepath_IsAbs rootDir = true -> Forall plain l -> l ≠ [] ->
  filepath_Join rootDir (Join l "/") = abs_path (components rootDir ++ l).
Proof. intros Hr Hl Hne. rewrite <- (Clean_Join rootDir), Clean_abs by by try apply Join_IsAbs. by rewrite components_Join_plain. Qed.

Lemma pipelines_relative l : isPipelineRootRelativePath (Join (DefaultPipelineDir :: l) "/") = true.
Proof.
  unfold isPipelineRootRelativePath. destruct l as [|c l]; [done|]. apply orb_true_iff. right.
  change (Join (DefaultPipelineDir :: c :: l) "/") with (DefaultPipelineDir +++ ("/" +++ Join (c :: l) "/")).
  rewrite append_assoc. apply prefix_append.
Qed.

Lemma toRepoRelative_inside rootDir path l : filepath_IsAbs rootDir = true -> inside rootDir path l ->
  toRepoRelativePipelinePath rootDir path = ok (rel_path l).
Proof.
  intros Hr [Ht El]. unfold toRepoRelativePipelinePath. destruct (Rel_spec rootDir path Hr Ht) as (rel & -> & Hc & _).
  cbv beta iota zeta delta [ok]. rewrite (Hc l) by done. rewrite rel_path_stays; [done|].
  pose proof (components_plain path Ht) as Hp. rewrite El in Hp. apply Forall_app in Hp. apply Hp.
Qed.

(** From every working directory, a file of the pipeline directory is found under
    the path that starts with the directory's name. *)
Theorem resolve_finds stat rootDir workingDir l :
  let input := Join (DefaultPipelineDir :: l) "/" in
  let path := abs_path (components rootDir ++ DefaultPipelineDir :: l) in
  filepath_IsAbs rootDir = true -> Forall plain l -> l ≠ [] -> TrimSpace input = input ->
  stat path = StatFile -> resolveInputPathFromWorkingDir stat rootDir workingDir input = ok (path, false).
Proof.
  intros input path Hr Hl Hne Htrim Hst. assert (Hp : Forall plain (DefaultPipelineDir :: l)) by (constructor; [apply pipelines_plain|done]).
  assert (Hall : Forall plain (components rootDir ++ DefaultPipelineDir :: l)) by (apply Forall_app; split; [by apply components_plain|done]).
  unfold resolveInputPathFromWorkingDir. rewrite Htrim.
  assert (Eclean : filepath_Clean input = input) by by apply Clean_Join_plain.
  rewrite Eclean. rewrite decide_False by (unfold input; destruct l; done).
  assert (Eabs : filepath_IsAbs input = false).
  { apply Join_rel_not_abs; [|by intros c [= <-]]. eapply Forall_impl; [exact Hp|by intros c []]. }
  assert (Ejoin : filepath_Join rootDir input = path) by by apply Join_Clean_plain.
  assert (Epath : filepath_IsAbs path = true) by apply abs_path_IsAbs.
  assert (Ecp : filepath_Clean path = path) by (unfold path; by rewrite Clean_abs, components_abs_path).
  assert (Hin : inside rootDir path (DefaultPipelineDir :: l)) by (split; [done|by apply components_abs_path]).
  unfold absoluteInput. rewrite Eabs, (pipelines_relative l : isPipelineRootRelativePath input = true), Ejoin, Ecp, (toRepoRelative_inside _ _ _ Hr Hin).
  assert (Erel : rel_path (DefaultPipelineDir :: l) = input) by (unfold rel_path; by rewrite decide_False).
  cbv beta iota zeta delta [ok]. rewrite Erel, Ejoin, Ecp, Hst. unfold existing. rewrite decide_False.
  2:{ intros E. apply (f_equal splitSlash) in E. unfold input in E. rewrite splitSlash_Join in E; [|done|by eapply Forall_impl; [exact Hp|by intros c []]].
      simpl in E. injection E as ->. done. }
  rewrite (inside_within _ _ l); [done|by apply Join_IsAbs|]. split; [done|].
  rewrite components_pipelineRoot, <- app_assoc by done. by apply components_abs_path.
Qed.

Definition demo_stat (p : string) : stat_answer :=
  if decide (p = "/repo/.pipelines/ci/build.yaml") then StatFile
  else if decide (p ∈ ["/repo"; "/repo/.pipelines"; "/repo/src"]) then StatDir else StatNotExist (ErrIs "file does not exist").

Lemma resolve_confined_witness :
  resolveInputPathFromWorkingDir demo_stat "/repo" "/repo/src" " ci/./x/../build.yaml " = ok ("/repo/.pipelines/ci/build.yaml", false) /\
  confined demo_stat "/repo" "/repo/.pipelines/ci/build.yaml" false.
Proof.
  assert (E : resolveInputPathFromWorkingDir demo_stat "/repo" "/repo/src" " ci/./x/../build.yaml "
    = ok ("/repo/.pipelines/ci/build.yaml", false)) by (vm_compute; reflexivity).
  split; [exact E|].
  apply (resolve_confined demo_stat "/repo" "/repo/src" " ci/./x/../build.yaml "); [reflexivity|reflexivity|exact E].
Defined.

Lemma resolve_finds_witness :
  resolveInputPathFromWorkingDir demo_stat "/repo" "/elsewhere" ".pipelines/ci/build.yaml" = ok ("/repo/.pipelines/ci/build.yaml", false).
Proof.
  apply (resolve_finds demo_stat "/repo" "/elsewhere" ["ci"; "build.yaml"]); [reflexivity| |discriminate|reflexivity|reflexivity].
  repeat (constructor; [split; [unfold slash_free; simpl; set_solver|discriminate..]|]). constructor.
Defined.

Example escaping_input : resolveInputPathFromWorkingDir demo_stat "/repo" "/repo/src" "../../etc/passwd"
  = err (ErrNew "pipeline path must stay within the repository: %s" ["/etc/passwd"]).
Proof. vm_compute. reflexivity. Qed.
