(* ===== verification/Archive.v ===== *)
(** * The archive of a workspace (services/worker/execute.go)

    The worker carries a workspace into a container as a tar archive, which it
    builds while it walks the directory. The directory is a tree of what the file
    system answers for each entry; [filepath.Walk] and the writer of archive/tar
    are modelled as far as the code relies on them. Named pipes, whose opening may
    block, and the other fields of an entry's header are left out. Theorem: the
    archive holds exactly the entries of the directory, each under its path below
    workspace/, and it is made unless the file system refuses an entry, or there
    is a symbolic link to something that is not empty. *)

From S2P Require Import Prelude GoStrings Paths Pipelinepath.

(** ** Directories *)

Inductive typeflag := TypeReg | TypeDir | TypeSymlink | TypeChar | TypeBlock.
#[global] Instance typeflag_eq_dec : EqDecision typeflag.
Proof. solve_decision. Defined.

(** An entry as [os.Lstat] and opening it show it: a regular file, with its size
    and what reading it gives; a directory, with its names in order, or one that
    cannot be listed; a link or a device, with what reading it gives, which for a
    link is its target's content; a socket; an entry that [os.Lstat] refuses. *)
Inductive tree :=
| Regular (size : nat) (content : res string)
| Directory (names : list (string * tree))
| Unlisted (e : goerr)
| Special (flag : typeflag) (content : res string)
| Socket
| Refused (e : goerr).

(** ** Archives (archive/tar) *)

Record member := MkMember { m_name : string; m_flag : typeflag; m_content : string }.

(** The latest member first; the bytes that the latest one still lacks. *)
Record tar_writer := MkWriter { members : list member; remaining : nat }.

Definition ErrWriteTooLong : goerr := ErrIs "archive/tar: write too long".

Definition Flush (tw : tar_writer) : res unit :=
  if decide (remaining tw = 0) then ok tt
  else err (ErrNew "archive/tar: missed writing %d bytes" [Itoa (Z.of_nat (remaining tw))]).

(** Only a regular file has bytes of its own. *)
Definition WriteHeader (name : string) (flag : typeflag) (size : nat) (tw : tar_writer) : res tar_writer :=
  _ ← Flush tw;
  ok (MkWriter (MkMember name flag "" :: members tw) (if decide (flag = TypeReg) then size else 0)).

Definition Write (data : string) (tw : tar_writer) : res tar_writer :=
  if decide (remaining tw < String.length data) then err ErrWriteTooLong else
  match members tw with
  | m :: ms => ok (MkWriter (MkMember (m_name m) (m_flag m) (m_content m +++ data) :: ms) (remaining tw - String.length data))
  | [] => ok tw
  end.

Definition FileInfoHeader (t : tree) : res (typeflag * nat) :=
  match t with
  | Regular size _ => ok (TypeReg, size)
  | Directory _ | Unlisted _ => ok (TypeDir, 0)
  | Special flag _ => ok (flag, 0)
  | Socket | Refused _ => err (ErrIs "archive/tar: sockets not supported")
  end.

(** [os.Open] and [io.Copy]. *)
Definition copyFile (content : res string) (tw : tar_writer) : res tar_writer :=
  data ← content; Write data tw.

(** ** The walk *)

(** [filepath.Walk] below an entry: the function is called for the entry, and then
    below it for each of its names. It is told the error of an entry that cannot
    be read. *)
Section walk.
Context {W : Type} (fn : string -> tree -> W -> res W).

Fixpoint walk (path : string) (t : tree) (w : W) : res W :=
  match t with
  | Directory names =>
    w ← fn path t w;
    (fix each (l : list (string * tree)) (w : W) : res W :=
       match l with
       | [] => ok w
       | (name, t') :: l' => w ← walk (filepath_Join path name) t' w; each l' w
       end) names w
  | _ => fn path t w
  end.

Fixpoint walkNames (path : string) (l : list (string * tree)) (w : W) : res W :=
  match l with
  | [] => ok w
  | (name, t') :: l' => w ← walk (filepath_Join path name) t' w; walkNames path l' w
  end.

Lemma walk_Directory path names w : walk path (Directory names) w = (w ← fn path (Directory names) w; walkNames path names w).
Proof.
  simpl. destruct (fn path _ w) as [w'|e]; simpl; [|done]. clear w. revert w'.
  induction names as [|[name t'] l IH]; intros w; [done|]. simpl. destruct (walk _ t' w); simpl; [apply IH|done].
Qed.
End walk.

Definition archiveEntry (workspacePath path : string) (t : tree) (tw : tar_writer) : res tar_writer :=
  match t with
  | Unlisted e | Refused e => err e
  | _ =>
    relPath ← filepath_Rel workspacePath path;
    if decide (relPath = ".") then ok tw else
    header ← FileInfoHeader t;
    tw ← WriteHeader (filepath_Join "workspace" relPath) header.1 header.2 tw;
    match t with
    | Regular _ content | Special _ content => copyFile content tw
    | _ => ok tw
    end
  end.

Definition buildWorkspaceArchive (workspacePath : string) (t : tree) : res (list member) :=
  tw ← walk (archiveEntry workspacePath) workspacePath t (MkWriter [] 0);
  _ ← Flush tw;
  ok (rev (members tw)).

(** ** What is in a directory, and what can be archived *)

Definition member_at (path : list string) (flag : typeflag) (content : string) : member :=
  MkMember (Join ("workspace" :: path) "/") flag content.

(** An entry and all below it, each directory before what it holds. *)
Fixpoint listing (path : list string) (t : tree) : list member :=
  match t with
  | Regular _ content => [member_at path TypeReg (match content with inl data => data | inr _ => "" end)]
  | Directory names => member_at path TypeDir "" :: mjoin ((fun x => listing (path ++ [x.1]) x.2) <$> names)
  | Special flag _ => [member_at path flag ""]
  | Unlisted _ | Socket | Refused _ => []
  end.

Definition listing_below (path : list string) (names : list (string * tree)) : list member :=
  mjoin ((fun x => listing (path ++ [x.1]) x.2) <$> names).

Fixpoint archivable (t : tree) : Prop :=
  match t with
  | Regular size content => exists data, content = inl data /\ String.length data = size
  | Directory names => foldr and True ((fun x => archivable x.2) <$> names)
  | Special _ content => content = inl ""
  | Unlisted _ | Socket | Refused _ => False
  end.

(** Names as a file system has them: distinct in a directory, and without slashes. *)
Fixpoint well_named (t : tree) : Prop :=
  match t with
  | Directory names => NoDup names.*1 /\ foldr and True ((fun x => plain x.1 /\ well_named x.2) <$> names)
  | Special flag _ => flag ≠ TypeReg /\ flag ≠ TypeDir
  | _ => True
  end.

(** ** Lemmas *)

Section tree_ind.
Context (P : tree -> Prop).
Context (PRegular : forall size content, P (Regular size content)).
Context (PDirectory : forall names, Forall (fun x => P x.2) names -> P (Directory names)).
Context (PUnlisted : forall e, P (Unlisted e)) (PSpecial : forall flag content, P (Special flag content)).
Context (PSocket : P Socket) (PRefused : forall e, P (Refused e)).

Fixpoint tree_names_ind (t : tree) : P t :=
  match t with
  | Regular size content => PRegular size content
  | Directory names => PDirectory names
      ((fix each (l : list (string * tree)) : Forall (fun x => P x.2) l :=
          match l with
          | [] => @List.Forall_nil _ _
          | (name, t') :: l' => @List.Forall_cons _ _ (name, t') l' (tree_names_ind t') (each l')
          end) names)
  | Unlisted e => PUnlisted e
  | Special flag content => PSpecial flag content
  | Socket => PSocket
  | Refused e => PRefused e
  end.
End tree_ind.

Lemma strip_common_app b l : strip_common b (b ++ l) = ([], l).
Proof. induction b as [|x b IH]; [by destruct l|]. simpl. by rewrite decide_True. Qed.

Lemma inside_plain root path l : inside root path l -> Forall plain l.
Proof. intros [Ha E]. pose proof (components_plain path Ha) as H. rewrite E in H. by apply Forall_app in H as [_ H]. Qed.

Lemma inside_Join root path l name : inside root path l -> plain name -> inside root (filepath_Join path name) (l ++ [name]).
Proof.
  intros [Ha E] Hn. split; [by apply Join_IsAbs|].
  pose proof (components_Join_plain path [name] Ha) as H. simpl in H. rewrite H; [|done|by constructor].
  by rewrite E, (assoc_L (++)).
Qed.

Lemma workspace_plain : plain "workspace".
Proof. split; [|done..]. unfold slash_free. simpl. set_solver. Qed.

Section archive.
Context (ws : string) (Hws : filepath_IsAbs ws = true).

Lemma Rel_below path l : inside ws path l -> l ≠ [] -> filepath_Rel ws path = ok (Join l "/").
Proof.
  intros [Ha E] Hne. unfold filepath_Rel. rewrite decide_False.
  - rewrite Hws, Ha, rel_elements_abs, E, strip_common_app by done. done.
  - rewrite !Clean_abs by done. intros Hc%abs_path_inj; [|by apply components_plain..].
    apply Hne, (app_inv_head (components ws)). by rewrite <- E, Hc, app_nil_r.
Qed.

Lemma archiveEntry_below path l t tw : inside ws path l -> l ≠ [] ->
  archiveEntry ws path t tw =
  match t with
  | Unlisted e | Refused e => err e
  | _ =>
    header ← FileInfoHeader t;
    tw ← WriteHeader (Join ("workspace" :: l) "/") header.1 header.2 tw;
    match t with Regular _ content | Special _ content => copyFile content tw | _ => ok tw end
  end.
Proof.
  intros Hin Hne. pose proof (inside_plain _ _ _ Hin) as Hp.
  assert (Ej : filepath_Join "workspace" (Join l "/") = Join ("workspace" :: l) "/").
  { destruct l as [|c l']; [done|]. apply (Clean_rel 0 ("workspace" :: c :: l')); [|done]. constructor; [apply workspace_plain|done]. }
  assert (Hdot : Join l "/" ≠ ".").
  { intros E. apply (f_equal splitSlash) in E. rewrite splitSlash_Join in E; [|done|by eapply Forall_impl; [exact Hp|intros c []]].
    simpl in E. subst l. inversion_clear Hp as [|? ? [_ _ Hd _] _]. done. }
  unfold archiveEntry. rewrite (Rel_below path l Hin Hne). simpl. rewrite decide_False by done. rewrite Ej. done.
Qed.

Lemma archiveEntry_root names tw : archiveEntry ws ws (Directory names) tw = ok tw.
Proof. unfold archiveEntry, filepath_Rel. by rewrite decide_True. Qed.

(** How archiving [t] from [tw] ends: with all its members added, or not at all;
    a member that is short shows only when the next one is written. *)
Definition outcome (good : Prop) (ms : list member) (tw : tar_writer) (r : res tar_writer) : Prop :=
  match r with
  | inl tw' => (remaining tw' = 0 /\ good /\ members tw' = rev ms ++ members tw) \/ (remaining tw' ≠ 0 /\ ~ good)
  | inr _ => ~ good
  end.

Definition stays_short (r : res tar_writer) : Prop :=
  match r with inl tw => remaining tw ≠ 0 | inr _ => True end.

Lemma Flush_0 tw : remaining tw = 0 -> Flush tw = ok tt.
Proof. intros E. unfold Flush. by rewrite decide_True. Qed.

Lemma entry_outcome path l t tw : inside ws path l -> l ≠ [] -> remaining tw = 0 ->
  match t with
  | Directory _ => exists tw', archiveEntry ws path t tw = ok tw' /\ remaining tw' = 0 /\
      members tw' = member_at l TypeDir "" :: members tw
  | Special TypeReg _ => True
  | _ => outcome (archivable t) (listing l t) tw (archiveEntry ws path t tw)
  end.
Proof.
  intros Hin Hne H0. rewrite (archiveEntry_below path l t tw Hin Hne).
  destruct t as [size content|names|e|flag content| |e]; simpl; unfold WriteHeader; rewrite ?Flush_0 by done; simpl.
  - destruct content as [data|e]; simpl; [|naive_solver]. unfold Write. simpl. case_decide as Hd; simpl.
    + intros (d & [= <-] & E). lia.
    + destruct (decide (String.length data = size)) as [<-|Hn]; [left|right]; [|split; [lia|naive_solver]].
      split; [lia|]. split; [by exists data|]. done.
  - by eexists.
  - naive_solver.
  - destruct (decide (flag = TypeReg)) as [->|Hf]; [done|].
    assert (H : outcome (content = inl "") [member_at l flag ""] tw
      (copyFile content (MkWriter (MkMember (Join ("workspace" :: l) "/") flag "" :: members tw) 0))).
    { destruct content as [[|a data]|e]; simpl; [left; done| |]; naive_solver. }
    destruct flag; done.
  - naive_solver.
  - naive_solver.
Qed.

Lemma outcome_bind g1 g2 ms1 ms2 tw r f :
  outcome g1 ms1 tw r ->
  (forall tw', remaining tw' ≠ 0 -> stays_short (f tw')) ->
  (forall tw', remaining tw' = 0 -> outcome g2 ms2 tw' (f tw')) ->
  outcome (g1 /\ g2) (ms1 ++ ms2) tw (tw' ← r; f tw').
Proof.
  intros H1 Hlate H2. destruct r as [tw'|e]; simpl in *; [|naive_solver].
  destruct H1 as [(H0 & G & E)|[H0 G]].
  - specialize (H2 tw' H0). destruct (f tw') as [tw''|e]; simpl in *; [|naive_solver].
    destruct H2 as [(H0' & G' & E')|[H0' G']]; [left|right; naive_solver].
    split; [done|]. split; [done|]. by rewrite E', E, rev_app_distr, (assoc_L (++)).
  - specialize (Hlate tw' H0). unfold stays_short in Hlate. destruct (f tw'); simpl; [right|]; naive_solver.
Qed.

Lemma walk_late path l t tw : inside ws path l -> l ≠ [] -> remaining tw ≠ 0 ->
  exists e, walk (archiveEntry ws) path t tw = err e.
Proof.
  intros Hin Hne H0.
  assert (H : exists e, archiveEntry ws path t tw = err e).
  { rewrite (archiveEntry_below path l t tw Hin Hne). unfold WriteHeader, Flush. rewrite decide_False by done.
    destruct t; simpl; by eexists. }
  destruct t; try done. destruct H as [e E]. exists e. rewrite walk_Directory, E. done.
Qed.

Lemma walkNames_late path l names tw : inside ws path l -> foldr and True ((fun x => plain x.1 /\ well_named x.2) <$> names) ->
  remaining tw ≠ 0 -> stays_short (walkNames (archiveEntry ws) path names tw).
Proof.
  intros Hin Hn H0. destruct names as [|[name t] names]; [done|]. simpl. destruct Hn as [[Hp _] _].
  destruct (walk_late (filepath_Join path name) (l ++ [name]) t tw) as [e ->]; [by apply inside_Join| |done|done].
  by intros []%app_eq_nil.
Qed.

Lemma walkNames_outcome path l names : inside ws path l ->
  Forall (fun x => forall path l tw, inside ws path l -> l ≠ [] -> well_named x.2 -> remaining tw = 0 ->
    outcome (archivable x.2) (listing l x.2) tw (walk (archiveEntry ws) path x.2 tw)) names ->
  foldr and True ((fun x => plain x.1 /\ well_named x.2) <$> names) ->
  forall tw, remaining tw = 0 ->
  outcome (foldr and True ((fun x => archivable x.2) <$> names)) (listing_below l names) tw
    (walkNames (archiveEntry ws) path names tw).
Proof.
  intros Hin HF. induction HF as [|[name t] names Ht _ IH]; intros Hn tw H0; [by left|].
  destruct Hn as [[Hp Hw] Hn]. simpl in Hp, Hw. apply outcome_bind.
  - apply Ht; [by apply inside_Join|by intros []%app_eq_nil|done|done].
  - intros tw' H'. by apply (walkNames_late path l).
  - by apply IH.
Qed.

Lemma walk_outcome t : forall path l tw, inside ws path l -> l ≠ [] -> well_named t -> remaining tw = 0 ->
  outcome (archivable t) (listing l t) tw (walk (archiveEntry ws) path t tw).
Proof.
  induction t as [size content|names IH|e|flag content| |e] using tree_names_ind; intros path l tw Hin Hne Hw H0;
    pose proof (entry_outcome path l) as He.
  - apply (He (Regular size content) tw Hin Hne H0).
  - destruct (He (Directory names) tw Hin Hne H0) as (tw' & E & H1 & Em). rewrite walk_Directory, E.
    destruct Hw as [_ Hn]. pose proof (walkNames_outcome path l names Hin IH Hn tw' H1) as H.
    unfold outcome in *. simpl. destruct (walkNames _ path names tw'); simpl; [|done].
    destruct H as [(? & ? & ->)|?]; [left|by right]. split; [done|]. split; [done|]. rewrite Em. simpl. by rewrite <- (assoc_L (++)).
  - apply (He (Unlisted e) tw Hin Hne H0).
  - pose proof (He (Special flag content) tw Hin Hne H0). destruct Hw. by destruct flag.
  - apply (He Socket tw Hin Hne H0).
  - apply (He (Refused e) tw Hin Hne H0).
Qed.
End archive.

(** ** Names of members *)

Lemma member_name_inj p1 p2 : Forall plain p1 -> Forall plain p2 ->
  Join ("workspace" :: p1) "/" = Join ("workspace" :: p2) "/" -> p1 = p2.
Proof.
  intros H1 H2 E. apply (f_equal splitSlash) in E.
  assert (Hf : forall p, Forall plain p -> Forall slash_free ("workspace" :: p)).
  { intros p Hp. constructor; [by destruct workspace_plain|eapply Forall_impl; [exact Hp|by intros c []]]. }
  rewrite !splitSlash_Join in E by (done || by apply Hf). by injection E.
Qed.

(** The paths of an entry and of all below it. *)
Fixpoint below_paths (t : tree) : list (list string) :=
  match t with
  | Directory names => [] :: mjoin ((fun x => cons x.1 <$> below_paths x.2) <$> names)
  | Regular _ _ | Special _ _ => [[]]
  | _ => []
  end.

Definition paths_below (names : list (string * tree)) : list (list string) :=
  mjoin ((fun x => cons x.1 <$> below_paths x.2) <$> names).
Definition member_path (path p : list string) : string := Join ("workspace" :: path ++ p) "/".

Lemma listing_below_paths path names :
  Forall (fun x => forall path, m_name <$> listing path x.2 = member_path path <$> below_paths x.2) names ->
  m_name <$> listing_below path names = member_path path <$> paths_below names.
Proof.
  induction 1 as [|[name t] l Ht _ IH]; [done|]. simpl in Ht.
  change (listing_below path ((name, t) :: l)) with (listing (path ++ [name]) t ++ listing_below path l).
  change (paths_below ((name, t) :: l)) with ((cons name <$> below_paths t) ++ paths_below l).
  rewrite !fmap_app, IH, Ht. f_equal. rewrite <- list_fmap_compose. apply list_fmap_ext. intros _ p _.
  unfold member_path. simpl. by rewrite <- (assoc_L (++)).
Qed.

Lemma listing_paths t : forall path, m_name <$> listing path t = member_path path <$> below_paths t.
Proof.
  induction t as [| names IH | | | |] using tree_names_ind; intros path; try done;
    try (unfold member_path; simpl; by rewrite ?app_nil_r).
  change (below_paths (Directory names)) with ([] :: paths_below names). rewrite fmap_cons, <- listing_below_paths by done.
  unfold member_path. by rewrite app_nil_r.
Qed.

Lemma paths_below_ok names :
  Forall (fun x => well_named x.2 -> NoDup (below_paths x.2) /\ Forall (Forall plain) (below_paths x.2)) names ->
  well_named (Directory names) ->
  NoDup (paths_below names) /\
  Forall (fun p => Forall plain p /\ exists c q, p = c :: q /\ c ∈ names.*1) (paths_below names).
Proof.
  induction 1 as [|[name t] l Ht _ IH]; intros [Hnd Hn]; [split; constructor|]. simpl in Ht.
  apply NoDup_cons in Hnd as [Hni Hnd]. destruct Hn as [[Hp Hw] Hn]. destruct (Ht Hw) as [Hd Hf].
  destruct (IH (conj Hnd Hn)) as [IHd IHf]. rewrite Forall_forall in IHf.
  change (paths_below ((name, t) :: l)) with ((cons name <$> below_paths t) ++ paths_below l). split.
  - apply NoDup_app. split; [by apply NoDup_fmap_2; [intros ?? [=]|]|]. split; [|done].
    intros p (q & -> & _)%list_elem_of_fmap Hin. destruct (IHf _ Hin) as (_ & c & q' & [= -> ->] & Hc). by apply Hni.
  - apply Forall_app. split; [apply Forall_fmap, (Forall_impl _ _ _ Hf)|apply Forall_forall].
    + intros q Hq. split; [by constructor|]. exists name, q. split; [done|left].
    + intros p Hin. destruct (IHf p Hin) as (Hpp & c & q & -> & Hc). split; [done|]. exists c, q. split; [done|by right].
Qed.

Lemma below_paths_ok t : well_named t -> NoDup (below_paths t) /\ Forall (Forall plain) (below_paths t).
Proof.
  assert (Hself : NoDup [@nil string] /\ Forall (Forall plain) [@nil string]).
  { split; [apply NoDup_singleton|by repeat constructor]. }
  induction t as [| names IH | | | |] using tree_names_ind; intros Hw; [done| | |done| |]; try by split; constructor.
  destruct (paths_below_ok names IH Hw) as [Hd Hf]. split.
  - apply NoDup_cons. split; [|done]. rewrite Forall_forall in Hf. intros Hin. by destruct (Hf _ Hin) as (_ & c & q & ? & _).
  - constructor; [constructor|]. eapply Forall_impl; [exact Hf|by intros p []].
Qed.

(** ** Properties *)

(** C35: the archive of a workspace: for a directory with an absolute path, it is made
    exactly when the file system gives every entry, a regular file with as many
    bytes as its size, and no link or device with any; it holds the entries of the
    directory, each directory before what it holds. Their names are distinct, and
    none leads out of workspace/. *)
Theorem buildWorkspaceArchive_spec ws names :
  filepath_IsAbs ws = true -> well_named (Directory names) ->
  (forall ms, buildWorkspaceArchive ws (Directory names) = ok ms <->
     archivable (Directory names) /\ ms = listing_below [] names) /\
  NoDup (m_name <$> listing_below [] names) /\
  Forall (fun m => exists p, Forall plain p /\ m_name m = Join ("workspace" :: p) "/") (listing_below [] names).
Proof.
  intros Hws Hw.
  destruct (paths_below_ok names) as [Hnd Hp]; [by apply Forall_forall; intros; apply below_paths_ok|done|].
  assert (En : m_name <$> listing_below [] names = member_path [] <$> paths_below names).
  { apply listing_below_paths, Forall_forall. intros x _. apply listing_paths. }
  rewrite Forall_forall in Hp. split; [|split].
  - unfold buildWorkspaceArchive. rewrite walk_Directory, archiveEntry_root. simpl.
    pose proof (walkNames_outcome ws Hws ws [] names) as H.
    specialize (H (conj Hws (eq_sym (app_nil_r _))) ltac:(by apply Forall_forall; intros; apply walk_outcome) (proj2 Hw) (MkWriter [] 0) eq_refl).
    destruct (walkNames _ ws names _) as [tw|e]; simpl in *; [|naive_solver].
    destruct H as [(E0 & Ha & Em)|[E0 Ha]]; unfold Flush.
    + rewrite decide_True by done. simpl. rewrite Em, app_nil_r, rev_involutive. naive_solver.
    + rewrite decide_False by done. naive_solver.
  - rewrite En. apply NoDup_fmap_2_strong; [|done]. intros p1 p2 H1 H2. apply member_name_inj; by apply Hp.
  - apply Forall_forall. intros m Hm. apply (list_elem_of_fmap_2 m_name) in Hm. rewrite En in Hm.
    apply list_elem_of_fmap in Hm as (p & E & Hin). exists p. split; [by apply Hp|done].
Qed.

(** ** Examples *)

Definition demo_names : list (string * tree) :=
  [("Makefile", Regular 4 (ok "all:")); ("empty", Special TypeSymlink (ok ""));
   ("src", Directory [("a.c", Regular 3 (ok "int")); ("b", Directory [])])].

Lemma buildWorkspaceArchive_spec_witness :
  buildWorkspaceArchive "/tmp/job" (Directory demo_names) = ok (listing_below [] demo_names) /\
  (m_name <$> listing_below [] demo_names) =
    ["workspace/Makefile"; "workspace/empty"; "workspace/src"; "workspace/src/a.c"; "workspace/src/b"].
Proof.
  split; [|vm_compute; reflexivity].
  apply (proj1 (buildWorkspaceArchive_spec "/tmp/job" demo_names eq_refl ltac:(
    repeat (split || constructor); try discriminate; try (apply (bool_decide_unpack _); vm_compute; exact I)))).
  split; [|reflexivity]. repeat split; by eexists.
Defined.

(** A link to a file that is not empty makes the whole archive fail; a workspace
    that is itself a link is archived as if it were empty. *)
Example linked_file :
  buildWorkspaceArchive "/tmp/job" (Directory [("lib.so", Special TypeSymlink (ok "code"))]) = err ErrWriteTooLong /\
  buildWorkspaceArchive "/home/me/link" (Special TypeSymlink (err (ErrIs "is a directory"))) = ok [].
Proof. split; reflexivity. Qed.
