(* ===== verification/Git.v ===== *)
(** * The git repository (common/gitutil/gitutil.go)

    The CLI reads pipeline files at a commit through a temporary worktree, and
    checks that a branch, local or of a remote, contains a commit. The git
    library, the git command and the file system are the environment: what each
    of their calls answers is an argument; the commands and fetches made are the
    trace. Theorems: a file of the pipeline directory is read from the same place
    of the worktree, which is removed on every path; a branch contains a commit
    exactly when its log does; a fetch is retried once, with credentials, and
    only when the remote asked for them. *)

From S2P Require Import Prelude GoStrings Paths Pipelinepath.

(** ** Opening, HEAD, branches *)

Record Repository := MkRepository { root : string }.

(** [PlainOpen] and [Worktree], which gives the root. *)
Definition Open (dir : string) (plain_open : res unit) (worktree_root : res string) : res Repository :=
  match plain_open with
  | inr e => err (ErrWrap "directory %q is not inside a git repository: %w" [dir] e)
  | inl _ =>
    match worktree_root with
    | inr e => err (ErrWrap "failed to get git worktree: %w" [] e)
    | inl r => ok (MkRepository r)
    end
  end.

(** A reference: its branch name, when it is a branch, and its hash. *)
Record reference := MkRef { ref_branch : option string; ref_hash : string }.

Definition GetHeadBranch (head : res reference) : res string :=
  match head with
  | inr e => err (ErrWrap "failed to get HEAD: %w" [] e)
  | inl ref => match ref_branch ref with
               | Some b => ok b
               | None => err (ErrNew "detached HEAD at %s" [ref_hash ref])
               end
  end.

Definition GetHeadCommit (head : res reference) : res string :=
  match head with
  | inr e => err (ErrWrap "failed to get HEAD: %w" [] e)
  | inl ref => ok (ref_hash ref)
  end.

Definition GetHeadCommitByBranch (lookup : string -> res reference) (branch : string) : res string :=
  match lookup ("refs/heads/" +++ branch) with
  | inr e => err (ErrWrap "branch: %q not found: %w" [branch] e)
  | inl ref => ok (ref_hash ref)
  end.

(** ** Temporary worktrees *)

Inductive git_action :=
| WorktreeAdd (dir commit : string)
| WorktreeRemove (dir : string)
| WorktreePrune
| ReadFile (path : string)
| RemoveAll (dir : string).

(** What [MkdirTemp] and [git worktree add] answer. *)
Record worktree_env := MkWorktreeEnv { we_mkdir : res string; we_add : option goerr }.

Definition cleanup (dir : string) : list git_action := [WorktreeRemove dir; WorktreePrune; RemoveAll dir].

Definition CreateDetachedWorktree (we : worktree_env) (commit : string) : list git_action * res string :=
  match we_mkdir we with
  | inr e => ([], err (ErrWrap "create temp dir failed: %w" [] e))
  | inl tmpDir =>
    match we_add we with
    | Some _ => ([WorktreeAdd tmpDir commit; RemoveAll tmpDir], err (ErrNew "git worktree add failed: %v, output: %s" []))
    | None => ([WorktreeAdd tmpDir commit], ok tmpDir)
    end
  end.

Definition resolveRepoRelativePath (r : Repository) (getwd : res string) (filePath : string) : res string :=
  match getwd with
  | inr e => err (ErrWrap "failed to get current working directory: %w" [] e)
  | inl cwd =>
    let absPath := filepath_Clean (if filepath_IsAbs filePath then filePath else filepath_Join cwd filePath) in
    match filepath_Rel (root r) absPath with
    | inr e => err (ErrWrap "failed to resolve file %q relative to repository root: %w" [filePath] e)
    | inl relPath =>
      let relPath := filepath_Clean relPath in
      if pathEscapesParent relPath then err (ErrNew "file is outside repository: %s" [filePath]) else ok relPath
    end
  end.

Definition ReadFileAtCommit (r : Repository) (getwd : res string) (we : worktree_env) (read : string -> res string)
    (commit filePath : string) : list git_action * res string :=
  let commit := TrimSpace commit in
  let filePath := TrimSpace filePath in
  if decide (commit = "") then ([], err (ErrNew "commit is required" [])) else
  if decide (filePath = "") then ([], err (ErrNew "file path is required" [])) else
  match resolveRepoRelativePath r getwd filePath with
  | inr e => ([], err e)
  | inl relPath =>
    match CreateDetachedWorktree we commit with
    | (tr, inr e) => (tr, err (ErrWrap "failed to prepare workspace for commit %q: %w" [commit] e))
    | (tr, inl worktreeDir) =>
      let targetPath := filepath_Join worktreeDir relPath in
      (tr ++ [ReadFile targetPath] ++ cleanup worktreeDir,
       match read targetPath with
       | inr e => err (ErrWrap "failed to read file %q at commit %q: %w" [filePath; commit] e)
       | inl content => ok content
       end)
    end
  end.

(** ** Commits of a branch *)

(** [Log]: the commits from a hash on, and the error that ends the iteration. *)
Record git_log := MkLog { log_commits : list string; log_error : option goerr }.

Section commits.
Context (NewHash : string -> string) (lookup : string -> res reference) (Log : string -> res git_log).

(** The iteration stops at the commit. *)
Definition iterate (target : string) (l : git_log) : res bool :=
  if decide (target ∈ log_commits l) then ok true
  else match log_error l with Some e => err e | None => ok false end.

(** The common tail of the two checks. *)
Definition refContainsCommit (refName commitSHA : string) : res bool :=
  ref ← lookup refName;
  let target := NewHash commitSHA in
  if decide (ref_hash ref = target) then ok true else
  l ← Log (ref_hash ref); iterate target l.

Definition BranchContainsCommit (branch commitSHA : string) : res bool :=
  refContainsCommit ("refs/heads/" +++ branch) commitSHA.

(** ** Remotes *)

Inductive AuthMethod := BasicAuth (username password : string) | PublicKeys (user keyPath passphrase : string).

(** [transport.NewEndpoint] gives the scheme; [load_key] is [NewPublicKeysFromFile]. *)
Definition buildRemoteAuth (env : string -> string) (endpoint_scheme : string -> res string)
    (load_key : string -> string -> string -> res AuthMethod) (remoteURL : string) : res (option AuthMethod) :=
  match endpoint_scheme (TrimSpace remoteURL) with
  | inr e => err (ErrWrap "parse remote URL: %w" [] e)
  | inl scheme =>
    if decide (scheme = "http" \/ scheme = "https") then
      let token := TrimSpace (env "CICD_GIT_TOKEN") in
      if decide (token = "") then ok None else
      let user := TrimSpace (env "CICD_GIT_USERNAME") in
      ok (Some (BasicAuth (if decide (user = "") then "x-access-token" else user) token))
    else if decide (scheme = "ssh") then
      let keyPath := TrimSpace (env "CICD_SSH_KEY_PATH") in
      if decide (keyPath = "") then ok None else
      let sshUser := TrimSpace (env "CICD_SSH_USER") in
      match load_key (if decide (sshUser = "") then "git" else sshUser) keyPath (env "CICD_SSH_KEY_PASSPHRASE") with
      | inr e => err (ErrWrap "load ssh auth from %q: %w" [keyPath] e)
      | inl auth => ok (Some auth)
      end
    else ok None
  end.

Fixpoint firstNonEmptyURL (urls : list string) : string :=
  match urls with
  | [] => ""
  | raw :: rest => let url := TrimSpace raw in if decide (url = "") then firstNonEmptyURL rest else url
  end.

(** [Remote] and its configured URLs; a nil configuration has none. *)
Definition GetRepoURL (remotes : string -> res (list string)) (remoteName : string) : res string :=
  let remoteName := TrimSpace remoteName in
  if decide (remoteName = "") then err (ErrNew "remote name is required" []) else
  match remotes remoteName with
  | inr e => err (ErrWrap "remote %q not found: %w" [remoteName] e)
  | inl urls =>
    let url := firstNonEmptyURL urls in
    if decide (url = "") then err (ErrNew "remote %q has no configured URL" [remoteName]) else ok url
  end.

Definition needs_auth (e : goerr) : bool := errors_Is e "authentication required" || errors_Is e "authorization failed".

(** One fetch: an error that says "already up-to-date" is none. *)
Definition fetch (Fetch : option AuthMethod -> option goerr) (auth : option AuthMethod) : option goerr :=
  match Fetch auth with
  | Some e => if errors_Is e "already up-to-date" then None else Some e
  | None => None
  end.

(** The fetches made, by their credentials, and the outcome. *)
Definition fetchWithAuth (Fetch : option AuthMethod -> option goerr) (auth : option AuthMethod)
    (resolveAuth : res (option AuthMethod)) (remoteName : string) : list (option AuthMethod) * res unit :=
  match fetch Fetch None with
  | None => ([None], ok tt)
  | Some e =>
    if needs_auth e then
      match (match auth with Some a => ok (Some a) | None => resolveAuth end) with
      | inr e' => ([None], err e')
      | inl None => ([None], err (ErrNew "remote %q requires authentication; set CICD_GIT_TOKEN (HTTPS) or CICD_SSH_KEY_PATH (SSH)" [remoteName]))
      | inl (Some a) =>
        ([None; Some a], match fetch Fetch (Some a) with
                         | Some e' => err (ErrWrap "fetch remote branch with auth: %w" [] e')
                         | None => ok tt
                         end)
      end
    else ([None], err (ErrWrap "fetch remote branch: %w" [] e))
  end.

(** [Fetch remote refspec auth]: the library's fetch. *)
Definition RemoteBranchContainsCommit (env : string -> string) (endpoint_scheme : string -> res string)
    (load_key : string -> string -> string -> res AuthMethod) (remotes : string -> res (list string))
    (Fetch : string -> string -> option AuthMethod -> option goerr)
    (remoteName branch commitSHA : string) (auth : option AuthMethod) : list (option AuthMethod) * res bool :=
  let remoteName := TrimSpace remoteName in
  let branch := TrimSpace branch in
  let commitSHA := TrimSpace commitSHA in
  if decide (remoteName = "") then ([], err (ErrNew "remote name is required" [])) else
  if decide (branch = "") then ([], err (ErrNew "branch is required" [])) else
  if decide (commitSHA = "") then ([], err (ErrNew "commit is required" [])) else
  match GetRepoURL remotes remoteName with
  | inr e => ([], err e)
  | inl remoteURL =>
    let refspec := "+refs/heads/" +++ branch +++ ":refs/remotes/" +++ remoteName +++ "/" +++ branch in
    match fetchWithAuth (Fetch remoteName refspec) auth (buildRemoteAuth env endpoint_scheme load_key remoteURL) remoteName with
    | (tr, inr e) => (tr, err e)
    | (tr, inl _) => (tr, refContainsCommit ("refs/remotes/" +++ remoteName +++ "/" +++ branch) commitSHA)
    end
  end.

(** ** Lemmas *)

(** What a reference contains: its own commit and those of its log. *)
Definition contains_commit (ref : reference) (l : git_log) (commitSHA : string) : Prop :=
  NewHash commitSHA ∈ ref_hash ref :: log_commits l.

Lemma refContainsCommit_spec refName commitSHA ref l :
  lookup refName = ok ref -> Log (ref_hash ref) = ok l ->
  (refContainsCommit refName commitSHA = ok true <-> contains_commit ref l commitSHA) /\
  (refContainsCommit refName commitSHA = ok false -> log_error l = None /\ ~ contains_commit ref l commitSHA) /\
  (log_error l = None -> exists b, refContainsCommit refName commitSHA = ok b).
Proof.
  intros Er El. unfold refContainsCommit, contains_commit. rewrite Er. cbn [mbind res_bind ok]. rewrite elem_of_cons.
  case_decide as Eh; [split_and!; [by split; [left|]|done|by eexists]|]. rewrite El. cbn [mbind res_bind ok]. unfold iterate.
  case_decide as Em; [split_and!; [by split; [right|]|done|by eexists]|].
  destruct (log_error l) as [e|]; split_and!; try done; try (by eexists).
  - split; [done|]. intros [?|?]; congruence.
  - split; [done|]. intros [?|?]; congruence.
  - intros _. split; [done|]. intros [?|?]; congruence.
Qed.

Lemma refContainsCommit_ok refName commitSHA b :
  refContainsCommit refName commitSHA = ok b ->
  exists ref, lookup refName = ok ref /\ (b = true <-> ref_hash ref = NewHash commitSHA \/
    exists l, Log (ref_hash ref) = ok l /\ contains_commit ref l commitSHA).
Proof.
  unfold refContainsCommit. intros (ref & Er & H)%res_bind_ok. exists ref. split; [done|].
  case_decide as Eh; [injection H as <-; split; [by left|done]|].
  apply res_bind_ok in H as (l & El & H). unfold iterate in H. unfold contains_commit.
  case_decide as Em; [injection H as <-; split; [|done]; intros _; right; exists l; split; [done|]; by right|].
  destruct (log_error l); [done|]. injection H as <-. split; [done|].
  intros [?|(l' & El' & Hc)]; [congruence|]. rewrite El in El'. injection El' as <-.
  apply elem_of_cons in Hc as [?|?]; congruence.
Qed.

(** A branch contains a commit exactly when the commit is the tip or in the log
    of the tip; an error that ends the log counts only when the commit was not
    found before. *)
Theorem BranchContainsCommit_spec branch commitSHA ref l :
  lookup ("refs/heads/" +++ branch) = ok ref -> Log (ref_hash ref) = ok l ->
  (BranchContainsCommit branch commitSHA = ok true <-> contains_commit ref l commitSHA) /\
  (BranchContainsCommit branch commitSHA = ok false -> log_error l = None /\ ~ contains_commit ref l commitSHA) /\
  (log_error l = None -> exists b, BranchContainsCommit branch commitSHA = ok b).
Proof. apply refContainsCommit_spec. Qed.

(** The fetches of a remote check: one without credentials; a second one, with
    the caller's credentials or those of the environment, only when the remote
    refused the first for want of them; never more. An answer is about the
    reference that the last fetch updated. *)
Theorem RemoteBranchContainsCommit_spec env scheme load_key remotes Fetch remoteName branch commitSHA auth :
  let remote := TrimSpace remoteName in
  let b := TrimSpace branch in
  let F := Fetch remote ("+refs/heads/" +++ b +++ ":refs/remotes/" +++ remote +++ "/" +++ b) in
  let '(tr, r) := RemoteBranchContainsCommit env scheme load_key remotes Fetch remoteName branch commitSHA auth in
  (tr = [] \/ tr = [None] \/ exists a e, tr = [None; Some a] /\ F None = Some e /\ needs_auth e = true /\
     (auth = Some a \/ (auth = None /\ exists url, GetRepoURL remotes remote = ok url /\
        buildRemoteAuth env scheme load_key url = ok (Some a)))) /\
  (forall v, r = ok v -> exists last_auth ref, last tr = Some last_auth /\ fetch F last_auth = None /\
     lookup ("refs/remotes/" +++ remote +++ "/" +++ b) = ok ref /\
     (v = true <-> ref_hash ref = NewHash (TrimSpace commitSHA) \/
        exists l, Log (ref_hash ref) = ok l /\ contains_commit ref l (TrimSpace commitSHA))).
Proof.
  intros remote b F. unfold RemoteBranchContainsCommit. fold remote b F.
  repeat (case_decide; [by split; [left|]|]). destruct (GetRepoURL remotes remote) as [url|e] eqn:Eu; [|by split; [left|]].
  unfold fetchWithAuth. destruct (fetch F None) as [e|] eqn:Ef.
  2:{ split; [by right; left|]. intros v (ref & Er & Hv)%refContainsCommit_ok. by exists None, ref. }
  destruct (needs_auth e) eqn:En; [|by split; [right; left|]].
  assert (EF : F None = Some e) by (unfold fetch in Ef; destruct (F None) as [e'|]; [by destruct (errors_Is e' _)|done]).
  destruct (match auth with Some a => _ | None => _ end) as [[a|]|e'] eqn:Ea; [|by split; [right; left|]..].
  assert (Hauth : auth = Some a \/ (auth = None /\ exists url, GetRepoURL remotes remote = ok url /\
        buildRemoteAuth env scheme load_key url = ok (Some a))).
  { destruct auth as [a'|]; [injection Ea as ->; by left|]. right. split; [done|]. by exists url. }
  rewrite Eu in Hauth. destruct (fetch F (Some a)) as [e2|] eqn:Ef2.
  - split; [|done]. right. right. exists a, e. split_and!; [done|exact EF|exact En|exact Hauth].
  - split; [right; right; exists a, e; split_and!; [done|exact EF|exact En|exact Hauth]|]. intros v (ref & Er & Hv)%refContainsCommit_ok. by exists (Some a), ref.
Qed.

End commits.

(** ** Reading a file at a commit *)

Lemma resolveRepoRelativePath_inside r cwd path l :
  filepath_IsAbs (root r) = true -> inside (root r) path l -> resolveRepoRelativePath r (ok cwd) path = ok (rel_path l).
Proof.
  intros Hr Hin. pose proof Hin as [Hp El]. unfold resolveRepoRelativePath. cbv beta iota zeta delta [ok]. rewrite Hp.
  assert (Hc : inside (root r) (filepath_Clean path) l) by (split; [by apply Clean_IsAbs|by rewrite components_Clean]).
  destruct (Rel_spec (root r) (filepath_Clean path) Hr (proj1 Hc)) as (rel & -> & Hl & _).
  cbv beta iota zeta delta [ok]. rewrite (Hl l Hc), rel_path_stays; [done|].
  pose proof (components_plain path Hp) as Hpl. rewrite El in Hpl. apply Forall_app in Hpl. apply Hpl.
Qed.

(** A worktree that was added is gone when [ReadFileAtCommit] returns. *)
Lemma ReadFileAtCommit_cleans r getwd we read commit filePath dir c :
  let '(tr, _) := ReadFileAtCommit r getwd we read commit filePath in
  WorktreeAdd dir c ∈ tr -> we_mkdir we = ok dir /\ last tr = Some (RemoveAll dir).
Proof.
  unfold ReadFileAtCommit, CreateDetachedWorktree.
  repeat (case_decide; [by intros ?%elem_of_nil|]). destruct (resolveRepoRelativePath _ _ _); [|by intros ?%elem_of_nil].
  destruct (we_mkdir we) as [d|]; [|by intros ?%elem_of_nil].
  destruct (we_add we); rewrite ?elem_of_app; intros Hin; repeat (set_solver || (apply elem_of_cons in Hin as [[= -> ->]|Hin])); try done.
Qed.

(** The CLI reads the file that the resolver found: for a confined path,
    [ReadFileAtCommit] reads the same names below the worktree that it checked
    out at the commit, so inside the worktree's pipeline directory; and on every
    path an added worktree is removed. *)
Theorem ReadFileAtCommit_confined r stat cwd we read commit path dir :
  filepath_IsAbs (root r) = true -> confined stat (root r) path false -> TrimSpace path = path ->
  TrimSpace commit ≠ "" -> we = MkWorktreeEnv (ok dir) None -> filepath_IsAbs dir = true ->
  exists target l, inside (root r) path (DefaultPipelineDir :: l) /\ inside dir target (DefaultPipelineDir :: l) /\
    let '(tr, content) := ReadFileAtCommit r (ok cwd) we read commit path in
    tr = [WorktreeAdd dir (TrimSpace commit); ReadFile target; WorktreeRemove dir; WorktreePrune; RemoveAll dir] /\
    forall x, content = ok x <-> read target = ok x.
Proof.
  intros Hr (_ & _ & l & Hin & _) Htrim Hc -> Hd.
  assert (Hpl : Forall plain (DefaultPipelineDir :: l)).
  { pose proof Hin as [Hp El]. pose proof (components_plain path Hp) as Hpl. rewrite El in Hpl. apply Forall_app in Hpl. apply Hpl. }
  exists (filepath_Join dir (rel_path (DefaultPipelineDir :: l))), l. split; [done|]. split.
  { split; [by apply Join_IsAbs|]. unfold rel_path. rewrite decide_False by done. by apply components_Join_plain. }
  unfold ReadFileAtCommit. rewrite Htrim, decide_False, decide_False by (done || by destruct Hin as [Hp _]; intros ->).
  rewrite (resolveRepoRelativePath_inside _ _ _ _ Hr Hin). simpl. split; [done|]. intros x.
  destruct (read _); simpl; unfold ok; naive_solver.
Qed.

(** ** Witnesses *)

Definition demo_repo : Repository := MkRepository "/repo".
Definition demo_read (p : string) : res string :=
  if decide (p = "/tmp/wt/.pipelines/ci/build.yaml") then ok "stages: [build]" else err (ErrIs "no such file").

Lemma ReadFileAtCommit_confined_witness :
  exists target l, inside "/repo" "/repo/.pipelines/ci/build.yaml" (DefaultPipelineDir :: l) /\
    inside "/tmp/wt" target (DefaultPipelineDir :: l) /\
    let '(tr, content) := ReadFileAtCommit demo_repo (ok "/repo/src") (MkWorktreeEnv (ok "/tmp/wt") None) demo_read
      "abc" "/repo/.pipelines/ci/build.yaml" in
    tr = [WorktreeAdd "/tmp/wt" "abc"; ReadFile target; WorktreeRemove "/tmp/wt"; WorktreePrune; RemoveAll "/tmp/wt"] /\
    forall x, content = ok x <-> demo_read target = ok x.
Proof.
  apply (ReadFileAtCommit_confined demo_repo demo_stat "/repo/src" (MkWorktreeEnv (ok "/tmp/wt") None) demo_read "abc"
    "/repo/.pipelines/ci/build.yaml" "/tmp/wt"); [reflexivity| |vm_compute; reflexivity|discriminate|reflexivity|reflexivity].
  split; [vm_compute; reflexivity|]. split; [reflexivity|]. exists ["ci"; "build.yaml"]. split; [|discriminate].
  split; vm_compute; reflexivity.
Defined.

Definition demo_lookup (name : string) : res reference :=
  if decide (name = "refs/heads/main") then ok (MkRef (Some "main") "c3") else err (ErrIs "reference not found").
Definition demo_log (h : string) : res git_log := ok (MkLog ["c3"; "c2"; "c1"] None).

Lemma BranchContainsCommit_spec_witness :
  BranchContainsCommit id demo_lookup demo_log "main" "c1" = ok true /\
  (BranchContainsCommit id demo_lookup demo_log "main" "c9" = ok true <->
     contains_commit id (MkRef (Some "main") "c3") (MkLog ["c3"; "c2"; "c1"] None) "c9").
Proof.
  split.
  - apply (BranchContainsCommit_spec id demo_lookup demo_log "main" "c1" (MkRef (Some "main") "c3") (MkLog ["c3"; "c2"; "c1"] None));
      [reflexivity|reflexivity|]. right. right. right. left.
  - apply (BranchContainsCommit_spec id demo_lookup demo_log "main" "c9" (MkRef (Some "main") "c3") (MkLog ["c3"; "c2"; "c1"] None));
      reflexivity.
Defined.
