(* ===== verification/Graph.v ===== *)
(** * Dependency graphs

    The graph of a [needs] relation: job name to the names it needs. Shared by
    the verifier (cycle detection), the planner (topological order) and the
    orchestrator's stage state (progress). *)

From S2P Require Import Prelude.

Abbreviation graph := (gmap string (list string)).

(** [g[x]] of a Go map: a missing key reads as the empty slice. *)
Definition succs (g : graph) (x : string) : list string := default [] (g !! x).

Definition edge (g : graph) (x y : string) : Prop := y ∈ succs g x.

Definition acyclic (g : graph) : Prop := forall x, ~ tc (edge g) x x.

(** A closed walk, as the list of its vertices: each has an edge to the next,
    and the last one to the first. *)
Fixpoint chain (g : graph) (l : list string) : Prop :=
  match l with
  | x :: ((y :: _) as l') => edge g x y /\ chain g l'
  | _ => True
  end.

Definition is_cycle (g : graph) (c : list string) : Prop :=
  match c, last c with
  | x :: _, Some y => chain g c /\ edge g y x
  | _, _ => False
  end.

(** All names mentioned by the graph. *)
Definition vertices (g : graph) : list string := (map_to_list g).*1 ++ mjoin (map_to_list g).*2.

Lemma edge_dom g x y : edge g x y -> is_Some (g !! x).
Proof. unfold edge, succs. destruct (g !! x); simpl; [by eexists|]. by intros ?%elem_of_nil. Qed.

Lemma edge_vertices g x y : edge g x y -> y ∈ vertices g.
Proof.
  intros He. destruct (edge_dom _ _ _ He) as [l Hl]. unfold edge, succs in He. rewrite Hl in He.
  unfold vertices. apply elem_of_app. right. apply list_elem_of_join. exists l.
  split; [done|]. apply list_elem_of_fmap. exists (x, l). split; [done|]. by apply elem_of_map_to_list.
Qed.

Lemma dom_vertices g x : is_Some (g !! x) -> x ∈ vertices g.
Proof.
  intros [l Hl]. unfold vertices. apply elem_of_app. left. apply list_elem_of_fmap.
  exists (x, l). split; [done|]. by apply elem_of_map_to_list.
Qed.

(** In an acyclic relation of finite range a nonempty set of vertices has a
    member none of whose successors is in the set: a set in which every member
    has a successor is empty. *)
Lemma no_trap (R : relation string) (range : list string) (P : string -> Prop) :
  (forall x, ~ tc R x x) -> (forall x y, R x y -> y ∈ range) ->
  (forall x, P x -> exists y, R x y /\ P y) -> forall x, ~ P x.
Proof.
  intros Ha Hr Hstep x. assert (Hsn : sn R x).
  { apply tc_finite_sn; [exact Ha|]. exists range. induction 1; eauto. }
  induction Hsn as [x _ IH]. intros Hx. destruct (Hstep x Hx) as (y & He & Hy). by eapply IH.
Qed.

Lemma chain_app_inv g l k : chain g (l ++ k) -> chain g l /\ chain g k.
Proof.
  induction l as [|x l IH]; simpl; [done|]. destruct l as [|y l]; simpl in *.
  - destruct k; naive_solver.
  - intros [He [Hl Hk]%IH]. naive_solver.
Qed.

Lemma chain_snoc g l x y : last l = Some x -> chain g l -> edge g x y -> chain g (l ++ [y]).
Proof.
  induction l as [|a l IH]; [done|]. destruct l as [|b l].
  - simpl. naive_solver.
  - intros Hl [Hab Hc] He. split; [done|]. by apply IH.
Qed.

Lemma chain_rtc g x l y : last (x :: l) = Some y -> chain g (x :: l) -> rtc (edge g) x y.
Proof.
  revert x. induction l as [|z l IH]; intros x; simpl.
  - intros [= ->] _. constructor.
  - intros Hl [He Hc]. econstructor; [exact He|]. by apply IH.
Qed.

Lemma is_cycle_tc g c x : is_cycle g c -> head c = Some x -> tc (edge g) x x.
Proof.
  unfold is_cycle. destruct c as [|y l]; [done|]. destruct (last (y :: l)) as [z|] eqn:Hl; [|done].
  intros [Hc He] [= ->]. eapply tc_rtc_l; [by eapply chain_rtc|]. by constructor.
Qed.

Lemma is_cycle_not_acyclic g c : is_cycle g c -> ~ acyclic g.
Proof.
  intros Hc Ha. destruct c as [|x l]; [done|]. by eapply Ha, is_cycle_tc.
Qed.
