(* ===== verification/CycleCheck.v ===== *)
(** * Cycle detection (checkNoCycles of internal/common/verifier)

    The recursive [dfs] closure and its driver loop. [visited] and [recStack]
    are Go maps from names to booleans, of which only the [true] entries
    matter: sets. The driver ranges over the graph's keys in an arbitrary
    order, a parameter. Recursion is on fuel; [S (length (vertices g))] is
    always enough, because every recursive call visits a new vertex.

    The main results: the search never runs out of fuel, it reports a cycle
    exactly when the graph has one, and the cycle it reports is a real one. *)

From S2P Require Import Prelude Graph.

Record dfs_state := MkDfs { visited : gset string; recStack : gset string }.

(** The first index of [neighbor] in [path], 0 when absent. *)
Fixpoint first_index (x : string) (path : list string) : nat :=
  match path with
  | [] => 0
  | y :: path' => if decide (y = x) then 0 else S (first_index x path')
  end.

(** [path[cycleStart:]], where the search loop leaves [cycleStart] at 0 when
    the neighbor is not on the path. *)
Definition cycle_from (neighbor : string) (path : list string) : list string :=
  if decide (neighbor ∈ path) then drop (first_index neighbor path) path else path.

(** [None] is "out of fuel"; the inner option is the [(cycle, found)] result. *)
Fixpoint dfs (fuel : nat) (g : graph) (job : string) (path : list string) (st : dfs_state)
    : option (dfs_state * option (list string)) :=
  match fuel with
  | 0 => None
  | S fuel' =>
    let path' := path ++ [job] in
    (fix loop (neighbors : list string) (st : dfs_state) :=
       match neighbors with
       | [] => Some (MkDfs (visited st) (recStack st ∖ {[job]}), None)
       | neighbor :: rest =>
         if decide (neighbor ∈ visited st) then
           if decide (neighbor ∈ recStack st) then Some (st, Some (cycle_from neighbor path'))
           else loop rest st
         else
           match dfs fuel' g neighbor path' st with
           | None => None
           | Some (st', Some cycle) => Some (st', Some cycle)
           | Some (st', None) => loop rest st'
           end
       end) (succs g job) (MkDfs ({[job]} ∪ visited st) ({[job]} ∪ recStack st))
  end.

(** [for job := range graph { if !visited[job] { if cycle, found := dfs(job, nil); ... } } }]. *)
Fixpoint search (fuel : nat) (g : graph) (order : list string) (st : dfs_state)
    : option (option (list string)) :=
  match order with
  | [] => Some None
  | job :: rest =>
    if decide (job ∈ visited st) then search fuel g rest st
    else
      match dfs fuel g job [] st with
      | None => None
      | Some (_, Some cycle) => Some (Some cycle)
      | Some (st', None) => search fuel g rest st'
      end
  end.

Definition dfs_fuel (g : graph) : nat := S (length (vertices g)).

Definition find_cycle (g : graph) (order : list string) : option (option (list string)) :=
  search (dfs_fuel g) g order (MkDfs ∅ ∅).

(** ** The loop as a definition of its own *)
Fixpoint dfs_loop (fuel' : nat) (g : graph) (job : string) (path' : list string)
    (neighbors : list string) (st : dfs_state) : option (dfs_state * option (list string)) :=
  match neighbors with
  | [] => Some (MkDfs (visited st) (recStack st ∖ {[job]}), None)
  | neighbor :: rest =>
    if decide (neighbor ∈ visited st) then
      if decide (neighbor ∈ recStack st) then Some (st, Some (cycle_from neighbor path'))
      else dfs_loop fuel' g job path' rest st
    else
      match dfs fuel' g neighbor path' st with
      | None => None
      | Some (st', Some cycle) => Some (st', Some cycle)
      | Some (st', None) => dfs_loop fuel' g job path' rest st'
      end
  end.

Lemma dfs_S fuel' g job path st :
  dfs (S fuel') g job path st =
  dfs_loop fuel' g job (path ++ [job]) (succs g job)
    (MkDfs ({[job]} ∪ visited st) ({[job]} ∪ recStack st)).
Proof.
  cbn [dfs]. generalize (MkDfs ({[job]} ∪ visited st) ({[job]} ∪ recStack st)).
  induction (succs g job) as [|n l IH]; intros st'; [done|]. cbn [dfs_loop].
  repeat case_decide; [done|apply IH|].
  destruct (dfs fuel' g n _ st') as [[st'' [c|]]|]; [done|apply IH|done].
Qed.

(** ** Finished vertices

    A vertex is finished when it is visited and no longer on the stack. The
    finished set is closed under successors, and no finished vertex lies on a cycle. *)
Definition finished (st : dfs_state) (x : string) : Prop := x ∈ visited st /\ x ∉ recStack st.

Definition settled (g : graph) (st : dfs_state) : Prop :=
  recStack st ⊆ visited st /\
  (forall x y, finished st x -> edge g x y -> finished st y) /\
  (forall x, finished st x -> ~ tc (edge g) x x).

Lemma finished_tc g st x y :
  settled g st -> finished st x -> tc (edge g) x y -> finished st y.
Proof. intros (_ & Hc & _) Hx Ht. revert Hx. induction Ht; eauto. Qed.

(** Entering a vertex changes no finished vertex. *)
Lemma settled_enter g st job :
  job ∉ visited st -> settled g st ->
  settled g (MkDfs ({[job]} ∪ visited st) ({[job]} ∪ recStack st)).
Proof.
  intros Hj Hs. pose proof Hs as (Hsub & Hc & Ha).
  assert (Hf : forall x, finished (MkDfs ({[job]} ∪ visited st) ({[job]} ∪ recStack st)) x <-> finished st x).
  { intros x. unfold finished. simpl. set_solver. }
  split_and!; [simpl; set_solver| |].
  - intros x y. rewrite !Hf. apply Hc.
  - intros x. rewrite Hf. apply Ha.
Qed.

(** Leaving a vertex all of whose successors are finished makes it finished. *)
Lemma settled_leave g st job :
  job ∈ recStack st -> settled g st -> (forall y, edge g job y -> finished st y) ->
  settled g (MkDfs (visited st) (recStack st ∖ {[job]})).
Proof.
  intros Hj Hs Hy. pose proof Hs as (Hsub & Hc & Ha).
  assert (Hf : forall x, finished (MkDfs (visited st) (recStack st ∖ {[job]})) x <->
                         finished st x \/ x = job).
  { intros x. unfold finished. simpl. destruct (decide (x = job)); set_solver. }
  split_and!; [simpl; set_solver| |].
  - intros x y. rewrite !Hf. intros [Hx| ->] He; left; eauto.
  - intros x. rewrite Hf. intros [Hx| ->] Ht; [by eapply Ha|].
    inversion Ht as [? ? He|? z ? He Hz]; subst.
    + by destruct (Hy job He).
    + assert (finished st job) as [_ ?]; [|done]. eapply finished_tc; eauto.
Qed.

(** ** Fuel *)

(** Vertices not visited yet: what the fuel is measured against. *)
Definition unvisited (g : graph) (st : dfs_state) : nat :=
  length (filter (fun x => x ∉ visited st) (vertices g)).

Lemma filter_length_mono {A} (P Q : A -> Prop) `{!forall x, Decision (P x), !forall x, Decision (Q x)} l :
  (forall x, P x -> Q x) -> length (filter P l) <= length (filter Q l).
Proof.
  intros HPQ. induction l as [|x l IH]; [done|]. rewrite !filter_cons.
  repeat case_decide; simpl; naive_solver lia.
Qed.

Lemma filter_length_lt {A} (P Q : A -> Prop) `{!forall x, Decision (P x), !forall x, Decision (Q x)} l x :
  (forall y, P y -> Q y) -> x ∈ l -> Q x -> ~ P x -> length (filter P l) < length (filter Q l).
Proof.
  intros HPQ Hin HQ HP. induction l as [|y l IH]; [by apply elem_of_nil in Hin|].
  apply elem_of_cons in Hin as [<-|Hin]; rewrite !filter_cons.
  - rewrite decide_False, decide_True by done. simpl.
    pose proof (filter_length_mono P Q l HPQ). lia.
  - specialize (IH Hin). repeat case_decide; simpl; naive_solver lia.
Qed.

Lemma unvisited_mono g st st' : visited st ⊆ visited st' -> unvisited g st' <= unvisited g st.
Proof. intros Hv. apply filter_length_mono. set_solver. Qed.

Lemma unvisited_visit g st st' job :
  visited st ⊆ visited st' -> job ∈ vertices g -> job ∉ visited st -> job ∈ visited st' ->
  unvisited g st' < unvisited g st.
Proof. intros Hv Hj Hn Hy. eapply filter_length_lt with (x := job); set_solver. Qed.

(** ** Correctness of the search *)

Lemma first_index_spec x path :
  x ∈ path -> exists rest, drop (first_index x path) path = x :: rest.
Proof.
  induction path as [|y path IH]; intros Hin; [by apply elem_of_nil in Hin|]. simpl.
  case_decide as Hd; [subst; by eexists|]. apply IH. set_solver.
Qed.

Lemma last_drop_cons {A} i (l : list A) x rest :
  drop i l = x :: rest -> last l = last (x :: rest).
Proof.
  intros E. rewrite <- (take_drop i l), E, last_app.
  destruct (last (x :: rest)) eqn:Hl; [done|]. by apply last_None in Hl.
Qed.

(** Closing an edge back to a vertex of the path gives a cycle. *)
Lemma is_cycle_from g path job neighbor :
  chain g path -> last path = Some job -> edge g job neighbor -> neighbor ∈ path ->
  is_cycle g (cycle_from neighbor path).
Proof.
  intros Hc Hl He Hin. unfold cycle_from. rewrite decide_True by done.
  destruct (first_index_spec _ _ Hin) as [rest E].
  pose proof (last_drop_cons _ _ _ _ E) as Hlast. rewrite E. unfold is_cycle.
  rewrite <- Hlast, Hl. split; [|done]. rewrite <- E.
  rewrite <- (take_drop (first_index neighbor path) path) in Hc. by apply chain_app_inv in Hc as [_ ?].
Qed.

(** What a call leaves behind: either a real cycle, or a settled state with
    the same stack in which the job has been visited. *)
Definition dfs_post (g : graph) (stack : gset string) (st st' : dfs_state)
    (r : option (list string)) : Prop :=
  match r with
  | Some c => is_cycle g c
  | None => settled g st' /\ visited st ⊆ visited st' /\ recStack st' = stack
  end.

Definition dfs_ok (g : graph) (fuel : nat) : Prop := forall job path st,
  job ∉ visited st -> job ∈ vertices g -> settled g st ->
  recStack st = list_to_set path -> chain g (path ++ [job]) -> unvisited g st < fuel ->
  exists st' r, dfs fuel g job path st = Some (st', r) /\
    dfs_post g (recStack st) (MkDfs ({[job]} ∪ visited st) ∅) st' r.

Lemma dfs_loop_ok g fuel' job path' neighbors st :
  dfs_ok g fuel' -> settled g st -> job ∈ recStack st ->
  recStack st = list_to_set path' -> last path' = Some job -> chain g path' ->
  (forall y, y ∈ neighbors -> edge g job y) ->
  (forall y, edge g job y -> y ∈ neighbors \/ finished st y) ->
  unvisited g st < fuel' ->
  exists st' r, dfs_loop fuel' g job path' neighbors st = Some (st', r) /\
    dfs_post g (recStack st ∖ {[job]}) st st' r.
Proof.
  intros Hok. revert st. induction neighbors as [|n rest IH]; intros st Hs Hj Hrec Hl Hc He Hf Hu; simpl.
  - eexists _, None. split; [done|]. split_and!; [|done|done].
    apply settled_leave; [done..|]. intros y Hy. destruct (Hf y Hy) as [Hin|]; [by apply elem_of_nil in Hin|done].
  - case_decide as Hv; [case_decide as Hr|].
    + eexists _, (Some _). split; [done|]. eapply is_cycle_from; [done..| |]; [apply He; set_solver|].
      rewrite Hrec in Hr. by apply elem_of_list_to_set in Hr.
    + apply IH; try done; [set_solver|]. intros y Hy.
      destruct (Hf y Hy) as [[->|Hin]%elem_of_cons|]; [right; done|by left|by right].
    + destruct (Hok n path' st) as (st' & r & -> & Hp); try done.
      { eapply edge_vertices, He. set_solver. }
      { eapply chain_snoc; [done..|]. apply He. set_solver. }
      destruct r as [c|]; [by eexists _, (Some c)|]. destruct Hp as (Hs' & Hv' & Hr'). simpl in Hv'.
      destruct (IH st') as (st'' & r & -> & Hp); try done.
      * by rewrite Hr'.
      * by rewrite Hr'.
      * set_solver.
      * intros y Hy. pose proof (proj1 Hs) as Hsub. unfold finished in *. rewrite Hr'.
        destruct (Hf y Hy) as [[->|Hin]%elem_of_cons|]; [right; set_solver|by left|right; set_solver].
      * eapply Nat.le_lt_trans; [apply unvisited_mono|done]. set_solver.
      * eexists _, r. split; [done|]. destruct r as [c|]; [done|].
        destruct Hp as (? & ? & ?). rewrite Hr' in *. split_and!; [done|set_solver|done].
Qed.

Lemma dfs_correct g fuel : dfs_ok g fuel.
Proof.
  induction fuel as [|fuel IH]; intros job path st Hv Hj Hs Hrec Hc Hu; [lia|].
  rewrite dfs_S. pose proof (proj1 Hs) as Hsub.
  destruct (dfs_loop_ok g fuel job (path ++ [job]) (succs g job)
              (MkDfs ({[job]} ∪ visited st) ({[job]} ∪ recStack st)))
    as (st' & r & -> & Hp); simpl; try done.
  - by apply settled_enter.
  - set_solver.
  - rewrite list_to_set_app_L, Hrec. simpl. set_solver.
  - by rewrite last_snoc.
  - by left.
  - eapply Nat.lt_le_trans; [apply (unvisited_visit g st _ job); simpl; set_solver|lia].
  - eexists _, r. split; [done|]. destruct r as [c|]; [done|].
    destruct Hp as (? & Hvis & Hr). simpl in *. split_and!; [done|done|].
    rewrite Hr. apply leibniz_equiv. set_solver.
Qed.

Lemma search_ok g fuel order st :
  length (vertices g) < fuel ->
  (forall x, x ∈ order -> x ∈ vertices g) ->
  settled g st -> recStack st = ∅ ->
  (forall x, is_Some (g !! x) -> x ∈ order \/ x ∈ visited st) ->
  exists r, search fuel g order st = Some r /\
    match r with Some c => is_cycle g c | None => acyclic g end.
Proof.
  intros Hfuel. revert st. induction order as [|job rest IH]; intros st Ho Hs Hrec Hd; simpl.
  - exists None. split; [done|]. intros x Hx. pose proof Hs as (_ & _ & Ha). eapply Ha; [|exact Hx].
    split; [|set_solver]. assert (is_Some (g !! x)) as Hg.
    { inversion Hx; eauto using edge_dom. }
    destruct (Hd x Hg) as [Hin|]; [by apply elem_of_nil in Hin|done].
  - case_decide as Hv; [apply IH; set_solver|].
    destruct (dfs_correct g fuel job [] st) as (st' & r & -> & Hp); try done.
    + apply Ho. set_solver.
    + unfold unvisited. pose proof (length_filter (fun x => x ∉ visited st) (vertices g)). lia.
    + destruct r as [c|]; [by eexists (Some c)|]. destruct Hp as (Hs' & Hv' & Hr'). simpl in *.
      apply IH; [set_solver|done|set_solver|]. intros x Hx. specialize (Hd x Hx). set_solver.
Qed.

(** The search returns (the fuel is enough) and decides acyclicity, whatever
    order the runtime iterates the graph in. *)
Lemma find_cycle_correct g order :
  iteration_order g order ->
  exists r, find_cycle g order = Some r /\
    match r with Some c => is_cycle g c | None => acyclic g end.
Proof.
  intros Ho. unfold find_cycle. apply search_ok; simpl; [unfold dfs_fuel; lia| | |done|].
  - intros x Hx. apply dom_vertices. by eapply iteration_order_elem_of.
  - split_and!; [set_solver| |]; intros x; unfold finished; simpl; set_solver.
  - intros x Hx. left. by eapply iteration_order_elem_of.
Qed.
