(* ===== verification/Parser.v ===== *)
(** * The pipeline parser (internal/common/parser)

    [buildPipeline] and its helpers over yaml.v3 trees, the job-node listing
    shared with the verifier, and [Parse] over the two third-party inputs it
    has (the YAML decoder and the file reader). Theorems: no panic on the trees
    yaml.v3 builds, the job list is exactly the non-reserved keys in document
    order, and a rendered pipeline parses back to itself. *)

From S2P Require Import Prelude GoStrings Models.

Definition IsReservedTopLevelKey (key : string) : bool :=
  bool_decide (key = "name" \/ key = "pipeline" \/ key = "stages" \/ key = "jobs").

Definition findMappingNode (root : option yaml_node) (key : string) : go (option yaml_node) :=
  match root with
  | None => Ret None
  | Some n => if decide (nKind n = MappingNode) then find_value key (nContent n) else Ret None
  end.

(** One entry of the [stages] sequence: a scalar, a mapping with a name, or ignored. *)
Definition parseStageEntry (entry : yaml_node) : go (list Stage) :=
  match nKind entry with
  | ScalarNode => Ret [MkStage (nValue entry)]
  | MappingNode =>
    nameNode ← findMappingNode (Some entry) "name";
    Ret (match nameNode with Some n => [MkStage (nValue n)] | None => [] end)
  | _ => Ret []
  end.

Definition parseStages (node : option yaml_node) : go (list Stage) :=
  match node with
  | None => Ret []
  | Some n =>
    if decide (nKind n = SequenceNode)
    then l ← mapM parseStageEntry (nContent n); Ret (mjoin l) else Ret []
  end.

(** Appends the scalar string(s) of a scalar or sequence node. *)
Definition appendStringValues (existing : list string) (node : yaml_node) : list string :=
  match nKind node with
  | ScalarNode => existing ++ [nValue node]
  | SequenceNode => existing ++ (nValue <$> filter (fun i => nKind i = ScalarNode) (nContent node))
  | _ => existing
  end.

Definition setStage (j : Job) (s : string) : Job :=
  MkJob (Job_Name j) s (Job_Image j) (Job_Script j) (Job_Needs j) (Job_Failures j).
Definition setImage (j : Job) (s : string) : Job :=
  MkJob (Job_Name j) (Job_Stage j) s (Job_Script j) (Job_Needs j) (Job_Failures j).
Definition setScript (j : Job) (l : list string) : Job :=
  MkJob (Job_Name j) (Job_Stage j) (Job_Image j) l (Job_Needs j) (Job_Failures j).
Definition setNeeds (j : Job) (l : list string) : Job :=
  MkJob (Job_Name j) (Job_Stage j) (Job_Image j) (Job_Script j) l (Job_Failures j).
Definition setFailures (j : Job) (b : bool) : Job :=
  MkJob (Job_Name j) (Job_Stage j) (Job_Image j) (Job_Script j) (Job_Needs j) b.

(** The [switch fieldKey] of [parseJob]: the job under construction and the
    script lines collected so far. *)
Definition parseField (st : Job * list string) (kv : yaml_node * yaml_node) : Job * list string :=
  let '(job, scriptLines) := st in
  let '(fieldKey, fieldValue) := (nValue kv.1, kv.2) in
  if decide (fieldKey = "stage") then
    (if decide (nKind fieldValue = ScalarNode) then setStage job (nValue fieldValue) else job, scriptLines)
  else if decide (fieldKey = "image") then
    (if decide (nKind fieldValue = ScalarNode) then setImage job (nValue fieldValue) else job, scriptLines)
  else if decide (fieldKey = "script") then (job, appendStringValues scriptLines fieldValue)
  else if decide (fieldKey = "needs") then
    (setNeeds job (appendStringValues (Job_Needs job) fieldValue), scriptLines)
  else if decide (fieldKey = "failures") then
    (if decide (nKind fieldValue = ScalarNode /\ nTag fieldValue = "!!bool")
     then setFailures job (bool_decide (nValue fieldValue = "true")) else job, scriptLines)
  else (job, scriptLines).

(** One entry of a job's sequence; entries that are not mappings are skipped. *)
Definition parseEntry (st : Job * list string) (entry : yaml_node) : go (Job * list string) :=
  if decide (nKind entry = MappingNode) then
    l ← pairs (nContent entry); Ret (foldl parseField st l)
  else Ret st.

Fixpoint parseEntries (st : Job * list string) (entries : list yaml_node) : go (Job * list string) :=
  match entries with
  | [] => Ret st
  | e :: rest => st' ← parseEntry st e; parseEntries st' rest
  end.

Definition emptyJob (name : string) : Job := MkJob name "" "" [] [] false.

Definition parseJob (jobName : string) (node : yaml_node) : go Job :=
  if decide (nKind node = SequenceNode) then
    st ← parseEntries (emptyJob jobName, []) (nContent node);
    Ret (setScript st.1 st.2)
  else Ret (emptyJob jobName).

Definition isJobPair (kv : yaml_node * yaml_node) : Prop :=
  IsReservedTopLevelKey (nValue kv.1) = false.
#[export] Instance isJobPair_dec kv : Decision (isJobPair kv).
Proof. unfold isJobPair. apply _. Defined.

Definition parseJobs (root : yaml_node) : go (list Job) :=
  if decide (nKind root = MappingNode) then
    l ← pairs (nContent root);
    mapM (fun kv => parseJob (nValue kv.1) kv.2) (filter isJobPair l)
  else Ret [].

Definition getDefaultStages : list Stage := [MkStage "build"; MkStage "test"; MkStage "docs"].

(** The first top-level key that the format forbids. *)
Definition forbiddenKey (keys : list yaml_node) : option yaml_node :=
  snd <$> list_find (fun k => nValue k = "name" \/ nValue k = "jobs") keys.

Definition buildPipeline (root : yaml_node) : go (res Pipeline) :=
  match nKind root, nContent root with
  | DocumentNode, content :: _ =>
    if decide (nKind content = MappingNode) then
      match forbiddenKey (mapping_keys (nContent content)) with
      | Some key =>
        Ret (err (ErrNew "pipeline format does not allow top-level `%s` key (line %d)"
                         [nValue key; Itoa (Line (nLoc key))]))
      | None =>
        pipelineNode ← findMappingNode (Some content) "pipeline";
        nameNode ← findMappingNode pipelineNode "name";
        stagesNode ← findMappingNode (Some content) "stages";
        stages ← parseStages stagesNode;
        jobs ← parseJobs content;
        Ret (ok (MkPipeline
          (match nameNode with Some n => nValue n | None => "" end)
          (match stages with [] => getDefaultStages | _ => stages end)
          jobs))
      end
    else Ret (err (ErrNew "root must be a mapping" []))
  | _, _ => Ret (err (ErrNew "invalid YAML document" []))
  end.

(** [JobNode]s: key and value nodes of each job, in document order. *)
Record JobNode := MkJobNode { JN_Name : string; JN_Key : yaml_node; JN_Value : yaml_node }.

Definition GetJobNodes (rootNode : yaml_node) : go (list JobNode) :=
  match nKind rootNode, nContent rootNode with
  | DocumentNode, content :: _ =>
    if decide (nKind content = MappingNode) then
      l ← pairs (nContent content);
      Ret ((fun kv => MkJobNode (nValue kv.1) kv.1 kv.2) <$> filter isJobPair (l : list (yaml_node * yaml_node)))
    else Ret []
  | _, _ => Ret []
  end.

(** [Parser]: a file path or inline content. The YAML decoder ([yaml.Unmarshal]
    into a node) and the file reader are third-party and operating-system code. *)
Record Parser := MkParser { Parser_filePath : string; Parser_content : string }.
Definition NewParser (filePath : string) : Parser := MkParser filePath "".
Definition NewParserFromContent (content : string) : Parser := MkParser "" content.
Definition GetFilePath (p : Parser) : string := Parser_filePath p.

Section Parse.
Context (yaml_Unmarshal : string -> res yaml_node) (os_ReadFile : string -> res string).

Definition parseYAMLData (data : string) : go (res (Pipeline * yaml_node)) :=
  match yaml_Unmarshal data with
  | inr e => Ret (err (ErrWrap "failed to parse YAML: %w" [] e))
  | inl rootNode =>
    r ← buildPipeline rootNode;
    Ret (match r with inl p => ok (p, rootNode) | inr e => err e end)
  end.

Definition Parse (p : Parser) : go (res (Pipeline * yaml_node)) :=
  if decide (Parser_content p = "") then
    match os_ReadFile (Parser_filePath p) with
    | inr e => Ret (err (ErrWrap "failed to read file: %w" [] e))
    | inl data => parseYAMLData data
    end
  else parseYAMLData (Parser_content p).
End Parse.

(** ** Specification: the canonical document of a pipeline *)

Definition no_loc : Location := MkLoc 1 1.
Definition scalar (s : string) : yaml_node := MkNode ScalarNode "!!str" s no_loc [].
Definition scalar_bool (b : bool) : yaml_node :=
  MkNode ScalarNode "!!bool" (if b then "true" else "false") no_loc [].
Definition sequence (l : list yaml_node) : yaml_node := MkNode SequenceNode "!!seq" "" no_loc l.
Definition interleave (l : list (yaml_node * yaml_node)) : list yaml_node :=
  l ≫= fun kv => [kv.1; kv.2].
Definition mapping (l : list (yaml_node * yaml_node)) : yaml_node :=
  MkNode MappingNode "!!map" "" no_loc (interleave l).

Definition render_job (j : Job) : yaml_node := sequence
  [ mapping [(scalar "stage", scalar (Job_Stage j))];
    mapping [(scalar "image", scalar (Job_Image j))];
    mapping [(scalar "script", sequence (scalar <$> Job_Script j))];
    mapping [(scalar "needs", sequence (scalar <$> Job_Needs j))];
    mapping [(scalar "failures", scalar_bool (Job_Failures j))] ].

Definition render_entries (p : Pipeline) : list (yaml_node * yaml_node) :=
  (scalar "pipeline", mapping [(scalar "name", scalar (Pipeline_Name p))])
  :: (scalar "stages", sequence ((fun s => scalar (Stage_Name s)) <$> Pipeline_Stages p))
  :: ((fun j => (scalar (Job_Name j), render_job j)) <$> Pipeline_Jobs p).

Definition render (p : Pipeline) : yaml_node :=
  MkNode DocumentNode "" "" no_loc [mapping (render_entries p)].

(** ** Lemmas *)

Lemma interleave_cons k v l : interleave ((k, v) :: l) = k :: v :: interleave l.
Proof. reflexivity. Qed.

Lemma pairs_interleave l : pairs (interleave l) = Ret l.
Proof. induction l as [|[k v] l IH]; [done|]. rewrite interleave_cons. simpl. by rewrite IH. Qed.

Lemma mapping_keys_interleave l : mapping_keys (interleave l) = l.*1.
Proof.
  induction l as [|[k v] l IH]; [done|]. rewrite interleave_cons. simpl. by f_equal.
Qed.

Lemma find_value_interleave_eq key k v l :
  nValue k = key -> find_value key (interleave ((k, v) :: l)) = Ret (Some v).
Proof. intros Hk. rewrite interleave_cons. simpl. by rewrite decide_True. Qed.

Lemma find_value_interleave_ne key k v l :
  nValue k ≠ key -> find_value key (interleave ((k, v) :: l)) = find_value key (interleave l).
Proof. intros Hk. rewrite interleave_cons. simpl. by rewrite decide_False. Qed.

Lemma mapM_go_total {A B} (f : A -> go B) l :
  (forall x, x ∈ l -> exists y, f x = Ret y) -> exists ys, mapM f l = Ret ys.
Proof.
  induction l as [|x l IH]; intros Hf; [by eexists|]. simpl.
  destruct (Hf x) as [y Hy]; [set_solver|]. rewrite Hy. simpl.
  destruct IH as [ys Hys]; [set_solver|]. rewrite Hys. by eexists.
Qed.

Lemma mapM_go_Forall2 {A B} (f : A -> go B) l ys :
  mapM f l = Ret ys -> Forall2 (fun x y => f x = Ret y) l ys.
Proof.
  revert ys. induction l as [|x l IH]; simpl; intros ys E; go_inv; [constructor|].
  simpl in *. go_inv. constructor; auto.
Qed.

Lemma findMappingNode_wf root key :
  (forall n, root = Some n -> wf_node n) ->
  exists o, findMappingNode root key = Ret o /\ (forall n, o = Some n -> wf_node n).
Proof.
  intros Hwf. destruct root as [n|]; simpl; [|by eexists]. specialize (Hwf n eq_refl).
  case_decide; [|by eexists]. destruct (find_value_even key (nContent n)) as [o Ho].
  { by apply wf_mapping. }
  exists o. split; [done|]. intros m ->. apply find_value_elem in Ho. by eapply wf_content.
Qed.

Lemma parseEntries_wf st l : Forall wf_node l -> exists st', parseEntries st l = Ret st'.
Proof.
  intros Hl. revert st. induction Hl as [|e l He _ IH]; intros st; simpl; [by eexists|].
  unfold parseEntry. case_decide; simpl; [|apply IH].
  destruct (pairs_even (nContent e)) as [ps ->]; [by apply wf_mapping|]. apply IH.
Qed.

Lemma wf_Forall_content n : wf_node n -> Forall wf_node (nContent n).
Proof. by intros [????? _ HF]. Qed.

Lemma parseJob_wf name n : wf_node n -> exists j, parseJob name n = Ret j.
Proof.
  intros Hn. unfold parseJob. case_decide; [|by eexists].
  destruct (parseEntries_wf (emptyJob name, []) (nContent n)) as [st ->]; [|by eexists].
  by apply wf_Forall_content.
Qed.

Lemma parseStages_wf o : (forall n, o = Some n -> wf_node n) -> exists l, parseStages o = Ret l.
Proof.
  intros Hwf. destruct o as [n|]; simpl; [|by eexists]. case_decide; [|by eexists].
  destruct (mapM_go_total parseStageEntry (nContent n)) as [l ->]; [|by eexists].
  intros e He. assert (wf_node e) as Hw by (eapply wf_content; eauto).
  unfold parseStageEntry. destruct (nKind e); try by eexists.
  destruct (findMappingNode_wf (Some e) "name") as (o & -> & _); [naive_solver|]. by eexists.
Qed.

Lemma parseJobs_wf n : wf_node n -> exists l, parseJobs n = Ret l.
Proof.
  intros Hn. unfold parseJobs. case_decide; [|by eexists].
  destruct (pairs_even (nContent n)) as [ps Hps]; [by apply wf_mapping|]. rewrite Hps. simpl.
  apply mapM_go_total. intros [k v] [_ Hin]%list_elem_of_filter.
  apply parseJob_wf. eapply wf_content; [done|]. by eapply pairs_elem in Hin as [_ ?].
Qed.

Lemma parseEntries_name st l st' :
  parseEntries st l = Ret st' -> Job_Name st'.1 = Job_Name st.1.
Proof.
  revert st. induction l as [|e l IH]; simpl; intros st E; go_inv; [done|].
  apply IH in E. rewrite E. unfold parseEntry in *. case_decide; go_inv; [|done].
  match goal with |- context [foldl _ _ ?l] => generalize l end. intros ps. clear.
  revert st. induction ps as [|kv ps IH]; intros [job sl]; [done|]. simpl. rewrite IH.
  unfold parseField. repeat (case_decide; [by repeat case_decide|]). done.
Qed.

Lemma parseJob_name name n j : parseJob name n = Ret j -> Job_Name j = name.
Proof.
  unfold parseJob. case_decide; intros E; go_inv; [|done]. simpl. by eapply parseEntries_name in H0.
Qed.

Lemma buildPipeline_jobs root p :
  buildPipeline root = Ret (ok p) ->
  exists content rest, nContent root = content :: rest /\ nKind root = DocumentNode /\
    nKind content = MappingNode /\ parseJobs content = Ret (Pipeline_Jobs p).
Proof.
  unfold buildPipeline. destruct (nKind root) eqn:Hk; try done.
  destruct (nContent root) as [|content rest]; [done|]. case_decide as Hm; [|done].
  destruct (forbiddenKey _); [done|]. intros E. go_inv. simplify_eq/=. by eauto 10.
Qed.

Lemma append_scalars existing l :
  appendStringValues existing (sequence (scalar <$> l)) = existing ++ l.
Proof.
  unfold appendStringValues. simpl. f_equal. induction l as [|x l IH]; [done|].
  rewrite fmap_cons, filter_cons_True by done. simpl. by f_equal.
Qed.

Lemma parseEntry_single st k v :
  parseEntry st (mapping [(scalar k, v)]) = Ret (parseField st (scalar k, v)).
Proof. reflexivity. Qed.

Lemma parseField_stage j sl x :
  parseField (j, sl) (scalar "stage", scalar x) = (setStage j x, sl).
Proof. reflexivity. Qed.

Lemma parseField_image j sl x :
  parseField (j, sl) (scalar "image", scalar x) = (setImage j x, sl).
Proof. reflexivity. Qed.

Lemma parseField_script j sl l :
  parseField (j, sl) (scalar "script", sequence (scalar <$> l)) = (j, sl ++ l).
Proof. unfold parseField. simpl. by rewrite append_scalars. Qed.

Lemma parseField_needs j sl l :
  parseField (j, sl) (scalar "needs", sequence (scalar <$> l)) = (setNeeds j (Job_Needs j ++ l), sl).
Proof. unfold parseField. simpl. by rewrite append_scalars. Qed.

Lemma parseField_failures j sl b :
  parseField (j, sl) (scalar "failures", scalar_bool b) = (setFailures j b, sl).
Proof. by destruct b. Qed.

Lemma parse_render_job j : parseJob (Job_Name j) (render_job j) = Ret j.
Proof.
  destruct j as [name stage image script needs failures].
  unfold parseJob, render_job. cbn [nKind sequence]. rewrite decide_True by done.
  cbn [nContent sequence parseEntries Job_Name Job_Stage Job_Image Job_Script Job_Needs Job_Failures].
  repeat (rewrite parseEntry_single; cbn [mbind go_bind]).
  by rewrite parseField_stage, parseField_image, parseField_script, parseField_needs, parseField_failures.
Qed.

Lemma parse_render_jobs js :
  mapM (fun kv => parseJob (nValue kv.1) kv.2) ((fun j => (scalar (Job_Name j), render_job j)) <$> js)
  = Ret js.
Proof.
  induction js as [|j js IH]; [done|]. rewrite fmap_cons. cbn [mapM fst snd nValue scalar].
  rewrite parse_render_job. cbn [mbind go_bind]. by rewrite IH.
Qed.

Lemma parse_render_stages l :
  mapM parseStageEntry ((fun s => scalar (Stage_Name s)) <$> l) = Ret ((fun s => [s]) <$> l).
Proof.
  induction l as [|[n] l IH]; [done|]. rewrite fmap_cons. cbn [mapM].
  rewrite IH. reflexivity.
Qed.

Lemma mjoin_singletons {A} (l : list A) : mjoin ((fun x => [x]) <$> l) = l.
Proof. induction l; [done|]. simpl. by f_equal. Qed.

(** What a pipeline must satisfy to be expressible as a document. *)
Definition renderable (p : Pipeline) : Prop :=
  Pipeline_Stages p ≠ [] /\
  Forall (fun j => IsReservedTopLevelKey (Job_Name j) = false) (Pipeline_Jobs p).

Lemma forbiddenKey_render p :
  renderable p -> forbiddenKey ((render_entries p).*1) = None.
Proof.
  intros [_ Hj]. unfold forbiddenKey, render_entries.
  match goal with |- snd <$> list_find ?P ?l = None => destruct (list_find P l) as [[i k]|] eqn:E end; [|done].
  exfalso. apply list_find_Some in E as (Hl & Hk & _). apply list_elem_of_lookup_2 in Hl.
  simpl in Hl. apply elem_of_cons in Hl as [->|Hl]; [naive_solver|].
  apply elem_of_cons in Hl as [->|Hl]; [naive_solver|].
  rewrite <- list_fmap_compose in Hl. apply list_elem_of_fmap in Hl as (j & -> & Hin).
  rewrite Forall_forall in Hj. specialize (Hj j Hin). simpl in Hk.
  unfold IsReservedTopLevelKey in Hj. rewrite bool_decide_eq_false in Hj. naive_solver.
Qed.

Lemma filter_render_jobs js :
  Forall (fun j => IsReservedTopLevelKey (Job_Name j) = false) js ->
  filter isJobPair ((fun j => (scalar (Job_Name j), render_job j)) <$> js)
  = (fun j => (scalar (Job_Name j), render_job j)) <$> js.
Proof.
  induction 1 as [|j js Hj _ IH]; [done|]. rewrite fmap_cons, filter_cons_True by done. by f_equal.
Qed.

Lemma find_pipeline_render p :
  findMappingNode (Some (mapping (render_entries p))) "pipeline"
  = Ret (Some (mapping [(scalar "name", scalar (Pipeline_Name p))])).
Proof. reflexivity. Qed.

Lemma find_stages_render p :
  findMappingNode (Some (mapping (render_entries p))) "stages"
  = Ret (Some (sequence ((fun s => scalar (Stage_Name s)) <$> Pipeline_Stages p))).
Proof. reflexivity. Qed.

Lemma parseJobs_render p : renderable p -> parseJobs (mapping (render_entries p)) = Ret (Pipeline_Jobs p).
Proof.
  intros [_ Hj]. unfold parseJobs. rewrite decide_True by done.
  change (nContent (mapping ?l)) with (interleave l). rewrite pairs_interleave.
  cbn [mbind go_bind]. unfold render_entries. rewrite 2!filter_cons_False by done.
  by rewrite filter_render_jobs, parse_render_jobs.
Qed.

(** ** Properties *)

(** C34: parsing a rendered pipeline gives the pipeline back: for every pipeline
    with at least one stage and no job named like a reserved key,
    [buildPipeline] of its canonical document returns exactly that pipeline. *)
Theorem buildPipeline_render p :
  renderable p -> buildPipeline (render p) = Ret (ok p).
Proof.
  intros Hr. unfold buildPipeline, render. cbn [nKind nContent].
  rewrite decide_True by done. change (nContent (mapping ?l)) with (interleave l).
  rewrite mapping_keys_interleave, forbiddenKey_render by done.
  rewrite find_pipeline_render, find_stages_render. cbn [mbind go_bind].
  unfold parseStages. rewrite decide_True by done. cbn [nContent sequence].
  rewrite parse_render_stages. cbn [mbind go_bind]. rewrite parseJobs_render by done.
  cbn. rewrite mjoin_singletons. destruct p as [name stages jobs], Hr as [Hs _]. by destruct stages.
Qed.

Definition sample_pipeline : Pipeline :=
  MkPipeline "demo" [MkStage "build"; MkStage "test"]
    [ MkJob "compile" "build" "golang:1.25" ["make build"] [] false;
      MkJob "lint" "build" "golang:1.25" ["make lint"; "make fmt"] ["compile"] true;
      MkJob "unit" "test" "" [] [] false ].

Lemma buildPipeline_render_witness :
  buildPipeline (render sample_pipeline) = Ret (ok sample_pipeline).
Proof.
  apply (buildPipeline_render sample_pipeline). split; [discriminate|].
  repeat constructor.
Defined.

Lemma buildPipeline_returns root : wf_node root -> exists r, buildPipeline root = Ret r.
Proof.
  intros Hwf. unfold buildPipeline. destruct (nKind root); try by eexists.
  destruct (nContent root) as [|content rest] eqn:Hc; [by eexists|].
  assert (wf_node content) as Hcw by (eapply wf_content; [done|rewrite Hc; set_solver]).
  case_decide; [|by eexists]. destruct (forbiddenKey _); [by eexists|].
  destruct (findMappingNode_wf (Some content) "pipeline") as (o & -> & Ho); [naive_solver|].
  cbn [mbind go_bind]. destruct (findMappingNode_wf o "name") as (o' & -> & _); [done|].
  cbn [mbind go_bind]. destruct (findMappingNode_wf (Some content) "stages") as (o'' & -> & Ho''); [naive_solver|].
  cbn [mbind go_bind]. destruct (parseStages_wf o'' Ho'') as [l ->].
  cbn [mbind go_bind]. destruct (parseJobs_wf content Hcw) as [js ->]. by eexists.
Qed.

Lemma Parse_returns yaml_Unmarshal os_ReadFile p :
  (forall data n, yaml_Unmarshal data = ok n -> wf_node n) ->
  exists r, Parse yaml_Unmarshal os_ReadFile p = Ret r /\
    forall pl n, r = ok (pl, n) -> wf_node n.
Proof.
  intros Hy. assert (Hd : forall data, exists r, parseYAMLData yaml_Unmarshal data = Ret r /\
    forall pl n, r = ok (pl, n) -> wf_node n).
  { intros data. unfold parseYAMLData. destruct (yaml_Unmarshal data) as [n|e] eqn:E; [|by eexists].
    destruct (buildPipeline_returns n (Hy _ _ E)) as [r ->]. eexists. split; [done|].
    intros pl n'. destruct r; [|done]. intros [= _ <-]. by eapply Hy. }
  unfold Parse. case_decide; [|done]. destruct (os_ReadFile _); [done|by eexists].
Qed.

(** The parser never panics on a tree yaml.v3 can build: every index
    expression of [buildPipeline], [parseStages], [parseJobs] and [parseJob]
    is in range when mappings hold an even number of nodes. *)
Theorem buildPipeline_no_panic root : wf_node root -> buildPipeline root ≠ Panic.
Proof. by intros [r ->]%buildPipeline_returns. Qed.

Lemma wf_scalar s : wf_node (scalar s).
Proof. by constructor. Qed.

Lemma wf_sequence l : Forall wf_node l -> wf_node (sequence l).
Proof. by constructor. Qed.

Lemma wf_interleaved l : Forall (fun kv => wf_node kv.1 /\ wf_node kv.2) l -> wf_node (mapping l).
Proof.
  intros Hl. constructor.
  - intros _. induction l as [|[k v] l IH]; [by exists 0|]. inversion_clear Hl. destruct IH as [m Hm]; [done|].
    rewrite interleave_cons. simpl. rewrite Hm. exists (S m). lia.
  - induction Hl as [|[k v] l [Hk Hv] _ IH]; [constructor|]. rewrite interleave_cons. by repeat constructor.
Qed.

Lemma wf_scalars l : Forall wf_node (scalar <$> l).
Proof. apply Forall_fmap, Forall_true. intros x. apply wf_scalar. Qed.

Lemma wf_render_job j : wf_node (render_job j).
Proof.
  apply wf_sequence. repeat apply Forall_cons_2; try apply Forall_nil_2.
  all: apply wf_interleaved, Forall_singleton; split; try apply wf_scalar; simpl.
  all: try apply wf_sequence, wf_scalars. by constructor.
Qed.

Lemma wf_render p : wf_node (render p).
Proof.
  constructor; [done|]. apply Forall_singleton, wf_interleaved. apply Forall_cons_2; [|apply Forall_cons_2].
  - split; [apply wf_scalar|]. apply wf_interleaved, Forall_singleton. split; apply wf_scalar.
  - split; [apply wf_scalar|]. apply wf_sequence, Forall_fmap, Forall_true. intros x. apply wf_scalar.
  - apply Forall_fmap, Forall_true. intros j. split; [apply wf_scalar|apply wf_render_job].
Qed.

Lemma buildPipeline_no_panic_witness :
  let root := MkNode DocumentNode "" "" no_loc [MkNode MappingNode "!!map" "" no_loc [scalar "a"; scalar "b"]] in
  wf_node root /\ buildPipeline root ≠ Panic.
Proof.
  intros root.
  assert (Hwf : wf_node root).
  { constructor; [done|]. constructor; [|constructor]. constructor; [intros _; by exists 1|].
    repeat constructor; done. }
  split; [exact Hwf|]. apply (buildPipeline_no_panic root Hwf).
Defined.

(** The pipeline's job list is exactly the document's non-reserved
    top-level keys, in document order and with their names, so the i-th
    [JobNode] the verifier inspects is the i-th parsed job. *)
Theorem GetJobNodes_agree root p ns :
  buildPipeline root = Ret (ok p) -> GetJobNodes root = Ret ns ->
  JN_Name <$> ns = Job_Name <$> Pipeline_Jobs p.
Proof.
  intros (content & rest & Hc & Hk & Hm & Hj)%buildPipeline_jobs.
  unfold GetJobNodes. rewrite Hk, Hc, decide_True by done. intros Hn. go_inv.
  unfold parseJobs in Hj. rewrite decide_True in Hj by done. go_inv.
  match goal with H1 : pairs ?c = _, H2 : pairs ?c = _ |- _ => rewrite H1 in H2; injection H2 as -> end.
  apply mapM_go_Forall2 in Hj. rewrite <- list_fmap_compose. induction Hj; [done|].
  simpl. f_equal; [|done]. by erewrite parseJob_name.
Qed.

Lemma GetJobNodes_agree_witness :
  exists ns, GetJobNodes (render sample_pipeline) = Ret ns /\
    JN_Name <$> ns = Job_Name <$> Pipeline_Jobs sample_pipeline.
Proof.
  eexists. split; [reflexivity|].
  apply (GetJobNodes_agree (render sample_pipeline) sample_pipeline); reflexivity.
Defined.
