(* ===== verification/Wellformed.v ===== *)
(** * What a valid pipeline is

    The specification that connects the components: the verifier accepts a
    pipeline only if it is valid, and the planner and the orchestrator are
    correct on valid pipelines. It mentions no code. *)

From S2P Require Import Prelude Models Graph.

(** [x] needs [y]: some job named [x] lists [y] in its needs. *)
Definition needs_rel (jobs : list Job) (x y : string) : Prop :=
  exists j, j ∈ jobs /\ Job_Name j = x /\ y ∈ Job_Needs j.

Record valid_pipeline (p : Pipeline) : Prop := {
  vp_some_stage : Pipeline_Stages p ≠ [];
  vp_stages_unique : NoDup (Stage_Name <$> Pipeline_Stages p);
  vp_some_job : Pipeline_Jobs p ≠ [];
  vp_jobs_unique : NoDup (Job_Name <$> Pipeline_Jobs p);
  vp_job_stage : forall j, j ∈ Pipeline_Jobs p -> Job_Stage j ∈ Stage_Name <$> Pipeline_Stages p;
  vp_stage_nonempty : forall s, s ∈ Pipeline_Stages p ->
    exists j, j ∈ Pipeline_Jobs p /\ Job_Stage j = Stage_Name s;
  vp_needs_defined : forall j n, j ∈ Pipeline_Jobs p -> n ∈ Job_Needs j ->
    exists k, k ∈ Pipeline_Jobs p /\ Job_Name k = n /\ Job_Stage k = Job_Stage j;
  vp_acyclic : forall x, ~ tc (needs_rel (Pipeline_Jobs p)) x x;
}.

Lemma needs_rel_range jobs x y : needs_rel jobs x y -> y ∈ jobs ≫= Job_Needs.
Proof. intros (j & Hj & _ & Hy). apply list_elem_of_bind. eauto. Qed.

(** A set of names each of which needs another name of the set is empty. *)
Lemma needs_no_trap jobs (P : string -> Prop) :
  (forall x, ~ tc (needs_rel jobs) x x) ->
  (forall x, P x -> exists y, needs_rel jobs x y /\ P y) -> forall x, ~ P x.
Proof. intros Ha. eapply no_trap; [done|]. apply needs_rel_range. Qed.

Lemma NoDup_name_inj jobs j k :
  NoDup (Job_Name <$> jobs) -> j ∈ jobs -> k ∈ jobs -> Job_Name j = Job_Name k -> j = k.
Proof.
  intros Hnd [i Hi]%list_elem_of_lookup [i' Hi']%list_elem_of_lookup E.
  assert (i = i') as <-; [|congruence].
  eapply NoDup_lookup; [done|rewrite list_lookup_fmap, Hi; done|].
  by rewrite list_lookup_fmap, Hi', E.
Qed.

(** A subset of the jobs needs no more than all the jobs do. *)
Lemma needs_rel_mono jobs jobs' x y : jobs ⊆ jobs' -> needs_rel jobs x y -> needs_rel jobs' x y.
Proof. intros Hs (j & Hj & ? & ?). exists j. auto. Qed.

Lemma acyclic_mono jobs jobs' :
  jobs ⊆ jobs' -> (forall x, ~ tc (needs_rel jobs') x x) -> forall x, ~ tc (needs_rel jobs) x x.
Proof.
  intros Hs Ha x Hx. apply (Ha x). revert Hx. generalize x at 2 4. intros y.
  induction 1; [apply tc_once|eapply tc_l; [|done]]; by eapply needs_rel_mono.
Qed.

(** ** Certifying validity

    A rank that decreases along the needs certifies acyclicity, so validity of
    a concrete pipeline is checked by computation. *)
Definition rank_of (ranks : list string) (x : string) : nat :=
  default 0 (fst <$> list_find (x =.) ranks).

Lemma acyclic_by_rank (rank : string -> nat) jobs :
  (forall j n, j ∈ jobs -> n ∈ Job_Needs j -> rank n < rank (Job_Name j)) ->
  forall x, ~ tc (needs_rel jobs) x x.
Proof.
  intros Hr. assert (Hle : forall x y, tc (needs_rel jobs) x y -> rank y < rank x).
  { induction 1 as [x y H|x y z H _ IH]; destruct H as (j & Hj & <- & Hy); [auto|].
    etrans; [exact IH|auto]. }
  intros x Hx. apply Hle in Hx. lia.
Qed.

Definition valid_certificate (ranks : list string) (p : Pipeline) : bool :=
  bool_decide (Pipeline_Stages p ≠ [] /\ NoDup (Stage_Name <$> Pipeline_Stages p) /\
    Pipeline_Jobs p ≠ [] /\ NoDup (Job_Name <$> Pipeline_Jobs p)) &&
  bool_decide (Forall (fun j => Job_Stage j ∈ Stage_Name <$> Pipeline_Stages p) (Pipeline_Jobs p)) &&
  bool_decide (Forall (fun s => Exists (fun j => Job_Stage j = Stage_Name s) (Pipeline_Jobs p)) (Pipeline_Stages p)) &&
  bool_decide (Forall (fun j => Forall (fun n =>
    Exists (fun k => Job_Name k = n /\ Job_Stage k = Job_Stage j) (Pipeline_Jobs p)) (Job_Needs j)) (Pipeline_Jobs p)) &&
  bool_decide (Forall (fun j => Forall (fun n =>
    rank_of ranks n < rank_of ranks (Job_Name j)) (Job_Needs j)) (Pipeline_Jobs p)).

Lemma valid_by_certificate ranks p : valid_certificate ranks p = true -> valid_pipeline p.
Proof.
  unfold valid_certificate. rewrite !andb_true_iff, !bool_decide_eq_true, !Forall_forall.
  intros [[[[(?&?&?&?) Hs] Hn] Hd] Hr]. split; try done.
  - intros s Hin. by apply Exists_exists, Hn.
  - intros j n Hj Hin. specialize (Hd j Hj). rewrite Forall_forall in Hd. by apply Exists_exists, Hd.
  - apply (acyclic_by_rank (rank_of ranks)). intros j n Hj Hin. specialize (Hr j Hj).
    rewrite Forall_forall in Hr. auto.
Qed.

(** A pipeline with a diamond in its first stage, used by the witnesses. *)
Definition demo_pipeline : Pipeline :=
  MkPipeline "demo" [MkStage "build"; MkStage "test"]
    [ MkJob "package" "build" "alpine" ["make dist"] ["compile"; "lint"] false;
      MkJob "compile" "build" "golang" ["make"] ["fetch"] false;
      MkJob "lint" "build" "golang" ["make lint"] ["fetch"] true;
      MkJob "fetch" "build" "alpine" ["make deps"] [] false;
      MkJob "unit" "test" "golang" ["make test"] [] false ].
Definition demo_ranks : list string := ["fetch"; "compile"; "lint"; "package"; "unit"].

Lemma demo_valid : valid_pipeline demo_pipeline.
Proof. apply (valid_by_certificate demo_ranks). vm_compute. reflexivity. Qed.
