(* ===== verification/Verifier.v ===== *)
(** * The pipeline verifier (internal/common/verifier)

    [Verify] and every check it runs, with the error locations read off the
    YAML tree and the rendered messages (the early exit of [Verify] searches
    the messages for substrings). The order in which the runtime iterates the
    dependency graph is a parameter of [checkNoCycles] and [Verify]. *)

From S2P Require Import Prelude GoStrings Models Graph CycleCheck Parser Wellformed.

Record PipelineVerifier := MkVerifier {
  v_filePath : string;
  v_pipeline : Pipeline;
  v_rootNode : yaml_node;
}.

Definition NewPipelineVerifier (filePath : string) (p : Pipeline) (root : yaml_node) : PipelineVerifier :=
  MkVerifier filePath p root.

Definition fallbackLocation : Location := MkLoc 1 1.

Definition formatError (v : PipelineVerifier) (loc : Location) (message : string) : ValidationError :=
  MkVErr (v_filePath v) loc message.

(** ** Location helpers (location_helpers.go) *)

Definition getRootMappingNode (v : PipelineVerifier) : option yaml_node :=
  match nKind (v_rootNode v), nContent (v_rootNode v) with
  | DocumentNode, content :: _ => if decide (nKind content = MappingNode) then Some content else None
  | _, _ => None
  end.

Definition getTopLevelNode (v : PipelineVerifier) (key : string) : go (option yaml_node) :=
  match getRootMappingNode v with
  | None => Ret None
  | Some root => find_value key (nContent root)
  end.

(** The key and value of the job with the given index, skipping reserved keys. *)
Fixpoint job_pair_at (c : list yaml_node) (idx : nat) : go (option (yaml_node * yaml_node)) :=
  match c with
  | [] => Ret None
  | k :: rest =>
    if IsReservedTopLevelKey (nValue k) then
      match rest with [] => Ret None | _ :: rest' => job_pair_at rest' idx end
    else
      match idx, rest with
      | 0, [] => Panic
      | 0, v :: _ => Ret (Some (k, v))
      | S idx', [] => Ret None
      | S idx', _ :: rest' => job_pair_at rest' idx'
      end
  end.

Definition getJobNodePair (v : PipelineVerifier) (jobIdx : nat) : go (option (yaml_node * yaml_node)) :=
  match getRootMappingNode v with
  | None => Ret None
  | Some root => job_pair_at (nContent root) jobIdx
  end.

Definition getStagesLocation (v : PipelineVerifier) : Location :=
  match getRootMappingNode v with
  | None => fallbackLocation
  | Some root =>
    match list_find (fun k => nValue k = "stages") (mapping_keys (nContent root)) with
    | Some (_, k) => nLoc k
    | None => fallbackLocation
    end
  end.

Definition getJobsLocation (v : PipelineVerifier) : go Location :=
  kv ← getJobNodePair v 0;
  Ret (match kv with Some (key, _) => nLoc key | None => fallbackLocation end).

(** The location of one stage entry's name, if the entry has one. *)
Definition stage_entry_loc (stageNode : yaml_node) : go (option Location) :=
  match nKind stageNode with
  | MappingNode => n ← find_value "name" (nContent stageNode); Ret (option_map nLoc n)
  | ScalarNode => Ret (Some (nLoc stageNode))
  | _ => Ret None
  end.

Fixpoint stage_name_loc (stageIdx : nat) (c : list yaml_node) : go Location :=
  match c with
  | [] => Ret fallbackLocation
  | k :: rest =>
    if decide (nValue k = "stages") then
      match rest with
      | [] => Panic
      | stagesNode :: rest' =>
        match (if decide (nKind stagesNode = SequenceNode) then nContent stagesNode !! stageIdx else None) with
        | None => stage_name_loc stageIdx rest'
        | Some stageNode =>
          o ← stage_entry_loc stageNode;
          match o with Some l => Ret l | None => stage_name_loc stageIdx rest' end
        end
      end
    else match rest with [] => Ret fallbackLocation | _ :: rest' => stage_name_loc stageIdx rest' end
  end.

Definition getStageNameLocation (v : PipelineVerifier) (stageIdx : nat) : go Location :=
  match getRootMappingNode v with
  | None => Ret fallbackLocation
  | Some root => stage_name_loc stageIdx (nContent root)
  end.

Definition getJobNameLocation (v : PipelineVerifier) (jobIdx : nat) : go Location :=
  kv ← getJobNodePair v jobIdx;
  Ret (match kv with Some (key, _) => nLoc key | None => fallbackLocation end).

(** The key and value of a step that is a mapping of exactly one field named [fieldName]. *)
Definition step_field (fieldName : string) (step : yaml_node) : option (yaml_node * yaml_node) :=
  match nKind step, nContent step with
  | MappingNode, [k; x] => if decide (nValue k = fieldName) then Some (k, x) else None
  | _, _ => None
  end.

Definition findJobField (value : yaml_node) (fieldName : string) : option yaml_node :=
  if decide (nKind value = SequenceNode)
  then head (fst <$> omap (step_field fieldName) (nContent value)) else None.

Definition getJobStageLocation (v : PipelineVerifier) (jobIdx : nat) : go Location :=
  kv ← getJobNodePair v jobIdx;
  Ret (match kv with
       | None => fallbackLocation
       | Some (key, value) =>
         match (if decide (nKind value = SequenceNode)
                then head (snd <$> omap (step_field "stage") (nContent value)) else None) with
         | Some x => nLoc x
         | None => nLoc key
         end
       end).

Definition getJobNeedsLocation (v : PipelineVerifier) (jobIdx : nat) : go Location :=
  kv ← getJobNodePair v jobIdx;
  Ret (match kv with
       | None => fallbackLocation
       | Some (key, value) =>
         match findJobField value "needs" with Some k => nLoc k | None => nLoc key end
       end).

(** First field named [name] whose value is a scalar; [""] when there is none. *)
Fixpoint scalar_name (c : list yaml_node) : go string :=
  match c with
  | [] => Ret ""
  | k :: rest =>
    if decide (nValue k = "name") then
      match rest with
      | [] => Panic
      | v :: rest' => if decide (nKind v = ScalarNode) then Ret (nValue v) else scalar_name rest'
      end
    else match rest with [] => Ret "" | _ :: rest' => scalar_name rest' end
  end.

Definition findNameInMapping (node : yaml_node) : go string :=
  if decide (nKind node = MappingNode) then scalar_name (nContent node) else Ret "".

(** ** Checks on the parsed pipeline (validation_checks.go) *)

Definition q (s : string) : string := "'" +++ s +++ "'".

Definition checkAtLeastOneStage (v : PipelineVerifier) : list ValidationError :=
  match Pipeline_Stages (v_pipeline v) with
  | [] => [formatError v (getStagesLocation v) "pipeline must have at least one stage defined"]
  | _ => []
  end.

(** The loop shared by the two uniqueness checks: [seen] maps a name to the
    location of its first occurrence. *)
Fixpoint duplicates (v : PipelineVerifier) (what : string) (getLoc : nat -> go Location)
    (i : nat) (names : list string) (seen : gmap string Location) : go (list ValidationError) :=
  match names with
  | [] => Ret []
  | name :: rest =>
    loc ← getLoc i;
    match seen !! name with
    | Some prevLoc =>
      errs ← duplicates v what getLoc (S i) rest seen;
      Ret (formatError v loc ("duplicate " +++ what +++ " name " +++ q name +++
             " (previously defined at line " +++ Itoa (Line prevLoc) +++ ")") :: errs)
    | None => duplicates v what getLoc (S i) rest (<[name := loc]> seen)
    end
  end.

Definition checkUniqueStageNames (v : PipelineVerifier) : go (list ValidationError) :=
  duplicates v "stage" (getStageNameLocation v) 0 (Stage_Name <$> Pipeline_Stages (v_pipeline v)) ∅.

Definition checkAtLeastOneJob (v : PipelineVerifier) : go (list ValidationError) :=
  match Pipeline_Jobs (v_pipeline v) with
  | [] => loc ← getJobsLocation v;
          Ret [formatError v loc "pipeline must have at least one job defined"]
  | _ => Ret []
  end.

Definition checkUniqueJobNames (v : PipelineVerifier) : go (list ValidationError) :=
  duplicates v "job" (getJobNameLocation v) 0 (Job_Name <$> Pipeline_Jobs (v_pipeline v)) ∅.

(** [for i, x := range l]: the errors of each iteration, concatenated. *)
Fixpoint forEach {A} (f : nat -> A -> go (list ValidationError)) (i : nat) (l : list A)
    : go (list ValidationError) :=
  match l with
  | [] => Ret []
  | x :: rest => e ← f i x; es ← forEach f (S i) rest; Ret (e ++ es)
  end.

(** An error with its location, when the condition holds. *)
Definition errorWhen (b : bool) (v : PipelineVerifier) (getLoc : go Location) (message : string)
    : go (list ValidationError) :=
  if b then loc ← getLoc; Ret [formatError v loc message] else Ret [].

Definition checkJobStagesExist (v : PipelineVerifier) : go (list ValidationError) :=
  let validStages : gset string := list_to_set (Stage_Name <$> Pipeline_Stages (v_pipeline v)) in
  forEach (fun i job =>
    errorWhen (bool_decide (Job_Stage job ∉ validStages)) v (getJobStageLocation v i)
      ("job " +++ q (Job_Name job) +++ " references undefined stage " +++ q (Job_Stage job)))
    0 (Pipeline_Jobs (v_pipeline v)).

(** [jobsPerStage[job.Stage]++] *)
Definition countJobs (jobs : list Job) : gmap string nat :=
  foldl (fun m job => <[Job_Stage job := S (default 0 (m !! Job_Stage job))]> m) ∅ jobs.

Definition checkNoEmptyStages (v : PipelineVerifier) : go (list ValidationError) :=
  let jobsPerStage := countJobs (Pipeline_Jobs (v_pipeline v)) in
  forEach (fun i stage =>
    errorWhen (bool_decide (default 0 (jobsPerStage !! Stage_Name stage) = 0)) v (getStageNameLocation v i)
      ("stage " +++ q (Stage_Name stage) +++ " has no jobs assigned to it"))
    0 (Pipeline_Stages (v_pipeline v)).

Definition checkNeedsReferences (v : PipelineVerifier) : go (list ValidationError) :=
  let jobNames : gset string := list_to_set (Job_Name <$> Pipeline_Jobs (v_pipeline v)) in
  forEach (fun i job =>
    forEach (fun _ need =>
      errorWhen (bool_decide (need ∉ jobNames)) v (getJobNeedsLocation v i)
        ("job " +++ q (Job_Name job) +++ " references undefined job " +++ q need +++ " in needs"))
      0 (Job_Needs job))
    0 (Pipeline_Jobs (v_pipeline v)).

Definition jobToStage (jobs : list Job) : gmap string string :=
  foldl (fun m job => <[Job_Name job := Job_Stage job]> m) ∅ jobs.

Definition checkNeedsStageConsistency (v : PipelineVerifier) : go (list ValidationError) :=
  let stageOf := jobToStage (Pipeline_Jobs (v_pipeline v)) in
  forEach (fun i job =>
    forEach (fun _ need =>
      match stageOf !! need with
      | None => Ret []
      | Some needStage =>
        errorWhen (bool_decide (needStage ≠ Job_Stage job)) v (getJobNeedsLocation v i)
          ("job " +++ q (Job_Name job) +++ " (stage " +++ q (Job_Stage job) +++ ") cannot depend on job "
           +++ q need +++ " (stage " +++ q needStage
           +++ "). Jobs in the same needs array must belong to the same stage")
      end)
      0 (Job_Needs job))
    0 (Pipeline_Jobs (v_pipeline v)).

(** [graph[job.Name] = job.Needs]: the last job of a name wins. *)
Definition needsGraph (jobs : list Job) : graph :=
  foldl (fun g job => <[Job_Name job := Job_Needs job]> g) ∅ jobs.

Fixpoint jobLocations (v : PipelineVerifier) (i : nat) (jobs : list Job) (m : gmap string Location)
    : go (gmap string Location) :=
  match jobs with
  | [] => Ret m
  | job :: rest =>
    loc ← getJobNeedsLocation v i; jobLocations v (S i) rest (<[Job_Name job := loc]> m)
  end.

(** [None] of [find_cycle] (fuel) does not occur: [find_cycle_correct]. *)
Definition checkNoCycles (order : list string) (v : PipelineVerifier) : go (list ValidationError) :=
  let g := needsGraph (Pipeline_Jobs (v_pipeline v)) in
  locs ← jobLocations v 0 (Pipeline_Jobs (v_pipeline v)) ∅;
  match find_cycle g order with
  | Some (Some (x :: cycle')) =>
    let cycle := x :: cycle' in
    let cycleStr := Join cycle " -> " +++ " -> " +++ x in
    Ret [formatError v (default (MkLoc 0 0) (locs !! x))
           ("cycle detected in `needs` requirements. " +++ cycleStr)]
  | Some (Some []) => Panic
  | _ => Ret []
  end.

(** ** Checks on the YAML tree *)

Definition wrongType (v : PipelineVerifier) (n : yaml_node) (message : string) : list ValidationError :=
  [formatError v (nLoc n) (message +++ nTag n)].

Definition isStringNode (n : yaml_node) : bool :=
  bool_decide (nKind n = ScalarNode /\ nTag n = "!!str").

(** One entry of the [stages] sequence in [checkYAMLTypes]. *)
Definition checkStageEntry (v : PipelineVerifier) (i : nat) (stageNode : yaml_node) : go (list ValidationError) :=
  if decide (nKind stageNode = MappingNode) then
    name ← findNameInMapping stageNode;
    Ret (if decide (name = "") then
           [formatError v (nLoc stageNode) "stage object must have a `name` field"] else [])
  else if isStringNode stageNode then Ret []
  else Ret (wrongType v stageNode
         ("wrong type for stage at index " +++ Itoa (Z.of_nat i) +++ ". Expected string, got ")).

Definition checkPipelineName (v : PipelineVerifier) (pipelineNode : yaml_node) : go (list ValidationError) :=
  nameNode ← find_value "name" (nContent pipelineNode);
  Ret (match nameNode with
       | Some n => if isStringNode n then []
                   else wrongType v n "wrong type for `pipeline.name`. Expected string, got "
       | None => [formatError v (nLoc pipelineNode) "pipeline must have a `name` field"]
       end).

Definition checkStagesSection (v : PipelineVerifier) : go (list ValidationError) :=
  stagesNode ← getTopLevelNode v "stages";
  match stagesNode with
  | None => Ret []
  | Some n =>
    if decide (nKind n = SequenceNode) then forEach (checkStageEntry v) 0 (nContent n)
    else Ret [formatError v (nLoc n) "stages must be a sequence"]
  end.

Definition checkYAMLTypes (v : PipelineVerifier) : go (list ValidationError) :=
  match nKind (v_rootNode v), nContent (v_rootNode v) with
  | DocumentNode, root :: _ =>
    if decide (nKind root = MappingNode) then
      pipelineNode ← getTopLevelNode v "pipeline";
      match pipelineNode with
      | None =>
        Ret [formatError v (match getRootMappingNode v with Some r => nLoc r | None => fallbackLocation end)
               "pipeline must have a `pipeline` key"]
      | Some pn =>
        if decide (nKind pn = MappingNode) then
          nameErrors ← checkPipelineName v pn;
          stageErrors ← checkStagesSection v;
          Ret (nameErrors ++ stageErrors)
        else Ret [formatError v (nLoc pn) "pipeline must be a mapping"]
      end
    else Ret [formatError v (nLoc root) "root must be a mapping"]
  | _, _ => Ret [formatError v (MkLoc 1 1) "invalid YAML document"]
  end.

(** The substrings of [err.Error()] that stop the verification. *)
Definition critical_messages : list string :=
  [ "invalid YAML document"; "root must be a mapping"; "pipeline must have a `pipeline` key";
    "pipeline must be a mapping"; "stages must be a sequence" ].

Definition hasCriticalErrors (errors : list ValidationError) : bool :=
  existsb (fun e => existsb (Contains (Error e)) critical_messages) errors.

Definition validateScriptField (v : PipelineVerifier) (jobName : string) (fieldValue : yaml_node)
    : go (list ValidationError) :=
  match nKind fieldValue with
  | ScalarNode =>
    Ret (if decide (nTag fieldValue = "!!str") then [] else
      wrongType v fieldValue ("wrong type for `script` in job " +++ q jobName +++ ". Expected string, got "))
  | SequenceNode =>
    forEach (fun i item =>
      Ret (if isStringNode item then [] else
        wrongType v item ("wrong type for item " +++ Itoa (Z.of_nat i + 1) +++ " in `script` in job "
                          +++ q jobName +++ ". Expected string, got ")))
      0 (nContent fieldValue)
  | _ =>
    Ret (wrongType v fieldValue
      ("wrong type for `script` in job " +++ q jobName +++ ". Expected string or sequence, got "))
  end.

Definition fieldError (v : PipelineVerifier) (jobName key expected : string) (n : yaml_node) : list ValidationError :=
  wrongType v n ("wrong type for `" +++ key +++ "` in job " +++ q jobName +++ ". Expected " +++ expected +++ ", got ").

Definition validateFieldType (v : PipelineVerifier) (jobName : string) (fieldKey fieldValue : yaml_node)
    : go (list ValidationError) :=
  let key := nValue fieldKey in
  if decide (key = "stage" \/ key = "image") then
    Ret (if isStringNode fieldValue then [] else fieldError v jobName key "string" fieldValue)
  else if decide (key = "script") then validateScriptField v jobName fieldValue
  else if decide (key = "needs") then
    Ret (if decide (nKind fieldValue = SequenceNode) then [] else fieldError v jobName key "sequence" fieldValue)
  else if decide (key = "failures") then
    Ret (if decide (nKind fieldValue = ScalarNode /\ nTag fieldValue = "!!bool") then []
         else fieldError v jobName key "boolean" fieldValue)
  else Ret [].

Definition validateJobStep (v : PipelineVerifier) (jobName : string) (stepIdx : nat) (step : yaml_node)
    : go (list ValidationError) :=
  let at_step := "step " +++ Itoa (Z.of_nat stepIdx + 1) +++ " in job " +++ q jobName in
  if decide (nKind step = MappingNode) then
    match nContent step with
    | [fieldKey; fieldValue] => validateFieldType v jobName fieldKey fieldValue
    | _ => Ret [formatError v (nLoc step) (at_step +++ " must have exactly one field")]
    end
  else Ret [formatError v (nLoc step) (at_step +++ " must be a mapping")].

Definition validateSingleJob (v : PipelineVerifier) (jobNode : JobNode) : go (list ValidationError) :=
  if isStringNode (JN_Key jobNode) then
    if decide (nKind (JN_Value jobNode) = SequenceNode) then
      forEach (validateJobStep v (JN_Name jobNode)) 0 (nContent (JN_Value jobNode))
    else Ret [formatError v (nLoc (JN_Key jobNode)) ("job " +++ q (JN_Name jobNode) +++ " must be a sequence")]
  else Ret (wrongType v (JN_Key jobNode) "wrong type for job name. Expected string, got ").

Definition validateJobs (v : PipelineVerifier) (jobNodes : list JobNode) : go (list ValidationError) :=
  forEach (fun _ jobNode => validateSingleJob v jobNode) 0 jobNodes.

(** ** Verify *)

(** Checks 0.5 to 8, run when the type errors are not critical. *)
Definition structuralChecks (order : list string) (v : PipelineVerifier) : go (list ValidationError) :=
  jobNodes ← GetJobNodes (v_rootNode v);
  formatErrors ← validateJobs v jobNodes;
  e2 ← checkUniqueStageNames v;
  e3 ← checkAtLeastOneJob v;
  e4 ← checkUniqueJobNames v;
  e5 ← checkJobStagesExist v;
  e6 ← checkNoEmptyStages v;
  e7 ← checkNeedsReferences v;
  e75 ← checkNeedsStageConsistency v;
  e8 ← checkNoCycles order v;
  Ret (formatErrors ++ checkAtLeastOneStage v ++ e2 ++ e3 ++ e4 ++ e5 ++ e6 ++ e7 ++ e75 ++ e8).

Definition Verify (order : list string) (v : PipelineVerifier) : go (list ValidationError) :=
  typeErrors ← checkYAMLTypes v;
  if hasCriticalErrors typeErrors then Ret typeErrors
  else e ← structuralChecks order v; Ret (typeErrors ++ e).

(** ** Lemmas: what each check decides

    [checks m P]: the check returns (no panic), and reports nothing exactly when [P]. *)
Definition checks (m : go (list ValidationError)) (P : Prop) : Prop :=
  exists e, m = Ret e /\ (e = [] <-> P).

Definition returns {A} (m : go A) : Prop := exists a, m = Ret a.

Lemma checks_nil : checks (Ret []) True.
Proof. by exists []. Qed.

Lemma checks_iff m (P Q : Prop) : checks m P -> (P <-> Q) -> checks m Q.
Proof. intros (e & ? & ?) ?. exists e. naive_solver. Qed.

Lemma checks_errorWhen b v m msg : returns m -> checks (errorWhen b v m msg) (b = false).
Proof.
  intros [l ->]. unfold errorWhen. destruct b; simpl; eexists; (split; [done|]); naive_solver.
Qed.

Lemma checks_forEach {A} (f : nat -> A -> go (list ValidationError)) (P : A -> Prop) i l :
  (forall k x, x ∈ l -> checks (f k x) (P x)) -> checks (forEach f i l) (Forall P l).
Proof.
  revert i. induction l as [|x l IH]; intros i Hf; simpl.
  - exists []. split; [done|]. split; [constructor|done].
  - destruct (Hf i x) as (e & -> & He); [set_solver|]. simpl.
    destruct (IH (S i)) as (es & -> & Hes); [intros k y Hy; apply Hf; set_solver|]. simpl.
    eexists. split; [done|]. rewrite app_nil, Forall_cons. naive_solver.
Qed.

Lemma checks_app m1 m2 P Q :
  checks m1 P -> checks m2 Q -> checks (e1 ← m1; e2 ← m2; Ret (e1 ++ e2)) (P /\ Q).
Proof.
  intros (e1 & -> & H1) (e2 & -> & H2). simpl. eexists. split; [done|]. rewrite app_nil. naive_solver.
Qed.

Create HintDb checks.
#[local] Hint Resolve checks_nil : checks.

(** *** Locations *)

Lemma root_even v r : wf_node (v_rootNode v) -> getRootMappingNode v = Some r -> Nat.Even (length (nContent r)).
Proof.
  unfold getRootMappingNode. intros Hwf. destruct (nKind (v_rootNode v)); try done.
  destruct (nContent (v_rootNode v)) as [|c rest] eqn:E; [done|]. case_decide; [|done].
  intros [= ->]. apply wf_mapping; [|done]. eapply wf_content; [done|]. rewrite E. set_solver.
Qed.

Lemma root_wf v r : wf_node (v_rootNode v) -> getRootMappingNode v = Some r -> wf_node r.
Proof.
  unfold getRootMappingNode. intros Hwf. destruct (nKind (v_rootNode v)); try done.
  destruct (nContent (v_rootNode v)) as [|c rest] eqn:E; [done|]. case_decide; [|done].
  intros [= ->]. eapply wf_content; [done|]. rewrite E. set_solver.
Qed.

Lemma job_pair_at_even idx c : Nat.Even (length c) -> returns (job_pair_at c idx).
Proof.
  intros He. revert idx. revert c He. refine (even_pairs_ind _ _ _); simpl; [by eexists|].
  intros k v c IH idx. destruct (IsReservedTopLevelKey _); [apply IH|]. destruct idx; [by eexists|apply IH].
Qed.

Lemma getJobNodePair_returns v i : wf_node (v_rootNode v) -> returns (getJobNodePair v i).
Proof.
  intros Hwf. unfold getJobNodePair. destruct (getRootMappingNode v) eqn:E; [|by eexists].
  apply job_pair_at_even. by eapply root_even.
Qed.

Lemma stage_name_loc_wf i c :
  Nat.Even (length c) -> Forall wf_node c -> returns (stage_name_loc i c).
Proof.
  revert c. refine (even_pairs_ind _ _ _); simpl; [by eexists|]. intros k v c IH Hwf.
  inversion_clear Hwf as [|? ? _ Hwf']. inversion_clear Hwf' as [|? ? Hv Hc].
  case_decide; [|by apply IH]. case_decide; [|by apply IH].
  destruct (nContent v !! i) as [s|] eqn:Es; [|by apply IH].
  assert (Hs : returns (stage_entry_loc s)).
  { unfold stage_entry_loc. destruct (nKind s) eqn:Hk; try by eexists.
    destruct (find_value_even "name" (nContent s)) as [o ->]; [|by eexists].
    apply wf_mapping; [|done]. eapply wf_content; [done|]. by eapply list_elem_of_lookup_2. }
  destruct Hs as [[l|] ->]; simpl; [by eexists|by apply IH].
Qed.

Lemma getStageNameLocation_returns v i : wf_node (v_rootNode v) -> returns (getStageNameLocation v i).
Proof.
  intros Hwf. unfold getStageNameLocation. destruct (getRootMappingNode v) eqn:E; [|by eexists].
  apply stage_name_loc_wf; [by eapply root_even|]. apply wf_Forall_content. by eapply root_wf.
Qed.

Lemma getJobNameLocation_returns v i : wf_node (v_rootNode v) -> returns (getJobNameLocation v i).
Proof. intros ?. unfold getJobNameLocation. destruct (getJobNodePair_returns v i) as [o ->]; [done|by eexists]. Qed.
Lemma getJobStageLocation_returns v i : wf_node (v_rootNode v) -> returns (getJobStageLocation v i).
Proof. intros ?. unfold getJobStageLocation. destruct (getJobNodePair_returns v i) as [o ->]; [done|by eexists]. Qed.
Lemma getJobNeedsLocation_returns v i : wf_node (v_rootNode v) -> returns (getJobNeedsLocation v i).
Proof. intros ?. unfold getJobNeedsLocation. destruct (getJobNodePair_returns v i) as [o ->]; [done|by eexists]. Qed.
Lemma getJobsLocation_returns v : wf_node (v_rootNode v) -> returns (getJobsLocation v).
Proof. intros ?. unfold getJobsLocation. destruct (getJobNodePair_returns v 0) as [o ->]; [done|by eexists]. Qed.
#[local] Hint Resolve getStageNameLocation_returns getJobNameLocation_returns getJobStageLocation_returns
  getJobNeedsLocation_returns getJobsLocation_returns : checks.

Lemma job_pair_at_pairs c l i :
  pairs c = Ret l -> job_pair_at c i = Ret (filter isJobPair l !! i).
Proof.
  revert c l i. refine (list_ind2 _ _ _ _); simpl; [|done|].
  - intros l i [= <-]. done.
  - intros k x c IH l i E. go_inv. rewrite filter_cons. case_decide as Hr; unfold isJobPair in Hr; simpl in Hr.
    + rewrite Hr. destruct i; [done|]. by apply IH.
    + apply not_false_is_true in Hr. rewrite Hr. by apply IH.
Qed.

(** *** Uniqueness *)

Lemma duplicates_checks v what getLoc i names seen :
  (forall k, returns (getLoc k)) ->
  checks (duplicates v what getLoc i names seen)
    (NoDup names /\ forall x, x ∈ names -> seen !! x = None).
Proof.
  intros Hl. revert i seen. induction names as [|x l IH]; intros i seen; simpl.
  - exists []. split; [done|]. split; [|done]. intros _. split; [constructor|]. by intros x ?%elem_of_nil.
  - destruct (Hl i) as [loc ->]. simpl. destruct (seen !! x) as [prev|] eqn:Hx.
    + destruct (IH (S i) seen) as (es & -> & _). simpl. eexists. split; [done|]. split; [done|].
      intros [_ Hs]. rewrite Hs in Hx by set_solver. done.
    + eapply checks_iff; [apply IH|]. rewrite NoDup_cons. split.
      * intros [Hnd Hs]. split; [split; [|done]|].
        -- intros Hin. specialize (Hs x Hin). by rewrite lookup_insert_eq in Hs.
        -- intros y [->|Hy]%elem_of_cons; [done|]. specialize (Hs y Hy).
           destruct (decide (x = y)) as [->|]; [done|]. by rewrite lookup_insert_ne in Hs.
      * intros [[Hxl Hnd] Hs]. split; [done|]. intros y Hy.
        rewrite lookup_insert_ne by set_solver. apply Hs. set_solver.
Qed.

(** *** The maps the checks build *)

Lemma countJobs_acc jobs (m : gmap string nat) s :
  default 0 (foldl (fun m job => <[Job_Stage job := S (default 0 (m !! Job_Stage job))]> m) m jobs !! s) = 0
  <-> default 0 (m !! s) = 0 /\ Forall (fun j => Job_Stage j ≠ s) jobs.
Proof.
  revert m. induction jobs as [|j jobs IH]; intros m; simpl.
  - split; [by intros; split; [|constructor]|naive_solver].
  - rewrite IH, Forall_cons. destruct (decide (Job_Stage j = s)) as [<-|Hne].
    + rewrite lookup_insert_eq. simpl. naive_solver.
    + rewrite lookup_insert_ne by done. naive_solver.
Qed.

Lemma countJobs_0 jobs s :
  default 0 (countJobs jobs !! s) = 0 <-> Forall (fun j => Job_Stage j ≠ s) jobs.
Proof. unfold countJobs. rewrite countJobs_acc. rewrite lookup_empty. naive_solver. Qed.

Lemma needsGraph_edge jobs x y :
  NoDup (Job_Name <$> jobs) -> edge (needsGraph jobs) x y <-> needs_rel jobs x y.
Proof.
  intros Hnd. unfold edge, succs, needs_rel. split.
  - intros Hy. assert (is_Some (needsGraph jobs !! x)) as Hx.
    { destruct (needsGraph jobs !! x); [by eexists|]. by apply elem_of_nil in Hy. }
    apply foldl_insert_dom in Hx as [Hx|Hx]; [|by rewrite lookup_empty in Hx; destruct Hx].
    apply list_elem_of_fmap in Hx as (j & -> & Hj). exists j. split_and!; [done..|].
    unfold needsGraph in Hy. by rewrite (foldl_insert_spec Job_Name Job_Needs) in Hy.
  - intros (j & Hj & <- & Hy). unfold needsGraph. by rewrite (foldl_insert_spec Job_Name Job_Needs).
Qed.

Lemma needsGraph_acyclic jobs :
  NoDup (Job_Name <$> jobs) ->
  acyclic (needsGraph jobs) <-> (forall x, ~ tc (needs_rel jobs) x x).
Proof.
  intros Hnd. assert (H : forall x y, tc (edge (needsGraph jobs)) x y <-> tc (needs_rel jobs) x y).
  { intros x y. split; (induction 1; [apply tc_once|eapply tc_l; [|done]]); by apply needsGraph_edge. }
  unfold acyclic. by setoid_rewrite H.
Qed.

Lemma jobToStage_spec jobs k s :
  NoDup (Job_Name <$> jobs) ->
  jobToStage jobs !! k = Some s <-> exists j, j ∈ jobs /\ Job_Name j = k /\ Job_Stage j = s.
Proof.
  intros Hnd. split.
  - intros Hs. assert (is_Some (jobToStage jobs !! k)) as Hk by (by eexists).
    apply foldl_insert_dom in Hk as [Hk|Hk]; [|by rewrite lookup_empty in Hk; destruct Hk].
    apply list_elem_of_fmap in Hk as (j & -> & Hj). exists j. split_and!; [done..|].
    unfold jobToStage in Hs. rewrite (foldl_insert_spec Job_Name Job_Stage) in Hs by done. naive_solver.
  - intros (j & Hj & <- & <-). unfold jobToStage. by rewrite (foldl_insert_spec Job_Name Job_Stage).
Qed.

(** *** Each check *)
Section Checks.
Context (v : PipelineVerifier) (Hwf : wf_node (v_rootNode v)).
Notation jobs := (Pipeline_Jobs (v_pipeline v)).
Notation stages := (Pipeline_Stages (v_pipeline v)).

Lemma checkAtLeastOneStage_nil : checkAtLeastOneStage v = [] <-> stages ≠ [].
Proof. unfold checkAtLeastOneStage. by destruct stages. Qed.

Lemma checkAtLeastOneJob_checks : checks (checkAtLeastOneJob v) (jobs ≠ []).
Proof.
  unfold checkAtLeastOneJob. destruct jobs; [|by exists []].
  destruct (getJobsLocation_returns v Hwf) as [l ->]. by eexists.
Qed.

Lemma checkUniqueStageNames_checks :
  checks (checkUniqueStageNames v) (NoDup (Stage_Name <$> stages)).
Proof.
  eapply checks_iff; [apply duplicates_checks; auto with checks|].
  split; [naive_solver|]. intros ?. split; [done|]. intros. apply lookup_empty.
Qed.

Lemma checkUniqueJobNames_checks :
  checks (checkUniqueJobNames v) (NoDup (Job_Name <$> jobs)).
Proof.
  eapply checks_iff; [apply duplicates_checks; auto with checks|].
  split; [naive_solver|]. intros ?. split; [done|]. intros. apply lookup_empty.
Qed.

Lemma checkJobStagesExist_checks :
  checks (checkJobStagesExist v) (Forall (fun j => Job_Stage j ∈ Stage_Name <$> stages) jobs).
Proof.
  apply checks_forEach. intros k j _. eapply checks_iff; [apply checks_errorWhen; auto with checks|].
  rewrite bool_decide_eq_false, elem_of_list_to_set. destruct (decide (Job_Stage j ∈ Stage_Name <$> stages)); naive_solver.
Qed.

Lemma checkNoEmptyStages_checks :
  checks (checkNoEmptyStages v)
    (Forall (fun s => ~ Forall (fun j => Job_Stage j ≠ Stage_Name s) jobs) stages).
Proof.
  apply checks_forEach. intros k s _. eapply checks_iff; [apply checks_errorWhen; auto with checks|].
  by rewrite bool_decide_eq_false, countJobs_0.
Qed.

Lemma checkNeedsReferences_checks :
  checks (checkNeedsReferences v)
    (Forall (fun j => Forall (fun n => n ∈ Job_Name <$> jobs) (Job_Needs j)) jobs).
Proof.
  apply checks_forEach. intros k j _. apply checks_forEach. intros _ n _.
  eapply checks_iff; [apply checks_errorWhen; auto with checks|].
  rewrite bool_decide_eq_false, elem_of_list_to_set. destruct (decide (n ∈ Job_Name <$> jobs)); naive_solver.
Qed.

Lemma checkNeedsStageConsistency_checks :
  checks (checkNeedsStageConsistency v)
    (Forall (fun j => Forall (fun n => forall s, jobToStage jobs !! n = Some s -> s = Job_Stage j)
                             (Job_Needs j)) jobs).
Proof.
  apply checks_forEach. intros k j _. apply checks_forEach. intros _ n _.
  destruct (jobToStage jobs !! n) as [s|] eqn:Es.
  - eapply checks_iff; [apply checks_errorWhen; auto with checks|].
    rewrite bool_decide_eq_false. destruct (decide (s = Job_Stage j)); naive_solver.
  - eapply checks_iff; [apply checks_nil|]. naive_solver.
Qed.

Lemma jobLocations_returns i l m : returns (jobLocations v i l m).
Proof.
  revert i m. induction l as [|j l IH]; intros i m; simpl; [by eexists|].
  destruct (getJobNeedsLocation_returns v i Hwf) as [loc ->]. apply IH.
Qed.

Lemma checkNoCycles_checks order :
  iteration_order (needsGraph jobs) order ->
  checks (checkNoCycles order v) (acyclic (needsGraph jobs)).
Proof.
  intros Ho. unfold checkNoCycles.
  destruct (jobLocations_returns 0 jobs ∅) as [locs ->]. cbn [mbind go_bind].
  destruct (find_cycle_correct _ _ Ho) as (r & -> & Hr). destruct r as [c|].
  - destruct c as [|x c]; [done|]. eexists. split; [done|]. split; [done|].
    intros Ha. by apply is_cycle_not_acyclic in Hr.
  - by exists [].
Qed.
End Checks.

(** *** Checks on the tree return *)

Lemma forEach_returns {A} (f : nat -> A -> go (list ValidationError)) i l :
  (forall k x, x ∈ l -> returns (f k x)) -> returns (forEach f i l).
Proof.
  revert i. induction l as [|x l IH]; intros i Hf; simpl; [by eexists|].
  destruct (Hf i x) as [e ->]; [set_solver|]. simpl.
  destruct (IH (S i)) as [es ->]; [intros; apply Hf; set_solver|]. by eexists.
Qed.

Lemma validateJobs_returns v ns : returns (validateJobs v ns).
Proof.
  apply forEach_returns. intros _ n _. unfold validateSingleJob. repeat case_match; try by eexists.
  apply forEach_returns. intros k s _. unfold validateJobStep. repeat case_match; try by eexists.
  unfold validateFieldType. repeat case_match; try by eexists.
  unfold validateScriptField. repeat case_match; try by eexists.
  apply forEach_returns. by eexists.
Qed.

Lemma scalar_name_even c : Nat.Even (length c) -> returns (scalar_name c).
Proof.
  revert c. refine (even_pairs_ind _ _ _); simpl; [by eexists|]. intros k x c IH.
  repeat case_decide; [by eexists|done|done].
Qed.

Lemma GetJobNodes_returns root : wf_node root -> returns (GetJobNodes root).
Proof.
  intros Hwf. unfold GetJobNodes. destruct (nKind root); try by eexists.
  destruct (nContent root) as [|c rest] eqn:E; [by eexists|]. case_decide; [|by eexists].
  destruct (pairs_even (nContent c)) as [l ->]; [|by eexists].
  apply wf_mapping; [|done]. eapply wf_content; [done|]. rewrite E. set_solver.
Qed.

Lemma getTopLevelNode_wf v key :
  wf_node (v_rootNode v) ->
  exists o, getTopLevelNode v key = Ret o /\ (forall n, o = Some n -> wf_node n).
Proof.
  intros Hwf. unfold getTopLevelNode. destruct (getRootMappingNode v) as [r|] eqn:E; [|by exists None].
  destruct (find_value_even key (nContent r)) as [o Ho]; [by eapply root_even|].
  exists o. split; [done|]. intros n ->. apply find_value_elem in Ho. eapply wf_content; [|done].
  by eapply root_wf.
Qed.

Lemma checkYAMLTypes_returns v : wf_node (v_rootNode v) -> returns (checkYAMLTypes v).
Proof.
  intros Hwf. unfold checkYAMLTypes. destruct (nKind (v_rootNode v)); try by eexists.
  destruct (nContent (v_rootNode v)) as [|root rest]; [by eexists|]. case_decide; [|by eexists].
  destruct (getTopLevelNode_wf v "pipeline" Hwf) as (o & -> & Ho). simpl.
  destruct o as [pn|]; [|by eexists]. case_decide as Hk; [|by eexists].
  unfold checkPipelineName. destruct (find_value_even "name" (nContent pn)) as [nn ->].
  { apply wf_mapping; [by apply Ho|done]. }
  simpl. unfold checkStagesSection.
  destruct (getTopLevelNode_wf v "stages" Hwf) as (os & -> & Hos). simpl.
  destruct os as [sn|]; [|by eexists]. case_decide; [|by eexists].
  destruct (forEach_returns (checkStageEntry v) 0 (nContent sn)) as [e ->]; [|by eexists].
  intros k s Hs. unfold checkStageEntry. case_decide; [|by case_match; eexists].
  unfold findNameInMapping. rewrite decide_True by done.
  destruct (scalar_name_even (nContent s)) as [nm ->]; [|by eexists].
  apply wf_mapping; [|done]. eapply wf_content; [by apply Hos|done].
Qed.

(** The checks together decide validity. *)
Lemma semantic_valid p :
  (Pipeline_Stages p ≠ [] /\ NoDup (Stage_Name <$> Pipeline_Stages p) /\ Pipeline_Jobs p ≠ [] /\
   NoDup (Job_Name <$> Pipeline_Jobs p) /\
   Forall (fun j => Job_Stage j ∈ Stage_Name <$> Pipeline_Stages p) (Pipeline_Jobs p) /\
   Forall (fun s => ~ Forall (fun j => Job_Stage j ≠ Stage_Name s) (Pipeline_Jobs p)) (Pipeline_Stages p) /\
   Forall (fun j => Forall (fun n => n ∈ Job_Name <$> Pipeline_Jobs p) (Job_Needs j)) (Pipeline_Jobs p) /\
   Forall (fun j => Forall (fun n => forall s, jobToStage (Pipeline_Jobs p) !! n = Some s -> s = Job_Stage j)
                      (Job_Needs j)) (Pipeline_Jobs p) /\
   acyclic (needsGraph (Pipeline_Jobs p))) <-> valid_pipeline p.
Proof.
  split.
  - intros (H1 & H2 & H3 & H4 & H5 & H6 & H7 & H8 & H9).
    rewrite Forall_forall in H5. rewrite Forall_forall in H6.
    rewrite Forall_forall in H7. rewrite Forall_forall in H8. split; try done.
    + intros s Hs. specialize (H6 s Hs). apply not_Forall_Exists in H6; [|apply _].
      apply Exists_exists in H6 as (j & Hj & Hne). exists j. split; [done|]. by apply dec_stable.
    + intros j n Hj Hn. specialize (H7 j Hj). specialize (H8 j Hj).
      rewrite Forall_forall in H7. rewrite Forall_forall in H8.
      specialize (H7 n Hn). apply list_elem_of_fmap in H7 as (k & -> & Hk).
      exists k. split_and!; [done..|]. apply (H8 _ Hn). apply jobToStage_spec; [done|]. eauto.
    + by apply needsGraph_acyclic.
  - intros [H1 H2 H3 H4 H5 H6 H7 H8]. split_and!; try done.
    + by apply Forall_forall.
    + apply Forall_forall. intros s Hs Hall. destruct (H6 s Hs) as (j & Hj & E).
      rewrite Forall_forall in Hall. by eapply Hall.
    + apply Forall_forall. intros j Hj. apply Forall_forall. intros n Hn.
      destruct (H7 j n Hj Hn) as (k & Hk & <- & _). by apply list_elem_of_fmap_2.
    + apply Forall_forall. intros j Hj. apply Forall_forall. intros n Hn s Hs.
      apply jobToStage_spec in Hs as (k & Hk & <- & <-); [|done].
      destruct (H7 j _ Hj Hn) as (k' & Hk' & E & <-). f_equal. symmetry. by eapply NoDup_name_inj.
    + by apply needsGraph_acyclic.
Qed.

(** ** Properties *)

Lemma Verify_decides order v :
  wf_node (v_rootNode v) ->
  iteration_order (needsGraph (Pipeline_Jobs (v_pipeline v))) order ->
  exists errs, Verify order v = Ret errs /\
    (errs = [] <->
     checkYAMLTypes v = Ret [] /\
     (exists ns, GetJobNodes (v_rootNode v) = Ret ns /\ validateJobs v ns = Ret []) /\
     valid_pipeline (v_pipeline v)).
Proof.
  intros Hwf Ho. unfold Verify. destruct (checkYAMLTypes_returns v Hwf) as [te Ht]. rewrite Ht.
  cbn [mbind go_bind]. destruct (hasCriticalErrors te) eqn:Hcrit.
  { exists te. split; [done|]. split; [intros ->; done|]. intros ([= ->] & _). done. }
  unfold structuralChecks. destruct (GetJobNodes_returns _ Hwf) as [ns Hns]. rewrite Hns.
  destruct (validateJobs_returns v ns) as [fe Hfe]. cbn [mbind go_bind]. rewrite Hfe.
  destruct (checkUniqueStageNames_checks v Hwf) as (e2 & -> & H2).
  destruct (checkAtLeastOneJob_checks v Hwf) as (e3 & -> & H3).
  destruct (checkUniqueJobNames_checks v Hwf) as (e4 & -> & H4).
  destruct (checkJobStagesExist_checks v Hwf) as (e5 & -> & H5).
  destruct (checkNoEmptyStages_checks v Hwf) as (e6 & -> & H6).
  destruct (checkNeedsReferences_checks v Hwf) as (e7 & -> & H7).
  destruct (checkNeedsStageConsistency_checks v Hwf) as (e75 & -> & H75).
  destruct (checkNoCycles_checks v Hwf order Ho) as (e8 & -> & H8).
  cbn [mbind go_bind]. eexists. split; [done|].
  rewrite !app_nil, checkAtLeastOneStage_nil, H2, H3, H4, H5, H6, H7, H75, H8, <- semantic_valid.
  split; [naive_solver|]. intros ([= ->] & (ns' & [= <-] & E) & ?). rewrite E in Hfe. naive_solver.
Qed.

Definition sample_order : list string := ["lint"; "unit"; "compile"].

(** A cycle error names a real cycle: when [checkNoCycles] reports, its
    message spells a closed walk of the needs graph, back to its first job. *)
Theorem checkNoCycles_reports_cycle order v e :
  iteration_order (needsGraph (Pipeline_Jobs (v_pipeline v))) order ->
  checkNoCycles order v = Ret [e] ->
  exists x c, is_cycle (needsGraph (Pipeline_Jobs (v_pipeline v))) (x :: c) /\
    Message e = "cycle detected in `needs` requirements. " +++ Join (x :: c) " -> " +++ " -> " +++ x.
Proof.
  intros Ho. unfold checkNoCycles. destruct (find_cycle_correct _ _ Ho) as (r & -> & Hr).
  intros Hc. go_inv. destruct r as [[|y c]|]; [done| |done]. go_inv. by exists y, c.
Qed.

Definition cyclic_pipeline : Pipeline :=
  MkPipeline "loop" [MkStage "s"]
    [ MkJob "a" "s" "" [] ["b"] false; MkJob "b" "s" "" [] ["a"] false ].

Lemma checkNoCycles_reports_cycle_witness :
  let v := NewPipelineVerifier "content" cyclic_pipeline (render cyclic_pipeline) in
  exists e, checkNoCycles ["b"; "a"] v = Ret [e] /\
    exists x c, is_cycle (needsGraph (Pipeline_Jobs (v_pipeline v))) (x :: c) /\
    Message e = "cycle detected in `needs` requirements. " +++ Join (x :: c) " -> " +++ " -> " +++ x.
Proof.
  intros v. eexists. split; [vm_compute; reflexivity|].
  apply (checkNoCycles_reports_cycle ["b"; "a"] v); [|vm_compute; reflexivity].
  unfold iteration_order. apply (bool_decide_unpack _). vm_compute. exact I.
Defined.

(** Error locations point at the right job: for the pipeline parsed from
    the verifier's tree, the node pair the location helpers find for job index
    [i] is the key and value that the parser turned into the i-th job. *)
Theorem getJobNodePair_agree v i j :
  buildPipeline (v_rootNode v) = Ret (ok (v_pipeline v)) ->
  Pipeline_Jobs (v_pipeline v) !! i = Some j ->
  exists k x, getJobNodePair v i = Ret (Some (k, x)) /\ nValue k = Job_Name j /\
    parseJob (nValue k) x = Ret j.
Proof.
  intros (content & rest & Hc & Hk & Hm & Hj)%buildPipeline_jobs Hi.
  unfold getJobNodePair, getRootMappingNode. rewrite Hk, Hc, decide_True by done.
  unfold parseJobs in Hj. rewrite decide_True in Hj by done. go_inv.
  erewrite job_pair_at_pairs by done. apply mapM_go_Forall2 in Hj.
  eapply Forall2_lookup_r in Hj as ([k w] & Hl & Hp); [|exact Hi].
  exists k, w. split_and!; [by rewrite Hl| |done]. symmetry. by eapply parseJob_name.
Qed.

Lemma getJobNodePair_agree_witness :
  let v := NewPipelineVerifier "content" sample_pipeline (render sample_pipeline) in
  exists j, Pipeline_Jobs (v_pipeline v) !! 1 = Some j /\
  exists k x, getJobNodePair v 1 = Ret (Some (k, x)) /\ nValue k = Job_Name j /\
    parseJob (nValue k) x = Ret j.
Proof.
  intros v. eexists. split; [reflexivity|].
  apply (getJobNodePair_agree v 1); reflexivity.
Defined.

(** A [failures] value tagged as a boolean always passes the verifier's
    type check, but the parser honours only the spelling [true]: [True] and
    [TRUE], YAML booleans too, read as false. *)
Theorem failures_spelling v jobName job scriptLines value loc :
  let field := MkNode ScalarNode "!!bool" value loc [] in
  validateFieldType v jobName (scalar "failures") field = Ret [] /\
  Job_Failures (parseField (job, scriptLines) (scalar "failures", field)).1 = bool_decide (value = "true").
Proof. split; reflexivity. Qed.
