(* ===== verification/Typing.v ===== *)
(** * The types of a pipeline document (common/verifier/validation_checks.go)

    A type system for the YAML tree, as inductive judgements: what kinds and tags
    the name, the stages and the fields of a job may have. Theorem: the verifier
    accepts exactly the well-typed documents of valid pipelines. *)

From S2P Require Import Prelude GoStrings Models Graph CycleCheck Parser Wellformed Verifier.

(** ** Judgements *)

Definition typed_string (n : yaml_node) : Prop := nKind n = ScalarNode /\ nTag n = "!!str".

Inductive typed_script : yaml_node -> Prop :=
| script_line n : typed_string n -> typed_script n
| script_lines n : nKind n = SequenceNode -> Forall typed_string (nContent n) -> typed_script n.

Definition typed_keys : list string := ["stage"; "image"; "script"; "needs"; "failures"].

Inductive typed_field : string -> yaml_node -> Prop :=
| field_stage n : typed_string n -> typed_field "stage" n
| field_image n : typed_string n -> typed_field "image" n
| field_script n : typed_script n -> typed_field "script" n
| field_needs n : nKind n = SequenceNode -> typed_field "needs" n
| field_failures n : nKind n = ScalarNode -> nTag n = "!!bool" -> typed_field "failures" n
| field_other key n : key ∉ typed_keys -> typed_field key n.

Inductive typed_step (n : yaml_node) : Prop :=
| step_typed key value : nKind n = MappingNode -> nContent n = [key; value] -> typed_field (nValue key) value -> typed_step n.

Definition typed_job (kv : yaml_node * yaml_node) : Prop :=
  typed_string kv.1 /\ nKind kv.2 = SequenceNode /\ Forall typed_step (nContent kv.2).

Inductive typed_stage : yaml_node -> Prop :=
| stage_name n : typed_string n -> typed_stage n
| stage_object n name : nKind n = MappingNode -> findNameInMapping n = Ret name -> name ≠ "" -> typed_stage n.

(** The parts of the document's mapping. *)
Record typed_mapping (m : yaml_node) : Prop := {
  tm_kind : nKind m = MappingNode;
  tm_pipeline : exists p, find_value "pipeline" (nContent m) = Ret (Some p) /\ nKind p = MappingNode /\
    exists name, find_value "name" (nContent p) = Ret (Some name) /\ typed_string name;
  tm_stages : forall s, find_value "stages" (nContent m) = Ret (Some s) -> nKind s = SequenceNode /\ Forall typed_stage (nContent s) }.

Definition typed_jobs (m : yaml_node) : Prop :=
  forall l, pairs (nContent m) = Ret l -> Forall typed_job (filter isJobPair (l : list (yaml_node * yaml_node))).

Inductive typed_document (root : yaml_node) : Prop :=
| document m rest : nKind root = DocumentNode -> nContent root = m :: rest -> typed_mapping m -> typed_jobs m -> typed_document root.

(** ** The checker decides them *)

Lemma isStringNode_spec n : isStringNode n = true <-> typed_string n.
Proof. apply bool_decide_eq_true. Qed.

Lemma checks_unless (b : bool) (e : list ValidationError) (P : Prop) : e ≠ [] -> (b = true <-> P) ->
  checks (Ret (if b then [] else e)) P.
Proof. intros He HP. eexists. split; [done|]. destruct b; naive_solver. Qed.

Lemma checks_bad e es (P : Prop) : ~ P -> checks (Ret (e :: es)) P.
Proof. intros HP. eexists. split; [done|]. naive_solver. Qed.

Lemma checks_decide (P Q : Prop) `{Decision P} (e : list ValidationError) : e ≠ [] -> (P <-> Q) ->
  checks (Ret (if decide P then [] else e)) Q.
Proof. intros He HP. eexists. split; [done|]. case_decide; naive_solver. Qed.

Lemma validateScriptField_checks v jobName n : checks (validateScriptField v jobName n) (typed_script n).
Proof.
  unfold validateScriptField. assert (Hno : nKind n ≠ ScalarNode -> nKind n ≠ SequenceNode -> ~ typed_script n).
  { intros H1 H2 H. inversion H as [? [? ?]|]; congruence. }
  destruct (nKind n) eqn:Ek; try (apply checks_bad, Hno; congruence).
  - eapply checks_iff; [apply (checks_forEach _ typed_string)|].
    + intros k x _. apply checks_unless; [done|apply isStringNode_spec].
    + split; [by apply script_lines|]. intros H. inversion H as [? [? ?]|]; congruence || done.
  - apply checks_decide; [done|]. split; [by intros ?; apply script_line|].
    intros H. inversion H as [? [? ?]|]; congruence || done.
Qed.

(** The typing of a field that has a type of its own. *)
Local Ltac field_inv :=
  let H := fresh in intros H; inversion H; subst; [done || by split|exfalso; match goal with Ho : _ ∉ typed_keys |- _ => apply Ho; unfold typed_keys; set_solver end].

Lemma validateFieldType_checks v jobName key n : checks (validateFieldType v jobName key n) (typed_field (nValue key) n).
Proof.
  unfold validateFieldType. destruct (decide (nValue key = "stage" \/ nValue key = "image")) as [Hk|Hk].
  { apply checks_unless; [done|]. rewrite isStringNode_spec. destruct Hk as [-> | ->]; split; try by constructor.
    all: field_inv. }
  destruct (decide (nValue key = "script")) as [-> |Hs].
  { eapply checks_iff; [apply validateScriptField_checks|]. split; [by constructor|].
    field_inv. }
  destruct (decide (nValue key = "needs")) as [-> |Hn].
  { apply checks_decide; [done|]. split; [by constructor|]. field_inv. }
  destruct (decide (nValue key = "failures")) as [-> |Hf].
  { apply checks_decide; [done|]. split; [by intros [? ?]; constructor|].
    field_inv. }
  eapply checks_iff; [apply checks_nil|]. split; [|done]. intros _. apply field_other. unfold typed_keys. set_solver.
Qed.

Lemma validateJobStep_checks v jobName i n : checks (validateJobStep v jobName i n) (typed_step n).
Proof.
  unfold validateJobStep. case_decide as Hk; [|apply checks_bad; by intros []].
  destruct (nContent n) as [|k [|x [|y l]]] eqn:Ec; try (apply checks_bad; intros [? ? _ E _]; congruence).
  eapply checks_iff; [apply validateFieldType_checks|]. split; [by apply step_typed|].
  intros [k' x' _ E H]. rewrite Ec in E. by injection E as <- <-.
Qed.

Lemma validateSingleJob_checks v jn : checks (validateSingleJob v jn) (typed_job (JN_Key jn, JN_Value jn)).
Proof.
  unfold validateSingleJob, typed_job. simpl. destruct (isStringNode (JN_Key jn)) eqn:Es.
  - apply isStringNode_spec in Es. case_decide as Hk; [|apply checks_bad; naive_solver].
    eapply checks_iff; [apply (checks_forEach _ typed_step); intros; apply validateJobStep_checks|]. naive_solver.
  - apply checks_bad. rewrite <- isStringNode_spec, Es. naive_solver.
Qed.

Lemma validateJobs_checks v ns : checks (validateJobs v ns) (Forall (fun jn => typed_job (JN_Key jn, JN_Value jn)) ns).
Proof. apply checks_forEach. intros; apply validateSingleJob_checks. Qed.

Lemma checkStageEntry_checks v i n : wf_node n -> checks (checkStageEntry v i n) (typed_stage n).
Proof.
  intros Hwf. unfold checkStageEntry. case_decide as Hk.
  - destruct (scalar_name_even (nContent n)) as [name Hname]; [by apply wf_mapping|].
    assert (Ef : findNameInMapping n = Ret name) by (unfold findNameInMapping; by rewrite decide_True).
    rewrite Ef. cbn [mbind go_bind]. eexists. split; [done|]. case_decide as He; split; try done.
    + intros H. inversion H as [? [? _]|? name' _ E Hn]; congruence.
    + intros _. by apply stage_object with name.
  - destruct (isStringNode n) eqn:Es.
    + eapply checks_iff; [apply checks_nil|]. split; [|done]. intros _. by apply stage_name, isStringNode_spec.
    + apply checks_bad. intros H. inversion H as [? Hs|]; [|done]. apply isStringNode_spec in Hs. congruence.
Qed.

(** The document's mapping, by the way the checker reads it. *)
Lemma checkPipelineName_checks v p : wf_node p -> nKind p = MappingNode ->
  checks (checkPipelineName v p) (exists name, find_value "name" (nContent p) = Ret (Some name) /\ typed_string name).
Proof.
  intros Hwf Hk. unfold checkPipelineName. destruct (find_value_even "name" (nContent p)) as [o Ho]; [by apply wf_mapping|].
  rewrite Ho. cbn [mbind go_bind]. destruct o as [n|]; [|apply checks_bad; naive_solver].
  apply checks_unless; [done|]. rewrite isStringNode_spec. naive_solver.
Qed.

Lemma checkStagesSection_checks v m : wf_node (v_rootNode v) -> getRootMappingNode v = Some m ->
  checks (checkStagesSection v)
    (forall s, find_value "stages" (nContent m) = Ret (Some s) -> nKind s = SequenceNode /\ Forall typed_stage (nContent s)).
Proof.
  intros Hwf Hm. unfold checkStagesSection. destruct (getTopLevelNode_wf v "stages" Hwf) as (o & Ho & Hwo).
  rewrite Ho. unfold getTopLevelNode in Ho. rewrite Hm in Ho. cbn [mbind go_bind]. destruct o as [s|].
  - case_decide as Hk; [|apply checks_bad; naive_solver]. eapply checks_iff.
    + apply (checks_forEach _ typed_stage). intros k x Hx. apply checkStageEntry_checks. eapply wf_content; [by apply Hwo|done].
    + rewrite Ho. split; [by intros H s0 [= <-]|]. intros H. by apply (H s).
  - eapply checks_iff; [apply checks_nil|]. rewrite Ho. done.
Qed.

Lemma checkYAMLTypes_checks v : wf_node (v_rootNode v) ->
  checks (checkYAMLTypes v) (exists m rest, nKind (v_rootNode v) = DocumentNode /\ nContent (v_rootNode v) = m :: rest /\ typed_mapping m).
Proof.
  intros Hwf. unfold checkYAMLTypes. destruct (nKind (v_rootNode v)) eqn:Ek; try (apply checks_bad; naive_solver).
  destruct (nContent (v_rootNode v)) as [|m rest] eqn:Ec; [apply checks_bad; naive_solver|].
  case_decide as Hm; [|apply checks_bad; intros (? & ? & _ & [= <- <-] & []); congruence].
  assert (Hroot : getRootMappingNode v = Some m) by (unfold getRootMappingNode; by rewrite Ek, Ec, decide_True).
  destruct (getTopLevelNode_wf v "pipeline" Hwf) as (o & Ho & Hwo). rewrite Ho. unfold getTopLevelNode in Ho. rewrite Hroot in Ho.
  cbn [mbind go_bind]. destruct o as [p|]; [|apply checks_bad; intros (? & ? & _ & [= <- <-] & [_ (? & ? & _) _]); congruence].
  case_decide as Hp; [|apply checks_bad; intros (? & ? & _ & [= <- <-] & [_ (p' & ? & ? & _) _]); congruence].
  eapply checks_iff; [apply checks_app; [apply checkPipelineName_checks; [by apply Hwo|done]|by apply checkStagesSection_checks]|].
  split.
  - intros [Hn Hs]. exists m, rest. split_and!; [done..|]. split; [done|by exists p|done].
  - intros (? & ? & _ & [= <- <-] & [_ (p' & E & _ & Hn) Hs]). rewrite Ho in E. injection E as <-. done.
Qed.

Lemma types_checked v : wf_node (v_rootNode v) ->
  typed_document (v_rootNode v) <->
  checkYAMLTypes v = Ret [] /\ exists ns, GetJobNodes (v_rootNode v) = Ret ns /\ validateJobs v ns = Ret [].
Proof.
  intros Hwf. destruct (checkYAMLTypes_checks v Hwf) as (e & Et & Ht). rewrite Et.
  destruct (GetJobNodes_returns _ Hwf) as [ns Ens]. destruct (validateJobs_checks v ns) as (ej & Ej & Hj).
  assert (Hjobs : forall m rest, nKind (v_rootNode v) = DocumentNode -> nContent (v_rootNode v) = m :: rest -> nKind m = MappingNode ->
    typed_jobs m <-> Forall (fun jn => typed_job (JN_Key jn, JN_Value jn)) ns).
  { intros m rest Ek Ec Hm. unfold GetJobNodes in Ens. rewrite Ek, Ec, decide_True in Ens by done.
    apply bind_Ret in Ens as (l & El & [= <-]). unfold typed_jobs. rewrite El, Forall_fmap. split.
    - intros H. eapply Forall_impl; [by apply H|]. by intros [].
    - intros H l' [= <-]. eapply Forall_impl; [exact H|]. by intros []. }
  split.
  - intros [m rest Ek Ec Hm Hj']. split; [f_equal; apply Ht; by exists m, rest|]. exists ns. split; [done|].
    rewrite Ej. f_equal. apply Hj, (Hjobs m rest); [done|done|apply Hm|done].
  - intros ([= ->] & ns' & Ens' & Evj). destruct (proj1 Ht eq_refl) as (m & rest & Ek & Ec & Hm).
    rewrite Ens in Ens'. injection Ens' as <-. rewrite Ej in Evj. injection Evj as ->.
    apply document with m rest; [done|done|done|]. apply (Hjobs m rest); [done|done|apply Hm|by apply Hj].
Qed.

(** C13: type soundness and completeness of the verifier: on every tree that yaml.v3
    can build it returns without panic, and it accepts exactly the documents that
    are well typed and whose pipeline is valid. Well typed as the verifier takes it,
    which is not what the README says: the document has a [pipeline] mapping with a
    string as [name]; if it has [stages] they are a sequence of strings or named
    mappings; each job is a sequence of mappings with one field each; a stage or an
    image is a string, a script a string or a sequence of strings, the needs a
    sequence and [failures] a boolean, but no field has to be there, so a job needs
    no image and no script. *)
Theorem Verify_types order v :
  wf_node (v_rootNode v) -> iteration_order (needsGraph (Pipeline_Jobs (v_pipeline v))) order ->
  exists errs, Verify order v = Ret errs /\ (errs = [] <-> typed_document (v_rootNode v) /\ valid_pipeline (v_pipeline v)).
Proof.
  intros Hwf Ho. destruct (Verify_decides order v Hwf Ho) as (errs & E & He). exists errs. split; [done|].
  rewrite He, (types_checked v Hwf). tauto.
Qed.

(** The README calls the metadata optional; without them a document is refused. *)
Lemma pipeline_metadata_required order v m rest :
  wf_node (v_rootNode v) -> iteration_order (needsGraph (Pipeline_Jobs (v_pipeline v))) order ->
  nKind (v_rootNode v) = DocumentNode -> nContent (v_rootNode v) = m :: rest -> find_value "pipeline" (nContent m) = Ret None ->
  exists errs, Verify order v = Ret errs /\ errs ≠ [].
Proof.
  intros Hwf Ho Hk Hc Hno. destruct (Verify_decides order v Hwf Ho) as (errs & E & He). exists errs. split; [done|].
  intros H%He. assert (typed_document (v_rootNode v)) as [m' rest' Hk' Hc' Hm _] by (apply (types_checked v Hwf); tauto). rewrite Hc in Hc'. injection Hc' as <- <-.
  destruct (tm_pipeline m Hm) as (p & Hp & _). congruence.
Qed.

(** It calls the image and the script of a job required; this job has neither. *)
Definition bare_document : yaml_node :=
  MkNode DocumentNode "" "" no_loc [mapping
    [(scalar "pipeline", mapping [(scalar "name", scalar "bare")]); (scalar "stages", sequence [scalar "build"]);
     (scalar "compile", sequence [mapping [(scalar "stage", scalar "build")]])]].
Definition bare_pipeline : Pipeline := MkPipeline "bare" [MkStage "build"] [MkJob "compile" "build" "" [] [] false].
Lemma bare_job_accepted :
  buildPipeline bare_document = Ret (ok bare_pipeline) /\
  Verify ["compile"] (NewPipelineVerifier "content" bare_pipeline bare_document) = Ret [].
Proof. split; vm_compute; reflexivity. Qed.

(** A rendered pipeline is well typed. *)
Lemma Verify_types_witness :
  let v := NewPipelineVerifier "content" sample_pipeline (render sample_pipeline) in
  typed_document (render sample_pipeline).
Proof.
  intros v. destruct (Verify_types sample_order v) as (errs & E & He).
  - apply wf_render.
  - unfold iteration_order. apply (bool_decide_unpack _). vm_compute. reflexivity.
  - assert (Ev : Verify sample_order v = Ret []) by (vm_compute; reflexivity). rewrite Ev in E. injection E as <-.
    apply (proj1 He eq_refl).
Defined.
