(* ===== verification/Planner.v ===== *)
(** * The planner (internal/common/planner)

    Kahn's algorithm within a stage, the static stage plans, and the execution
    plan. The order in which the runtime iterates the in-degree map, which
    fixes the initial queue, is a parameter of each call. Go's [int] degrees
    are bounded by the number of needs and never wrap.

    Theorems: the loop terminates on every input; on the jobs of a valid stage
    it returns each job exactly once, after all the jobs it needs, for every
    iteration order; the execution plan of a valid pipeline places every job
    exactly once. *)

From S2P Require Import Prelude Models Graph Wellformed.

Definition jobsForStage (stageName : string) (p : Pipeline) : list Job :=
  filter (fun job => Job_Stage job = stageName) (Pipeline_Jobs p).

(** [for job { for need { dependents[need] = append(dependents[need], lab(job)) } }]:
    built twice in the planner, with the jobs and with their names. *)
Definition addDependent {B} (b : B) (m : gmap string (list B)) (need : string) : gmap string (list B) :=
  <[need := default [] (m !! need) ++ [b]]> m.

Definition buildDependents {B} (lab : Job -> B) (jobs : list Job) : gmap string (list B) :=
  foldl (fun m job => foldl (addDependent (lab job)) m (Job_Needs job)) ∅ jobs.

Definition buildInDegree (jobs : list Job) : gmap string Z :=
  foldl (fun m job => <[Job_Name job := Z.of_nat (length (Job_Needs job))]> m) ∅ jobs.

Definition buildJobMap (jobs : list Job) : gmap string Job :=
  foldl (fun m job => <[Job_Name job := job]> m) ∅ jobs.

(** [inDegree[dep]--; if inDegree[dep] == 0 { queue = append(queue, dep) }] *)
Definition release_one (st : gmap string Z * list string) (dep : string) : gmap string Z * list string :=
  let d := (default 0 (st.1 !! dep) - 1)%Z in
  (<[dep := d]> st.1, if decide (d = 0%Z) then st.2 ++ [dep] else st.2).

(** The [for len(queue) > 0] loop; [None] is "out of fuel". *)
Fixpoint kahn_loop (fuel : nat) (jobMap : gmap string Job) (dependents : gmap string (list Job))
    (inDegree : gmap string Z) (queue : list string) (result : list Job) : option (list Job) :=
  match queue with
  | [] => Some result
  | name :: queue' =>
    match fuel with
    | 0 => None
    | S fuel' =>
      let '(inDegree', queue'') :=
        foldl release_one (inDegree, queue') (Job_Name <$> default [] (dependents !! name)) in
      kahn_loop fuel' jobMap dependents inDegree' queue''
        (result ++ [default zeroJob (jobMap !! name)])
    end
  end.

(** [scheduleJobsInStage]; each pass of the loop consumes a distinct job name,
    so [length jobs] passes are enough ([scheduleJobsInStage_terminates]). *)
Definition scheduleJobsInStage (order : list string) (jobs : list Job) : option (list Job) :=
  match jobs with
  | [] => Some []
  | _ =>
    let inDegree := buildInDegree jobs in
    kahn_loop (length jobs) (buildJobMap jobs) (buildDependents id jobs) inDegree
      (filter (fun name => inDegree !! name = Some 0%Z) order) []
  end.

Definition jobPlan (job : Job) : JobExecutionPlan :=
  MkJobPlan (Job_Name job) (Job_Image job) (Job_Script job).

Definition buildStagePlan (order : list string) (stage : Stage) (p : Pipeline) : option StageExecutionPlan :=
  orderedJobs ← scheduleJobsInStage order (jobsForStage (Stage_Name stage) p);
  Some (MkStageExecutionPlan (Stage_Name stage) (jobPlan <$> orderedJobs)).

Fixpoint planStages (orders : nat -> list string) (i : nat) (stages : list Stage) (p : Pipeline)
    : option (list StageExecutionPlan) :=
  match stages with
  | [] => Some []
  | stage :: rest =>
    s ← buildStagePlan (orders i) stage p; ss ← planStages orders (S i) rest p; Some (s :: ss)
  end.

(** [orders i] is the iteration order of the i-th call of [scheduleJobsInStage]. *)
Definition GenerateExecutionPlan (orders : nat -> list string) (p : Pipeline) : option ExecutionPlan :=
  ss ← planStages orders 0 (Pipeline_Stages p) p; Some (MkExecutionPlan ss).

Definition BuildStagePlan (order : list string) (stageName : string) (p : Pipeline) : option StagePlan :=
  let stageJobs := jobsForStage stageName p in
  orderedJobs ← scheduleJobsInStage order stageJobs;
  Some (MkStagePlan stageName
    (jobPlan <$> orderedJobs)
    (foldl (fun m job => <[Job_Name job := Job_Needs job]> m) ∅ stageJobs)
    (buildDependents Job_Name stageJobs)
    (buildInDegree stageJobs)
    (foldl (fun m job => <[Job_Name job := jobPlan job]> m) ∅ orderedJobs)).

(** ** The dependents map *)

Lemma addDependents_lookup {B} (b : B) needs (m : gmap string (list B)) k :
  default [] (foldl (addDependent b) m needs !! k) = default [] (m !! k) ++ replicate (occ k needs) b.
Proof.
  revert m. induction needs as [|n needs IH]; intros m; simpl; [by rewrite app_nil_r|].
  rewrite IH. unfold addDependent. destruct (decide (k = n)) as [->|Hne].
  - rewrite lookup_insert_eq. simpl. by rewrite <- app_assoc.
  - by rewrite lookup_insert_ne.
Qed.

Lemma buildDependents_acc {B} (lab : Job -> B) jobs (m : gmap string (list B)) k :
  default [] (foldl (fun m job => foldl (addDependent (lab job)) m (Job_Needs job)) m jobs !! k)
  = default [] (m !! k) ++ (jobs ≫= fun j => replicate (occ k (Job_Needs j)) (lab j)).
Proof.
  revert m. induction jobs as [|j jobs IH]; intros m; simpl; [by rewrite app_nil_r|].
  by rewrite IH, addDependents_lookup, <- app_assoc.
Qed.

(** A job appears among the dependents of a name once per occurrence of the
    name in its needs. *)
Lemma buildDependents_lookup {B} (lab : Job -> B) jobs k :
  default [] (buildDependents lab jobs !! k)
  = jobs ≫= fun j => replicate (occ k (Job_Needs j)) (lab j).
Proof. unfold buildDependents. by rewrite buildDependents_acc, lookup_empty. Qed.

Lemma dependents_occ jobs k j :
  NoDup (Job_Name <$> jobs) -> j ∈ jobs ->
  occ (Job_Name j) (jobs ≫= fun j => replicate (occ k (Job_Needs j)) (Job_Name j)) = occ k (Job_Needs j).
Proof.
  assert (Hrep : forall x y n, occ x (replicate n y) = if decide (x = y) then n else 0).
  { intros x y n. induction n; simpl; repeat case_decide; congruence. }
  induction jobs as [|j' jobs IH]; intros Hnd Hin; [by apply elem_of_nil in Hin|].
  rewrite fmap_cons in Hnd. apply NoDup_cons in Hnd as [Hj' Hnd]. rewrite bind_cons, occ_app, Hrep.
  apply elem_of_cons in Hin as [->|Hin].
  - rewrite decide_True by done. match goal with |- _ + ?x = _ => enough (x = 0) as ->; [lia|] end.
    apply occ_0. intros (j & Hrep' & Hj)%list_elem_of_bind. apply elem_of_replicate in Hrep' as [E _].
    apply Hj'. rewrite E. by apply list_elem_of_fmap_2.
  - rewrite decide_False, IH by (done || (intros E; apply Hj'; rewrite <- E; by apply list_elem_of_fmap_2)). lia.
Qed.

(** ** Releasing dependents *)

(** What a pass over a list of dependents does: each degree drops by the number
    of occurrences, and the names whose degree crosses zero are enqueued once. *)
Lemma release_spec deps deg queue :
  exists new, (foldl release_one (deg, queue) deps).2 = queue ++ new /\
    (forall n, default 0%Z ((foldl release_one (deg, queue) deps).1 !! n)
               = (default 0 (deg !! n) - Z.of_nat (occ n deps))%Z) /\
    NoDup new /\
    (forall n, n ∈ new <-> (1 <= default 0 (deg !! n) <= Z.of_nat (occ n deps))%Z).
Proof.
  revert deg queue. induction deps as [|x deps IH]; intros deg queue; simpl.
  - exists []. split_and!; [by rewrite app_nil_r|intros; lia|constructor|].
    intros n. split; [by intros ?%elem_of_nil|lia].
  - set (d := (default 0%Z (deg !! x) - 1)%Z).
    change (release_one (deg, queue) x) with (<[x:=d]> deg, if decide (d = 0%Z) then queue ++ [x] else queue).
    destruct (IH (<[x:=d]> deg) (if decide (d = 0%Z) then queue ++ [x] else queue))
      as (new & -> & Hdeg & Hnd & Hnew).
    assert (Hd : forall n, default 0%Z (<[x:=d]> deg !! n) = if decide (n = x) then d else default 0%Z (deg !! n)).
    { intros n. destruct (decide (n = x)) as [->|]; [by rewrite lookup_insert_eq|by rewrite lookup_insert_ne]. }
    exists (if decide (d = 0%Z) then x :: new else new). split_and!.
    + case_decide; [by rewrite <- app_assoc|done].
    + intros n. rewrite Hdeg, Hd. unfold d. destruct (decide (n = x)) as [->|]; simpl; lia.
    + case_decide as H0; [|done]. constructor; [|done]. rewrite Hnew, Hd, decide_True by done. unfold d in *. lia.
    + intros n. case_decide as H0; [rewrite elem_of_cons|]; rewrite Hnew, Hd;
        unfold d in *; simpl; destruct (decide (n = x)) as [->|]; simpl; naive_solver lia.
Qed.

(** ** The loop invariant *)

Abbreviation names jobs := (fmap (M:=list) Job_Name jobs).

(** Topological order: the needs of each job are among the names before it. *)
Fixpoint topo_from (seen : list string) (l : list Job) : Prop :=
  match l with
  | [] => True
  | j :: l' => (forall n, n ∈ Job_Needs j -> n ∈ seen) /\ topo_from (seen ++ [Job_Name j]) l'
  end.
Definition topo (l : list Job) : Prop := topo_from [] l.

Lemma topo_from_snoc seen l j :
  topo_from seen l -> (forall n, n ∈ Job_Needs j -> n ∈ seen ++ names l) -> topo_from seen (l ++ [j]).
Proof.
  revert seen. induction l as [|k l IH]; intros seen; simpl.
  - rewrite app_nil_r. naive_solver.
  - intros [Hk Hl] Hj. split; [done|]. apply IH; [done|]. by rewrite <- app_assoc.
Qed.

Lemma topo_from_perm seen l j n :
  topo_from seen l -> j ∈ l -> n ∈ Job_Needs j ->
  exists l1 l2, l = l1 ++ j :: l2 /\ n ∈ seen ++ names l1.
Proof.
  revert seen. induction l as [|k l IH]; intros seen; [by intros _ ?%elem_of_nil|].
  intros [Hk Hl] [->|Hj]%elem_of_cons Hn.
  - exists [], l. split; [done|]. rewrite app_nil_r. auto.
  - destruct (IH _ Hl Hj Hn) as (l1 & l2 & -> & Hin). exists (k :: l1), l2. split; [done|].
    by rewrite <- app_assoc in Hin.
Qed.

Definition deg_of (deg : gmap string Z) (n : string) : Z := default 0%Z (deg !! n).

Record kahn_safe (jobs : list Job) (deg : gmap string Z) (popped queue : list string) : Prop := {
  ks_nodup : NoDup (popped ++ queue);
  ks_names : forall n, n ∈ popped ++ queue -> n ∈ names jobs;
  ks_zero : forall n, n ∈ popped ++ queue -> (deg_of deg n <= 0)%Z;
}.

(** The needs of [j] that are not yet popped. *)
Definition pending (popped : list string) (j : Job) : list string :=
  filter (fun n => n ∉ popped) (Job_Needs j).

Record kahn_live (jobs : list Job) (deg : gmap string Z) (popped queue : list string) : Prop := {
  kl_deg : forall j, j ∈ jobs -> deg_of deg (Job_Name j) = Z.of_nat (length (pending popped j));
  kl_ready : forall j, j ∈ jobs -> pending popped j = [] -> Job_Name j ∈ popped ++ queue;
}.

Definition released (jobs : list Job) (name : string) : list string :=
  names (default [] (buildDependents id jobs !! name)).

Lemma released_in jobs name n : n ∈ released jobs name -> n ∈ names jobs.
Proof.
  unfold released. rewrite buildDependents_lookup. intros (j & -> & Hj)%list_elem_of_fmap.
  apply list_elem_of_bind in Hj as (k & Hj & Hk). apply elem_of_replicate in Hj as [-> _].
  by apply list_elem_of_fmap_2.
Qed.

Lemma released_occ jobs name j :
  NoDup (names jobs) -> j ∈ jobs -> occ (Job_Name j) (released jobs name) = occ name (Job_Needs j).
Proof.
  intros Hnd Hj. rewrite <- (dependents_occ jobs name j Hnd Hj). f_equal.
  unfold released. rewrite buildDependents_lookup. clear. induction jobs as [|k jobs IH]; [done|].
  simpl. rewrite fmap_app. f_equal; [by rewrite fmap_replicate|done].
Qed.

Lemma pending_snoc popped name j :
  name ∉ popped -> length (pending (popped ++ [name]) j) + occ name (Job_Needs j) = length (pending popped j).
Proof.
  intros Hn. unfold pending. induction (Job_Needs j) as [|x l IH]; [done|].
  rewrite !filter_cons. simpl. repeat case_decide; simpl; set_solver by lia.
Qed.

(** One pass of the loop. *)
Lemma kahn_step_safe jobs deg popped name queue :
  kahn_safe jobs deg popped (name :: queue) ->
  let st := foldl release_one (deg, queue) (released jobs name) in
  kahn_safe jobs st.1 (popped ++ [name]) st.2.
Proof.
  intros [Hnd Hn Hz] st.
  destruct (release_spec (released jobs name) deg queue) as (new & Hq & Hdeg & Hndn & Hnew).
  assert (Hold : forall n, n ∈ new -> n ∉ popped ++ name :: queue).
  { intros n Hin Hn'. apply Hz in Hn'. apply Hnew in Hin. unfold deg_of in *. lia. }
  assert (E : (popped ++ [name]) ++ st.2 = (popped ++ name :: queue) ++ new).
  { unfold st. by rewrite Hq, <- !app_assoc. }
  split; rewrite E; clear E.
  - apply NoDup_app. split_and!; [done| |done]. intros n ? ?. by eapply Hold.
  - intros n [Hin|Hin]%elem_of_app; [auto|]. apply Hnew in Hin.
    apply (released_in jobs name), occ_pos. lia.
  - intros n Hin. unfold deg_of, st. rewrite Hdeg. apply elem_of_app in Hin as [Hin|Hin].
    + apply Hz in Hin. unfold deg_of in Hin. lia.
    + apply Hnew in Hin. lia.
Qed.

Lemma kahn_step_live jobs deg popped name queue :
  NoDup (names jobs) -> kahn_safe jobs deg popped (name :: queue) ->
  kahn_live jobs deg popped (name :: queue) ->
  let st := foldl release_one (deg, queue) (released jobs name) in
  kahn_live jobs st.1 (popped ++ [name]) st.2.
Proof.
  intros Hu [Hnd _ _] [Hdeg0 Hready] st.
  destruct (release_spec (released jobs name) deg queue) as (new & Hq & Hdeg & Hndn & Hnew).
  assert (Hnp : name ∉ popped).
  { apply NoDup_app in Hnd as (_ & Hd & _). intros Hin. eapply Hd; [done|set_solver]. }
  split.
  - intros j Hj. unfold deg_of, st. rewrite Hdeg, released_occ by done.
    pose proof (Hdeg0 j Hj) as E. pose proof (pending_snoc popped name j Hnp). unfold deg_of in E. lia.
  - intros j Hj Hp. unfold st. rewrite Hq.
    destruct (pending popped j) as [|n l] eqn:Hpd; [pose proof (Hready j Hj Hpd); set_solver|].
    pose proof (Hdeg0 j Hj) as E. pose proof (pending_snoc popped name j Hnp) as Hs.
    rewrite Hp, Hpd in Hs. rewrite Hpd in E. unfold deg_of in E. simpl in *.
    rewrite !elem_of_app. right. right. apply Hnew. rewrite released_occ by done. lia.
Qed.

Lemma jobMap_lookup jobs j :
  NoDup (names jobs) -> j ∈ jobs -> buildJobMap jobs !! Job_Name j = Some j.
Proof. intros. unfold buildJobMap. by apply (foldl_insert_spec Job_Name id). Qed.

Lemma jobMap_in jobs n :
  n ∈ names jobs -> exists j, buildJobMap jobs !! n = Some j /\ j ∈ jobs /\ Job_Name j = n.
Proof.
  unfold buildJobMap. generalize (∅ : gmap string Job). intros m.
  revert m. induction jobs as [|k jobs IH]; intros m; [by intros ?%elem_of_nil|]. simpl. intros Hn.
  destruct (decide (n ∈ names jobs)) as [Hin|Hin].
  - destruct (IH (<[Job_Name k:=k]> m) Hin) as (j & ? & ? & ?). exists j. set_solver.
  - apply elem_of_cons in Hn as [->|?]; [|done]. exists k.
    rewrite (foldl_insert_ne Job_Name id), lookup_insert_eq by done. set_solver.
Qed.

Definition lookup_job (jobs : list Job) (n : string) : Job := default zeroJob (buildJobMap jobs !! n).

(** Enough fuel: each pass consumes a fresh name. *)
Lemma kahn_loop_total jobs fuel deg popped queue :
  kahn_safe jobs deg popped queue -> length jobs <= length popped + fuel ->
  exists popped', NoDup popped' /\ (forall n, n ∈ popped' -> n ∈ names jobs) /\
    kahn_loop fuel (buildJobMap jobs) (buildDependents id jobs) deg queue (lookup_job jobs <$> popped)
    = Some (lookup_job jobs <$> popped').
Proof.
  revert deg popped queue. induction fuel as [|fuel IH]; intros deg popped [|name queue] Hs Hf.
  1,3: exists popped; destruct Hs as [Hnd Hn _]; rewrite app_nil_r in *; done.
  - exfalso. destruct Hs as [Hnd Hn _].
    pose proof (submseteq_length _ _ (NoDup_submseteq _ _ Hnd Hn)) as Hlen.
    rewrite length_app, length_fmap in Hlen. simpl in Hlen. lia.
  - simpl. pose proof (kahn_step_safe _ _ _ _ _ Hs) as Hs'. unfold released in Hs'. simpl in Hs'.
    destruct (foldl release_one _ _) as [deg' queue'].
    destruct (IH _ _ _ Hs') as (popped' & ? & ? & E); [rewrite length_app; simpl; lia|].
    exists popped'. rewrite <- E, fmap_app. done.
Qed.

Lemma pending_nil popped j n : pending popped j = [] -> n ∈ Job_Needs j -> n ∈ popped.
Proof.
  intros E Hn. destruct (decide (n ∈ popped)) as [|Hp]; [done|].
  assert (n ∈ pending popped j) as Hin; [by apply list_elem_of_filter|].
  rewrite E in Hin. by apply elem_of_nil in Hin.
Qed.

Lemma lookup_job_name jobs (n : string) : n ∈ names jobs -> Job_Name (lookup_job jobs n) = n /\ lookup_job jobs n ∈ jobs.
Proof. intros (j & E & Hj & <-)%jobMap_in. unfold lookup_job. by rewrite E. Qed.

Lemma names_lookup jobs (l : list string) : (forall n, n ∈ l -> n ∈ names jobs) -> names (lookup_job jobs <$> l) = l.
Proof.
  intros Hl. rewrite <- list_fmap_compose. rewrite <- (list_fmap_id l) at 2. apply list_fmap_ext.
  intros i n Hi. apply list_elem_of_lookup_2, Hl, lookup_job_name in Hi. simpl. by destruct Hi.
Qed.

(** The loop of a valid stage: a topological order, and whatever is not popped
    at the end still waits for something. *)
Lemma kahn_loop_topo jobs fuel deg popped queue result :
  NoDup (names jobs) -> kahn_safe jobs deg popped queue -> kahn_live jobs deg popped queue ->
  topo (lookup_job jobs <$> popped) ->
  kahn_loop fuel (buildJobMap jobs) (buildDependents id jobs) deg queue (lookup_job jobs <$> popped) = Some result ->
  exists popped', result = lookup_job jobs <$> popped' /\ topo result /\ NoDup popped' /\
    (forall n, n ∈ popped' -> n ∈ names jobs) /\
    (forall j, j ∈ jobs -> Job_Name j ∈ popped' \/ exists n, n ∈ Job_Needs j /\ n ∉ popped').
Proof.
  intros Hu. revert deg popped queue. induction fuel as [|fuel IH]; intros deg popped [|name queue] Hs Hl Ht.
  1,3: intros [= <-]; exists popped; destruct Hs as [Hnd Hn _], Hl as [_ Hr]; rewrite app_nil_r in *;
    split_and!; try done; intros j Hj; destruct (pending popped j) as [|n l] eqn:Hp;
    [left; by apply Hr|right; exists n; assert (n ∈ pending popped j) as Hin by (rewrite Hp; left);
      apply list_elem_of_filter in Hin; naive_solver].
  - done.
  - simpl. pose proof (kahn_step_safe _ _ _ _ _ Hs) as Hs'. pose proof (kahn_step_live _ _ _ _ _ Hu Hs Hl) as Hl'.
    unfold released in Hs', Hl'. simpl in Hs', Hl'. destruct (foldl release_one _ _) as [deg' queue'].
    intros E. eapply IH; [exact Hs'|exact Hl'| |by rewrite fmap_app].
    rewrite fmap_app. destruct Hs as [Hnd Hn Hz].
    destruct (lookup_job_name jobs name) as [En Hj]; [apply Hn; set_solver|].
    apply topo_from_snoc; [done|]. intros n Hneed. simpl. rewrite names_lookup.
    + assert (Hp : pending popped (lookup_job jobs name) = []).
      { apply length_zero_iff_nil. pose proof (kl_deg _ _ _ _ Hl _ Hj) as Hdeg. rewrite En in Hdeg.
        pose proof (Hz name ltac:(set_solver)). lia. }
      by eapply pending_nil.
    + intros m Hm. apply Hn. set_solver.
Qed.

(** The state before the loop. *)
Lemma inDegree_dom jobs n : is_Some (buildInDegree jobs !! n) <-> n ∈ names jobs.
Proof.
  unfold buildInDegree. rewrite (foldl_insert_dom Job_Name), lookup_empty, is_Some_alt. naive_solver.
Qed.

Lemma inDegree_lookup jobs j :
  NoDup (names jobs) -> j ∈ jobs -> buildInDegree jobs !! Job_Name j = Some (Z.of_nat (length (Job_Needs j))).
Proof. intros. unfold buildInDegree. by apply (foldl_insert_spec Job_Name (fun job => Z.of_nat (length (Job_Needs job)))). Qed.

Definition initial_queue (order : list string) (jobs : list Job) : list string :=
  filter (fun name => buildInDegree jobs !! name = Some 0%Z) order.

Lemma initial_safe order jobs :
  iteration_order (buildInDegree jobs) order ->
  kahn_safe jobs (buildInDegree jobs) [] (initial_queue order jobs).
Proof.
  intros Ho. split; simpl.
  - apply NoDup_filter. by eapply iteration_order_NoDup.
  - intros n [Hz _]%list_elem_of_filter. apply inDegree_dom. by eexists.
  - intros n [Hz _]%list_elem_of_filter. unfold deg_of. by rewrite Hz.
Qed.

Lemma initial_live order jobs :
  NoDup (names jobs) -> iteration_order (buildInDegree jobs) order ->
  kahn_live jobs (buildInDegree jobs) [] (initial_queue order jobs).
Proof.
  intros Hu Ho. assert (Hp : forall j, pending [] j = Job_Needs j).
  { intros j. unfold pending. induction (Job_Needs j) as [|n l IH]; [done|].
    rewrite filter_cons_True, IH by set_solver. done. }
  split; intros j Hj; rewrite Hp; unfold deg_of; [by rewrite inDegree_lookup|].
  intros Hn. apply list_elem_of_filter. rewrite (iteration_order_elem_of _ _ _ Ho), inDegree_lookup, Hn by done.
  by split; [|eexists].
Qed.

Lemma scheduleJobsInStage_eq order jobs :
  jobs ≠ [] -> scheduleJobsInStage order jobs =
  kahn_loop (length jobs) (buildJobMap jobs) (buildDependents id jobs) (buildInDegree jobs)
    (initial_queue order jobs) (lookup_job jobs <$> []).
Proof. by destruct jobs. Qed.

(** [scheduleJobsInStage] terminates on every list of jobs, even one with
    duplicate names, undefined needs or cycles, and whatever the map iteration
    order: [length jobs] passes are enough, every job it returns is one of its
    input, and no name is returned twice. *)
Theorem scheduleJobsInStage_terminates order jobs :
  iteration_order (buildInDegree jobs) order ->
  exists result, scheduleJobsInStage order jobs = Some result /\
    (forall j, j ∈ result -> j ∈ jobs) /\ NoDup (names result).
Proof.
  intros Ho. destruct (decide (jobs = [])) as [->|Hne].
  - exists []. split_and!; [done|done|constructor].
  - rewrite scheduleJobsInStage_eq by done.
    destruct (kahn_loop_total jobs (length jobs) _ [] _ (initial_safe _ _ Ho)) as (l & Hnd & Hn & E); [simpl; lia|].
    exists (lookup_job jobs <$> l). split_and!; [done| |by rewrite names_lookup].
    intros j (n & -> & Hin)%list_elem_of_fmap. by apply lookup_job_name, Hn.
Qed.

Lemma schedule_topo order jobs :
  NoDup (names jobs) ->
  (forall j n, j ∈ jobs -> n ∈ Job_Needs j -> n ∈ names jobs) ->
  (forall x, ~ tc (needs_rel jobs) x x) ->
  iteration_order (buildInDegree jobs) order ->
  exists result, scheduleJobsInStage order jobs = Some result /\ result ≡ₚ jobs /\ topo result.
Proof.
  intros Hu Hdef Ha Ho. destruct (decide (jobs = [])) as [->|Hne]; [by exists []|].
  rewrite scheduleJobsInStage_eq by done.
  destruct (kahn_loop_total jobs (length jobs) _ [] _ (initial_safe _ _ Ho)) as (l0 & _ & _ & E); [simpl; lia|].
  destruct (kahn_loop_topo jobs _ _ [] _ _ Hu (initial_safe _ _ Ho) (initial_live _ _ Hu Ho) I E)
    as (l & El & Ht & Hnd & Hin & Hrest).
  exists (lookup_job jobs <$> l). rewrite E, El. split; [done|]. split; [|by rewrite <- El].
  assert (Hall : forall n, ~ (n ∈ names jobs /\ n ∉ l)).
  { apply (needs_no_trap jobs); [done|]. intros n [(j & -> & Hj)%list_elem_of_fmap Hl].
    destruct (Hrest j Hj) as [?|(m & Hm & Hml)]; [done|]. exists m. split; [by exists j|]. eauto. }
  apply NoDup_Permutation.
  - apply (NoDup_fmap_1 Job_Name). by rewrite names_lookup.
  - by eapply NoDup_fmap_1.
  - intros j. rewrite list_elem_of_fmap. split.
    + intros (n & -> & Hn). by apply lookup_job_name, Hin.
    + intros Hj. exists (Job_Name j). unfold lookup_job. rewrite jobMap_lookup by done. split; [done|].
      destruct (decide (Job_Name j ∈ l)) as [|Hn]; [done|]. exfalso. apply (Hall (Job_Name j)).
      split; [by apply list_elem_of_fmap_2|done].
Qed.

(** C14: on the jobs of a stage with unique names, defined needs and no cycle,
    [scheduleJobsInStage] returns a permutation of the jobs in which every job
    comes after all the jobs it needs, for every map iteration order. *)
Theorem scheduleJobsInStage_topological order jobs :
  NoDup (names jobs) ->
  (forall j n, j ∈ jobs -> n ∈ Job_Needs j -> n ∈ names jobs) ->
  (forall x, ~ tc (needs_rel jobs) x x) ->
  iteration_order (buildInDegree jobs) order ->
  exists result, scheduleJobsInStage order jobs = Some result /\ result ≡ₚ jobs /\
    forall j n, j ∈ result -> n ∈ Job_Needs j ->
      exists before after, result = before ++ j :: after /\ n ∈ names before.
Proof.
  intros Hu Hdef Ha Ho. destruct (schedule_topo order jobs Hu Hdef Ha Ho) as (result & E & Hp & Ht).
  exists result. split_and!; [done|done|]. intros j n Hj Hn. by apply (topo_from_perm [] result j n Ht Hj).
Qed.

(** ** Stages of a valid pipeline *)

Lemma jobsForStage_elem s p j : j ∈ jobsForStage s p <-> j ∈ Pipeline_Jobs p /\ Job_Stage j = s.
Proof. unfold jobsForStage. rewrite list_elem_of_filter. naive_solver. Qed.

Lemma jobsForStage_unique s p : NoDup (names (Pipeline_Jobs p)) -> NoDup (names (jobsForStage s p)).
Proof.
  unfold jobsForStage. induction (Pipeline_Jobs p) as [|j l IH]; [done|].
  rewrite fmap_cons. intros [Hj Hl]%NoDup_cons. rewrite filter_cons. case_decide; [|by apply IH].
  rewrite fmap_cons. constructor; [|by apply IH]. intros (k & E & [_ Hk]%list_elem_of_filter)%list_elem_of_fmap.
  apply Hj. rewrite E. by apply list_elem_of_fmap_2.
Qed.

Lemma stage_needs_closed s p j n :
  valid_pipeline p -> j ∈ jobsForStage s p -> n ∈ Job_Needs j -> n ∈ names (jobsForStage s p).
Proof.
  intros Hv [Hj E]%jobsForStage_elem Hn. destruct (vp_needs_defined _ Hv j n Hj Hn) as (k & Hk & <- & Es).
  apply list_elem_of_fmap_2, jobsForStage_elem. by rewrite Es.
Qed.

Lemma stage_acyclic s p x : valid_pipeline p -> ~ tc (needs_rel (jobsForStage s p)) x x.
Proof.
  intros Hv. eapply acyclic_mono; [|by apply vp_acyclic]. by intros j [? _]%jobsForStage_elem.
Qed.

Lemma valid_schedule order s p :
  valid_pipeline p -> iteration_order (buildInDegree (jobsForStage s p)) order ->
  exists result, scheduleJobsInStage order (jobsForStage s p) = Some result /\
    result ≡ₚ jobsForStage s p /\ topo result.
Proof.
  intros Hv. apply schedule_topo.
  - by apply jobsForStage_unique, vp_jobs_unique.
  - intros j n. by apply stage_needs_closed.
  - intros x. by apply stage_acyclic.
Qed.

(** One stage of the plan against one stage of the pipeline. *)
Definition stage_planned (p : Pipeline) (stage : Stage) (sp : StageExecutionPlan) : Prop :=
  StageExec_Name sp = Stage_Name stage /\
  exists ordered, StageExec_Jobs sp = jobPlan <$> ordered /\
    ordered ≡ₚ jobsForStage (Stage_Name stage) p /\ topo ordered.

Definition legal_orders (orders : nat -> list string) (p : Pipeline) : Prop :=
  forall i stage, Pipeline_Stages p !! i = Some stage ->
    iteration_order (buildInDegree (jobsForStage (Stage_Name stage) p)) (orders i).

Lemma planStages_spec orders p : valid_pipeline p -> forall stages i,
  (forall k stage, stages !! k = Some stage ->
     iteration_order (buildInDegree (jobsForStage (Stage_Name stage) p)) (orders (i + k))) ->
  exists sps, planStages orders i stages p = Some sps /\ Forall2 (stage_planned p) stages sps.
Proof.
  intros Hv stages. induction stages as [|stage stages IH]; intros i Ho; [by exists []|].
  destruct (valid_schedule (orders i) (Stage_Name stage) p Hv) as (l & E & Hp & Ht).
  { specialize (Ho 0 stage eq_refl). by rewrite Nat.add_0_r in Ho. }
  destruct (IH (S i)) as (sps & E' & HF).
  { intros k s Hk. specialize (Ho (S k) s Hk). by rewrite Nat.add_succ_r in Ho. }
  eexists. split; [simpl; unfold buildStagePlan; by rewrite E, E'|]. constructor; [|done].
  split; [done|]. by exists l.
Qed.

(** Every job belongs to exactly one stage. *)
Lemma stages_cover p :
  valid_pipeline p -> (Pipeline_Stages p ≫= fun s => jobsForStage (Stage_Name s) p) ≡ₚ Pipeline_Jobs p.
Proof.
  intros Hv. pose proof (NoDup_fmap_1 _ _ (vp_jobs_unique _ Hv)) as Hj.
  pose proof (vp_stages_unique _ Hv) as Hs. apply NoDup_Permutation; [|done|].
  - apply NoDup_bind; [| |by eapply NoDup_fmap_1].
    + intros s1 s2 j H1 H2 [_ E1]%jobsForStage_elem [_ E2]%jobsForStage_elem.
      destruct s1, s2; simpl in *. congruence.
    + intros s _. by apply NoDup_filter.
  - intros j. rewrite list_elem_of_bind. split.
    + intros (s & Hin & _). by apply jobsForStage_elem in Hin as [? _].
    + intros Hin. pose proof (vp_job_stage _ Hv j Hin) as (s & E & Hs')%list_elem_of_fmap.
      exists s. split; [|done]. by apply jobsForStage_elem.
Qed.

Lemma planned_jobs p stages sps :
  Forall2 (stage_planned p) stages sps ->
  (sps ≫= StageExec_Jobs) ≡ₚ jobPlan <$> (stages ≫= fun s => jobsForStage (Stage_Name s) p).
Proof.
  induction 1 as [|s sp stages sps (_ & l & El & Hl & _) _ IH]; [done|].
  by rewrite !bind_cons, fmap_app, IH, El, Hl.
Qed.

(** C15: the execution plan of a valid pipeline has the pipeline's stages in
    their order; each lists exactly the jobs of its stage, dependencies first;
    and over all stages every job of the pipeline is planned exactly once. *)
Theorem GenerateExecutionPlan_valid orders p :
  valid_pipeline p -> legal_orders orders p ->
  exists plan, GenerateExecutionPlan orders p = Some plan /\
    Forall2 (stage_planned p) (Pipeline_Stages p) (Plan_Stages plan) /\
    (Plan_Stages plan ≫= StageExec_Jobs) ≡ₚ jobPlan <$> Pipeline_Jobs p.
Proof.
  intros Hv Ho. destruct (planStages_spec orders p Hv (Pipeline_Stages p) 0) as (sps & E & HF).
  { intros k s Hk. by apply Ho. }
  exists (MkExecutionPlan sps). unfold GenerateExecutionPlan. rewrite E. split_and!; [done|done|].
  simpl. by rewrite (planned_jobs p _ _ HF), stages_cover.
Qed.

(** ** The static plan of a stage, as the orchestrator uses it *)

Record plan_of_stage (s : string) (p : Pipeline) (sp : StagePlan) : Prop := {
  ps_name : StagePlan_Name sp = s;
  ps_jobs : exists ordered, StagePlan_Jobs sp = jobPlan <$> ordered /\
              ordered ≡ₚ jobsForStage s p /\ topo ordered;
  ps_needs : forall j, j ∈ jobsForStage s p -> StagePlan_Needs sp !! Job_Name j = Some (Job_Needs j);
  ps_indeg : forall n, is_Some (InDegree sp !! n) <-> n ∈ names (jobsForStage s p);
  ps_indeg_val : forall j, j ∈ jobsForStage s p ->
              InDegree sp !! Job_Name j = Some (Z.of_nat (length (Job_Needs j)));
  ps_byname : forall j, j ∈ jobsForStage s p -> JobByName sp !! Job_Name j = Some (jobPlan j);
  ps_byname_dom : forall n, is_Some (JobByName sp !! n) <-> n ∈ names (jobsForStage s p);
  ps_dependents : forall n, default [] (Dependents sp !! n)
              = jobsForStage s p ≫= fun j => replicate (occ n (Job_Needs j)) (Job_Name j);
}.

Lemma BuildStagePlan_spec order s p :
  valid_pipeline p -> iteration_order (buildInDegree (jobsForStage s p)) order ->
  exists sp, BuildStagePlan order s p = Some sp /\ plan_of_stage s p sp.
Proof.
  intros Hv Ho. destruct (valid_schedule order s p Hv Ho) as (l & E & Hp & Ht).
  pose proof (jobsForStage_unique s p (vp_jobs_unique _ Hv)) as Hu.
  eexists. split; [unfold BuildStagePlan; rewrite E; reflexivity|]. split; simpl.
  - done.
  - by exists l.
  - intros j Hj. by apply (foldl_insert_spec Job_Name Job_Needs).
  - apply inDegree_dom.
  - intros j. by apply inDegree_lookup.
  - intros j Hj. apply (foldl_insert_spec Job_Name jobPlan); [|by rewrite Hp].
    by rewrite (Permutation_map Job_Name Hp : names l ≡ₚ _).
  - intros n. rewrite (foldl_insert_dom Job_Name), lookup_empty, is_Some_alt, Hp. naive_solver.
  - intros n. apply buildDependents_lookup.
Qed.

(** ** Witnesses *)

Definition demo_order : list string := ["lint"; "package"; "fetch"; "compile"].
Definition demo_orders (i : nat) : list string := match i with 0 => demo_order | _ => ["unit"] end.
Definition looping_jobs : list Job :=
  [ MkJob "a" "s" "" [] [] false; MkJob "b" "s" "" [] ["a"; "c"] false; MkJob "c" "s" "" [] ["b"] false;
    MkJob "d" "s" "" [] ["a"; "a"] false ].

Ltac legal_order := unfold iteration_order; apply (bool_decide_unpack _); vm_compute; exact I.

Lemma demo_orders_legal : legal_orders demo_orders demo_pipeline.
Proof. intros [|[|i]] stage [= <-]; legal_order. Qed.

Lemma scheduleJobsInStage_terminates_witness :
  exists result, scheduleJobsInStage ["d"; "c"; "a"; "b"] looping_jobs = Some result /\
    (forall j, j ∈ result -> j ∈ looping_jobs) /\ NoDup (names result).
Proof. apply scheduleJobsInStage_terminates. legal_order. Defined.

Lemma scheduleJobsInStage_topological_witness :
  let jobs := jobsForStage "build" demo_pipeline in
  option_map (map Job_Name) (scheduleJobsInStage demo_order jobs) = Some ["fetch"; "compile"; "lint"; "package"] /\
  exists result, scheduleJobsInStage demo_order jobs = Some result /\ result ≡ₚ jobs /\
    forall j n, j ∈ result -> n ∈ Job_Needs j ->
      exists before after, result = before ++ j :: after /\ n ∈ names before.
Proof.
  intros jobs. split; [vm_compute; reflexivity|]. apply (scheduleJobsInStage_topological demo_order jobs).
  - apply (bool_decide_unpack _). vm_compute. exact I.
  - intros j n Hj Hn. cut (Forall (fun j => Forall (fun n => n ∈ names jobs) (Job_Needs j)) jobs).
    + intros HF. eapply Forall_forall in HF; [|exact Hj]. eapply Forall_forall in HF; [|exact Hn]. exact HF.
    + apply (bool_decide_unpack _). vm_compute. exact I.
  - intros x. apply (stage_acyclic "build" demo_pipeline x demo_valid).
  - legal_order.
Defined.

Lemma GenerateExecutionPlan_valid_witness :
  exists plan, GenerateExecutionPlan demo_orders demo_pipeline = Some plan /\
    Forall2 (stage_planned demo_pipeline) (Pipeline_Stages demo_pipeline) (Plan_Stages plan) /\
    (Plan_Stages plan ≫= StageExec_Jobs) ≡ₚ jobPlan <$> Pipeline_Jobs demo_pipeline.
Proof. apply (GenerateExecutionPlan_valid demo_orders demo_pipeline demo_valid demo_orders_legal). Defined.
