(* ===== verification/Store.v ===== *)
(** * The report store (internal/store)

    The four tables as finite maps keyed by their unique keys, and one function
    per method of [Store]: the meaning of the SQL text the method sends. Names
    are compared by the collation of the columns, a parameter ([Collation]):
    the tables are declared [utf8mb4_unicode_ci]. A transaction that fails is
    rolled back, so an error leaves the tables unchanged. SqlStore has the text of
    the statements and the widths of the columns, and proves that the methods do
    what is said here. Not modelled: the connection pool, and statement-level faults
    (the orchestrator's environment injects a fault in front of any call). *)

From stdpp Require Import sorting.
From S2P Require Import Prelude GoStrings.

(** Equality and order of collated text columns: two strings are equal when
    their collation keys are, and rows are ordered by key bytes. The status
    words of the program are pairwise distinct under it. *)
Class Collation := {
  ci : string -> string;
  ci_statuses : NoDup (ci <$> ["queued"; "running"; "success"; "failed"]);
}.

Definition lower_ascii (a : Ascii.ascii) : Ascii.ascii :=
  let n := Ascii.N_of_ascii a in
  if ((65 <=? n) && (n <=? 90))%N then Ascii.ascii_of_N (n + 32) else a.
Fixpoint lower (s : string) : string :=
  match s with EmptyString => EmptyString | String a s' => String (lower_ascii a) (lower s') end.

(** Two instances: binary comparison, and ASCII case folding. *)
Definition binary_collation : Collation.
Proof. refine {| ci := id |}. apply (bool_decide_unpack _). vm_compute. exact I. Defined.
Definition ascii_ci_collation : Collation.
Proof. refine {| ci := lower |}. apply (bool_decide_unpack _). vm_compute. exact I. Defined.

Definition StatusQueued : string := "queued".
Definition StatusRunning : string := "running".
Definition StatusSuccess : string := "success".
Definition StatusFailed : string := "failed".

(** ** Rows. Times are microseconds; a NULL column is [None]. *)

Record run_row := MkRunRow {
  run_pipeline : string;
  run_run_no : Z;
  run_start_time : Z;
  run_end_time : option Z;
  run_status : string;
  run_git_hash : option string;
  run_git_branch : option string;
  run_git_repo : option string;
  run_trace_id : string;
  run_request_key : option string;
}.

Record Run := MkRun {
  Run_Pipeline : string;
  Run_RunNo : Z;
  Run_StartTime : Z;
  Run_EndTime : option Z;
  Run_Status : string;
  Run_GitHash : string;
  Run_GitBranch : string;
  Run_GitRepo : string;
  Run_TraceID : string;
  Run_RequestKey : string;
}.

Record StageRow := MkStageRow {
  Stage_Pipeline : string;
  Stage_RunNo : Z;
  Stage_Stage : string;
  Stage_StartTime : Z;
  Stage_EndTime : option Z;
  Stage_Status : string;
}.

Record JobRow := MkJobRow {
  Job_Pipeline : string;
  Job_RunNo : Z;
  JobRow_Stage : string;
  Job_Job : string;
  Job_StartTime : Z;
  Job_EndTime : option Z;
  Job_Status : string;
  JobRow_Failures : bool;
}.

Record CreateRunInput := MkCreateRun {
  In_Pipeline : string;
  In_StartTime : Z;
  In_Status : string;
  In_GitHash : string;
  In_GitBranch : string;
  In_GitRepo : string;
  In_TraceID : string;
  In_RequestKey : string;
}.

Record CreateRunResult := MkRunResult {
  RunNo : Z;
  Deduped : bool;
  ExistingStatus : string;
}.

Abbreviation run_key := (string * Z)%type.
Abbreviation stage_key := (string * Z * string)%type.
Abbreviation job_key := (string * Z * string * string)%type.

(** The unique keys of the tables are the domains of the maps. *)
Record db := MkDb {
  pipeline_runs : gmap run_key run_row;
  stage_runs : gmap stage_key StageRow;
  job_runs : gmap job_key JobRow;
  pipeline_sequences : gmap string Z;
}.
Definition empty_db : db := MkDb ∅ ∅ ∅ ∅.

Section store.
Context {C : Collation}.

Definition set_runs (d : db) (m : gmap run_key run_row) : db :=
  MkDb m (stage_runs d) (job_runs d) (pipeline_sequences d).
Definition set_stages (d : db) (m : gmap stage_key StageRow) : db :=
  MkDb (pipeline_runs d) m (job_runs d) (pipeline_sequences d).
Definition set_jobs (d : db) (m : gmap job_key JobRow) : db :=
  MkDb (pipeline_runs d) (stage_runs d) m (pipeline_sequences d).
Definition set_sequences (d : db) (m : gmap string Z) : db :=
  MkDb (pipeline_runs d) (stage_runs d) (job_runs d) m.

(** Errors of the driver: duplicate key (1062), NULL in a NOT NULL column
    (1048), value out of range (1264); and [sql.ErrNoRows]. *)
Definition err1062 : goerr := ErrIs "mysql 1062".
Definition err1048 : goerr := ErrIs "mysql 1048".
Definition err1264 : goerr := ErrIs "mysql 1264".
Definition ErrNoRows : goerr := ErrIs "sql: no rows in result set".
Definition ErrNotFound : goerr := ErrIs "not found".

Definition isDuplicateKeyError (e : goerr) : bool := errors_Is e "mysql 1062".

(** [NULLIF(?, '')] and [COALESCE(column, '')]; '' is compared by collation. *)
Definition NULLIF_empty (s : string) : option string := if decide (ci s = ci "") then None else Some s.
Definition COALESCE_empty (o : option string) : string := default "" o.

(** [status IN ('queued', 'running')] *)
Definition is_active (status : string) : bool :=
  bool_decide (ci status = ci StatusQueued \/ ci status = ci StatusRunning).

(** The generated column [active_request_key], by its collation key. *)
Definition active_request_key (r : run_row) : option string :=
  if is_active (run_status r) then ci <$> run_request_key r else None.

(** [WHERE pipeline = ? AND request_key = ? AND status IN (?, ?)] *)
Definition matches_active (pipeline key : string) (r : run_row) : Prop :=
  ci (run_pipeline r) = ci pipeline /\ active_request_key r = Some (ci key).
#[global] Instance matches_active_dec pipeline key r : Decision (matches_active pipeline key r).
Proof. unfold matches_active. apply _. Defined.

(** [ORDER BY run_no ASC LIMIT 1] *)
Definition run_no_le (a b : run_row) : Prop := (run_run_no a <= run_run_no b)%Z.
#[global] Instance run_no_le_dec a b : Decision (run_no_le a b).
Proof. unfold run_no_le. apply _. Defined.
#[global] Instance run_no_le_total : Total run_no_le.
Proof. intros a b. unfold run_no_le. lia. Qed.
#[global] Instance run_no_le_trans : Transitive run_no_le.
Proof. intros a b c. unfold run_no_le. lia. Qed.

Definition select_active (d : db) (pipeline key : string) : option (Z * string) :=
  r ← head (merge_sort run_no_le (filter (matches_active pipeline key) (map_to_list (pipeline_runs d)).*2));
  Some (run_run_no r, run_status r).

(** ** Writes *)

(** The unique index [uq_pipeline_runs_active_request]: another row of the
    pipeline with the same non-NULL active key. *)
Definition active_conflict (d : db) (k : run_key) (r : run_row) : bool :=
  match active_request_key r with
  | None => false
  | Some a => bool_decide (Exists
      (fun kr : run_key * run_row => kr.1 ≠ k /\ ci (run_pipeline kr.2) = ci (run_pipeline r)
                                     /\ active_request_key kr.2 = Some a)
      (map_to_list (pipeline_runs d)))
  end.

Definition insert_run (d : db) (r : run_row) : db * res unit :=
  let k := (ci (run_pipeline r), run_run_no r) in
  match pipeline_runs d !! k with
  | Some _ => (d, err err1062)
  | None =>
    if active_conflict d k r then (d, err err1062)
    else (set_runs d (<[k := r]> (pipeline_runs d)), ok tt)
  end.

Definition max_int : Z := 2 ^ 31 - 1.

(** [createRunTx]: the sequence row holds the next number; the insert of a new
    sequence row stores 2 and hands out 1. The column is a 32-bit INT. *)
Definition createRunTx (d : db) (inp : CreateRunInput) : db * res Z :=
  let nextRunNo := match pipeline_sequences d !! ci (In_Pipeline inp) with
                   | None => 2 | Some n => n + 1 end%Z in
  if decide (max_int < nextRunNo)%Z then (d, err err1264) else
  let d1 := set_sequences d (<[ci (In_Pipeline inp) := nextRunNo]> (pipeline_sequences d)) in
  if decide (nextRunNo <= 1)%Z then
    (d1, err (ErrNew "failed to allocate run_no for pipeline %q" [In_Pipeline inp])) else
  let runNo := (nextRunNo - 1)%Z in
  match NULLIF_empty (In_TraceID inp) with
  | None => (d1, err err1048)
  | Some trace =>
    match insert_run d1 (MkRunRow (In_Pipeline inp) runNo (In_StartTime inp) None (In_Status inp)
            (NULLIF_empty (In_GitHash inp)) (NULLIF_empty (In_GitBranch inp))
            (NULLIF_empty (In_GitRepo inp)) trace (NULLIF_empty (In_RequestKey inp))) with
    | (d2, inl _) => (d2, ok runNo)
    | (d2, inr e) => (d2, err e)
    end
  end.

Definition CreateRun (d : db) (inp : CreateRunInput) : db * res Z :=
  match createRunTx d inp with
  | (d', inl runNo) => (d', ok runNo)
  | (_, inr e) => (d, err e)
  end.

(** [CreateRunOrGetActive]. The plain SELECTs of the transaction read [view],
    the committed rows at the first of them (MySQL's default isolation level is
    REPEATABLE READ), while the INSERTs meet the rows [d] committed meanwhile;
    [view = d] when no other transaction committed in between. *)
Definition CreateRunOrGetActive (view d : db) (inp : CreateRunInput) : db * res CreateRunResult :=
  let select := select_active view (In_Pipeline inp) (In_RequestKey inp) in
  match (if decide (In_RequestKey inp ≠ "") then select else None) with
  | Some (n, status) => (d, ok (MkRunResult n true status))
  | None =>
    match createRunTx d inp with
    | (d', inl n) => (d', ok (MkRunResult n false (In_Status inp)))
    | (d', inr e) =>
      if bool_decide (In_RequestKey inp ≠ "") && isDuplicateKeyError e then
        match select with
        | Some (n, status) => (d', ok (MkRunResult n true status))
        | None => (d, err ErrNoRows)
        end
      else (d, err e)
    end
  end.

(** [UPDATE ... SET end_time = ?, status = ?], or [SET status = ?] alone. *)
Definition or_keep (new old : option Z) : option Z := match new with Some t => Some t | None => old end.

Definition update_run_row (endt : option Z) (status : string) (r : run_row) : run_row :=
  MkRunRow (run_pipeline r) (run_run_no r) (run_start_time r) (or_keep endt (run_end_time r)) status
    (run_git_hash r) (run_git_branch r) (run_git_repo r) (run_trace_id r) (run_request_key r).

Definition UpdateRun (d : db) (pipeline : string) (runNo : Z) (endt : option Z) (status : string) : db * res unit :=
  let k := (ci pipeline, runNo) in
  match pipeline_runs d !! k with
  | None => (d, ok tt)
  | Some r =>
    let r' := update_run_row endt status r in
    if active_conflict d k r' then (d, err err1062)
    else (set_runs d (<[k := r']> (pipeline_runs d)), ok tt)
  end.

Definition CreateStage (d : db) (pipeline : string) (runNo : Z) (stage : string) (start : Z) (status : string)
    : db * res unit :=
  let k := (ci pipeline, runNo, ci stage) in
  match stage_runs d !! k with
  | Some _ => (d, err err1062)
  | None => (set_stages d (<[k := MkStageRow pipeline runNo stage start None status]> (stage_runs d)), ok tt)
  end.

Definition update_stage_row (endt : option Z) (status : string) (r : StageRow) : StageRow :=
  MkStageRow (Stage_Pipeline r) (Stage_RunNo r) (Stage_Stage r) (Stage_StartTime r)
    (or_keep endt (Stage_EndTime r)) status.

Definition UpdateStage (d : db) (pipeline : string) (runNo : Z) (stage : string) (endt : option Z) (status : string)
    : db * res unit :=
  (set_stages d (alter (update_stage_row endt status) (ci pipeline, runNo, ci stage) (stage_runs d)), ok tt).

Definition CreateJob (d : db) (pipeline : string) (runNo : Z) (stage job : string) (start : Z) (status : string)
    (failures : bool) : db * res unit :=
  let k := (ci pipeline, runNo, ci stage, ci job) in
  match job_runs d !! k with
  | Some _ => (d, err err1062)
  | None => (set_jobs d (<[k := MkJobRow pipeline runNo stage job start None status failures]> (job_runs d)), ok tt)
  end.

Definition update_job_row (endt : option Z) (status : string) (r : JobRow) : JobRow :=
  MkJobRow (Job_Pipeline r) (Job_RunNo r) (JobRow_Stage r) (Job_Job r) (Job_StartTime r)
    (or_keep endt (Job_EndTime r)) status (JobRow_Failures r).

Definition UpdateJob (d : db) (pipeline : string) (runNo : Z) (stage job : string) (endt : option Z) (status : string)
    : db * res unit :=
  (set_jobs d (alter (update_job_row endt status) (ci pipeline, runNo, ci stage, ci job) (job_runs d)), ok tt).

(** ** Reads *)

Definition scanRun (r : run_row) : Run :=
  MkRun (run_pipeline r) (run_run_no r) (run_start_time r) (run_end_time r) (run_status r)
    (COALESCE_empty (run_git_hash r)) (COALESCE_empty (run_git_branch r)) (COALESCE_empty (run_git_repo r))
    (run_trace_id r) (COALESCE_empty (run_request_key r)).

Definition GetRun (d : db) (pipeline : string) (runNo : Z) : res Run :=
  match pipeline_runs d !! (ci pipeline, runNo) with
  | Some r => ok (scanRun r)
  | None => err ErrNotFound
  end.

Definition GetRunsByPipeline (d : db) (pipeline : string) : list Run :=
  scanRun <$> merge_sort run_no_le
    (filter (fun r => ci (run_pipeline r) = ci pipeline) (map_to_list (pipeline_runs d)).*2).

(** [ORDER BY stage], [ORDER BY stage, job]: by collation key bytes. *)
Definition stage_le (a b : StageRow) : Prop := String.leb (ci (Stage_Stage a)) (ci (Stage_Stage b)) = true.
Definition job_le (a b : JobRow) : Prop :=
  match String.compare (ci (JobRow_Stage a)) (ci (JobRow_Stage b)) with
  | Lt => True
  | Eq => String.leb (ci (Job_Job a)) (ci (Job_Job b)) = true
  | Gt => False
  end.
#[global] Instance stage_le_dec a b : Decision (stage_le a b).
Proof. unfold stage_le. apply _. Defined.
#[global] Instance job_le_dec a b : Decision (job_le a b).
Proof. unfold job_le. destruct (String.compare _ _); apply _. Defined.

Definition filter_matches (flt col : string) : Prop := flt ≠ "" -> ci col = ci flt.
#[global] Instance filter_matches_dec flt col : Decision (filter_matches flt col).
Proof. unfold filter_matches. apply _. Defined.

Definition GetStagesForRun (d : db) (pipeline : string) (runNo : Z) (stageFilter : string) : list StageRow :=
  merge_sort stage_le (filter (fun r => (ci (Stage_Pipeline r) = ci pipeline /\ Stage_RunNo r = runNo)
      /\ filter_matches stageFilter (Stage_Stage r))
    (map_to_list (stage_runs d)).*2).

Definition GetJobsForRun (d : db) (pipeline : string) (runNo : Z) (stageFilter jobFilter : string) : list JobRow :=
  merge_sort job_le (filter (fun r => ((ci (Job_Pipeline r) = ci pipeline /\ Job_RunNo r = runNo)
      /\ filter_matches stageFilter (JobRow_Stage r)) /\ filter_matches jobFilter (Job_Job r))
    (map_to_list (job_runs d)).*2).

(** ** The invariant of the tables *)

Record db_wf (d : db) : Prop := {
  wf_runs : forall k r, pipeline_runs d !! k = Some r ->
    k = (ci (run_pipeline r), run_run_no r) /\ (1 <= run_run_no r)%Z /\
    exists n, pipeline_sequences d !! ci (run_pipeline r) = Some n /\ (run_run_no r < n)%Z;
  wf_active : forall k1 r1 k2 r2 a, pipeline_runs d !! k1 = Some r1 -> pipeline_runs d !! k2 = Some r2 ->
    ci (run_pipeline r1) = ci (run_pipeline r2) ->
    active_request_key r1 = Some a -> active_request_key r2 = Some a -> k1 = k2;
  wf_seq : forall p n, pipeline_sequences d !! p = Some n -> (2 <= n <= max_int)%Z;
  wf_stages : forall k r, stage_runs d !! k = Some r ->
    k = (ci (Stage_Pipeline r), Stage_RunNo r, ci (Stage_Stage r));
  wf_jobs : forall k r, job_runs d !! k = Some r ->
    k = (ci (Job_Pipeline r), Job_RunNo r, ci (JobRow_Stage r), ci (Job_Job r));
}.

Lemma elem_of_values {K V} `{Countable K} (m : gmap K V) v :
  v ∈ (map_to_list m).*2 <-> exists k, m !! k = Some v.
Proof.
  rewrite list_elem_of_fmap. split.
  - intros ([k w] & -> & Hin%elem_of_map_to_list). by exists k.
  - intros [k Hk]. exists (k, v). split; [done|]. by apply elem_of_map_to_list.
Qed.

Lemma active_conflict_true d k r a :
  active_request_key r = Some a ->
  active_conflict d k r = true <->
  exists k' r', pipeline_runs d !! k' = Some r' /\ k' ≠ k /\ ci (run_pipeline r') = ci (run_pipeline r) /\
                active_request_key r' = Some a.
Proof.
  unfold active_conflict. intros ->. rewrite bool_decide_eq_true, Exists_exists. split.
  - intros ([k' r'] & Hin%elem_of_map_to_list & ? & ? & ?). naive_solver.
  - intros (k' & r' & Hin & ?). exists (k', r'). rewrite elem_of_map_to_list. naive_solver.
Qed.

Lemma active_conflict_false d k r k' r' a :
  active_conflict d k r = false -> active_request_key r = Some a ->
  pipeline_runs d !! k' = Some r' -> ci (run_pipeline r') = ci (run_pipeline r) ->
  active_request_key r' = Some a -> k' = k.
Proof.
  intros Hc Ha Hk Hp Ha'. destruct (decide (k' = k)) as [|Hne]; [done|]. exfalso.
  apply (not_true_iff_false (active_conflict d k r)); [done|].
  apply (active_conflict_true d k r a Ha). eauto 6.
Qed.

Lemma select_active_Some d p key n status :
  db_wf d -> select_active d p key = Some (n, status) ->
  exists r, pipeline_runs d !! (ci p, n) = Some r /\ active_request_key r = Some (ci key) /\ run_status r = status.
Proof.
  unfold select_active. intros Hwf E. destruct (merge_sort _ _) as [|r l] eqn:Es; [done|].
  simpl in E. injection E as <- <-. assert (Hin : r ∈ r :: l) by left.
  rewrite <- Es, merge_sort_Permutation in Hin. apply list_elem_of_filter in Hin as [[Hp Ha] Hin].
  apply elem_of_values in Hin as [k Hk]. destruct (wf_runs _ Hwf _ _ Hk) as [-> _].
  exists r. by rewrite <- Hp.
Qed.

Lemma select_active_None d p key k r :
  select_active d p key = None -> pipeline_runs d !! k = Some r -> ~ matches_active p key r.
Proof.
  unfold select_active. intros E Hk Hm. destruct (merge_sort _ _) as [|x l] eqn:Es; [|done].
  assert (Hin : r ∈ merge_sort run_no_le (filter (matches_active p key) (map_to_list (pipeline_runs d)).*2)).
  { rewrite merge_sort_Permutation. apply list_elem_of_filter. split; [done|]. apply elem_of_values. eauto. }
  rewrite Es in Hin. by apply elem_of_nil in Hin.
Qed.

Lemma select_active_find d p key k r :
  pipeline_runs d !! k = Some r -> matches_active p key r -> is_Some (select_active d p key).
Proof.
  intros Hk Hm. destruct (select_active d p key) eqn:E; [by eexists|].
  exfalso. by eapply select_active_None.
Qed.

(** ** Preservation *)

Lemma insert_run_wf d r d' o :
  db_wf d -> (1 <= run_run_no r)%Z ->
  (exists n, pipeline_sequences d !! ci (run_pipeline r) = Some n /\ (run_run_no r < n)%Z) ->
  insert_run d r = (d', o) -> db_wf d'.
Proof.
  intros Hwf H1 Hseq. unfold insert_run. destruct (pipeline_runs d !! _) eqn:Hk; [by intros [= <- <-]|].
  destruct (active_conflict _ _ _) eqn:Hc; intros [= <- <-]; [done|].
  destruct Hwf as [Hr Ha Hs Hst Hj]. split; simpl; [| |done|done|done].
  - intros k r'. rewrite lookup_insert_Some. intros [[<- <-]|[_ ?]]; [done|]. by apply Hr.
  - intros k1 r1 k2 r2 a. rewrite !lookup_insert_Some.
    intros [[<- <-]|[? E1]] [[<- <-]|[? E2]] Hp A1 A2; [done| | |by eapply Ha].
    + symmetry. by eapply (active_conflict_false d _ _ _ r2).
    + by eapply (active_conflict_false d _ _ _ r1).
Qed.

Lemma set_sequence_wf d p n :
  db_wf d -> (2 <= n <= max_int)%Z -> (forall m, pipeline_sequences d !! p = Some m -> (m <= n)%Z) ->
  db_wf (set_sequences d (<[p := n]> (pipeline_sequences d))).
Proof.
  intros [Hr Ha Hs Hst Hj] Hn Hle. split; simpl; [|done| |done|done].
  - intros k r Hk. destruct (Hr k r Hk) as (? & ? & m & Hm & ?). split_and!; [done|done|].
    destruct (decide (p = ci (run_pipeline r))) as [->|Hne].
    + exists n. rewrite lookup_insert_eq. split; [done|]. specialize (Hle _ Hm). lia.
    + exists m. by rewrite lookup_insert_ne.
  - intros q m. rewrite lookup_insert_Some. intros [[<- <-]|[_ ?]]; [done|eauto].
Qed.

Lemma createRunTx_wf d inp d' o : db_wf d -> createRunTx d inp = (d', o) -> db_wf d'.
Proof.
  intros Hwf. unfold createRunTx. set (q := ci (In_Pipeline inp)).
  set (n := match pipeline_sequences d !! q with None => 2%Z | Some n => (n + 1)%Z end).
  assert (Hn : (2 <= n)%Z /\ forall m, pipeline_sequences d !! q = Some m -> (m <= n)%Z).
  { unfold n. destruct (pipeline_sequences d !! q) eqn:E; [|done].
    pose proof (wf_seq _ Hwf _ _ E). split; [lia|]. intros m [= <-]. lia. }
  repeat case_decide; try lia; try by intros [= <- <-].
  assert (Hwf1 : db_wf (set_sequences d (<[q := n]> (pipeline_sequences d)))).
  { apply set_sequence_wf; [done|lia|apply Hn]. }
  destruct (NULLIF_empty (In_TraceID inp)); [|by intros [= <- <-]].
  destruct (insert_run _ _) as [d2 o2] eqn:Ei. intros E.
  assert (d' = d2) as -> by (destruct o2; congruence). eapply insert_run_wf; [done| | |done].
  - simpl. lia.
  - simpl. exists n. rewrite lookup_insert_eq. split; [done|lia].
Qed.

Lemma UpdateRun_wf d p n t st : db_wf d -> db_wf (UpdateRun d p n t st).1.
Proof.
  intros Hwf. unfold UpdateRun. destruct (pipeline_runs d !! _) as [r|] eqn:Hk; [|done].
  destruct (active_conflict _ _ _) eqn:Hc; [done|].
  destruct Hwf as [Hr Ha Hs Hst Hj]. split; simpl; [| |done|done|done].
  - intros k r'. rewrite lookup_insert_Some. intros [[<- <-]|[_ ?]]; [by apply Hr in Hk|]. by apply Hr.
  - intros k1 r1 k2 r2 a. rewrite !lookup_insert_Some.
    intros [[<- <-]|[? E1]] [[<- <-]|[? E2]] Hp A1 A2; [done| | |by eapply Ha].
    + symmetry. by eapply (active_conflict_false d _ _ _ r2).
    + by eapply (active_conflict_false d _ _ _ r1).
Qed.

(** One call of a method of [Store], with a fresh read view. *)
Inductive store_op :=
| OpCreateRun (inp : CreateRunInput)
| OpCreateRunOrGetActive (view : db) (inp : CreateRunInput)
| OpUpdateRun (p : string) (n : Z) (t : option Z) (status : string)
| OpCreateStage (p : string) (n : Z) (stage : string) (t : Z) (status : string)
| OpUpdateStage (p : string) (n : Z) (stage : string) (t : option Z) (status : string)
| OpCreateJob (p : string) (n : Z) (stage job : string) (t : Z) (status : string) (failures : bool)
| OpUpdateJob (p : string) (n : Z) (stage job : string) (t : option Z) (status : string).

Definition apply_op (d : db) (op : store_op) : db :=
  match op with
  | OpCreateRun inp => (CreateRun d inp).1
  | OpCreateRunOrGetActive view inp => (CreateRunOrGetActive view d inp).1
  | OpUpdateRun p n t st => (UpdateRun d p n t st).1
  | OpCreateStage p n s t st => (CreateStage d p n s t st).1
  | OpUpdateStage p n s t st => (UpdateStage d p n s t st).1
  | OpCreateJob p n s j t st f => (CreateJob d p n s j t st f).1
  | OpUpdateJob p n s j t st => (UpdateJob d p n s j t st).1
  end.

Lemma apply_op_wf d op : db_wf d -> db_wf (apply_op d op).
Proof.
  intros Hwf. destruct op; simpl.
  - unfold CreateRun. destruct (createRunTx d inp) as [d' [n|e]] eqn:E; [by eapply createRunTx_wf|done].
  - unfold CreateRunOrGetActive. destruct (if decide _ then _ else _) as [[]|]; [done|].
    destruct (createRunTx d inp) as [d' [n|e]] eqn:E; [by eapply createRunTx_wf|].
    destruct (_ && _); [|done]. destruct (select_active _ _ _) as [[]|]; [|done]. by eapply createRunTx_wf.
  - by apply UpdateRun_wf.
  - unfold CreateStage. destruct (stage_runs d !! _) eqn:E; [done|].
    destruct Hwf. split; simpl; try done. intros k r. rewrite lookup_insert_Some.
    intros [[<- <-]|[_ ?]]; [done|eauto].
  - destruct Hwf. split; simpl; try done. intros k r. rewrite lookup_alter_Some.
    intros [(<- & r' & Hr & ->)|[_ ?]]; [|eauto]. by apply wf_stages0 in Hr.
  - unfold CreateJob. destruct (job_runs d !! _) eqn:E; [done|].
    destruct Hwf. split; simpl; try done. intros k r. rewrite lookup_insert_Some.
    intros [[<- <-]|[_ ?]]; [done|eauto].
  - destruct Hwf. split; simpl; try done. intros k r. rewrite lookup_alter_Some.
    intros [(<- & r' & Hr & ->)|[_ ?]]; [|eauto]. by apply wf_jobs0 in Hr.
Qed.

Lemma empty_db_wf : db_wf empty_db.
Proof. split; simpl; intros *; by rewrite lookup_empty. Qed.

(** ** What the methods do *)

Lemma ops_wf d ops : db_wf d -> db_wf (foldl apply_op d ops).
Proof. revert d. induction ops as [|op ops IH]; intros d Hwf; simpl; [done|]. by apply IH, apply_op_wf. Qed.

(** C20: whatever sequence of store calls was made, by however many services
    (a call of [CreateRunOrGetActive] may even hold a stale read view), every
    run number is below its pipeline's sequence, and no two active runs of a
    pipeline share a request key. *)
Theorem store_invariant (ops : list store_op) : db_wf (foldl apply_op empty_db ops).
Proof. apply ops_wf, empty_db_wf. Qed.

(** The number the next run of a pipeline gets. *)
Definition next_run_no (d : db) (pipeline : string) : Z := default 1%Z (pipeline_sequences d !! ci pipeline).

Definition new_run_row (inp : CreateRunInput) (runNo : Z) : run_row :=
  MkRunRow (In_Pipeline inp) runNo (In_StartTime inp) None (In_Status inp)
    (NULLIF_empty (In_GitHash inp)) (NULLIF_empty (In_GitBranch inp))
    (NULLIF_empty (In_GitRepo inp)) (In_TraceID inp) (NULLIF_empty (In_RequestKey inp)).

Definition conflicting (d : db) (inp : CreateRunInput) : Prop :=
  exists k r, pipeline_runs d !! k = Some r /\ is_active (In_Status inp) = true /\
    ci (In_RequestKey inp) ≠ ci "" /\ matches_active (In_Pipeline inp) (In_RequestKey inp) r.

Lemma new_row_active inp n a :
  active_request_key (new_run_row inp n) = Some a <->
  is_active (In_Status inp) = true /\ ci (In_RequestKey inp) ≠ ci "" /\ a = ci (In_RequestKey inp).
Proof.
  unfold active_request_key, new_run_row, NULLIF_empty. simpl.
  destruct (is_active _); [|naive_solver]. case_decide; simpl; naive_solver.
Qed.

Lemma createRunTx_fresh d inp :
  db_wf d -> ci (In_TraceID inp) ≠ ci "" -> (next_run_no d (In_Pipeline inp) < max_int)%Z ->
  let n := next_run_no d (In_Pipeline inp) in
  let d1 := set_sequences d (<[ci (In_Pipeline inp) := (n + 1)%Z]> (pipeline_sequences d)) in
  pipeline_runs d !! (ci (In_Pipeline inp), n) = None /\
  (~ conflicting d inp ->
     createRunTx d inp = (set_runs d1 (<[(ci (In_Pipeline inp), n) := new_run_row inp n]> (pipeline_runs d)), ok n)) /\
  (conflicting d inp -> createRunTx d inp = (d1, err err1062)).
Proof.
  intros Hwf Ht Hmax n d1. unfold next_run_no in *.
  assert (Hnone : pipeline_runs d !! (ci (In_Pipeline inp), n) = None).
  { destruct (pipeline_runs d !! _) as [r|] eqn:Hk; [|done]. exfalso.
    destruct (wf_runs _ Hwf _ _ Hk) as ([= Hp Hn] & _ & m & Hm & Hlt).
    unfold n in Hn. rewrite Hp, Hm in Hn. simpl in Hn. lia. }
  split; [done|].
  assert (E : createRunTx d inp = match insert_run d1 (new_run_row inp n) with
                                 | (d2, inl _) => (d2, ok n) | (d2, inr e) => (d2, err e) end).
  { unfold createRunTx, n, d1. destruct (pipeline_sequences d !! ci (In_Pipeline inp)) as [m|] eqn:Em; simpl in *.
    - pose proof (wf_seq _ Hwf _ _ Em). rewrite !decide_False by lia.
      replace (m + 1 - 1)%Z with m by lia. unfold NULLIF_empty at 1. by rewrite decide_False.
    - unfold NULLIF_empty at 1. by rewrite decide_False. }
  assert (Hconf : active_conflict d1 (ci (In_Pipeline inp), n) (new_run_row inp n) = true <-> conflicting d inp).
  { destruct (active_request_key (new_run_row inp n)) as [a|] eqn:Ha.
    - pose proof (proj1 (new_row_active _ _ _) Ha) as (Hact & Hne & ->).
      rewrite (active_conflict_true _ _ _ _ Ha). unfold conflicting, matches_active. simpl. split.
      + intros (k' & r' & Hk & _ & Hp & Hr). eauto 10.
      + intros (k & r & Hk & _ & _ & Hp & Hr). exists k, r. split_and!; try done.
        intros ->. by rewrite Hnone in Hk.
    - unfold active_conflict. rewrite Ha. split; [done|]. intros (k & r & Hk & Hact & Hne & _).
      assert (active_request_key (new_run_row inp n) = Some (ci (In_RequestKey inp))) as E'.
      { by apply new_row_active. } by rewrite Ha in E'. }
  rewrite E. unfold insert_run. simpl. rewrite Hnone. split.
  - intros Hc. destruct (active_conflict _ _ _); [|done]. by destruct Hc; apply Hconf.
  - intros Hc%Hconf. by rewrite Hc.
Qed.

(** The transaction returns the active run that the key matches. *)
Lemma CreateRunOrGetActive_duplicate d inp k r :
  db_wf d -> In_RequestKey inp ≠ "" -> pipeline_runs d !! k = Some r ->
  matches_active (In_Pipeline inp) (In_RequestKey inp) r ->
  CreateRunOrGetActive d d inp = (d, ok (MkRunResult (run_run_no r) true (run_status r))).
Proof.
  intros Hwf Hkey Hk Hm. destruct (select_active_find d _ _ _ _ Hk Hm) as [[n st] E].
  unfold CreateRunOrGetActive. cbv zeta. rewrite E. case_decide; [|done].
  destruct (select_active_Some _ _ _ _ _ Hwf E) as (r' & Hk' & Ha' & <-).
  destruct Hm as [Hp Ha]. destruct (wf_runs _ Hwf _ _ Hk') as ([= Hp' _] & _).
  assert (k = (ci (In_Pipeline inp), n)) as ->.
  { eapply (wf_active _ Hwf _ _ _ _ _ Hk Hk'); [by rewrite Hp|done|done]. }
  rewrite Hk in Hk'. injection Hk' as <-. by destruct (wf_runs _ Hwf _ _ Hk) as ([= _ ->] & _).
Qed.

(** Without such a run it adds one row, under the next number. *)
Lemma CreateRunOrGetActive_adds d inp :
  db_wf d ->
  (forall k r, In_RequestKey inp ≠ "" -> pipeline_runs d !! k = Some r ->
     ~ matches_active (In_Pipeline inp) (In_RequestKey inp) r) ->
  ci (In_TraceID inp) ≠ ci "" -> (next_run_no d (In_Pipeline inp) < max_int)%Z ->
  let n := next_run_no d (In_Pipeline inp) in
  CreateRunOrGetActive d d inp =
    (set_runs (set_sequences d (<[ci (In_Pipeline inp) := (n + 1)%Z]> (pipeline_sequences d)))
       (<[(ci (In_Pipeline inp), n) := new_run_row inp n]> (pipeline_runs d)),
     ok (MkRunResult n false (In_Status inp))).
Proof.
  intros Hwf Hno Ht Hmax n. destruct (createRunTx_fresh d inp Hwf Ht Hmax) as (_ & Hok & _).
  unfold CreateRunOrGetActive. rewrite Hok.
  2:{ intros (k & r & Hk & _ & Hne & Hm). apply (Hno k r); [|done|done]. intros E. by rewrite E in Hne. }
  case_decide as Hkey; [|reflexivity]. destruct (select_active d _ _) as [[m st]|] eqn:E; [|reflexivity].
  destruct (select_active_Some _ _ _ _ _ Hwf E) as (r' & Hk' & Ha' & <-).
  destruct (wf_runs _ Hwf _ _ Hk') as ([= Hp' _] & _).
  exfalso. by apply (Hno _ _ Hkey Hk').
Qed.

Lemma CreateRunOrGetActive_fresh d inp :
  db_wf d ->
  (forall k r, In_RequestKey inp ≠ "" -> pipeline_runs d !! k = Some r ->
     ~ matches_active (In_Pipeline inp) (In_RequestKey inp) r) ->
  ci (In_TraceID inp) ≠ ci "" -> (next_run_no d (In_Pipeline inp) < max_int)%Z ->
  let n := next_run_no d (In_Pipeline inp) in
  exists d', CreateRunOrGetActive d d inp = (d', ok (MkRunResult n false (In_Status inp))) /\
    GetRun d (In_Pipeline inp) n = err ErrNotFound /\
    pipeline_runs d' = <[(ci (In_Pipeline inp), n) := new_run_row inp n]> (pipeline_runs d) /\
    next_run_no d' (In_Pipeline inp) = (n + 1)%Z /\
    GetRun d' (In_Pipeline inp) n = ok (scanRun (new_run_row inp n)) /\
    stage_runs d' = stage_runs d /\ job_runs d' = job_runs d.
Proof.
  intros Hwf Hno Ht Hmax n. destruct (createRunTx_fresh d inp Hwf Ht Hmax) as (Hnone & _).
  eexists. split; [by apply CreateRunOrGetActive_adds|]. split_and!; simpl; try done.
  - unfold GetRun, n. by rewrite Hnone.
  - unfold next_run_no at 1. simpl. by rewrite lookup_insert_eq.
  - unfold GetRun. simpl. by rewrite lookup_insert_eq.
Qed.

(** Anything else leaves the tables as they are. *)
Lemma CreateRunOrGetActive_cases d inp d' r :
  In_RequestKey inp ≠ "" -> CreateRunOrGetActive d d inp = (d', r) ->
  (d' = d /\ forall x, r = ok x -> Deduped x = true) \/
  (ci (In_TraceID inp) ≠ ci "" /\ (next_run_no d (In_Pipeline inp) < max_int)%Z /\
   forall k x, pipeline_runs d !! k = Some x -> ~ matches_active (In_Pipeline inp) (In_RequestKey inp) x).
Proof.
  intros Hkey. unfold CreateRunOrGetActive. rewrite decide_True by done.
  destruct (select_active d _ _) as [[m st]|] eqn:Es; [intros [= <- <-]; left; split; [done|by intros x [= <-]]|].
  assert (Hno : forall k x, pipeline_runs d !! k = Some x -> ~ matches_active (In_Pipeline inp) (In_RequestKey inp) x).
  { intros k x Hk Hm. destruct (select_active_find d _ _ _ _ Hk Hm) as [y E]. congruence. }
  destruct (createRunTx d inp) as [d1 [n|e]] eqn:Et.
  2:{ intros E. left. destruct (_ && _); injection E as <- <-; by split. }
  intros [= <- <-]. right. split_and!; [| |exact Hno].
  - unfold createRunTx in Et. repeat case_decide; try done. unfold NULLIF_empty at 1 in Et. by case_decide.
  - unfold createRunTx in Et. case_decide as Hle; [done|]. unfold next_run_no.
    destruct (pipeline_sequences d !! _); simpl; unfold max_int in *; lia.
Qed.

(** C19: deduplication. In one uninterrupted transaction, a request whose key
    matches an active run of the pipeline gets that run back and changes
    nothing; any other request with a trace id gets the next run number of the
    pipeline, not used before, and its row alone is added; the row reads back
    as it was given. *)
Theorem CreateRunOrGetActive_spec d inp :
  db_wf d ->
  (forall k r, In_RequestKey inp ≠ "" -> pipeline_runs d !! k = Some r ->
     matches_active (In_Pipeline inp) (In_RequestKey inp) r ->
     CreateRunOrGetActive d d inp = (d, ok (MkRunResult (run_run_no r) true (run_status r)))) /\
  ((forall k r, In_RequestKey inp ≠ "" -> pipeline_runs d !! k = Some r ->
     ~ matches_active (In_Pipeline inp) (In_RequestKey inp) r) ->
   ci (In_TraceID inp) ≠ ci "" -> (next_run_no d (In_Pipeline inp) < max_int)%Z ->
   let n := next_run_no d (In_Pipeline inp) in
   exists d', CreateRunOrGetActive d d inp = (d', ok (MkRunResult n false (In_Status inp))) /\
     GetRun d (In_Pipeline inp) n = err ErrNotFound /\
     pipeline_runs d' = <[(ci (In_Pipeline inp), n) := new_run_row inp n]> (pipeline_runs d) /\
     next_run_no d' (In_Pipeline inp) = (n + 1)%Z /\
     GetRun d' (In_Pipeline inp) n = ok (scanRun (new_run_row inp n)) /\
     stage_runs d' = stage_runs d /\ job_runs d' = job_runs d).
Proof.
  intros Hwf. split; [intros k r; by apply CreateRunOrGetActive_duplicate|by apply CreateRunOrGetActive_fresh].
Qed.

(** A duplicate that was committed after the transaction's first read is
    not deduplicated: the INSERT meets it (duplicate key), but the second
    SELECT still reads the old view and finds no row, so the caller gets
    [sql.ErrNoRows] instead of the in-flight run. *)
Theorem CreateRunOrGetActive_stale_view view d inp k r :
  db_wf d -> ci (In_TraceID inp) ≠ ci "" -> (next_run_no d (In_Pipeline inp) < max_int)%Z ->
  is_active (In_Status inp) = true -> ci (In_RequestKey inp) ≠ ci "" ->
  select_active view (In_Pipeline inp) (In_RequestKey inp) = None ->
  pipeline_runs d !! k = Some r -> matches_active (In_Pipeline inp) (In_RequestKey inp) r ->
  CreateRunOrGetActive view d inp = (d, err ErrNoRows).
Proof.
  intros Hwf Ht Hmax Hact Hkey Hview Hk Hm.
  destruct (createRunTx_fresh d inp Hwf Ht Hmax) as (_ & _ & Hconf).
  unfold CreateRunOrGetActive. cbv zeta. rewrite Hview, Hconf by (exists k, r; done).
  rewrite bool_decide_eq_true_2 by (by intros E; rewrite E in Hkey). by case_decide.
Qed.

(** [trace_id] is a NOT NULL column and [NULLIF(?, '')] turns an empty
    trace id into NULL, so creating a run without a trace id always fails,
    although the read path and [getSpanTraceId] allow for an empty one. *)
Theorem CreateRun_empty_trace d inp :
  In_TraceID inp = "" -> exists e, CreateRun d inp = (d, err e) /\ isDuplicateKeyError e = false.
Proof.
  intros Ht. unfold CreateRun, createRunTx. rewrite Ht.
  assert (NULLIF_empty "" = None) as -> by (unfold NULLIF_empty; by rewrite decide_True).
  repeat case_decide; eexists; (split; [reflexivity|reflexivity]).
Qed.

Lemma run_in_list d p r :
  r ∈ filter (fun r => ci (run_pipeline r) = ci p) (map_to_list (pipeline_runs d)).*2 <->
  ci (run_pipeline r) = ci p /\ exists k, pipeline_runs d !! k = Some r.
Proof. by rewrite list_elem_of_filter, elem_of_values. Qed.

(** The list of runs and the single run agree: [GetRunsByPipeline] lists
    in increasing run number exactly the runs that [GetRun] finds. *)
Theorem GetRunsByPipeline_spec d p :
  db_wf d ->
  StronglySorted (fun a b => (Run_RunNo a <= Run_RunNo b)%Z) (GetRunsByPipeline d p) /\
  forall r, r ∈ GetRunsByPipeline d p <-> GetRun d p (Run_RunNo r) = ok r.
Proof.
  intros Hwf. split.
  - unfold GetRunsByPipeline.
    pose proof (StronglySorted_merge_sort run_no_le
      (filter (fun r => ci (run_pipeline r) = ci p) (map_to_list (pipeline_runs d)).*2)) as Hs.
    induction Hs as [|x l _ IH HF]; [constructor|]. rewrite fmap_cons. constructor; [done|].
    apply Forall_fmap. eapply Forall_impl; [exact HF|]. by intros y.
  - intros r. unfold GetRunsByPipeline, GetRun. rewrite list_elem_of_fmap. split.
    + intros (x & -> & Hx). rewrite merge_sort_Permutation in Hx. apply run_in_list in Hx as [Hp [k Hk]].
      destruct (wf_runs _ Hwf _ _ Hk) as [-> _]. simpl. by rewrite <- Hp, Hk.
    + destruct (pipeline_runs d !! _) as [x|] eqn:Hk; [|done]. intros [= <-]. exists x. split; [done|].
      rewrite merge_sort_Permutation. apply run_in_list. split; [|by eexists].
      by destruct (wf_runs _ Hwf _ _ Hk) as ([= ->] & _).
Qed.

(** Which jobs a report query returns. *)
Lemma GetJobsForRun_elem d p n sf jf r :
  r ∈ GetJobsForRun d p n sf jf <->
  (exists k, job_runs d !! k = Some r) /\ ci (Job_Pipeline r) = ci p /\ Job_RunNo r = n /\
  filter_matches sf (JobRow_Stage r) /\ filter_matches jf (Job_Job r).
Proof.
  unfold GetJobsForRun. rewrite merge_sort_Permutation, list_elem_of_filter, elem_of_values. naive_solver.
Qed.

Lemma GetStagesForRun_elem d p n sf r :
  r ∈ GetStagesForRun d p n sf <->
  (exists k, stage_runs d !! k = Some r) /\ ci (Stage_Pipeline r) = ci p /\ Stage_RunNo r = n /\
  filter_matches sf (Stage_Stage r).
Proof.
  unfold GetStagesForRun. rewrite merge_sort_Permutation, list_elem_of_filter, elem_of_values. naive_solver.
Qed.

End store.

(** ** Witnesses *)

Definition demo_input : CreateRunInput :=
  MkCreateRun "demo" 100 StatusQueued "abc" "main" "https://x/y.git" "0af7" "k1".

Definition demo_db : db := apply_op (C:=binary_collation) empty_db (OpCreateRun demo_input).

Lemma demo_db_wf : db_wf (C:=binary_collation) demo_db.
Proof. apply apply_op_wf, empty_db_wf. Qed.

Lemma CreateRunOrGetActive_spec_witness :
  CreateRunOrGetActive (C:=binary_collation) demo_db demo_db demo_input
    = (demo_db, ok (MkRunResult 1 true StatusQueued)) /\
  next_run_no (C:=binary_collation) demo_db "demo" = 2%Z.
Proof.
  split; [|reflexivity].
  apply (proj1 (CreateRunOrGetActive_spec (C:=binary_collation) demo_db demo_input demo_db_wf)
    ("demo", 1%Z) (new_run_row (C:=binary_collation) demo_input 1)).
  - discriminate.
  - reflexivity.
  - split; reflexivity.
Defined.

Lemma CreateRunOrGetActive_stale_view_witness :
  CreateRunOrGetActive (C:=binary_collation) empty_db demo_db demo_input = (demo_db, err ErrNoRows).
Proof.
  apply (CreateRunOrGetActive_stale_view (C:=binary_collation) empty_db demo_db demo_input
    ("demo", 1%Z) (new_run_row (C:=binary_collation) demo_input 1) demo_db_wf).
  - discriminate.
  - reflexivity.
  - reflexivity.
  - discriminate.
  - reflexivity.
  - reflexivity.
  - split; reflexivity.
Defined.

Lemma CreateRun_empty_trace_witness :
  exists e, CreateRun (C:=binary_collation) demo_db (MkCreateRun "demo" 5 StatusQueued "" "" "" "" "")
    = (demo_db, err e) /\ isDuplicateKeyError e = false.
Proof. apply (CreateRun_empty_trace (C:=binary_collation)). reflexivity. Defined.

Lemma GetRunsByPipeline_spec_witness :
  Run_RunNo <$> GetRunsByPipeline (C:=binary_collation) demo_db "demo" = [1%Z] /\
  StronglySorted (fun a b => (Run_RunNo a <= Run_RunNo b)%Z) (GetRunsByPipeline (C:=binary_collation) demo_db "demo") /\
  forall r, r ∈ GetRunsByPipeline (C:=binary_collation) demo_db "demo" <->
            GetRun (C:=binary_collation) demo_db "demo" (Run_RunNo r) = ok r.
Proof.
  split; [vm_compute; reflexivity|].
  apply (GetRunsByPipeline_spec (C:=binary_collation) demo_db "demo" demo_db_wf).
Defined.
