(* ===== verification/Sql.v ===== *)
(** * The SQL that the program speaks

    The statements of migrations/*.sql and of internal/store: a lexer and a parser
    from their text, and what MySQL does with them by its reference manual, in strict mode, on tables
    whose columns have types, widths, defaults and generated values and whose
    unique indexes compare text by collation. A statement that fails changes
    nothing. Not modelled: conversions between types (no statement needs one; an
    error of their own marks them), ranges of dates, and the gaps that failed
    inserts leave in generated ids, which no statement reads. *)

From stdpp Require Import sorting.
From Stdlib Require Import Ascii.
From S2P Require Import Prelude GoStrings Store.

(** ** Values, expressions, statements *)

(** Truth values are the integers 0 and 1, times are microseconds. *)
Inductive value := VNull | VInt (z : Z) | VText (s : string) | VTime (t : Z).
#[export] Instance value_eq_dec : EqDecision value.
Proof. solve_decision. Defined.

Inductive expr :=
| EParam (i : nat)
| ELit (v : value)
| ECol (c : string)
| ENow
| ENullif (a b : expr)
| ECoalesce (a b : expr)
| EAdd (a b : expr)
| EEq (a b : expr)
| EIn (a : expr) (l : list expr)
| EAnd (a b : expr)
| ECase (c a b : expr)
| ELastId (o : option expr).

Inductive col_type := TInt | TBigUnsigned | TVarchar (n : Z) | TDatetime | TTimestamp | TBoolean.

Record column := MkColumn {
  col_name : string;
  col_type_ : col_type;
  col_nullable : bool;
  col_default : option expr;
  col_auto : bool;
  col_generated : option expr;
}.
Record index := MkIndex { ix_name : string; ix_unique : bool; ix_columns : list string }.

Inductive stmt :=
| CreateTable (if_not_exists : bool) (table : string) (columns : list column) (indexes : list index)
| AddColumns (table : string) (columns : list column)
| CreateIndex (table : string) (ix : index)
| Insert (table : string) (columns : list string) (values : list expr) (on_duplicate : option (string * expr))
| Update (table : string) (sets : list (string * expr)) (where_ : expr)
| Select (items : list expr) (table : string) (where_ : expr) (order : list string) (limit : option nat)
| SelectCount (table : string) (where_ : expr)
| SelectValue (e : expr).

(** ** Lexer

    Words are folded to lower case: keywords and column names do not distinguish
    case. Placeholders are numbered from the left. *)

Inductive token := TWord (w : string) | TNum (n : Z) | TText (s : string) | TParam (i : nat) | TSym (a : ascii).
Inductive lex_mode := MStart | MWord (w : string) | MNum (n : Z) | MText (s : string) | MComment.

Definition code (a : ascii) : Z := Z.of_N (Ascii.N_of_ascii a).
Definition is_digit (a : ascii) : bool := (48 <=? code a)%Z && (code a <=? 57)%Z.
Definition is_letter (a : ascii) : bool := let c := code (lower_ascii a) in (97 <=? c)%Z && (c <=? 122)%Z || (c =? 95)%Z.
Definition is_blank (a : ascii) : bool := (code a =? 32)%Z || (code a =? 10)%Z || (code a =? 9)%Z || (code a =? 13)%Z.
Definition is_symbol (a : ascii) : bool := existsb (Ascii.eqb a) ["("; ")"; ","; "="; "+"; "*"; ";"]%char.
Definition one (a : ascii) : string := String a EmptyString.

Definition flush (m : lex_mode) : list token := match m with MWord w => [TWord w] | MNum n => [TNum n] | _ => [] end.

Fixpoint lex (m : lex_mode) (k : nat) (s : string) : option (list token) :=
  match s with
  | EmptyString => match m with MText _ => None | _ => Some (flush m) end
  | String a s' =>
    match m with
    | MComment => lex (if (code a =? 10)%Z then MStart else MComment) k s'
    | MText t =>
      if Ascii.eqb a "'" then cons (TText t) <$> lex MStart k s' else lex (MText (t +:+ one a)) k s'
    | _ =>
      if is_letter a then
        match m with
        | MWord w => lex (MWord (w +:+ one (lower_ascii a))) k s'
        | _ => app (flush m) <$> lex (MWord (one (lower_ascii a))) k s'
        end
      else if is_digit a then
        match m with
        | MWord w => lex (MWord (w +:+ one a)) k s'
        | MNum n => lex (MNum (10 * n + (code a - 48))) k s'
        | _ => lex (MNum (code a - 48)) k s'
        end
      else app (flush m) <$>
        if is_blank a then lex MStart k s'
        else if Ascii.eqb a "'" then lex (MText "") k s'
        else if Ascii.eqb a "?" then cons (TParam k) <$> lex MStart (S k) s'
        else if is_symbol a then cons (TSym a) <$> lex MStart k s'
        else match s' with
             | String b s'' => if Ascii.eqb a "-" && Ascii.eqb b "-" then lex MComment k s'' else None
             | EmptyString => None
             end
    end
  end.

(** ** Parser *)

Definition parser (A : Type) : Type := list token -> option (A * list token).
#[export] Instance parser_ret : MRet parser := fun A x ts => Some (x, ts).
#[export] Instance parser_bind : MBind parser := fun A B f p ts => '(x, ts') ← p ts; f x ts'.

Definition orelse {A} (p q : parser A) : parser A := fun ts => match p ts with Some r => Some r | None => q ts end.
#[local] Infix "<|>" := orelse (at level 61, left associativity).
Definition fail {A} : parser A := fun _ => None.

Definition kw (w : string) : parser unit := fun ts =>
  match ts with TWord w' :: ts' => if String.eqb w w' then Some (tt, ts') else None | _ => None end.
Fixpoint kws (l : list string) : parser unit := match l with [] => mret tt | w :: l' => kw w;; kws l' end.
Definition sym (a : ascii) : parser unit := fun ts =>
  match ts with TSym a' :: ts' => if Ascii.eqb a a' then Some (tt, ts') else None | _ => None end.
Definition ident : parser string := fun ts => match ts with TWord w :: ts' => Some (w, ts') | _ => None end.
Definition number : parser Z := fun ts => match ts with TNum n :: ts' => Some (n, ts') | _ => None end.
Definition text : parser string := fun ts => match ts with TText s :: ts' => Some (s, ts') | _ => None end.
Definition parens {A} (p : parser A) : parser A := sym "(";; x ← p; sym ")";; mret x.
Definition maybe {A} (p : parser A) : parser (option A) := (x ← p; mret (Some x)) <|> mret None.

Fixpoint commas {A} (fuel : nat) (p : parser A) : parser (list A) :=
  match fuel with
  | 0 => fail
  | S fuel' => x ← p; (sym ",";; l ← commas fuel' p; mret (x :: l)) <|> mret [x]
  end.

(** From conjunctions down to atoms. *)
Fixpoint conjunction (fuel : nat) : parser expr :=
  match fuel with
  | 0 => fail
  | S fuel' => a ← relational fuel'; (kw "and";; b ← conjunction fuel'; mret (EAnd a b)) <|> mret a
  end
with relational (fuel : nat) : parser expr :=
  match fuel with
  | 0 => fail
  | S fuel' =>
    a ← addition fuel';
    (sym "=";; b ← addition fuel'; mret (EEq a b)) <|>
    (kw "in";; l ← parens (commas fuel' (conjunction fuel')); mret (EIn a l)) <|> mret a
  end
with addition (fuel : nat) : parser expr :=
  match fuel with
  | 0 => fail
  | S fuel' => a ← atom fuel'; (sym "+";; b ← atom fuel'; mret (EAdd a b)) <|> mret a
  end
with atom (fuel : nat) : parser expr :=
  match fuel with
  | 0 => fail
  | S fuel' =>
    let pair (f : expr -> expr -> expr) : parser expr := sym "(";; a ← conjunction fuel'; sym ",";; b ← conjunction fuel'; sym ")";; mret (f a b) in
    (fun ts => match ts with TParam i :: ts' => Some (EParam i, ts') | _ => None end) <|>
    (n ← number; mret (ELit (VInt n))) <|>
    (s ← text; mret (ELit (VText s))) <|>
    (kw "null";; mret (ELit VNull)) <|>
    (kw "true";; mret (ELit (VInt 1))) <|>
    (kw "false";; mret (ELit (VInt 0))) <|>
    (kw "current_timestamp";; mret ENow) <|>
    (kw "case";; kw "when";; c ← conjunction fuel'; kw "then";; a ← conjunction fuel'; kw "else";; b ← conjunction fuel'; kw "end";;
     mret (ECase c a b)) <|>
    (kw "nullif";; pair ENullif) <|>
    (kw "coalesce";; pair ECoalesce) <|>
    (kw "last_insert_id";; sym "(";; o ← maybe (conjunction fuel'); sym ")";; mret (ELastId o)) <|>
    (c ← ident; mret (ECol c))
  end.

(** Enough for every statement of the program: they nest three deep. *)
Definition depth : nat := 40.
Definition expression : parser expr := conjunction depth.
Definition names : parser (list string) := parens (commas depth ident).

Definition data_type : parser col_type :=
  (kw "bigint";; kw "unsigned";; mret TBigUnsigned) <|> (kw "int";; mret TInt) <|> (kw "boolean";; mret TBoolean) <|>
  (kw "varchar";; n ← parens number; mret (TVarchar n)) <|> (kw "datetime";; _ ← parens number; mret TDatetime) <|>
  (kw "timestamp";; mret TTimestamp).

(** The attributes of a column; whether it is the primary key. *)
Fixpoint attributes (fuel : nat) (c : column) (primary : bool) : parser (column * bool) :=
  match fuel with
  | 0 => fail
  | S fuel' =>
    let with_null b := MkColumn (col_name c) (col_type_ c) b (col_default c) (col_auto c) (col_generated c) in
    let with_default e := MkColumn (col_name c) (col_type_ c) (col_nullable c) (Some e) (col_auto c) (col_generated c) in
    let auto := MkColumn (col_name c) (col_type_ c) (col_nullable c) (col_default c) true (col_generated c) in
    let generated e := MkColumn (col_name c) (col_type_ c) (col_nullable c) (col_default c) (col_auto c) (Some e) in
    (kws ["not"; "null"];; attributes fuel' (with_null false) primary) <|>
    (kw "null";; attributes fuel' (with_null true) primary) <|>
    (kw "auto_increment";; attributes fuel' auto primary) <|>
    (kw "default";; e ← atom depth; attributes fuel' (with_default e) primary) <|>
    (kws ["primary"; "key"];; attributes fuel' (with_null false) true) <|>
    (kw "comment";; _ ← text; attributes fuel' c primary) <|>
    (kws ["generated"; "always"; "as"];; e ← parens expression; kw "stored";; attributes fuel' (generated e) primary) <|>
    mret (c, primary)
  end.
Definition column_def : parser (column * bool) :=
  c ← ident; t ← data_type; attributes depth (MkColumn c t true None false None) false.

Inductive table_item := ItemColumn (c : column) (primary : bool) | ItemIndex (ix : index).
Definition item : parser table_item :=
  (kws ["primary"; "key"];; l ← names; mret (ItemIndex (MkIndex "primary" true l))) <|>
  (kws ["unique"; "key"];; n ← ident; l ← names; mret (ItemIndex (MkIndex n true l))) <|>
  (kw "key";; n ← ident; l ← names; mret (ItemIndex (MkIndex n false l))) <|>
  (c ← column_def; mret (ItemColumn c.1 c.2)).
Definition item_columns (l : list table_item) : list column :=
  omap (fun i => match i with ItemColumn c _ => Some c | _ => None end) l.
Definition item_indexes (l : list table_item) : list index :=
  omap (fun i => match i with ItemColumn c true => Some (MkIndex "primary" true [col_name c]) | ItemColumn _ false => None | ItemIndex ix => Some ix end) l.

(** The engine and the collation of a table are the same for all tables. *)
Definition skip_options : parser unit := fun _ => Some (tt, []).
Definition at_end {A} (p : parser A) (ts : list token) : option A :=
  match p ts with Some (x, []) => Some x | _ => None end.

Definition assignment : parser (string * expr) := c ← ident; sym "=";; e ← expression; mret (c, e).

Definition create_table : parser stmt :=
  kws ["create"; "table"];; o ← maybe (kws ["if"; "not"; "exists"]); t ← ident; l ← parens (commas depth item); skip_options;;
  mret (CreateTable (bool_decide (is_Some o)) t (item_columns l) (item_indexes l)).
Definition alter_table : parser stmt :=
  kws ["alter"; "table"];; t ← ident; l ← commas depth (kws ["add"; "column"];; column_def); mret (AddColumns t l.*1).
Definition create_index : parser stmt :=
  kw "create";; o ← maybe (kw "unique"); kw "index";; n ← ident; kw "on";; t ← ident; l ← names;
  mret (CreateIndex t (MkIndex n (bool_decide (is_Some o)) l)).
Definition insert_stmt : parser stmt :=
  kws ["insert"; "into"];; t ← ident; l ← names; kw "values";; vs ← parens (commas depth expression);
  o ← maybe (kws ["on"; "duplicate"; "key"; "update"];; assignment); mret (Insert t l vs o).
Definition update_stmt : parser stmt :=
  kw "update";; t ← ident; kw "set";; l ← commas depth assignment; kw "where";; w ← expression; mret (Update t l w).
Definition order_column : parser string := c ← ident; _ ← maybe (kw "asc"); mret c.
Definition select_stmt : parser stmt :=
  kw "select";;
  ((kw "count";; parens (sym "*");; kw "from";; t ← ident; kw "where";; w ← expression; mret (SelectCount t w)) <|>
   (l ← commas depth expression; kw "from";; t ← ident; kw "where";; w ← expression;
    o ← maybe (kws ["order"; "by"];; commas depth order_column); n ← maybe (kw "limit";; number);
    mret (Select l t w (default [] o) (Z.to_nat <$> n))) <|>
   (e ← expression; mret (SelectValue e))).
Definition statement : parser stmt :=
  create_table <|> alter_table <|> create_index <|> insert_stmt <|> update_stmt <|> select_stmt.

Definition parse (sql : string) : option stmt := ts ← lex MStart 0 sql; at_end statement ts.

(** The statements of a file, each ended by a semicolon. *)
Fixpoint split_statements (cur ts : list token) : list (list token) :=
  match ts with
  | [] => match cur with [] => [] | _ => [cur] end
  | TSym a :: ts' => if Ascii.eqb a ";" then cur :: split_statements [] ts' else split_statements (cur ++ [TSym a]) ts'
  | t :: ts' => split_statements (cur ++ [t]) ts'
  end.
Definition parse_file (sql : string) : option (list stmt) :=
  ts ← lex MStart 0 sql; mapM (at_end statement) (filter (fun l => l ≠ []) (split_statements [] ts)).

(** ** Rows and tables *)

Abbreviation row := (list (string * value)).

Record table := MkTable {
  tb_columns : list column;
  tb_indexes : list index;
  tb_rows : list row;
  tb_next : Z;
}.
Abbreviation database := (gmap string table).

(** A connection: the tables, and the value of [LAST_INSERT_ID()]. *)
Record session := MkSession { ss_db : database; ss_last : Z }.

Fixpoint field (c : string) (r : row) : option value :=
  match r with [] => None | (c', v) :: r' => if String.eqb c c' then Some v else field c r' end.
Definition set_field (c : string) (v : value) (r : row) : row :=
  map (fun cv => if String.eqb c cv.1 then (cv.1, v) else cv) r.

(** Errors by their number; 1062, 1048 and 1264 are those of Store. *)
Definition err1050 : goerr := ErrIs "mysql 1050". (* table exists *)
Definition err1054 : goerr := ErrIs "mysql 1054". (* unknown column *)
Definition err1060 : goerr := ErrIs "mysql 1060". (* duplicate column *)
Definition err1061 : goerr := ErrIs "mysql 1061". (* duplicate key name *)
Definition err1064 : goerr := ErrIs "mysql 1064". (* syntax *)
Definition err1071 : goerr := ErrIs "mysql 1071". (* key too long *)
Definition err1072 : goerr := ErrIs "mysql 1072". (* no such key column *)
Definition err1136 : goerr := ErrIs "mysql 1136". (* column count *)
Definition err1146 : goerr := ErrIs "mysql 1146". (* no such table *)
Definition err1210 : goerr := ErrIs "mysql 1210". (* missing argument *)
Definition err1364 : goerr := ErrIs "mysql 1364". (* no default *)
Definition err1406 : goerr := ErrIs "mysql 1406". (* too long *)
(** Marks what is not modelled. *)
Definition err_mixed : goerr := ErrIs "operands of different types".

(** Characters of a UTF-8 string: all bytes but the continuation bytes. *)
Fixpoint char_length (s : string) : Z :=
  match s with
  | EmptyString => 0
  | String a s' => (if (128 <=? code a)%Z && (code a <=? 191)%Z then 0 else 1) + char_length s'
  end%Z.

(** Computations that may fail and may set [LAST_INSERT_ID()]. *)
Definition ev (A : Type) : Type := Z -> res (A * Z).
#[export] Instance ev_ret : MRet ev := fun A x last => ok (x, last).
#[export] Instance ev_bind : MBind ev := fun A B f m last => match m last with inl (x, last') => f x last' | inr e => err e end.
Definition lift {A} (m : res A) : ev A := fun last => match m with inl x => ok (x, last) | inr e => err e end.

Section engine.
Context {C : Collation}.
(** The time of the statement, and its arguments. *)
Context (now : Z) (args : list value).

Definition truth (b : bool) : value := VInt (if b then 1 else 0).
Definition is_true (v : value) : bool := match v with VInt z => negb (z =? 0)%Z | _ => false end.

(** [a = b], which is NULL if either is; text is compared by collation. *)
Definition equal (a b : value) : res value :=
  match a, b with
  | VNull, _ | _, VNull => ok VNull
  | VInt x, VInt y => ok (truth (x =? y)%Z)
  | VText x, VText y => ok (truth (bool_decide (ci x = ci y)))
  | VTime x, VTime y => ok (truth (x =? y)%Z)
  | _, _ => err err_mixed
  end.
Fixpoint one_of (a : value) (l : list value) : res value :=
  match l with
  | [] => ok (truth false)
  | b :: l' => x ← equal a b; y ← one_of a l';
               ok (if is_true x then x else if is_true y then y else match x with VNull => VNull | _ => y end)
  end.
Definition both (a b : value) : value :=
  match a, b with
  | VInt 0, _ | _, VInt 0 => truth false
  | VNull, _ | _, VNull => VNull
  | _, _ => truth true
  end.
Definition add_values (a b : value) : res value :=
  match a, b with
  | VNull, _ | _, VNull => ok VNull
  | VInt x, VInt y => ok (VInt (x + y))
  | _, _ => err err_mixed
  end.

Fixpoint eval (r : row) (e : expr) : ev value :=
  match e with
  | EParam i => lift (match args !! i with Some v => ok v | None => err err1210 end)
  | ELit v => mret v
  | ECol c => lift (match field c r with Some v => ok v | None => err err1054 end)
  | ENow => mret (VTime now)
  | ENullif a b => x ← eval r a; y ← eval r b; z ← lift (equal x y); mret (if is_true z then VNull else x)
  | ECoalesce a b => x ← eval r a; match x with VNull => eval r b | _ => mret x end
  | EAdd a b => x ← eval r a; y ← eval r b; lift (add_values x y)
  | EEq a b => x ← eval r a; y ← eval r b; lift (equal x y)
  | EIn a l =>
    x ← eval r a;
    ys ← (fix go l := match l with [] => mret [] | b :: l' => y ← eval r b; ys ← go l'; mret (y :: ys) end) l;
    lift (one_of x ys)
  | EAnd a b => x ← eval r a; y ← eval r b; mret (both x y)
  | ECase c a b => x ← eval r c; if is_true x then eval r a else eval r b
  | ELastId None => fun last => ok (VInt last, last)
  | ELastId (Some a) => x ← eval r a; match x with VInt z => fun _ => ok (x, z) | _ => lift (err err_mixed) end
  end.

(** *** Storing a row *)

Definition in_range (lo hi z : Z) : res value := if (lo <=? z)%Z && (z <=? hi)%Z then ok (VInt z) else err err1264.
Definition store_value (c : column) (v : value) : res value :=
  match v, col_type_ c with
  | VNull, _ => if col_nullable c then ok VNull else err err1048
  | VInt z, TInt => in_range (- 2 ^ 31) (2 ^ 31 - 1) z
  | VInt z, TBigUnsigned => in_range 0 (2 ^ 64 - 1) z
  | VInt z, TBoolean => in_range (-128) 127 z
  | VText s, TVarchar n => if (char_length s <=? n)%Z then ok v else err err1406
  | VTime _, TDatetime | VTime _, TTimestamp => ok v
  | _, _ => err err_mixed
  end.

(** What an insert puts in a column; a generated column is computed afterwards.
    Generated ids have 64 bits and do not run out. *)
Definition column_value (next : Z) (given : row) (c : column) : ev value :=
  match col_generated c, col_auto c, field (col_name c) given, col_default c with
  | Some _, _, _, _ => mret VNull
  | None, true, _, _ => mret (VInt next)
  | None, false, Some v, _ => lift (store_value c v)
  | None, false, None, Some e => v ← eval [] e; lift (store_value c v)
  | None, false, None, None => lift (if col_nullable c then ok VNull else err err1364)
  end.
Fixpoint base_row (next : Z) (given : row) (cols : list column) : ev row :=
  match cols with
  | [] => mret []
  | c :: cols' => v ← column_value next given c; r ← base_row next given cols'; mret ((col_name c, v) :: r)
  end.
Fixpoint generate (cols : list column) (r : row) : ev row :=
  match cols with
  | [] => mret r
  | c :: cols' =>
    match col_generated c with
    | None => generate cols' r
    | Some e => v ← eval r e; v' ← lift (store_value c v); generate cols' (set_field (col_name c) v' r)
    end
  end.

Definition find_column (c : string) (cols : list column) : res column :=
  match List.find (fun x => String.eqb c (col_name x)) cols with Some x => ok x | None => err err1054 end.
(** Assignments are made from left to right. *)
Fixpoint assign (cols : list column) (sets : list (string * expr)) (r : row) : ev row :=
  match sets with
  | [] => generate cols r
  | (c, e) :: sets' =>
    v ← eval r e; x ← lift (find_column c cols); v' ← lift (store_value x v); assign cols sets' (set_field c v' r)
  end.

(** *** Unique indexes: rows with a NULL in the key do not collide. *)

Definition key_value (v : value) : option value := match v with VNull => None | VText s => Some (VText (ci s)) | _ => Some v end.
Definition key_of (ix : index) (r : row) : option (list value) := mapM (fun c => field c r ≫= key_value) (ix_columns ix).
Definition same_key (ix : index) (r r' : row) : bool :=
  match key_of ix r, key_of ix r' with Some a, Some b => bool_decide (a = b) | _, _ => false end.
Definition collides (ixs : list index) (r r' : row) : bool := existsb (fun ix => ix_unique ix && same_key ix r r') ixs.

(** *** Order *)

Definition compare_values (a b : value) : comparison :=
  match a, b with
  | VNull, VNull => Eq
  | VNull, _ => Lt
  | _, VNull => Gt
  | VInt x, VInt y | VTime x, VTime y => Z.compare x y
  | VText x, VText y => String.compare (ci x) (ci y)
  | _, _ => Eq
  end.
Fixpoint compare_rows (cols : list string) (r r' : row) : comparison :=
  match cols with
  | [] => Eq
  | c :: cols' =>
    match compare_values (default VNull (field c r)) (default VNull (field c r')) with Eq => compare_rows cols' r r' | o => o end
  end.
Definition row_le (cols : list string) (r r' : row) : Prop := compare_rows cols r r' <> Gt.
#[global] Instance row_le_dec cols r r' : Decision (row_le cols r r').
Proof. unfold row_le. destruct (compare_rows cols r r'); [left|left|right]; congruence. Defined.

(** ** Statements *)

Fixpoint evals (r : row) (es : list expr) : ev (list value) :=
  match es with [] => mret [] | e :: es' => v ← eval r e; vs ← evals r es'; mret (v :: vs) end.
Fixpoint matching (w : expr) (rows : list row) : ev (list row) :=
  match rows with
  | [] => mret []
  | r :: rows' => v ← eval r w; l ← matching w rows'; mret (if is_true v then r :: l else l)
  end.
Fixpoint project (items : list expr) (rows : list row) : ev (list (list value)) :=
  match rows with [] => mret [] | r :: rows' => v ← evals r items; l ← project items rows'; mret (v :: l) end.

Fixpoint update_rows (t : table) (sets : list (string * expr)) (w : expr) (before rest : list row) : ev (list row) :=
  match rest with
  | [] => mret before
  | r :: rest' =>
    v ← eval r w;
    if is_true v then
      r' ← assign (tb_columns t) sets r;
      if existsb (collides (tb_indexes t) r') (before ++ rest') then lift (err err1062)
      else update_rows t sets w (before ++ [r']) rest'
    else update_rows t sets w (before ++ [r]) rest'
  end.

Definition with_rows (t : table) (rows : list row) (next : Z) : table := MkTable (tb_columns t) (tb_indexes t) rows next.
Definition known (cols : list column) (c : string) : bool := existsb (fun x => String.eqb c (col_name x)) cols.
Definition set_last (last : Z) : ev unit := fun _ => ok (tt, last).

Definition insert_into (t : table) (cols : list string) (vals : list expr) (on_duplicate : option (string * expr)) : ev table :=
  if negb (forallb (known (tb_columns t)) cols) then lift (err err1054)
  else if negb (length cols =? length vals) then lift (err err1136) else
  vs ← evals [] vals;
  r0 ← base_row (tb_next t) (zip cols vs) (tb_columns t);
  r ← generate (tb_columns t) r0;
  match list_find (fun r' => collides (tb_indexes t) r r' = true) (tb_rows t), on_duplicate with
  | None, _ =>
    (if existsb col_auto (tb_columns t) then set_last (tb_next t) else mret tt);;
    mret (with_rows t (tb_rows t ++ [r]) (tb_next t + 1))
  | Some _, None => lift (err err1062)
  | Some (i, old), Some set =>
    r' ← assign (tb_columns t) [set] old;
    if existsb (collides (tb_indexes t) r') (take i (tb_rows t) ++ drop (S i) (tb_rows t)) then lift (err err1062)
    else mret (with_rows t (<[i := r']> (tb_rows t)) (tb_next t))
  end.

(** *** Definitions of tables *)

Definition key_bytes (t : col_type) : Z :=
  match t with TInt | TTimestamp => 4 | TBigUnsigned | TDatetime => 8 | TBoolean => 1 | TVarchar n => 4 * n end%Z.
(** InnoDB's limit on the bytes of a key; a character of utf8mb4 takes four. *)
Definition max_key_bytes : Z := 3072.
Fixpoint index_bytes (cols : list column) (l : list string) : res Z :=
  match l with
  | [] => ok 0%Z
  | c :: l' =>
    match find_column c cols with
    | inl x => n ← index_bytes cols l'; ok (key_bytes (col_type_ x) + n)%Z
    | inr _ => err err1072
    end
  end.
Definition check_index (cols : list column) (ixs : list index) (ix : index) : res unit :=
  if existsb (fun x => String.eqb (ix_name ix) (ix_name x)) ixs then err err1061 else
  n ← index_bytes cols (ix_columns ix);
  if (n <=? max_key_bytes)%Z then ok tt else err err1071.
Fixpoint check_indexes (cols : list column) (seen l : list index) : res unit :=
  match l with [] => ok tt | ix :: l' => check_index cols seen ix;; check_indexes cols (ix :: seen) l' end.
Fixpoint check_columns (seen l : list column) : res unit :=
  match l with
  | [] => ok tt
  | c :: l' => if known seen (col_name c) then err err1060 else check_columns (c :: seen) l'
  end.

Fixpoint duplicates (ix : index) (rows : list row) : bool :=
  match rows with [] => false | r :: rows' => existsb (same_key ix r) rows' || duplicates ix rows' end.

(** A new column in an existing row: its default, or NULL. *)
Definition backfill (c : column) (r : row) : ev row :=
  match col_generated c, col_default c with
  | Some e, _ => v ← eval r e; v' ← lift (store_value c v); mret (r ++ [(col_name c, v')])
  | None, Some e => v ← eval [] e; v' ← lift (store_value c v); mret (r ++ [(col_name c, v')])
  | None, None => lift (if col_nullable c then ok (r ++ [(col_name c, VNull)]) else err err_mixed)
  end.
Fixpoint backfill_rows (c : column) (rows : list row) : ev (list row) :=
  match rows with [] => mret [] | r :: rows' => r' ← backfill c r; l ← backfill_rows c rows'; mret (r' :: l) end.
Fixpoint add_columns (t : table) (cols : list column) : ev table :=
  match cols with
  | [] => mret t
  | c :: cols' =>
    if known (tb_columns t) (col_name c) then lift (err err1060) else
    rows ← backfill_rows c (tb_rows t);
    add_columns (MkTable (tb_columns t ++ [c]) (tb_indexes t) rows (tb_next t)) cols'
  end.

Definition the_table (d : database) (t : string) : ev table :=
  lift (match d !! t with Some x => ok x | None => err err1146 end).

(** The tables after a statement, and the rows it returns. *)
Definition execute (d : database) (st : stmt) : ev (database * list (list value)) :=
  match st with
  | CreateTable if_not_exists t cols ixs =>
    match d !! t with
    | Some _ => if if_not_exists : bool then mret (d, []) else lift (err err1050)
    | None =>
      lift (check_columns [] cols);; lift (check_indexes cols [] ixs);; mret (<[t := MkTable cols ixs [] 1]> d, [])
    end
  | AddColumns t cols => x ← the_table d t; x' ← add_columns x cols; mret (<[t := x']> d, [])
  | CreateIndex t ix =>
    x ← the_table d t; lift (check_index (tb_columns x) (tb_indexes x) ix);;
    if ix_unique ix && duplicates ix (tb_rows x) then lift (err err1062)
    else mret (<[t := MkTable (tb_columns x) (tb_indexes x ++ [ix]) (tb_rows x) (tb_next x)]> d, [])
  | Insert t cols vals o => x ← the_table d t; x' ← insert_into x cols vals o; mret (<[t := x']> d, [])
  | Update t sets w =>
    x ← the_table d t; rows ← update_rows x sets w [] (tb_rows x); mret (<[t := with_rows x rows (tb_next x)]> d, [])
  | Select items t w order limit =>
    x ← the_table d t; l ← matching w (tb_rows x);
    let sorted := merge_sort (row_le order) l in
    rs ← project items (match limit with Some n => take n sorted | None => sorted end); mret (d, rs)
  | SelectCount t w => x ← the_table d t; l ← matching w (tb_rows x); mret (d, [[VInt (Z.of_nat (length l))]])
  | SelectValue e => v ← eval [] e; mret (d, [[v]])
  end.

(** A statement that fails is undone. *)
Definition perform (st : stmt) (s : session) : session * res (list (list value)) :=
  match execute (ss_db s) st (ss_last s) with
  | inl ((d, rows), last) => (MkSession d last, ok rows)
  | inr e => (s, err e)
  end.
Definition run_sql (sql : string) (s : session) : session * res (list (list value)) :=
  match parse sql with Some st => perform st s | None => (s, err err1064) end.
End engine.

(** ** Sorting *)

Section sorted.
Context {C : Collation}.

Lemma compare_values_sym a b : compare_values b a = CompOpp (compare_values a b).
Proof. destruct a, b; simpl; try done; [apply Z.compare_antisym|apply String.compare_antisym|apply Z.compare_antisym]. Qed.

Lemma compare_rows_sym cols r r' : compare_rows cols r' r = CompOpp (compare_rows cols r r').
Proof. induction cols as [|c cols IH]; [done|]. simpl. rewrite compare_values_sym. by destruct (compare_values _ _). Qed.

#[global] Instance row_le_total cols : Total (row_le cols).
Proof. intros r r'. unfold row_le. rewrite (compare_rows_sym cols r r'). destruct (compare_rows cols r r'); simpl; auto. Qed.
End sorted.

Lemma Sorted_fmap {A B D} (R : B -> B -> Prop) (S : D -> D -> Prop) (f : A -> B) (g : A -> D) l :
  (forall x y, R (f x) (f y) -> S (g x) (g y)) -> Sorted R (f <$> l) -> Sorted S (g <$> l).
Proof.
  intros H. induction l as [|x l IH]; [constructor|]. intros [Hs Hh]%Sorted_inv. constructor; [by apply IH|].
  destruct l as [|y l]; [constructor|]. apply HdRel_inv in Hh. constructor. by apply H.
Qed.

(** ** Statements on a table that exists *)

Section performed.
Context {C : Collation} (now : Z) (args : list value) (s : session) (t : string) (x : table).
Context (Ht : ss_db s !! t = Some x).

#[local] Ltac performs E :=
  unfold perform; cbn [execute]; unfold the_table, lift, mbind, ev_bind; rewrite Ht; unfold ok in *; cbv beta iota zeta; rewrite E; try reflexivity.

Lemma perform_count w l last : matching now args w (tb_rows x) (ss_last s) = ok (l, last) ->
  perform now args (SelectCount t w) s = (MkSession (ss_db s) last, ok [[VInt (Z.of_nat (length l))]]).
Proof. intros E. performs E. Qed.

Lemma perform_select items w order limit l vs last last' :
  matching now args w (tb_rows x) (ss_last s) = ok (l, last) ->
  project now args items (match limit with Some n => take n (merge_sort (row_le order) l) | None => merge_sort (row_le order) l end) last
    = ok (vs, last') ->
  perform now args (Select items t w order limit) s = (MkSession (ss_db s) last', ok vs).
Proof. intros E E'. performs E. cbv beta iota zeta. by rewrite E'. Qed.

Lemma perform_insert cols vals o r :
  insert_into now args x cols vals o (ss_last s) = r ->
  perform now args (Insert t cols vals o) s =
    match r with inl (x', last) => (MkSession (<[t := x']> (ss_db s)) last, ok []) | inr e => (s, err e) end.
Proof. intros E. performs E. by destruct r as [[]|]. Qed.

Lemma perform_update sets w r :
  update_rows now args x sets w [] (tb_rows x) (ss_last s) = r ->
  perform now args (Update t sets w) s =
    match r with inl (rows, last) => (MkSession (<[t := with_rows x rows (tb_next x)]> (ss_db s)) last, ok []) | inr e => (s, err e) end.
Proof. intros E. performs E. by destruct r as [[]|]. Qed.

Lemma perform_add cols r : add_columns now args x cols (ss_last s) = r ->
  perform now args (AddColumns t cols) s =
    match r with inl (x', last) => (MkSession (<[t := x']> (ss_db s)) last, ok []) | inr e => (s, err e) end.
Proof. intros E. performs E. by destruct r as [[]|]. Qed.

Lemma perform_index ix : check_index (tb_columns x) (tb_indexes x) ix = ok tt -> ix_unique ix && duplicates ix (tb_rows x) = false ->
  perform now args (CreateIndex t ix) s =
    (MkSession (<[t := MkTable (tb_columns x) (tb_indexes x ++ [ix]) (tb_rows x) (tb_next x)]> (ss_db s)) (ss_last s), ok []).
Proof. intros E E'. performs E. cbv beta iota zeta. by rewrite E'. Qed.
End performed.

(** ** Inserting a row *)

Section inserted.
Context {C : Collation} (now : Z) (args : list value) (x : table) (cols : list string) (vals : list expr).
Context (o : option (string * expr)) (last last' : Z) (r : row).

Definition new_row : ev row :=
  vs ← evals now args [] vals; r0 ← base_row now args (tb_next x) (zip cols vs) (tb_columns x); generate now args (tb_columns x) r0.
(** [r] is the row that the statement stores. *)
Definition stored_row : Prop :=
  forallb (known (tb_columns x)) cols = true /\ length cols = length vals /\ new_row last = ok (r, last').

Lemma insert_found : stored_row ->
  insert_into now args x cols vals o last =
    match list_find (fun r' => collides (tb_indexes x) r r' = true) (tb_rows x), o with
    | None, _ => ok (with_rows x (tb_rows x ++ [r]) (tb_next x + 1), if existsb col_auto (tb_columns x) then tb_next x else last')
    | Some _, None => err err1062
    | Some (i, old), Some set =>
      (r' ← assign now args (tb_columns x) [set] old;
       if existsb (collides (tb_indexes x) r') (take i (tb_rows x) ++ drop (S i) (tb_rows x)) then lift (err err1062)
       else mret (with_rows x (<[i := r']> (tb_rows x)) (tb_next x))) last'
    end.
Proof.
  intros (Hk & Hl & E). unfold new_row, insert_into in *. rewrite Hk, (proj2 (Nat.eqb_eq _ _) Hl).
  unfold mbind, ev_bind in *. cbv beta iota delta [negb].
  destruct (evals _ _ _ _ _) as [[vs l1]|]; [|done]. cbv beta iota in *.
  destruct (base_row _ _ _ _ _ _) as [[r0 l2]|]; [|done]. cbv beta iota in *. rewrite E. unfold ok at 1. cbv beta iota.
  destruct (list_find _ _) as [[i old]|]; [by destruct o|]. by destruct (existsb _ _).
Qed.

Lemma insert_refused e : forallb (known (tb_columns x)) cols = true -> length cols = length vals -> new_row last = err e ->
  insert_into now args x cols vals o last = err e.
Proof.
  intros Hk Hl E. unfold new_row, insert_into in *. rewrite Hk, (proj2 (Nat.eqb_eq _ _) Hl).
  unfold mbind, ev_bind in *. cbv beta iota delta [negb].
  destruct (evals _ _ _ _ _) as [[vs l1]|]; cbv beta iota in *; [|by injection E as ->].
  destruct (base_row _ _ _ _ _ _) as [[r0 l2]|]; cbv beta iota in *; [|by injection E as ->]. by rewrite E.
Qed.

Lemma insert_fresh : stored_row -> (forall r', r' ∈ tb_rows x -> collides (tb_indexes x) r r' = false) ->
  insert_into now args x cols vals o last =
    ok (with_rows x (tb_rows x ++ [r]) (tb_next x + 1), if existsb col_auto (tb_columns x) then tb_next x else last').
Proof.
  intros Hr Hc. rewrite (insert_found Hr). destruct (list_find _ _) as [[i old]|] eqn:E; [|done].
  apply list_find_Some in E as (Hi%list_elem_of_lookup_2 & E & _). by rewrite (Hc _ Hi) in E.
Qed.

Lemma insert_duplicate : stored_row -> o = None -> (exists r', r' ∈ tb_rows x /\ collides (tb_indexes x) r r' = true) ->
  insert_into now args x cols vals o last = err err1062.
Proof.
  intros Hr Ho (r' & Hr' & Hc). rewrite (insert_found Hr), Ho. destruct (list_find _ _) as [[i old]|] eqn:E; [done|].
  apply list_find_None in E. rewrite Forall_forall in E. by destruct (E _ Hr').
Qed.
End inserted.

(** ** Adding columns *)

Lemma field_app c (r r' : row) : field c (r ++ r') = match field c r with Some v => Some v | None => field c r' end.
Proof. induction r as [|[c' v] r IH]; simpl; [done|]. by destruct (String.eqb c c'). Qed.

Lemma field_None c (r : row) : c ∉ r.*1 -> field c r = None.
Proof.
  induction r as [|[c' v] r IH]; simpl; [done|]. rewrite not_elem_of_cons. intros [Hc Hr].
  by rewrite (proj2 (String.eqb_neq _ _) Hc), IH.
Qed.

Section added.
Context {C : Collation} (now : Z) (args : list value).

Lemma backfill_rows_spec c (f : row -> row) rows last :
  (forall r, r ∈ rows -> forall last, backfill now args c r last = ok (f r, last)) ->
  backfill_rows now args c rows last = ok (f <$> rows, last).
Proof.
  revert last. induction rows as [|r rows IH]; intros last Hf; [done|]. cbn [backfill_rows]. unfold mbind, ev_bind.
  rewrite Hf by left. unfold ok at 1. cbv beta iota. by rewrite IH by (intros; apply Hf; by right).
Qed.

Lemma add_column_spec t c cols (f : row -> row) last : known (tb_columns t) (col_name c) = false ->
  (forall r, r ∈ tb_rows t -> forall last, backfill now args c r last = ok (f r, last)) ->
  add_columns now args t (c :: cols) last = add_columns now args (MkTable (tb_columns t ++ [c]) (tb_indexes t) (f <$> tb_rows t) (tb_next t)) cols last.
Proof.
  intros Hk Hf. cbn [add_columns]. rewrite Hk. unfold mbind, ev_bind. by rewrite (backfill_rows_spec c f).
Qed.

Lemma duplicates_none ix rows : (forall r, r ∈ rows -> key_of ix r = None) -> duplicates ix rows = false.
Proof.
  induction rows as [|r rows IH]; intros Hk; simpl; [done|]. rewrite IH by (intros; apply Hk; by right). rewrite orb_false_r.
  apply not_true_iff_false. rewrite existsb_exists. intros (x & _ & Hx). unfold same_key in Hx. by rewrite Hk in Hx by left.
Qed.
End added.

(** ** Rows that encode records *)

Section encoded.
Context {C : Collation} (now : Z) (args : list value).
Context {A : Type} (enc : A -> row).

(** [w] decides [P] of what a row encodes. *)
Definition decides (w : expr) (P : A -> Prop) `{forall x, Decision (P x)} (x : A) : Prop :=
  forall last, exists v, eval now args (enc x) w last = ok (v, last) /\ is_true v = bool_decide (P x).

Lemma matching_spec w P `{forall x, Decision (P x)} l last :
  (forall x, x ∈ l -> decides w P x) -> matching now args w (enc <$> l) last = ok (enc <$> filter P l, last).
Proof.
  revert last. induction l as [|x l IH]; intros last Hw; [done|].
  destruct (Hw x (list_elem_of_here _ _) last) as (v & Ev & Hv).
  rewrite fmap_cons, filter_cons. cbn [matching]. unfold mbind, ev_bind. rewrite Ev. unfold ok at 1. cbv beta iota.
  rewrite IH by (intros; apply Hw; by right). cbn. rewrite Hv. by case_bool_decide; case_decide.
Qed.

Lemma project_spec items (f : A -> list value) l last :
  (forall x, x ∈ l -> forall last, evals now args (enc x) items last = ok (f x, last)) ->
  project now args items (enc <$> l) last = ok (f <$> l, last).
Proof.
  revert last. induction l as [|x l IH]; intros last Hf; [done|].
  rewrite fmap_cons. cbn [project]. unfold mbind, ev_bind. rewrite (Hf x (list_elem_of_here _ _)). unfold ok at 1. cbv beta iota.
  rewrite IH by (intros; apply Hf; by right). done.
Qed.
End encoded.
