(* ===== verification/Schema.v ===== *)
(** * The database schema (migrations/)

    The migration files as they are, and apply-migrations.sh as the sequence of the
    statements it sends; any of them may be the last before the job is killed.
    Theorems: what the tables of a new database look like, that the script changes
    nothing when all is applied, that an upgrade keeps the rows it finds, and after
    which interruptions the script can be run again. *)

From S2P Require Import Prelude GoStrings Store Sql.

(** ** The files *)

Definition migration_001 : string :=
"-- Report store schema for pipeline run / stage / job (MySQL 8).
-- Apply through migrations image (or manually with mysql client).

-- Pipeline runs (one per execution)
CREATE TABLE IF NOT EXISTS pipeline_runs (
    id          BIGINT UNSIGNED NOT NULL AUTO_INCREMENT,
    pipeline    VARCHAR(255) NOT NULL,
    run_no      INT NOT NULL,
    start_time  DATETIME(6) NOT NULL,
    end_time    DATETIME(6) NULL,
    status      VARCHAR(32) NOT NULL,
    git_hash    VARCHAR(64) NULL,
    git_branch  VARCHAR(256) NULL,
    git_repo    VARCHAR(1024) NULL,
    PRIMARY KEY (id),
    UNIQUE KEY uq_pipeline_runs_pipeline_run (pipeline, run_no),
    KEY idx_pipeline_runs_pipeline (pipeline),
    KEY idx_pipeline_runs_lookup (pipeline, run_no)
) ENGINE=InnoDB DEFAULT CHARSET=utf8mb4 COLLATE=utf8mb4_unicode_ci;

-- Stage runs (one per stage per run)
CREATE TABLE IF NOT EXISTS stage_runs (
    id          BIGINT UNSIGNED NOT NULL AUTO_INCREMENT,
    pipeline    VARCHAR(255) NOT NULL,
    run_no      INT NOT NULL,
    stage       VARCHAR(256) NOT NULL,
    start_time  DATETIME(6) NOT NULL,
    end_time    DATETIME(6) NULL,
    status      VARCHAR(32) NOT NULL,
    PRIMARY KEY (id),
    UNIQUE KEY uq_stage_runs_pipeline_run_stage (pipeline, run_no, stage),
    KEY idx_stage_runs_lookup (pipeline, run_no),
    KEY idx_stage_runs_stage (pipeline, run_no, stage)
) ENGINE=InnoDB DEFAULT CHARSET=utf8mb4 COLLATE=utf8mb4_unicode_ci;

-- Job runs (one per job per run)
CREATE TABLE IF NOT EXISTS job_runs (
    id          BIGINT UNSIGNED NOT NULL AUTO_INCREMENT,
    pipeline    VARCHAR(255) NOT NULL,
    run_no      INT NOT NULL,
    stage       VARCHAR(256) NOT NULL,
    job         VARCHAR(256) NOT NULL,
    start_time  DATETIME(6) NOT NULL,
    end_time    DATETIME(6) NULL,
    status      VARCHAR(32) NOT NULL,
    PRIMARY KEY (id),
    UNIQUE KEY uq_job_runs_pipeline_run_stage_job (pipeline, run_no, stage, job),
    KEY idx_job_runs_lookup (pipeline, run_no),
    KEY idx_job_runs_stage (pipeline, run_no, stage),
    KEY idx_job_runs_job (pipeline, run_no, stage, job)
) ENGINE=InnoDB DEFAULT CHARSET=utf8mb4 COLLATE=utf8mb4_unicode_ci;

-- Per-pipeline run number allocator used by execution service.
CREATE TABLE IF NOT EXISTS pipeline_sequences (
    pipeline    VARCHAR(255) NOT NULL,
    next_run_no INT NOT NULL DEFAULT 1,
    PRIMARY KEY (pipeline)
) ENGINE=InnoDB DEFAULT CHARSET=utf8mb4 COLLATE=utf8mb4_unicode_ci;
".

Definition migration_002 : string :=
"-- Add failures column to job_runs (allow-failure jobs: do not affect stage status).
-- Apply after 001_report_store_schema.sql

ALTER TABLE job_runs
ADD COLUMN failures BOOLEAN NOT NULL DEFAULT FALSE
COMMENT 'When true, job is allowed to fail and does not affect stage status.';
".

Definition migration_003 : string :=
"-- Add trace_id to pipeline_runs for observability correlation.
-- Apply after 002_add_job_runs_failures.sql

ALTER TABLE pipeline_runs
ADD COLUMN trace_id VARCHAR(32) NOT NULL DEFAULT ''
COMMENT 'OpenTelemetry trace ID (32-char hex) for correlating reports with traces.';
".

Definition migration_004 : string :=
"-- Add request_key to support queue deduplication of identical in-flight runs.
-- Apply after 003_add_trace_id.sql

ALTER TABLE pipeline_runs
ADD COLUMN request_key VARCHAR(64) NULL
COMMENT 'Stable deduplication key for identical in-flight requests',
ADD COLUMN active_request_key VARCHAR(64)
GENERATED ALWAYS AS (
    CASE
        WHEN status IN ('queued', 'running') THEN request_key
        ELSE NULL
    END
) STORED;

CREATE INDEX idx_pipeline_runs_request_key
ON pipeline_runs (pipeline, request_key, run_no);

CREATE UNIQUE INDEX uq_pipeline_runs_active_request
ON pipeline_runs (pipeline, active_request_key);
".


(** [find ... | sort] *)
Definition migration_files : list (string * string) :=
  [("001_report_store_schema.sql", migration_001); ("002_add_job_runs_failures.sql", migration_002);
   ("003_add_trace_id.sql", migration_003); ("004_add_pipeline_run_request_key.sql", migration_004)].

(** ** The script *)

Definition create_schema_migrations : string :=
  "CREATE TABLE IF NOT EXISTS schema_migrations (
      filename VARCHAR(255) NOT NULL PRIMARY KEY,
      applied_at TIMESTAMP NOT NULL DEFAULT CURRENT_TIMESTAMP
   );".
Definition count_applied (name : string) : string :=
  "SELECT COUNT(*) FROM schema_migrations WHERE filename = '" +++ name +++ "'".
Definition record_applied (name : string) : string :=
  "INSERT INTO schema_migrations (filename) VALUES ('" +++ name +++ "')".

(** What ends the script although no statement failed. *)
Definition killed : goerr := ErrIs "killed".

Section script.
Context {C : Collation} (now : Z).

(** The script over a number of statements after which it is killed. Each call of
    the client is a connection of its own; definitions of tables are committed at
    once, and so is every statement outside a transaction. *)
Definition script (A : Type) : Type := nat * database -> (nat * database) * res A.
#[local] Instance script_ret : MRet script := fun A x s => (s, ok x).
#[local] Instance script_bind : MBind script := fun A B f m s =>
  match m s with (s', inl x) => f x s' | (s', inr e) => (s', err e) end.

Definition send (st : stmt) : script (list (list value)) := fun '(k, d) =>
  match k with
  | 0 => ((0, d), err killed)
  | S k' => let '(s, r) := perform now [] st (MkSession d 0) in ((k', ss_db s), r)
  end.
(** The client stops at the first statement that fails. *)
Fixpoint send_all (l : list stmt) : script unit := match l with [] => mret tt | st :: l' => send st;; send_all l' end.
Definition parsed (o : option (list stmt)) : script (list stmt) :=
  fun s => (s, match o with Some l => ok l | None => err err1064 end).
Definition client (sql : string) : script (list (list value)) :=
  l ← parsed (parse_file sql); match l with [st] => send st | _ => send_all l;; mret [] end.

Definition apply_file (f : string * string) : script unit :=
  rows ← client (count_applied f.1);
  if bool_decide (rows = [[VInt 0]]) then
    l ← parsed (parse_file f.2); send_all l;; client (record_applied f.1);; mret tt
  else mret tt.
Fixpoint apply_files (l : list (string * string)) : script unit :=
  match l with [] => mret tt | f :: l' => apply_file f;; apply_files l' end.
Definition apply_migrations : script unit := client create_schema_migrations;; apply_files migration_files.
End script.

(** ** The tables, by version of the schema

    Version [v] is what the first [v] files make of a new database. *)

Definition not_null (c : string) (t : col_type) : column := MkColumn c t false None false None.
Definition nullable (c : string) (t : col_type) : column := MkColumn c t true None false None.
Definition with_default (c : string) (t : col_type) (e : expr) : column := MkColumn c t false (Some e) false None.
Definition id_column : column := MkColumn "id" TBigUnsigned false None true None.
Definition generated_column (c : string) (t : col_type) (e : expr) : column := MkColumn c t true None false (Some e).

Definition primary (l : list string) : index := MkIndex "primary" true l.

Definition runs_columns (v : nat) : list column :=
  [id_column; not_null "pipeline" (TVarchar 255); not_null "run_no" TInt; not_null "start_time" TDatetime;
   nullable "end_time" TDatetime; not_null "status" (TVarchar 32); nullable "git_hash" (TVarchar 64);
   nullable "git_branch" (TVarchar 256); nullable "git_repo" (TVarchar 1024)] ++
  (if 3 <=? v then [with_default "trace_id" (TVarchar 32) (ELit (VText ""))] else []) ++
  (if 4 <=? v then
     [nullable "request_key" (TVarchar 64);
      generated_column "active_request_key" (TVarchar 64)
        (ECase (EIn (ECol "status") [ELit (VText "queued"); ELit (VText "running")]) (ECol "request_key") (ELit VNull))]
   else []).
Definition runs_indexes (v : nat) : list index :=
  [primary ["id"]; MkIndex "uq_pipeline_runs_pipeline_run" true ["pipeline"; "run_no"];
   MkIndex "idx_pipeline_runs_pipeline" false ["pipeline"]; MkIndex "idx_pipeline_runs_lookup" false ["pipeline"; "run_no"]] ++
  (if 4 <=? v then
     [MkIndex "idx_pipeline_runs_request_key" false ["pipeline"; "request_key"; "run_no"];
      MkIndex "uq_pipeline_runs_active_request" true ["pipeline"; "active_request_key"]]
   else []).

Definition stages_columns : list column :=
  [id_column; not_null "pipeline" (TVarchar 255); not_null "run_no" TInt; not_null "stage" (TVarchar 256);
   not_null "start_time" TDatetime; nullable "end_time" TDatetime; not_null "status" (TVarchar 32)].
Definition stages_indexes : list index :=
  [primary ["id"]; MkIndex "uq_stage_runs_pipeline_run_stage" true ["pipeline"; "run_no"; "stage"];
   MkIndex "idx_stage_runs_lookup" false ["pipeline"; "run_no"]; MkIndex "idx_stage_runs_stage" false ["pipeline"; "run_no"; "stage"]].

Definition jobs_columns (v : nat) : list column :=
  [id_column; not_null "pipeline" (TVarchar 255); not_null "run_no" TInt; not_null "stage" (TVarchar 256);
   not_null "job" (TVarchar 256); not_null "start_time" TDatetime; nullable "end_time" TDatetime; not_null "status" (TVarchar 32)] ++
  (if 2 <=? v then [with_default "failures" TBoolean (ELit (VInt 0))] else []).
Definition jobs_indexes : list index :=
  [primary ["id"]; MkIndex "uq_job_runs_pipeline_run_stage_job" true ["pipeline"; "run_no"; "stage"; "job"];
   MkIndex "idx_job_runs_lookup" false ["pipeline"; "run_no"]; MkIndex "idx_job_runs_stage" false ["pipeline"; "run_no"; "stage"];
   MkIndex "idx_job_runs_job" false ["pipeline"; "run_no"; "stage"; "job"]].

Definition sequences_columns : list column :=
  [not_null "pipeline" (TVarchar 255); with_default "next_run_no" TInt (ELit (VInt 1))].
Definition sequences_indexes : list index := [primary ["pipeline"]].

Definition log_columns : list column :=
  [not_null "filename" (TVarchar 255); with_default "applied_at" TTimestamp ENow].
Definition log_row (x : string * Z) : row := [("filename", VText x.1); ("applied_at", VTime x.2)].
(** The files applied, and when. *)
Definition log_table (l : list (string * Z)) (next : Z) : table := MkTable log_columns [primary ["filename"]] (log_row <$> l) next.

(** What the tables hold, and their next ids. *)
Record contents := MkContents {
  co_runs : list row;
  co_stages : list row;
  co_jobs : list row;
  co_sequences : list row;
  co_next : Z * Z * Z * Z;
}.
Record holds (v : nat) (x : contents) (d : database) : Prop := {
  ho_runs : d !! "pipeline_runs" = Some (MkTable (runs_columns v) (runs_indexes v) (co_runs x) (co_next x).1.1.1);
  ho_stages : d !! "stage_runs" = Some (MkTable stages_columns stages_indexes (co_stages x) (co_next x).1.1.2);
  ho_jobs : d !! "job_runs" = Some (MkTable (jobs_columns v) jobs_indexes (co_jobs x) (co_next x).1.2);
  ho_sequences : d !! "pipeline_sequences" = Some (MkTable sequences_columns sequences_indexes (co_sequences x) (co_next x).2);
}.
Definition new_contents : contents := MkContents [] [] [] [] (1, 1, 1, 1)%Z.
(** The first file may have been applied in part. *)
Definition absent_or (d : database) (t : string) (x : table) : Prop := d !! t = None \/ d !! t = Some x.
Record partly_new (d : database) : Prop := {
  pn_runs : absent_or d "pipeline_runs" (MkTable (runs_columns 1) (runs_indexes 1) [] 1);
  pn_stages : absent_or d "stage_runs" (MkTable stages_columns stages_indexes [] 1);
  pn_jobs : absent_or d "job_runs" (MkTable (jobs_columns 1) jobs_indexes [] 1);
  pn_sequences : absent_or d "pipeline_sequences" (MkTable sequences_columns sequences_indexes [] 1);
}.
Definition logged (v : nat) (d : database) : Prop :=
  exists l next, l.*1 = take v migration_files.*1 /\ d !! "schema_migrations" = Some (log_table l next).

(** What the file of version [v] adds to the rows it finds. *)
Definition upgrade (v : nat) (x : contents) : contents :=
  MkContents
    (match v with
     | 3 => (fun r => r ++ [("trace_id", VText "")]) <$> co_runs x
     | 4 => (fun r => r ++ [("request_key", VNull); ("active_request_key", VNull)]) <$> co_runs x
     | _ => co_runs x
     end)
    (co_stages x)
    (match v with 2 => (fun r => r ++ [("failures", VInt 0)]) <$> co_jobs x | _ => co_jobs x end)
    (co_sequences x) (co_next x).
(** A row of pipeline_runs has the columns of its version, and a status. *)
Definition run_shape (v : nat) (r : row) : Prop :=
  r.*1 = col_name <$> runs_columns v /\ exists s, field "status" r = Some (VText s).
Lemma migration_001_sql : parse_file migration_001 = Some
  [CreateTable true "pipeline_runs" (runs_columns 1) (runs_indexes 1); CreateTable true "stage_runs" stages_columns stages_indexes;
   CreateTable true "job_runs" (jobs_columns 1) jobs_indexes; CreateTable true "pipeline_sequences" sequences_columns sequences_indexes].
Proof. vm_compute. reflexivity. Qed.
Lemma migration_002_sql : parse_file migration_002 = Some [AddColumns "job_runs" [with_default "failures" TBoolean (ELit (VInt 0))]].
Proof. vm_compute. reflexivity. Qed.
Lemma migration_003_sql : parse_file migration_003 = Some [AddColumns "pipeline_runs" [with_default "trace_id" (TVarchar 32) (ELit (VText ""))]].
Proof. vm_compute. reflexivity. Qed.
Lemma migration_004_sql : parse_file migration_004 = Some
  [AddColumns "pipeline_runs" (drop 10 (runs_columns 4));
   CreateIndex "pipeline_runs" (MkIndex "idx_pipeline_runs_request_key" false ["pipeline"; "request_key"; "run_no"]);
   CreateIndex "pipeline_runs" (MkIndex "uq_pipeline_runs_active_request" true ["pipeline"; "active_request_key"])].
Proof. vm_compute. reflexivity. Qed.

(** A database of version [v], with contents [x]. *)
Definition at_version (v : nat) (x : contents) (d : database) : Prop :=
  match v with
  | 0 => x = new_contents /\ partly_new d /\ (d !! "schema_migrations" = None \/ logged 0 d)
  | _ => holds v x d /\ logged v d /\ Forall (run_shape v) (co_runs x)
  end.
(** What the files after version [v] make of the contents. *)
Definition upgrade_upto (v v' : nat) (x : contents) : contents := foldl (fun x v' => upgrade v' x) x (seq (S v) (v' - v)).
Definition upgrade_from (v : nat) (x : contents) : contents := upgrade_upto v 4 x.
(** The first column that the file after version [v] adds. *)
Definition added_column (v : nat) : string * string :=
  match v with 1 => ("job_runs", "failures") | 2 => ("pipeline_runs", "trace_id") | _ => ("pipeline_runs", "request_key") end.
(** That file has begun, and is not recorded. *)
Definition half_applied (v : nat) (d : database) : Prop :=
  1 <= v <= 3 /\ logged v d /\ exists x, d !! (added_column v).1 = Some x /\ known (tb_columns x) (added_column v).2 = true.
(** The statements of the script for each file. *)
Definition file_cost (v : nat) : nat := match v with 1 => 6 | 4 => 5 | _ => 3 end.

Section upgrades.
Context {C : Collation} (now : Z).
#[local] Opaque parse_file.
Context (Hnames : NoDup (ci <$> migration_files.*1)).

(** *** The log *)

Lemma log_decides name x : decides now [] log_row (EEq (ECol "filename") (ELit (VText name))) (fun x => ci x.1 = ci name) x.
Proof. intros last. eexists. split; [reflexivity|]. simpl. by case_bool_decide. Qed.

Definition count_stmt (name : string) : stmt := SelectCount "schema_migrations" (EEq (ECol "filename") (ELit (VText name))).
Definition record_stmt (name : string) : stmt := Insert "schema_migrations" ["filename"] [ELit (VText name)] None.
Lemma log_stmts_sql f : f ∈ migration_files ->
  parse_file (count_applied f.1) = Some [count_stmt f.1] /\ parse_file (record_applied f.1) = Some [record_stmt f.1] /\
  (char_length f.1 <=? 255)%Z = true.
Proof. revert f. apply Forall_forall. repeat constructor; vm_compute; reflexivity. Qed.
Lemma create_log_sql : parse_file create_schema_migrations = Some [CreateTable true "schema_migrations" log_columns [primary ["filename"]]].
Proof. vm_compute. reflexivity. Qed.

Lemma send_count name l next k d : d !! "schema_migrations" = Some (log_table l next) ->
  send now (count_stmt name) (S k, d) = ((k, d), ok [[VInt (Z.of_nat (length (filter (fun x => ci x.1 = ci name) l)))]]).
Proof.
  intros Hd. unfold send, count_stmt. erewrite perform_count; [|exact Hd|apply (matching_spec now [] log_row _ (fun x => ci x.1 = ci name)); intros; apply log_decides]. by rewrite length_fmap.
Qed.

Lemma log_collides n t x : collides [primary ["filename"]] (log_row (n, t)) (log_row x) = bool_decide (ci x.1 = ci n).
Proof.
  destruct x as [n' t']. unfold collides, same_key. cbn. rewrite orb_false_r.
  apply bool_decide_ext. split; [by intros [= ->]|by intros ->].
Qed.

Lemma insert_log name l next last : (char_length name <=? 255)%Z = true -> (forall x, x ∈ l -> ci x.1 <> ci name) ->
  insert_into now [] (log_table l next) ["filename"] [ELit (VText name)] None last = ok (log_table (l ++ [(name, now)]) (next + 1), last).
Proof.
  intros Hw Hnew. erewrite (insert_fresh _ _ _ _ _ _ _ last (log_row (name, now))).
  - unfold log_table. by rewrite fmap_app.
  - split_and!; [done|done|]. cbn. unfold mbind, ev_bind, lift, mret, ev_ret. cbn. by rewrite Hw.
  - intros r' (x & -> & Hx)%list_elem_of_fmap. change (tb_indexes (log_table l next)) with [primary ["filename"]]. rewrite log_collides.
    apply bool_decide_eq_false_2. by apply Hnew.
Qed.

Lemma send_record name l next k d : d !! "schema_migrations" = Some (log_table l next) ->
  (char_length name <=? 255)%Z = true -> (forall x, x ∈ l -> ci x.1 <> ci name) ->
  send now (record_stmt name) (S k, d) = ((k, <["schema_migrations" := log_table (l ++ [(name, now)]) (next + 1)]> d), ok []).
Proof.
  intros Hd Hw Hnew. unfold send, record_stmt. erewrite perform_insert; [|exact Hd|by apply insert_log]. done.
Qed.

(** *** One file *)

Lemma is_logged v (l : list (string * Z)) f i : l.*1 = take v migration_files.*1 -> migration_files !! i = Some f -> i < v -> f.1 ∈ l.*1.
Proof.
  intros -> Hf Hi. apply list_elem_of_lookup. exists i. rewrite lookup_take_lt by done. by rewrite list_lookup_fmap, Hf.
Qed.

Lemma not_logged v (l : list (string * Z)) f : l.*1 = take v migration_files.*1 -> migration_files !! v = Some f -> forall x, x ∈ l -> ci x.1 <> ci f.1.
Proof.
  intros El Hf x Hx E. apply (list_elem_of_fmap_2 fst) in Hx. rewrite El in Hx.
  apply list_elem_of_lookup in Hx as [i Hi]. apply lookup_take_Some in Hi as [Hi Hlt].
  assert (i = v); [|lia]. apply (NoDup_lookup _ _ _ (ci f.1) Hnames); [by rewrite list_lookup_fmap, Hi, <- E|].
  by rewrite list_lookup_fmap, list_lookup_fmap, Hf.
Qed.

Lemma client_one sql st s : parse_file sql = Some [st] -> client now sql s = send now st s.
Proof. intros E. unfold client, parsed, mbind, script_bind. by rewrite E. Qed.

Lemma apply_file_skip f l next k d : f ∈ migration_files -> d !! "schema_migrations" = Some (log_table l next) -> f.1 ∈ l.*1 ->
  apply_file now f (S k, d) = ((k, d), ok tt).
Proof.
  intros Hf Hd (x & Ex & Hx)%list_elem_of_fmap. unfold apply_file, mbind, script_bind.
  rewrite (client_one _ _ _ (proj1 (log_stmts_sql f Hf))), (send_count _ l next) by done. unfold ok at 1. cbv beta iota.
  rewrite bool_decide_eq_false_2; [done|]. intros [= E].
  assert (Hin : x ∈ filter (fun x => ci x.1 = ci f.1) l) by (apply list_elem_of_filter; split; [by rewrite Ex|done]).
  destruct (filter _ l); [by apply elem_of_nil in Hin|done].
Qed.

Lemma apply_file_run f sts l next k k' d d' : f ∈ migration_files -> d !! "schema_migrations" = Some (log_table l next) ->
  (forall x, x ∈ l -> ci x.1 <> ci f.1) -> parse_file f.2 = Some sts ->
  send_all now sts (k, d) = ((S k', d'), ok tt) -> d' !! "schema_migrations" = Some (log_table l next) ->
  apply_file now f (S k, d) = ((k', <["schema_migrations" := log_table (l ++ [(f.1, now)]) (next + 1)]> d'), ok tt).
Proof.
  intros Hf Hd Hnew Hp Hs Hd'. destruct (log_stmts_sql f Hf) as (Hc & Hr & Hw). unfold apply_file, mbind, script_bind.
  rewrite (client_one _ _ _ Hc), (send_count _ l next) by done. unfold ok at 1. cbv beta iota.
  rewrite list_filter_none by (by apply Forall_forall). rewrite bool_decide_eq_true_2 by done. unfold parsed. rewrite Hp. unfold ok at 1. cbv beta iota.
  rewrite Hs. unfold ok at 1. cbv beta iota. by rewrite (client_one _ _ _ Hr), (send_record _ l next).
Qed.

(** *** What each file does *)

Lemma send_next st sts k d d' last rows : perform now [] st (MkSession d 0) = (MkSession d' last, ok rows) ->
  send_all now (st :: sts) (S k, d) = send_all now sts (k, d').
Proof. intros E. cbn [send_all]. unfold send, mbind, script_bind. by rewrite E. Qed.

Lemma send_add t x c (f : row -> row) k d : d !! t = Some x -> known (tb_columns x) (col_name c) = false ->
  (forall r, r ∈ tb_rows x -> forall last, backfill now [] c r last = ok (f r, last)) ->
  send_all now [AddColumns t [c]] (S k, d) =
    ((k, <[t := MkTable (tb_columns x ++ [c]) (tb_indexes x) (f <$> tb_rows x) (tb_next x)]> d), ok tt).
Proof.
  intros Hx Hk Hf. erewrite send_next; [reflexivity|]. erewrite (perform_add _ _ (MkSession d 0)); [|exact Hx|reflexivity].
  rewrite (add_column_spec _ _ _ _ _ f) by done. done.
Qed.

Lemma file_002 x d k : holds 1 x d ->
  exists d', send_all now [AddColumns "job_runs" [with_default "failures" TBoolean (ELit (VInt 0))]] (S k, d) = ((k, d'), ok tt) /\
    holds 2 (upgrade 2 x) d' /\ d' !! "schema_migrations" = d !! "schema_migrations".
Proof.
  intros [H1 H2 H3 H4]. rewrite (send_add _ _ _ (fun r => r ++ [("failures", VInt 0)]) _ _ H3) by done.
  eexists. split; [reflexivity|]. split; [split; simpl|]; by simplify_map_eq.
Qed.

Lemma file_003 x d k : holds 2 x d ->
  exists d', send_all now [AddColumns "pipeline_runs" [with_default "trace_id" (TVarchar 32) (ELit (VText ""))]] (S k, d) = ((k, d'), ok tt) /\
    holds 3 (upgrade 3 x) d' /\ d' !! "schema_migrations" = d !! "schema_migrations".
Proof.
  intros [H1 H2 H3 H4]. rewrite (send_add _ _ _ (fun r => r ++ [("trace_id", VText "")]) _ _ H1) by done.
  eexists. split; [reflexivity|]. split; [split; simpl|]; by simplify_map_eq.
Qed.

Lemma send_create t cols ixs sts k d : check_columns [] cols = ok tt -> check_indexes cols [] ixs = ok tt ->
  absent_or d t (MkTable cols ixs [] 1) ->
  send_all now (CreateTable true t cols ixs :: sts) (S k, d) = send_all now sts (k, <[t := MkTable cols ixs [] 1]> d).
Proof.
  intros Hc Hi [Hd|Hd].
  - eapply send_next. unfold perform. cbn [execute ss_db]. rewrite Hd. unfold lift, mbind, ev_bind. rewrite Hc, Hi. reflexivity.
  - rewrite (insert_id d t) by done. eapply send_next. unfold perform. cbn [execute ss_db]. by rewrite Hd.
Qed.

Lemma absent_or_insert d t t' x y : absent_or d t x -> t <> t' -> absent_or (<[t' := y]> d) t x.
Proof. unfold absent_or. intros H Hne. by rewrite !lookup_insert_ne. Qed.

(** The first file creates the tables that are not there yet. *)
Lemma file_001 d k : partly_new d ->
  exists sts d', parse_file migration_001 = Some sts /\ send_all now sts (S (S (S (S k))), d) = ((k, d'), ok tt) /\
    holds 1 new_contents d' /\ d' !! "schema_migrations" = d !! "schema_migrations".
Proof.
  intros [H1 H2 H3 H4]. eexists. rewrite migration_001_sql. eexists. split; [reflexivity|].
  do 4 (rewrite send_create by (reflexivity || by repeat apply absent_or_insert)).
  split; [reflexivity|]. split; [split; simpl|]; by simplify_map_eq.
Qed.

Lemma active_none r last : run_shape 3 r ->
  eval now [] (r ++ [("request_key", VNull)]) (ECase (EIn (ECol "status") [ELit (VText "queued"); ELit (VText "running")]) (ECol "request_key") (ELit VNull)) last
  = ok (VNull, last).
Proof.
  intros [Hr [s Hs]].
  assert (Hk : field "request_key" r = None) by (apply field_None; rewrite Hr; apply (bool_decide_unpack _); vm_compute; exact I).
  cbn. unfold mbind, ev_bind, lift. rewrite !field_app, Hs, Hk. cbn. by repeat case_bool_decide.
Qed.

Lemma send_index t x ix sts k d : d !! t = Some x -> check_index (tb_columns x) (tb_indexes x) ix = ok tt ->
  ix_unique ix && duplicates ix (tb_rows x) = false ->
  send_all now (CreateIndex t ix :: sts) (S k, d) =
    send_all now sts (k, <[t := MkTable (tb_columns x) (tb_indexes x ++ [ix]) (tb_rows x) (tb_next x)]> d).
Proof. intros Hx Hc Hd. eapply send_next. by rewrite (perform_index _ _ (MkSession d 0) t x). Qed.

Lemma add_request_key x next last : Forall (run_shape 3) x ->
  add_columns now [] (MkTable (runs_columns 3) (runs_indexes 3) x next) (drop 10 (runs_columns 4)) last =
  ok (MkTable (runs_columns 4) (runs_indexes 3) ((fun r => r ++ [("request_key", VNull); ("active_request_key", VNull)]) <$> x) next, last).
Proof.
  rewrite Forall_forall. intros Hx. cbn [runs_columns drop app Nat.leb].
  rewrite (add_column_spec _ _ _ _ _ (fun r => r ++ [("request_key", VNull)])) by done.
  rewrite (add_column_spec _ _ _ _ _ (fun r => r ++ [("active_request_key", VNull)])); [|done|].
  - cbn [tb_rows add_columns]. rewrite <- list_fmap_compose. unfold mret, ev_ret. do 3 f_equal. apply list_fmap_ext. intros i r _. simpl. by rewrite <- app_assoc.
  - cbn [tb_rows]. intros r' (r & -> & Hr)%list_elem_of_fmap l. unfold backfill. cbn [generated_column col_generated].
    unfold mbind, ev_bind. by rewrite active_none by auto.
Qed.

Lemma file_004 x d k : holds 3 x d -> Forall (run_shape 3) (co_runs x) ->
  exists sts d', parse_file migration_004 = Some sts /\ send_all now sts (S (S (S k)), d) = ((k, d'), ok tt) /\
    holds 4 (upgrade 4 x) d' /\ d' !! "schema_migrations" = d !! "schema_migrations".
Proof.
  intros [H1 H2 H3 H4] Hx. eexists. rewrite migration_004_sql. eexists. split; [reflexivity|].
  erewrite send_next by (by rewrite (perform_add _ _ (MkSession d 0) _ _ H1 _ _ eq_refl), add_request_key).
  cbn [ss_db]. rewrite (send_index _ _ _ _ _ _ (lookup_insert_eq _ _ _)) by done.
  rewrite (send_index _ _ _ _ _ _ (lookup_insert_eq _ _ _)); [|done|].
  - split; [reflexivity|]. split; [split; simpl|]; by simplify_map_eq.
  - cbn [ix_unique andb tb_rows]. apply duplicates_none. intros r' (r & -> & Hr)%list_elem_of_fmap.
    rewrite Forall_forall in Hx. destruct (Hx r Hr) as [Hn _].
    assert (Hk : field "active_request_key" r = None) by (apply field_None; rewrite Hn; apply (bool_decide_unpack _); vm_compute; exact I).
    unfold key_of. cbn. rewrite !field_app, Hk. cbn. by destruct (field "pipeline" r) as [[]|].
Qed.

(** *** From version to version *)

Lemma upgrade_shape v x : 1 <= v < 4 -> Forall (run_shape v) (co_runs x) -> Forall (run_shape (S v)) (co_runs (upgrade (S v) x)).
Proof.
  intros Hv Hx. assert (v = 1 \/ v = 2 \/ v = 3) as [->|[->| ->]] by lia; simpl; [done| |].
  all: apply Forall_fmap; eapply Forall_impl; [exact Hx|]; intros r [Hr [s Hs]]; split;
    [simpl; by rewrite fmap_app, Hr|exists s; simpl; by rewrite field_app, Hs].
Qed.

Lemma logged_next v d d' f l next : migration_files !! v = Some f -> l.*1 = take v migration_files.*1 ->
  d' = <["schema_migrations" := log_table (l ++ [(f.1, now)]) (next + 1)]> d -> logged (S v) d'.
Proof.
  intros Hf El ->. exists (l ++ [(f.1, now)]), (next + 1)%Z. split; [|apply lookup_insert_eq].
  rewrite fmap_app, El. symmetry. apply take_S_r. by rewrite list_lookup_fmap, Hf.
Qed.

Lemma holds_log v x d t : holds v x d -> holds v x (<["schema_migrations" := t]> d).
Proof. intros [H1 H2 H3 H4]. split; by rewrite lookup_insert_ne. Qed.

(** The statements of the file after version [v]. *)
Lemma file_statements v x d k : v < 4 -> at_version v x d ->
  exists f sts d', migration_files !! v = Some f /\ parse_file f.2 = Some sts /\
    send_all now sts (file_cost (S v) - 2 + k, d) = ((k, d'), ok tt) /\
    holds (S v) (upgrade (S v) x) d' /\ d' !! "schema_migrations" = d !! "schema_migrations" /\
    Forall (run_shape (S v)) (co_runs (upgrade (S v) x)).
Proof.
  intros Hv Hx. assert (v = 0 \/ v = 1 \/ v = 2 \/ v = 3) as [->|[->|[->| ->]]] by lia; simpl in Hx.
  - destruct Hx as (-> & Hp & _). destruct (file_001 d k Hp) as (sts & d' & Hs & Hd & Hh & Hl). eexists _, sts, d'. split; [done|].
    split_and!; try done.
  - destruct Hx as (Hh & Hl & Hs). destruct (file_002 x d k Hh) as (d' & Hd & Hh' & Hl'). eexists _, _, d'. split; [done|].
    split; [apply migration_002_sql|]. split_and!; try done.
  - destruct Hx as (Hh & Hl & Hs). destruct (file_003 x d k Hh) as (d' & Hd & Hh' & Hl'). eexists _, _, d'. split; [done|].
    split; [apply migration_003_sql|]. split_and!; try done. by apply (upgrade_shape 2); [lia|].
  - destruct Hx as (Hh & Hl & Hs). destruct (file_004 x d k Hh Hs) as (sts & d' & Hp & Hd & Hh' & Hl'). eexists _, sts, d'. split; [done|].
    split_and!; try done. by apply (upgrade_shape 3); [lia|].
Qed.

Lemma apply_next v x d k : v < 4 -> at_version v x d -> logged v d ->
  exists f d', migration_files !! v = Some f /\ apply_file now f (file_cost (S v) + k, d) = ((k, d'), ok tt) /\
    at_version (S v) (upgrade (S v) x) d' /\ logged (S v) d'.
Proof.
  intros Hv Hx (l & next & El & Hl). destruct (file_statements v x d (S k) Hv Hx) as (f & sts & d' & Hf & Hs & Hd & Hh & Hl' & Hr).
  exists f. eexists. split; [done|].
  assert (Hlog : logged (S v) (<["schema_migrations" := log_table (l ++ [(f.1, now)]) (next + 1)]> d')) by by eapply logged_next.
  split; [|split; [|exact Hlog]].
  - assert (file_cost (S v) + k = S (file_cost (S v) - 2 + S k)) as -> by (unfold file_cost; repeat case_match; lia).
    eapply apply_file_run; [by eapply list_elem_of_lookup_2|done|by eapply not_logged|done|exact Hd|by rewrite Hl'].
  - split; [by apply holds_log|]. by split.
Qed.

Lemma skip_applied v d k i : logged v d -> v <= 4 -> i <= v ->
  apply_files now migration_files (i + k, d) = apply_files now (drop i migration_files) (k, d).
Proof.
  intros (l & next & El & Hl) Hv. revert k. induction i as [|i IH]; intros k Hi; [done|].
  rewrite (Nat.add_succ_comm i k), IH by lia.
  destruct (migration_files !! i) as [f|] eqn:Hf; [|apply lookup_ge_None in Hf; simpl in Hf; lia].
  rewrite (drop_S _ f) by done. cbn [apply_files]. unfold mbind, script_bind.
  by rewrite (apply_file_skip f l next k d (list_elem_of_lookup_2 _ _ _ Hf) Hl (is_logged v l f i El Hf ltac:(lia))).
Qed.

Definition rest_cost (v : nat) : nat := sum_list (file_cost <$> seq (S v) (4 - v)).

Lemma apply_rest v x d k : v <= 4 -> at_version v x d -> logged v d ->
  exists d', apply_files now (drop v migration_files) (rest_cost v + k, d) = ((k, d'), ok tt) /\ at_version 4 (upgrade_from v x) d'.
Proof.
  intros Hv. remember (4 - v) as m eqn:Em. revert v x d Em Hv. induction m as [|m IH]; intros v x d Em Hv Hx Hl.
  - assert (v = 4) as -> by lia. by exists d.
  - destruct (apply_next v x d (rest_cost (S v) + k) ltac:(lia) Hx Hl) as (f & d1 & Hf & Hd1 & Hx1 & Hl1).
    destruct (IH (S v) _ d1 ltac:(lia) ltac:(lia) Hx1 Hl1) as (d' & Hd' & Hx').
    exists d'. unfold upgrade_from, upgrade_upto, rest_cost in *. replace (4 - v) with (S (4 - S v)) by lia. split; [|exact Hx'].
    rewrite (drop_S _ f) by done. cbn [apply_files seq fmap list_fmap sum_list sum_list_with foldr]. unfold mbind, script_bind.
    rewrite <- Nat.add_assoc. cbn in Hd1, Hd' |- *. rewrite Hd1. exact Hd'.
Qed.

(** The table of the log is there, or made. *)
Lemma create_log v x d k : at_version v x d ->
  exists d', client now create_schema_migrations (S k, d) = ((k, d'), ok []) /\ at_version v x d' /\ logged v d' /\ (0 < v -> d' = d).
Proof.
  intros Hx. rewrite (client_one _ _ _ create_log_sql). unfold send, perform. cbn [execute ss_db].
  destruct v as [|v].
  - destruct Hx as (-> & Hp & [Hl|Hl]).
    + exists (<["schema_migrations" := log_table [] 1]> d). rewrite Hl. split; [done|].
      assert (logged 0 (<["schema_migrations" := log_table [] 1]> d)) by (exists [], 1%Z; by rewrite lookup_insert_eq).
      split; [|split; [done|lia]]. split; [done|]. split; [|by right]. destruct Hp. by split; apply absent_or_insert.
    + exists d. destruct Hl as (l & next & El & Hl). rewrite Hl. assert (logged 0 d) by by exists l, next.
      split; [done|]. split; [|by split]. split; [done|]. split; [done|by right].
  - exists d. destruct Hx as (Hh & (l & next & El & Hl) & Hr). rewrite Hl. split; [done|]. split; [|split; [by exists l, next|done]].
    split; [done|]. split; [by exists l, next|done].
Qed.

(** Run to its end, the script makes the schema of the program: the rows that the
    tables hold are kept and get the defaults of the new columns. *)
Lemma apply_migrations_complete v x d k : v <= 4 -> at_version v x d ->
  exists k' d', apply_migrations now (18 + k, d) = ((k', d'), ok tt) /\ at_version 4 (upgrade_from v x) d' /\ (v = 4 -> d' = d).
Proof.
  intros Hv Hx. destruct (create_log v x d (17 + k) Hx) as (d1 & Hd1 & Hx1 & Hl1 & He).
  set (j := 17 + k - v - rest_cost v).
  destruct (apply_rest v x d1 j Hv Hx1 Hl1) as (d' & Hd' & Hx'). exists j, d'. split; [|split; [exact Hx'|]].
  - unfold apply_migrations, mbind, script_bind. change (18 + k) with (S (17 + k)). rewrite Hd1. unfold ok at 1. cbv beta iota.
    replace (17 + k) with (v + (rest_cost v + j)); [by rewrite (skip_applied v)|].
    assert (v + rest_cost v <= 17); [|lia].
    assert (v = 0 \/ v = 1 \/ v = 2 \/ v = 3 \/ v = 4) as [->|[->|[->|[->| ->]]]] by lia; vm_compute; lia.
  - intros ->. rewrite <- He by lia. cbn in Hd'. by injection Hd' as <-.
Qed.

Lemma first_column v : 1 <= v <= 3 ->
  exists f sts c cols, migration_files !! v = Some f /\
    parse_file f.2 = Some (AddColumns (added_column v).1 (c :: cols) :: sts) /\ col_name c = (added_column v).2.
Proof.
  intros Hv. assert (v = 1 \/ v = 2 \/ v = 3) as [->|[->| ->]] by lia.
  - eexists _, _, _, _. split; [done|]. by split; [apply migration_002_sql|].
  - eexists _, _, _, _. split; [done|]. by split; [apply migration_003_sql|].
  - eexists _, _, _, _. split; [done|]. by split; [apply migration_004_sql|].
Qed.

Lemma send_known t x c cols sts k d : d !! t = Some x -> known (tb_columns x) (col_name c) = true ->
  send_all now (AddColumns t (c :: cols) :: sts) (S k, d) = ((k, d), err err1060).
Proof.
  intros Hx Hk. cbn [send_all]. unfold send, mbind, script_bind.
  erewrite (perform_add _ _ (MkSession d 0)); [|exact Hx|reflexivity]. cbn [add_columns]. by rewrite Hk.
Qed.

Lemma apply_file_fails f k sts l next d s e : f ∈ migration_files -> d !! "schema_migrations" = Some (log_table l next) ->
  (forall x, x ∈ l -> ci x.1 <> ci f.1) -> parse_file f.2 = Some sts -> send_all now sts (k, d) = (s, err e) ->
  apply_file now f (S k, d) = (s, err e).
Proof.
  intros Hf Hd Hnew Hp Hs. destruct (log_stmts_sql f Hf) as (Hc & Hr & Hw). unfold apply_file, mbind, script_bind.
  rewrite (client_one _ _ _ Hc), (send_count _ l next) by done. unfold ok at 1. cbv beta iota.
  rewrite list_filter_none by (by apply Forall_forall). rewrite bool_decide_eq_true_2 by done. unfold parsed. rewrite Hp. unfold ok at 1. cbv beta iota.
  by rewrite Hs.
Qed.

(** Once a file has begun to add its columns and is not recorded, the script stops
    at it, each time. *)
Lemma apply_migrations_stuck v d k : half_applied v d ->
  exists k', apply_migrations now (18 + k, d) = ((k', d), err err1060).
Proof.
  intros (Hv & Hl & t & Ht & Hc). exists (17 + k - v - 2).
  assert (Hd1 : client now create_schema_migrations (18 + k, d) = ((17 + k, d), ok [])).
  { rewrite (client_one _ _ _ create_log_sql). unfold send, perform. cbn [execute ss_db]. by destruct Hl as (l & next & _ & ->). }
  unfold apply_migrations, mbind, script_bind. rewrite Hd1. unfold ok at 1. cbv beta iota.
  replace (17 + k) with (v + S (S (17 + k - v - 2))) by lia. rewrite (skip_applied v) by (done || lia).
  destruct Hl as (l & next & El & Hl). replace (v + S (S (17 + k - v - 2)) - v - 2) with (17 + k - v - 2) by lia.
  destruct (first_column v Hv) as (f & sts & c & cols & Hf & Hs & Hc').
  rewrite (drop_S _ f) by done. cbn [apply_files]. unfold mbind at 1, script_bind at 1.
  rewrite <- Hc' in Hc.
  by rewrite (apply_file_fails f _ _ l next _ _ err1060 (list_elem_of_lookup_2 _ _ _ Hf) Hl (not_logged v l f El Hf) Hs
    (send_known _ _ _ _ _ _ _ Ht Hc)).
Qed.

(** *** When the script is killed *)

Lemma send_all_killed sts b d d' : send_all now (take b sts) (b, d) = ((0, d'), ok tt) -> b < length sts ->
  send_all now sts (b, d) = ((0, d'), err killed).
Proof.
  generalize b at 2 4 as k. revert d sts. induction b as [|b IH]; intros d [|st sts] k E Hb; simpl in Hb; try lia.
  - cbn in E. injection E as -> <-. reflexivity.
  - cbn [take send_all] in E |- *. unfold mbind, script_bind in *. destruct (send now st (k, d)) as [[k1 d1] [rs|e]]; [|done].
    apply IH; [exact E|lia].
Qed.

(** Where the file after version [v] is when [b] of its statements were made. *)
Definition reached_in_file (v : nat) (x : contents) (d : database) : Prop := (at_version v x d /\ logged v d) \/ half_applied v d.

Lemma absent_or_new d t x : absent_or (<[t := x]> d) t x.
Proof. right. apply lookup_insert_eq. Qed.

Lemma file_001_killed b d : b <= 4 -> partly_new d ->
  exists sts d', parse_file migration_001 = Some sts /\ length sts = 4 /\ send_all now (take b sts) (b, d) = ((0, d'), ok tt) /\
    partly_new d' /\ d' !! "schema_migrations" = d !! "schema_migrations".
Proof.
  intros Hb [H1 H2 H3 H4]. destruct b as [|[|[|[|[|]]]]]; [..|lia]; eexists; rewrite migration_001_sql;
  eexists; (split; [reflexivity|]); (split; [reflexivity|]); cbn [take].
  all: rewrite ?send_create by (reflexivity || by repeat apply absent_or_insert).
  all: split; [reflexivity|]; split; [split|by rewrite ?lookup_insert_ne].
  all: repeat first [assumption|apply absent_or_new|apply absent_or_insert; [|done]].
Qed.

Lemma file_004_killed b x d : b <= 3 -> holds 3 x d -> Forall (run_shape 3) (co_runs x) ->
  exists sts d', parse_file migration_004 = Some sts /\ length sts = 3 /\ send_all now (take b sts) (b, d) = ((0, d'), ok tt) /\
    (d' = d \/ exists t, d' !! "pipeline_runs" = Some t /\ known (tb_columns t) "request_key" = true) /\
    d' !! "schema_migrations" = d !! "schema_migrations".
Proof.
  intros Hb Hh Hx. pose proof (ho_runs _ _ _ Hh) as H1. destruct (decide (b = 3)) as [->|Hne].
  { destruct (file_004 x d 0 Hh Hx) as (sts & d' & Hp & Hd & Hh' & El). exists sts, d'. split; [done|].
    rewrite migration_004_sql in Hp. injection Hp as <-. split_and!; try done. right. eexists. split; [apply Hh'|reflexivity]. }
  destruct b as [|[|[|]]]; [| | |lia]; eexists; rewrite migration_004_sql.
  - exists d. split_and!; try done. by left.
  - eexists. split; [reflexivity|]. split; [reflexivity|]. cbn [take].
    erewrite send_next by (by rewrite (perform_add _ _ (MkSession d 0) _ _ H1 _ _ eq_refl), add_request_key).
    cbn [ss_db]. split; [reflexivity|]. split; [right|by simplify_map_eq]. eexists. by rewrite lookup_insert_eq.
  - eexists. split; [reflexivity|]. split; [reflexivity|]. cbn [take].
    erewrite send_next by (by rewrite (perform_add _ _ (MkSession d 0) _ _ H1 _ _ eq_refl), add_request_key).
    cbn [ss_db]. rewrite (send_index _ _ _ _ _ _ (lookup_insert_eq _ _ _)) by done.
    split; [reflexivity|]. split; [right|by simplify_map_eq]. eexists. by rewrite lookup_insert_eq.
Qed.

Lemma logged_same v d d' : logged v d -> d' !! "schema_migrations" = d !! "schema_migrations" -> logged v d'.
Proof. intros (l & next & El & Hl) E. exists l, next. split; [exact El|]. by rewrite E. Qed.

Lemma half_next v d d' x : logged v d -> d' !! "schema_migrations" = d !! "schema_migrations" -> 1 <= v <= 3 ->
  d' !! (added_column v).1 = Some x -> known (tb_columns x) (added_column v).2 = true -> half_applied v d'.
Proof. intros Hl E Hv Hx Hk. split; [done|]. split; [by eapply logged_same|eauto]. Qed.

Lemma statements_killed v x d b : v < 4 -> at_version v x d -> logged v d -> b <= file_cost (S v) - 2 ->
  exists f sts d', migration_files !! v = Some f /\ parse_file f.2 = Some sts /\ length sts = file_cost (S v) - 2 /\
    send_all now (take b sts) (b, d) = ((0, d'), ok tt) /\ reached_in_file v x d' /\
    d' !! "schema_migrations" = d !! "schema_migrations".
Proof.
  intros Hv Hx Hl Hb. assert (v = 0 \/ v = 1 \/ v = 2 \/ v = 3) as [->|[->|[->| ->]]] by lia; simpl in Hb.
  - destruct Hx as (-> & Hp & _). destruct (file_001_killed b d Hb Hp) as (sts & d' & Hs & Hn & Hd & Hp' & El).
    eexists _, sts, d'. split; [reflexivity|]. split; [exact Hs|]. split; [exact Hn|]. split; [exact Hd|]. split; [|exact El].
    left. apply (logged_same _ _ _ Hl) in El. by split; [split; [|split; [|right]]|].
  - eexists. destruct b as [|[|]]; [| |lia].
    + eexists _, d. split; [done|]. split; [apply migration_002_sql|]. split_and!; try done. by left.
    + destruct Hx as (Hh & _ & _). destruct (file_002 x d 0 Hh) as (d' & Hd & Hh' & El). eexists _, d'.
      split; [done|]. split; [apply migration_002_sql|]. split_and!; try done. right. by eapply half_next; [done|done|lia|apply Hh'|].
  - eexists. destruct b as [|[|]]; [| |lia].
    + eexists _, d. split; [done|]. split; [apply migration_003_sql|]. split_and!; try done. by left.
    + destruct Hx as (Hh & _ & _). destruct (file_003 x d 0 Hh) as (d' & Hd & Hh' & El). eexists _, d'.
      split; [done|]. split; [apply migration_003_sql|]. split_and!; try done. right. by eapply half_next; [done|done|lia|apply Hh'|].
  - destruct Hx as (Hh & Hlog & Hs). destruct (file_004_killed b x d ltac:(lia) Hh Hs) as (sts & d' & Hp & Hn & Hd & [Hr|(t & Ht & Hk)] & El).
    + eexists _, sts, d'. split; [reflexivity|]. split; [exact Hp|]. split; [exact Hn|]. split; [exact Hd|]. split; [|exact El].
      left. rewrite Hr. split; [split; [exact Hh|split; [exact Hlog|exact Hs]]|exact Hl].
    + eexists _, sts, d'. split; [reflexivity|]. split; [exact Hp|]. split; [exact Hn|]. split; [exact Hd|]. split; [|exact El].
      right. eapply half_next; [exact Hl|exact El|lia|exact Ht|exact Hk].
Qed.

Lemma file_killed v x d b : v < 4 -> at_version v x d -> logged v d -> b < file_cost (S v) ->
  exists f d', migration_files !! v = Some f /\ apply_file now f (b, d) = ((0, d'), err killed) /\ reached_in_file v x d'.
Proof.
  intros Hv Hx Hl Hb. destruct b as [|b].
  - destruct (migration_files !! v) as [f|] eqn:Hf; [|apply lookup_ge_None in Hf; simpl in Hf; lia].
    exists f, d. split; [done|]. split; [|by left].
    unfold apply_file, mbind, script_bind. by rewrite (client_one _ _ _ (proj1 (log_stmts_sql f (list_elem_of_lookup_2 _ _ _ Hf)))).
  - destruct (statements_killed v x d b Hv Hx Hl) as (f & sts & d' & Hf & Hp & Hn & Hs & Hr & El).
    { unfold file_cost in *; repeat case_match; lia. }
    exists f, d'. split; [done|]. split; [|done]. destruct Hl as (l & next & Et & Hl).
    destruct (decide (b < length sts)) as [Hlt|Hge].
    + eapply (apply_file_fails f b sts); [by eapply list_elem_of_lookup_2|done|by eapply not_logged|done|by apply send_all_killed].
    + rewrite take_ge in Hs by lia. destruct (log_stmts_sql f (list_elem_of_lookup_2 _ _ _ Hf)) as (Hc & Hr' & Hw).
      unfold apply_file, mbind, script_bind. rewrite (client_one _ _ _ Hc), (send_count _ l next) by done. unfold ok at 1. cbv beta iota.
      rewrite list_filter_none by (apply Forall_forall; by eapply not_logged). rewrite bool_decide_eq_true_2 by done.
      unfold parsed. rewrite Hp. unfold ok at 1. cbv beta iota. rewrite Hs. unfold ok at 1. cbv beta iota.
      by rewrite (client_one _ _ _ Hr').
Qed.

Lemma upgrade_upto_trans v v1 v2 x : v <= v1 <= v2 -> upgrade_upto v1 v2 (upgrade_upto v v1 x) = upgrade_upto v v2 x.
Proof.
  intros H. unfold upgrade_upto. rewrite <- foldl_app. f_equal. replace (S v1) with (S v + (v1 - v)) by lia.
  rewrite <- seq_app. f_equal. lia.
Qed.

(** The versions and the half-applied files that a killed script leaves. *)
Definition reached (v : nat) (x : contents) (d : database) : Prop :=
  exists v', v <= v' <= 4 /\ (at_version v' (upgrade_upto v v' x) d \/ half_applied v' d).

Lemma reached_here v x d : v <= 4 -> at_version v x d -> reached v x d.
Proof. intros Hv Hx. exists v. split; [lia|]. left. unfold upgrade_upto. by rewrite Nat.sub_diag. Qed.

Lemma reached_next v x d : v < 4 -> reached (S v) (upgrade (S v) x) d -> reached v x d.
Proof.
  intros Hv (v' & Hv' & H). exists v'. split; [lia|]. destruct H as [H|H]; [left|by right].
  rewrite <- (upgrade_upto_trans v (S v)) by lia. unfold upgrade_upto at 2. by replace (S v - v) with 1 by lia.
Qed.

Lemma rest_killed v x d b : v <= 4 -> at_version v x d -> logged v d -> reached v x (apply_files now (drop v migration_files) (b, d)).1.2.
Proof.
  intros Hv. remember (4 - v) as m eqn:Em. revert v x d b Em Hv. induction m as [|m IH]; intros v x d b Em Hv Hx Hl.
  - assert (v = 4) as -> by lia. by apply reached_here.
  - destruct (decide (b < file_cost (S v))) as [Hb|Hb].
    + destruct (file_killed v x d b ltac:(lia) Hx Hl Hb) as (f & d' & Hf & Hd & Hr).
      rewrite (drop_S _ f) by done. cbn [apply_files]. unfold mbind, script_bind. rewrite Hd.
      destruct Hr as [[Hr _]|Hr]; [by apply reached_here|]. exists v. split; [lia|by right].
    + destruct (apply_next v x d (b - file_cost (S v)) ltac:(lia) Hx Hl) as (f & d' & Hf & Hd & Hx' & Hl').
      replace (file_cost (S v) + (b - file_cost (S v))) with b in Hd by lia.
      rewrite (drop_S _ f) by done. cbn [apply_files]. unfold mbind, script_bind. rewrite Hd. unfold ok at 1. cbv beta iota.
      apply reached_next; [lia|]. apply IH; [lia|lia|done|done].
Qed.

Lemma skip_killed v d b : logged v d -> v <= 4 -> b < v -> (apply_files now migration_files (b, d)).1.2 = d.
Proof.
  intros Hl Hv Hb. rewrite <- (Nat.add_0_r b). rewrite (skip_applied v) by (done || lia).
  destruct (migration_files !! b) as [f|] eqn:Hf; [|apply lookup_ge_None in Hf; simpl in Hf; lia].
  rewrite (drop_S _ f) by done. cbn [apply_files]. unfold apply_file, mbind, script_bind.
  by rewrite (client_one _ _ _ (proj1 (log_stmts_sql f (list_elem_of_lookup_2 _ _ _ Hf)))).
Qed.

Lemma apply_migrations_killed v x d b : v <= 4 -> at_version v x d -> reached v x (apply_migrations now (b, d)).1.2.
Proof.
  intros Hv Hx. unfold apply_migrations, mbind, script_bind. destruct b as [|b].
  - rewrite (client_one _ _ _ create_log_sql). by apply reached_here.
  - destruct (create_log v x d b Hx) as (d1 & Hd1 & Hx1 & Hl1 & _). rewrite Hd1. unfold ok at 1. cbv beta iota.
    destruct (decide (b < v)) as [Hb|Hb]; [rewrite (skip_killed v) by done; by apply reached_here|].
    replace b with (v + (b - v)) by lia. rewrite (skip_applied v) by done. by apply rest_killed.
Qed.
End upgrades.

Lemma at_version_empty : at_version 0 new_contents ∅.
Proof. split; [done|]. split; [split; by left|by left]. Qed.

(** C22: the migrations. From any version of the schema, with any rows, the script
    that is not killed makes the schema the program works on: it keeps the rows,
    gives them the defaults of the new columns, and changes nothing if there is
    nothing left to apply. Killed after any statement and run again, it either
    completes in the same way, or, if a file after the first had begun to add its
    columns and was not recorded, fails each time at the column that is there
    already, and changes nothing. *)
Theorem apply_migrations_spec `{Collation} v x d b now : NoDup (ci <$> migration_files.*1) -> v <= 4 -> at_version v x d ->
  (18 <= b -> exists k d', apply_migrations now (b, d) = ((k, d'), ok tt) /\ at_version 4 (upgrade_from v x) d' /\ (v = 4 -> d' = d)) /\
  (let d1 := (apply_migrations now (b, d)).1.2 in
   forall now' b', 18 <= b' ->
     (exists k d', apply_migrations now' (b', d1) = ((k, d'), ok tt) /\ at_version 4 (upgrade_from v x) d') \/
     (exists v' k, v <= v' /\ half_applied v' d1 /\ apply_migrations now' (b', d1) = ((k, d1), err err1060))).
Proof.
  intros Hnames Hv Hx. split.
  - intros Hb. replace b with (18 + (b - 18)) by lia. by apply apply_migrations_complete.
  - intros d1 now' b' Hb. replace b' with (18 + (b' - 18)) by lia.
    destruct (apply_migrations_killed now Hnames v x d b Hv Hx) as (v' & Hv' & [Hx'|Hh]).
    + left. destruct (apply_migrations_complete now' Hnames v' _ _ (b' - 18) ltac:(lia) Hx') as (k & d' & E & Hd & _).
      exists k, d'. split; [exact E|]. unfold upgrade_from in *. by rewrite upgrade_upto_trans in Hd by lia.
    + right. destruct (apply_migrations_stuck now' Hnames v' _ (b' - 18) Hh) as [k E]. exists v', k. split; [lia|]. by split.
Qed.

(** On a new database, the statements after which the script cannot be run again. *)
Example new_database_stuck : let _ := binary_collation in
  filter (fun b => (apply_migrations 0 (18, (apply_migrations 0 (b, ∅)).1.2)).2 <> ok tt) (seq 0 20) = [9; 12; 15; 16; 17].
Proof. vm_compute. reflexivity. Qed.

(** *** Witness: a database of the first version with a run in it *)

Definition demo_run_v1 : row :=
  [("id", VInt 1); ("pipeline", VText "demo"); ("run_no", VInt 1); ("start_time", VTime 7); ("end_time", VNull);
   ("status", VText "success"); ("git_hash", VNull); ("git_branch", VText "main"); ("git_repo", VNull)].
Definition demo_v1 : database :=
  let _ := binary_collation in
  ss_db (run_sql 0 [VTime 7] "INSERT INTO pipeline_runs (pipeline, run_no, start_time, status, git_branch) VALUES ('demo', 1, ?, 'success', 'main')"
    (MkSession (apply_migrations 0 (7, ∅)).1.2 0)).1.
Definition demo_contents : contents := MkContents [demo_run_v1] [] [] [] (2, 1, 1, 1)%Z.

Lemma demo_at_version : at_version 1 demo_contents demo_v1.
Proof.
  split; [|split].
  - split; vm_compute; reflexivity.
  - exists [("001_report_store_schema.sql", 0%Z)], 2%Z. split; vm_compute; reflexivity.
  - constructor; [|constructor]. split; [vm_compute; reflexivity|]. by exists "success".
Qed.

Lemma binary_names : NoDup (ci (Collation:=binary_collation) <$> migration_files.*1).
Proof. apply (bool_decide_unpack _). vm_compute. exact I. Qed.

(** Killed after it has added the column of the second file, the script does not
    get past that file. *)
Lemma apply_migrations_spec_witness :
  let d1 := (apply_migrations (C:=binary_collation) 0 (4, demo_v1)).1.2 in
  (exists k d', apply_migrations (C:=binary_collation) 0 (18, demo_v1) = ((k, d'), ok tt) /\
     at_version 4 (upgrade_from 1 demo_contents) d') /\
  (apply_migrations (C:=binary_collation) 0 (18, d1)).2 = err err1060.
Proof.
  split; [|vm_compute; reflexivity].
  destruct (proj1 (apply_migrations_spec (H:=binary_collation) 1 demo_contents demo_v1 18 0 binary_names ltac:(lia) demo_at_version) ltac:(lia))
    as (k & d' & E & Hx & _). exists k, d'. split; [exact E|exact Hx].
Defined.
