(* ===== verification/SqlStore.v ===== *)
(** * The store over its SQL

    The methods of internal/store as they are: the text they send, its arguments,
    the order of the statements of a transaction, and what they make of the rows
    that come back, run on the database that the migrations make. Theorem: as long
    as the texts fit their columns, they do what Store says, on tables that hold
    the same rows. Plain reads of a transaction see the rows of its first read, as
    MySQL's default isolation level has it; no transaction of the program reads a
    table it has written. *)

From stdpp Require Import sorting.
From S2P Require Import Prelude GoStrings Store Sql Schema.

(** ** The statements *)

(** [CreateRunOrGetActive], twice. *)
Definition select_active_sql : string :=
  "SELECT run_no, status
			 FROM pipeline_runs
			 WHERE pipeline = ? AND request_key = ? AND status IN (?, ?)
			 ORDER BY run_no ASC
			 LIMIT 1".

(** [createRunTx]. *)
Definition insert_sequence_sql : string :=
  "INSERT INTO pipeline_sequences (pipeline, next_run_no)
		 VALUES (?, LAST_INSERT_ID(2))
		 ON DUPLICATE KEY UPDATE next_run_no = LAST_INSERT_ID(next_run_no + 1)".

(** [createRunTx]. *)
Definition select_last_sql : string :=
  "SELECT LAST_INSERT_ID()".

(** [createRunTx]. *)
Definition insert_run_sql : string :=
  "INSERT INTO pipeline_runs (pipeline, run_no, start_time, status, git_hash, git_branch, git_repo, trace_id, request_key)
		 VALUES (?, ?, ?, ?, NULLIF(?,''), NULLIF(?,''), NULLIF(?,''), NULLIF(?,''), NULLIF(?,''))".

(** [UpdateRun]. *)
Definition end_run_sql : string :=
  "UPDATE pipeline_runs SET end_time = ?, status = ? WHERE pipeline = ? AND run_no = ?".

(** [UpdateRun]. *)
Definition update_run_sql : string :=
  "UPDATE pipeline_runs SET status = ? WHERE pipeline = ? AND run_no = ?".

(** [CreateStage]. *)
Definition insert_stage_sql : string :=
  "INSERT INTO stage_runs (pipeline, run_no, stage, start_time, status)
		 VALUES (?, ?, ?, ?, ?)".

(** [UpdateStage]. *)
Definition end_stage_sql : string :=
  "UPDATE stage_runs SET end_time = ?, status = ? WHERE pipeline = ? AND run_no = ? AND stage = ?".

(** [UpdateStage]. *)
Definition update_stage_sql : string :=
  "UPDATE stage_runs SET status = ? WHERE pipeline = ? AND run_no = ? AND stage = ?".

(** [CreateJob]. *)
Definition insert_job_sql : string :=
  "INSERT INTO job_runs (pipeline, run_no, stage, job, start_time, status, failures)
		 VALUES (?, ?, ?, ?, ?, ?, ?)".

(** [UpdateJob]. *)
Definition end_job_sql : string :=
  "UPDATE job_runs SET end_time = ?, status = ? WHERE pipeline = ? AND run_no = ? AND stage = ? AND job = ?".

(** [UpdateJob]. *)
Definition update_job_sql : string :=
  "UPDATE job_runs SET status = ? WHERE pipeline = ? AND run_no = ? AND stage = ? AND job = ?".

(** The columns of every query of runs. *)
Definition runColumns : string :=
  "pipeline, run_no, start_time, end_time, status,
	COALESCE(git_hash,''), COALESCE(git_branch,''), COALESCE(git_repo,''),
	COALESCE(trace_id,''), COALESCE(request_key,'')".

(** [GetStagesForRun]. *)
Definition select_stage_sql : string :=
  "SELECT pipeline, run_no, stage, start_time, end_time, status
			 FROM stage_runs WHERE pipeline = ? AND run_no = ? AND stage = ? ORDER BY stage".

Definition select_stages_sql : string :=
  "SELECT pipeline, run_no, stage, start_time, end_time, status
			 FROM stage_runs WHERE pipeline = ? AND run_no = ? ORDER BY stage".

(** [GetRun] and [GetRunsByPipeline]. *)
Definition select_run_sql : string :=
  "SELECT " +++ runColumns +++ " FROM pipeline_runs WHERE pipeline = ? AND run_no = ?".
Definition select_runs_sql : string :=
  "SELECT " +++ runColumns +++ " FROM pipeline_runs WHERE pipeline = ? ORDER BY run_no ASC".

(** [GetJobsForRun] builds its query and the arguments together. *)
Definition select_jobs_sql (stageFilter jobFilter : string) : string :=
  "SELECT pipeline, run_no, stage, job, start_time, end_time, status, COALESCE(failures, false) FROM job_runs WHERE pipeline = ? AND run_no = ?"
  +++ (if decide (stageFilter <> "") then " AND stage = ?" else "")
  +++ (if decide (jobFilter <> "") then " AND job = ?" else "")
  +++ " ORDER BY stage, job".
Definition select_jobs_args (pipeline : string) (runNo : Z) (stageFilter jobFilter : string) : list value :=
  [VText pipeline; VInt runNo] ++ (if decide (stageFilter <> "") then [VText stageFilter] else [])
  ++ (if decide (jobFilter <> "") then [VText jobFilter] else []).

(** ** Scanning *)

(** A destination that does not fit a column. *)
Definition scan_error : goerr := ErrIs "sql: Scan error".
Definition scan_time (v : value) : option (option Z) := match v with VNull => Some None | VTime t => Some (Some t) | _ => None end.

Definition scan_run (l : list value) : res Run :=
  match l with
  | [VText p; VInt n; VTime t; e; VText st; VText h; VText b; VText rp; VText tr; VText k] =>
    match scan_time e with Some e => ok (MkRun p n t e st h b rp tr k) | None => err scan_error end
  | _ => err scan_error
  end.
Definition scan_stage (l : list value) : res StageRow :=
  match l with
  | [VText p; VInt n; VText s; VTime t; e; VText st] =>
    match scan_time e with Some e => ok (MkStageRow p n s t e st) | None => err scan_error end
  | _ => err scan_error
  end.
Definition scan_job (l : list value) : res JobRow :=
  match l with
  | [VText p; VInt n; VText s; VText j; VTime t; e; VText st; VInt f] =>
    match scan_time e with Some e => ok (MkJobRow p n s j t e st (negb (f =? 0)%Z)) | None => err scan_error end
  | _ => err scan_error
  end.
Definition scan_active (l : list value) : res (Z * string) :=
  match l with [VInt n; VText st] => ok (n, st) | _ => err scan_error end.

(** [rows.Next()] until there are no more, or a row cannot be scanned. *)
Fixpoint scan_all {A} (scan : list value -> res A) (rows : list (list value)) : res (list A) :=
  match rows with [] => ok [] | r :: rows' => x ← scan r; l ← scan_all scan rows'; ok (x :: l) end.
(** [QueryRowContext(...).Scan] *)
Definition scan_one {A} (scan : list value -> res A) (rows : list (list value)) : res A :=
  match rows with [] => err ErrNoRows | r :: _ => scan r end.

(** ** The methods *)

Section methods.
Context {C : Collation} (now : Z).

(** A statement outside a transaction. *)
Definition ExecContext (sql : string) (args : list value) (d : database) : database * res unit :=
  let '(s, r) := run_sql now args sql (MkSession d 0) in (ss_db s, _ ← r; ok tt).
Definition QueryContext (sql : string) (args : list value) (d : database) : res (list (list value)) :=
  (run_sql now args sql (MkSession d 0)).2.

Definition createRunTx_sql (inp : CreateRunInput) (s : session) : session * res Z :=
  match run_sql now [VText (In_Pipeline inp)] insert_sequence_sql s with
  | (s1, inr e) => (s1, err e)
  | (s1, inl _) =>
    match run_sql now [] select_last_sql s1 with
    | (s2, inr e) => (s2, err e)
    | (s2, inl [[VInt nextRunNo]]) =>
      if decide (nextRunNo <= 1)%Z then (s2, err (ErrNew "failed to allocate run_no for pipeline %q" [In_Pipeline inp])) else
      let runNo := (nextRunNo - 1)%Z in
      match run_sql now [VText (In_Pipeline inp); VInt runNo; VTime (In_StartTime inp); VText (In_Status inp); VText (In_GitHash inp);
                         VText (In_GitBranch inp); VText (In_GitRepo inp); VText (In_TraceID inp); VText (In_RequestKey inp)]
              insert_run_sql s2 with
      | (s3, inr e) => (s3, err e)
      | (s3, inl _) => (s3, ok runNo)
      end
    | (s2, inl _) => (s2, err scan_error)
    end
  end.

(** An error rolls the transaction back. *)
Definition CreateRun_sql (inp : CreateRunInput) (d : database) : database * res Z :=
  match createRunTx_sql inp (MkSession d 0) with
  | (s, inl runNo) => (ss_db s, ok runNo)
  | (_, inr e) => (d, err e)
  end.

(** The plain reads of the transaction read [view]. *)
Definition CreateRunOrGetActive_sql (inp : CreateRunInput) (view d : database) : database * res CreateRunResult :=
  let select := rows ← QueryContext select_active_sql [VText (In_Pipeline inp); VText (In_RequestKey inp); VText StatusQueued; VText StatusRunning] view;
                scan_one scan_active rows in
  let create :=
    match createRunTx_sql inp (MkSession d 0) with
    | (s, inl n) => (ss_db s, ok (MkRunResult n false (In_Status inp)))
    | (s, inr e) =>
      if decide (In_RequestKey inp <> "" /\ isDuplicateKeyError e = true) then
        match select with
        | inl (n, status) => (ss_db s, ok (MkRunResult n true status))
        | inr e' => (d, err e')
        end
      else (d, err e)
    end in
  if decide (In_RequestKey inp <> "") then
    match select with
    | inl (n, status) => (d, ok (MkRunResult n true status))
    | inr e => if errors_Is e "sql: no rows in result set" then create else (d, err e)
    end
  else create.

Definition UpdateRun_sql (pipeline : string) (runNo : Z) (endt : option Z) (status : string) (d : database) : database * res unit :=
  match endt with
  | Some t => ExecContext end_run_sql [VTime t; VText status; VText pipeline; VInt runNo] d
  | None => ExecContext update_run_sql [VText status; VText pipeline; VInt runNo] d
  end.

Definition CreateStage_sql (pipeline : string) (runNo : Z) (stage : string) (start : Z) (status : string) (d : database) : database * res unit :=
  ExecContext insert_stage_sql [VText pipeline; VInt runNo; VText stage; VTime start; VText status] d.

Definition UpdateStage_sql (pipeline : string) (runNo : Z) (stage : string) (endt : option Z) (status : string) (d : database) : database * res unit :=
  match endt with
  | Some t => ExecContext end_stage_sql [VTime t; VText status; VText pipeline; VInt runNo; VText stage] d
  | None => ExecContext update_stage_sql [VText status; VText pipeline; VInt runNo; VText stage] d
  end.

Definition CreateJob_sql (pipeline : string) (runNo : Z) (stage job : string) (start : Z) (status : string) (failures : bool) (d : database)
    : database * res unit :=
  ExecContext insert_job_sql [VText pipeline; VInt runNo; VText stage; VText job; VTime start; VText status; truth failures] d.

Definition UpdateJob_sql (pipeline : string) (runNo : Z) (stage job : string) (endt : option Z) (status : string) (d : database) : database * res unit :=
  match endt with
  | Some t => ExecContext end_job_sql [VTime t; VText status; VText pipeline; VInt runNo; VText stage; VText job] d
  | None => ExecContext update_job_sql [VText status; VText pipeline; VInt runNo; VText stage; VText job] d
  end.

Definition GetRun_sql (pipeline : string) (runNo : Z) (d : database) : res Run :=
  match (rows ← QueryContext select_run_sql [VText pipeline; VInt runNo] d; scan_one scan_run rows) with
  | inl r => ok r
  | inr e => if errors_Is e "sql: no rows in result set" then err ErrNotFound else err e
  end.

Definition GetRunsByPipeline_sql (pipeline : string) (d : database) : res (list Run) :=
  rows ← QueryContext select_runs_sql [VText pipeline] d; scan_all scan_run rows.

Definition GetStagesForRun_sql (pipeline : string) (runNo : Z) (stageFilter : string) (d : database) : res (list StageRow) :=
  rows ← (if decide (stageFilter <> "") then QueryContext select_stage_sql [VText pipeline; VInt runNo; VText stageFilter] d
          else QueryContext select_stages_sql [VText pipeline; VInt runNo] d);
  scan_all scan_stage rows.

Definition GetJobsForRun_sql (pipeline : string) (runNo : Z) (stageFilter jobFilter : string) (d : database) : res (list JobRow) :=
  rows ← QueryContext (select_jobs_sql stageFilter jobFilter) (select_jobs_args pipeline runNo stageFilter jobFilter) d;
  scan_all scan_job rows.
End methods.

(** ** Tables that hold the rows of a map *)

Lemma filter_fmap {A B} (f : A -> B) (P : B -> Prop) `{HP : forall x, Decision (P x)} (l : list A) : filter P (f <$> l) = f <$> filter (fun x => P (f x)) l.
Proof. induction l as [|x l IH]; [done|]. rewrite fmap_cons, !filter_cons, IH. by case_decide. Qed.

(** How the records of a table are stored: [V] under the unique key [K], after a
    generated id. [en_other] tells of two records with different keys whether
    another unique index takes them for one. *)
Class Entity {C : Collation} (V K : Type) `{Countable K} := {
  en_table : string;
  en_columns : list column;
  en_indexes : list index;
  en_row : Z -> V -> row;
  en_key : V -> K;
  en_other : V -> V -> bool;
  en_auto : existsb col_auto en_columns = true;
  en_collides i v j w :
    collides en_indexes (en_row i v) (en_row j w) = ((i =? j)%Z || bool_decide (en_key v = en_key w) || en_other v w);
}.

Section entity.
Context {C : Collation} {V K : Type} `{Countable K} {E : Entity V K} (now : Z).
Abbreviation stored := (list (Z * V)).
Definition enc (x : Z * V) : row := en_row x.1 x.2.

(** The rows in the order of the table. *)
Record rows_of (l : stored) (next : Z) (m : gmap K V) : Prop := {
  ro_key : NoDup ((fun x => en_key x.2) <$> l);
  ro_id : NoDup l.*1;
  ro_next : forall x, x ∈ l -> (x.1 < next)%Z;
  ro_map : forall k v, m !! k = Some v <-> exists x, x ∈ l /\ en_key x.2 = k /\ x.2 = v;
}.
Definition the_rows (l : stored) (next : Z) : table := MkTable en_columns en_indexes (enc <$> l) next.
Definition holds_map (D : database) (m : gmap K V) : Prop := exists l next, D !! en_table = Some (the_rows l next) /\ rows_of l next m.

Lemma rows_key l next m k v : rows_of l next m -> m !! k = Some v -> en_key v = k.
Proof. intros R (x & _ & <- & <-)%(ro_map _ _ _ R). done. Qed.

Lemma rows_perm l next m : rows_of l next m -> (map_to_list m).*2 ≡ₚ l.*2.
Proof.
  intros R. apply NoDup_Permutation.
  - apply (NoDup_fmap_1 en_key). replace (en_key <$> (map_to_list m).*2) with ((map_to_list m).*1); [apply NoDup_fst_map_to_list|].
    rewrite <- list_fmap_compose. apply list_fmap_ext. intros i [k v] Hi. simpl. symmetry.
    eapply rows_key; [done|]. apply elem_of_map_to_list. by eapply list_elem_of_lookup_2.
  - apply (NoDup_fmap_1 en_key). rewrite <- list_fmap_compose. apply R.
  - intros v. rewrite elem_of_values, list_elem_of_fmap. split.
    + intros [k (x & Hx & _ & <-)%(ro_map _ _ _ R)]. by exists x.
    + intros (x & -> & Hx). exists (en_key x.2). apply (ro_map _ _ _ R). by exists x.
Qed.

Lemma rows_new l next m v : rows_of l next m -> m !! en_key v = None -> rows_of (l ++ [(next, v)]) (next + 1) (<[en_key v := v]> m).
Proof.
  intros R Hv. assert (Hk : forall x, x ∈ l -> en_key x.2 <> en_key v).
  { intros x Hx Ek. rewrite <- Ek in Hv. rewrite (proj2 (ro_map _ _ _ R _ x.2)) in Hv; [done|by exists x]. }
  split.
  - rewrite fmap_app. apply NoDup_app. split_and!; [apply R| |apply NoDup_singleton].
    intros k (x & -> & Hx)%list_elem_of_fmap Hin%list_elem_of_singleton. by apply (Hk x Hx).
  - rewrite fmap_app. apply NoDup_app. split_and!; [apply R| |apply NoDup_singleton].
    intros i (x & -> & Hx)%list_elem_of_fmap Hin%list_elem_of_singleton. pose proof (ro_next _ _ _ R x Hx). simpl in Hin. lia.
  - intros x [Hx| ->%list_elem_of_singleton]%elem_of_app; [|simpl; lia]. pose proof (ro_next _ _ _ R x Hx). lia.
  - intros k w. rewrite lookup_insert_Some, (ro_map _ _ _ R). setoid_rewrite elem_of_app. setoid_rewrite list_elem_of_singleton.
    split.
    + intros [[<- <-]|(Hne & x & Hx & Hkx & Hwx)]; [exists (next, v)|exists x]; auto.
    + intros (x & [Hx| ->] & <- & <-); [right|by left]. split; [by apply not_eq_sym, Hk|eauto].
Qed.

(** What a write does to the other tables. *)
Definition only_this (D D' : database) : Prop := forall t, t <> en_table -> D' !! t = D !! t.

Lemma only_this_insert D t : only_this D (<[en_table := t]> D).
Proof. intros t' Hne. by rewrite lookup_insert_ne. Qed.

(** *** Insert *)

Section insert.
Context (args : list value) (cols : list string) (vals : list expr) (v : V) (last : Z).

(** The statement stores [v]. *)
Definition makes : Prop :=
  forallb (known en_columns) cols = true /\ length cols = length vals /\
  forall l next, exists last', new_row now args (the_rows l next) cols vals last = ok (en_row next v, last').
Definition conflict (m : gmap K V) : Prop := is_Some (m !! en_key v) \/ exists k w, m !! k = Some w /\ en_other v w = true.

Lemma stored_collides l next m : rows_of l next m ->
  (exists r, r ∈ enc <$> l /\ collides en_indexes (en_row next v) r = true) <-> conflict m.
Proof.
  intros R. split.
  - intros (r & (x & -> & Hx)%list_elem_of_fmap & Hc). unfold enc in Hc. rewrite en_collides in Hc.
    rewrite (proj2 (Z.eqb_neq _ _)) in Hc by (pose proof (ro_next _ _ _ R x Hx); lia). simpl in Hc.
    assert (Hm : m !! en_key x.2 = Some x.2) by (apply (ro_map _ _ _ R); eauto).
    apply orb_true_iff in Hc as [Hc%bool_decide_eq_true|Hc]; [left; rewrite Hc; by eexists|right; eauto].
  - intros [[w (x & Hx & Hk & Hw)%(ro_map _ _ _ R)]|(k & w & (x & Hx & Hk & Hw)%(ro_map _ _ _ R) & Ho)].
    all: exists (enc x); (split; [by apply list_elem_of_fmap_2|]); unfold enc; rewrite en_collides; apply orb_true_iff.
    + left. apply orb_true_iff. right. by apply bool_decide_eq_true.
    + right. by rewrite Hw.
Qed.

Lemma insert_entity D m : holds_map D m -> makes ->
  (conflict m -> perform now args (Insert en_table cols vals None) (MkSession D last) = (MkSession D last, err err1062)) /\
  (~ conflict m -> exists D' last', perform now args (Insert en_table cols vals None) (MkSession D last) = (MkSession D' last', ok []) /\
     holds_map D' (<[en_key v := v]> m) /\ only_this D D').
Proof.
  intros (l & next & Hl & R) (Hk & Hn & Hr). destruct (Hr l next) as [last' Hr'].
  assert (Hrow : stored_row now args (the_rows l next) cols vals last last' (en_row next v)) by by split.
  split; intros Hc; erewrite (perform_insert _ _ (MkSession D last)) by (done || reflexivity).
  - by rewrite (insert_duplicate _ _ _ _ _ _ _ _ _ Hrow) by (done || by apply (stored_collides _ _ _ R)).
  - rewrite (insert_fresh _ _ _ _ _ _ _ _ _ Hrow).
    2:{ intros r Hr0. apply not_true_iff_false. intros E1. apply Hc, (stored_collides _ _ _ R). eauto. }
    eexists _, _. split; [reflexivity|]. split; [|apply only_this_insert].
    exists (l ++ [(next, v)]), (next + 1)%Z. split.
    + simpl. rewrite lookup_insert_eq. unfold the_rows, with_rows. simpl. by rewrite fmap_app.
    + apply rows_new; [done|]. apply eq_None_not_Some. intros Hs. apply Hc. by left.
Qed.
End insert.

(** *** Update of the row with a key *)

Section update.
Context (args : list value) (sets : list (string * expr)) (w : expr) (k : K) (f : V -> V) (good : V -> Prop).
Context (Hw : forall x, decides now args enc w (fun x => en_key x.2 = k) x).
Context (Hf : forall x last, good x.2 -> en_key x.2 = k -> assign now args en_columns sets (enc x) last = ok (enc (x.1, f x.2), last)).
Context (Hkey : forall v, en_key (f v) = en_key v).

Lemma update_skip t before l rest last : (forall x, x ∈ l -> en_key x.2 <> k) ->
  update_rows now args t sets w before ((enc <$> l) ++ rest) last = update_rows now args t sets w (before ++ (enc <$> l)) rest last.
Proof.
  revert before. induction l as [|x l IH]; intros before Hl; [by rewrite app_nil_r|].
  destruct (Hw x last) as (v & Ev & Hv). rewrite bool_decide_eq_false_2 in Hv by (apply Hl; left).
  rewrite fmap_cons. cbn [app update_rows]. unfold mbind, ev_bind. rewrite Ev. unfold ok at 1. cbv beta iota. rewrite Hv.
  rewrite IH by (intros y Hy; apply Hl; by right). by rewrite <- app_assoc.
Qed.

Lemma update_at next l1 x l2 last : good x.2 -> en_key x.2 = k -> (forall y, y ∈ l1 ++ l2 -> en_key y.2 <> k) ->
  update_rows now args (the_rows (l1 ++ x :: l2) next) sets w [] (enc <$> (l1 ++ x :: l2)) last =
    if existsb (collides en_indexes (enc (x.1, f x.2))) (enc <$> (l1 ++ l2)) then err err1062
    else ok (enc <$> (l1 ++ (x.1, f x.2) :: l2), last).
Proof.
  intros Hgood Hx Hl. rewrite fmap_app, update_skip by (intros y Hy; apply Hl, elem_of_app; by left).
  destruct (Hw x last) as (v & Ev & Hv). rewrite bool_decide_eq_true_2 in Hv by done.
  rewrite fmap_cons. cbn [app update_rows]. unfold mbind, ev_bind. rewrite Ev. unfold ok at 1. cbv beta iota. rewrite Hv.
  change (tb_columns (the_rows (l1 ++ x :: l2) next)) with en_columns. rewrite Hf by done. unfold ok at 1. cbv beta iota.
  rewrite !fmap_app. change (tb_indexes (the_rows (l1 ++ x :: l2) next)) with en_indexes.
  destruct (existsb _ _); [done|]. rewrite <- (app_nil_r (enc <$> l2)) at 1.
  rewrite update_skip by (intros y Hy; apply Hl, elem_of_app; by right). cbn [update_rows]. by rewrite fmap_cons, <- app_assoc.
Qed.

Definition taken (m : gmap K V) (v : V) : Prop := exists k' v', m !! k' = Some v' /\ k' <> k /\ en_other (f v) v' = true.

Lemma rows_at l next m v : rows_of l next m -> m !! k = Some v ->
  exists l1 i l2, l = l1 ++ (i, v) :: l2 /\ en_key v = k /\ (forall y, y ∈ l1 ++ l2 -> en_key y.2 <> k /\ y.1 <> i).
Proof.
  intros R ([i v'] & (l1 & l2 & ->)%list_elem_of_split & Hk & Ev)%(ro_map _ _ _ R). simpl in Ev, Hk. subst v'.
  exists l1, i, l2. split; [done|]. split; [done|]. intros y Hy.
  assert (P : l1 ++ (i, v) :: l2 ≡ₚ (i, v) :: (l1 ++ l2)) by by rewrite Permutation_middle.
  pose proof (ro_key _ _ _ R) as R1. pose proof (ro_id _ _ _ R) as R2. rewrite P in R1, R2.
  change (NoDup (en_key v :: ((fun x => en_key x.2) <$> l1 ++ l2))) in R1. change (NoDup (i :: (l1 ++ l2).*1)) in R2.
  apply NoDup_cons in R1 as [R1 _], R2 as [R2 _]. split.
  - intros E1. apply R1, list_elem_of_fmap. exists y. split; [simpl; congruence|done].
  - intros <-. by apply R2, (list_elem_of_fmap_2 fst).
Qed.

Lemma rows_replace l1 i v l2 next m : rows_of (l1 ++ (i, v) :: l2) next m -> en_key v = k ->
  rows_of (l1 ++ (i, f v) :: l2) next (<[k := f v]> m).
Proof.
  intros R Hk. destruct R as [R1 R2 R3 R4]. split.
  - rewrite fmap_app, fmap_cons in R1 |- *. simpl in *. by rewrite Hkey.
  - rewrite fmap_app, fmap_cons in R2 |- *. done.
  - intros x Hx. rewrite elem_of_app, elem_of_cons in Hx. destruct Hx as [Hx|[->|Hx]].
    + apply R3, elem_of_app. by left.
    + apply (R3 (i, v)), elem_of_app. right. left.
    + apply R3, elem_of_app. right. by right.
  - intros k' u. rewrite lookup_insert_Some, R4. setoid_rewrite elem_of_app. setoid_rewrite elem_of_cons. split.
    + intros [[<- <-]|(Hne & x & Hx & Hkx & Hux)].
      * exists (i, f v). simpl. rewrite Hkey. auto.
      * exists x. destruct Hx as [Hx|[->|Hx]]; [by auto|simpl in Hkx; congruence|by auto].
    + intros (x & [Hx|[->|Hx]] & <- & <-); simpl.
      2:{ left. by rewrite Hkey. }
      all: right; (split; [|exists x; auto]).
      all: intros Ek; pose proof R1 as R1'; rewrite fmap_app, fmap_cons in R1'; apply NoDup_app in R1' as (_ & Hd & [Hn _]%NoDup_cons).
      * apply (Hd (en_key x.2)); [by apply list_elem_of_fmap; exists x|]. simpl. rewrite Hk, Ek. left.
      * apply Hn. simpl. rewrite Hk, Ek. apply list_elem_of_fmap. by exists x.
Qed.

Lemma collides_others (l1 l2 : stored) i v : en_key v = k -> (forall y, y ∈ l1 ++ l2 -> en_key y.2 <> k /\ y.1 <> i) ->
  existsb (collides en_indexes (enc (i, f v))) (enc <$> (l1 ++ l2)) = existsb (fun y => en_other (f v) y.2) (l1 ++ l2).
Proof.
  intros Hk Hne. generalize (l1 ++ l2) as l, Hne. clear l1 l2 Hne. induction l as [|y l IH]; intros Hne; [done|].
  rewrite fmap_cons. cbn [existsb]. rewrite IH by (intros z Hz; apply Hne; by right). f_equal.
  destruct (Hne y (list_elem_of_here _ _)) as [H1 H2]. unfold enc. rewrite en_collides. simpl.
  rewrite (proj2 (Z.eqb_neq _ _)) by done. by rewrite bool_decide_eq_false_2 by (rewrite Hkey, Hk; by apply not_eq_sym).
Qed.

Lemma taken_others l1 i v l2 next m : rows_of (l1 ++ (i, v) :: l2) next m -> en_key v = k ->
  (forall y, y ∈ l1 ++ l2 -> en_key y.2 <> k) -> existsb (fun y => en_other (f v) y.2) (l1 ++ l2) = true <-> taken m v.
Proof.
  intros R Hk Hne. rewrite existsb_exists. split.
  - intros (y & Hy%list_elem_of_In & Ho). exists (en_key y.2), y.2. split; [|split; [by apply Hne|exact Ho]].
    apply (ro_map _ _ _ R). exists y. split; [|done]. rewrite elem_of_app in Hy. apply elem_of_app. destruct Hy; [by left|by right; right].
  - intros (k' & v' & (x & Hx & <- & <-)%(ro_map _ _ _ R) & Hne' & Ho). exists x. split; [|done].
    apply list_elem_of_In, elem_of_app. rewrite elem_of_app, elem_of_cons in Hx. destruct Hx as [Hx|[->|Hx]]; [by left| |by right].
    by destruct Hne'.
Qed.

Lemma update_entity D m last : holds_map D m -> (forall k v, m !! k = Some v -> good v) ->
  let r := perform now args (Update en_table sets w) (MkSession D last) in
  (m !! k = None -> exists D', r = (MkSession D' last, ok []) /\ holds_map D' m /\ only_this D D') /\
  (forall v, m !! k = Some v -> taken m v -> r = (MkSession D last, err err1062)) /\
  (forall v, m !! k = Some v -> ~ taken m v ->
     exists D', r = (MkSession D' last, ok []) /\ holds_map D' (<[k := f v]> m) /\ only_this D D').
Proof.
  intros (l & next & Hl & R) Hgood r. unfold r. erewrite (perform_update _ _ (MkSession D last)) by (done || reflexivity). cbn [ss_last ss_db].
  assert (Hup : forall v, m !! k = Some v -> exists l1 i l2, l = l1 ++ (i, v) :: l2 /\ en_key v = k /\
    (existsb (fun y => en_other (f v) y.2) (l1 ++ l2) = true <-> taken m v) /\
    update_rows now args (the_rows l next) sets w [] (tb_rows (the_rows l next)) last =
      if existsb (fun y => en_other (f v) y.2) (l1 ++ l2) then err err1062 else ok (enc <$> (l1 ++ (i, f v) :: l2), last)).
  { intros v Hv. destruct (rows_at _ _ _ _ R Hv) as (l1 & i & l2 & -> & Hk & Hne). exists l1, i, l2. split; [done|]. split; [done|]. split.
    - apply (taken_others l1 i v l2 next m R Hk). intros y Hy. by apply Hne.
    - change (tb_rows (the_rows (l1 ++ (i, v) :: l2) next)) with (enc <$> (l1 ++ (i, v) :: l2)).
      rewrite update_at by (done || (by eapply Hgood) || intros y Hy; by apply Hne). simpl fst. simpl snd. by rewrite (collides_others l1 l2 i v). }
  split_and!.
  - intros Hm. rewrite <- (app_nil_r (tb_rows (the_rows l next))). unfold the_rows at 2. cbn [tb_rows]. rewrite update_skip.
    2:{ intros x Hx Ek. rewrite (proj2 (ro_map _ _ _ R k x.2)) in Hm; [done|by exists x]. }
    eexists. split; [reflexivity|]. split; [|apply only_this_insert]. exists l, next. by rewrite lookup_insert_eq.
  - intros v Hv Ht. destruct (Hup v Hv) as (l1 & i & l2 & -> & Hk & Hb & ->). by rewrite (proj2 Hb Ht).
  - intros v Hv Ht. destruct (Hup v Hv) as (l1 & i & l2 & -> & Hk & Hb & ->).
    destruct (existsb _ _); [by destruct Ht; apply Hb|]. eexists. split; [reflexivity|]. split; [|apply only_this_insert].
    exists (l1 ++ (i, f v) :: l2), next. split; [by rewrite lookup_insert_eq|]. by apply rows_replace.
Qed.
End update.

(** *** Select *)

Section select.
Context (args : list value) (items : list expr) (w : expr) (order : list string) (limit : option nat).
Context (P : V -> Prop) `{HP : forall v, Decision (P v)} (R : V -> V -> Prop) `{HR : forall v v', Decision (R v v')} `{!Transitive R, !Total R}.
Context (g : V -> list value).
Context (Hw : forall x, decides now args enc w (fun x => P x.2) x).
Context (Hg : forall x last, evals now args (enc x) items last = ok (g x.2, last)).
Context (Ho : forall x y, row_le order (enc x) (enc y) -> R x.2 y.2).

Definition limited {A} (l : list A) : list A := match limit with Some n => take n l | None => l end.

Lemma limited_fmap {A B} (f : A -> B) (l : list A) : limited (f <$> l) = f <$> limited l.
Proof. unfold limited. destruct limit; [symmetry; apply fmap_take|done]. Qed.

Lemma select_entity D m last : holds_map D m ->
  (forall v v', v ∈ (map_to_list m).*2 -> v' ∈ (map_to_list m).*2 -> P v -> P v' -> R v v' -> R v' v -> v = v') ->
  perform now args (Select items en_table w order limit) (MkSession D last) =
    (MkSession D last, ok (g <$> limited (merge_sort R (filter P (map_to_list m).*2)))).
Proof.
  intros (l & next & Hl & HRows) Hanti. set (l1 := filter (fun x : Z * V => P x.2) l).
  pose proof (merge_sort_Permutation (row_le order) (enc <$> l1)) as Hperm.
  destruct (Permutation_map_inv _ _ Hperm) as (l2 & E2 & P2).
  assert (E3 : merge_sort R (filter P (map_to_list m).*2) = l2.*2).
  { assert (Hp : l2.*2 ≡ₚ filter P (map_to_list m).*2).
    { rewrite <- P2, (rows_perm _ _ _ HRows). unfold l1. by rewrite (filter_fmap snd). }
    apply (StronglySorted_unique_strong R).
    - intros v v' Hv Hv'. rewrite merge_sort_Permutation in Hv. rewrite Hp in Hv'.
      apply list_elem_of_filter in Hv as [? ?], Hv' as [? ?]. by apply Hanti.
    - apply (StronglySorted_merge_sort R).
    - apply Sorted_StronglySorted; [exact _|]. apply (Sorted_fmap (row_le order) R enc snd); [exact Ho|].
      pose proof (Sorted_merge_sort (row_le order) (enc <$> l1)) as Hs. rewrite E2 in Hs. exact Hs.
    - by rewrite merge_sort_Permutation, Hp. }
  assert (Hp : project now args items (limited (merge_sort (row_le order) (enc <$> l1))) last = ok (g <$> limited l2.*2, last)).
  { rewrite E2. change (map enc l2) with (enc <$> l2). rewrite limited_fmap.
    rewrite (project_spec now args enc items (fun x => g x.2)) by (intros; apply Hg). by rewrite limited_fmap, <- list_fmap_compose. }
  rewrite E3. exact (perform_select now args (MkSession D last) en_table _ Hl items w order limit _ _ last last
    (matching_spec now args enc w (fun x => P x.2) l last (fun x _ => Hw x)) Hp).
Qed.
End select.
End entity.

(** ** The tables of the program *)

Definition opt_text (o : option string) : value := match o with Some s => VText s | None => VNull end.
Definition opt_time (o : option Z) : value := match o with Some t => VTime t | None => VNull end.

Lemma bool_decide_ints (i j : Z) : bool_decide ([VInt i] = [VInt j]) = (i =? j)%Z.
Proof. destruct (Z.eqb_spec i j) as [->|Hne]; [by apply bool_decide_eq_true_2|apply bool_decide_eq_false_2; congruence]. Qed.

#[local] Ltac decides_keys := repeat case_bool_decide; simplify_eq/=; first [done|congruence].

Section tables.
Context {C : Collation}.

(** A row of a run, with [active] in the generated column. *)
Definition run_values_with (active : value) (id : Z) (r : run_row) : row :=
  [("id", VInt id); ("pipeline", VText (run_pipeline r)); ("run_no", VInt (run_run_no r)); ("start_time", VTime (run_start_time r));
   ("end_time", opt_time (run_end_time r)); ("status", VText (run_status r)); ("git_hash", opt_text (run_git_hash r));
   ("git_branch", opt_text (run_git_branch r)); ("git_repo", opt_text (run_git_repo r)); ("trace_id", VText (run_trace_id r));
   ("request_key", opt_text (run_request_key r));
   ("active_request_key", active)].
Definition run_values (id : Z) (r : run_row) : row :=
  run_values_with (opt_text (if is_active (run_status r) then run_request_key r else None)) id r.
Definition same_active (r r' : run_row) : bool :=
  bool_decide (ci (run_pipeline r) = ci (run_pipeline r')) &&
  match active_request_key r, active_request_key r' with Some a, Some b => bool_decide (a = b) | _, _ => false end.
Definition run_row_key (r : run_row) : run_key := (ci (run_pipeline r), run_run_no r).
Lemma runs_collide i v j w :
  collides (runs_indexes 4) (run_values i v) (run_values j w) = ((i =? j)%Z || bool_decide (run_row_key v = run_row_key w) || same_active v w).
Proof.
  unfold collides, same_key, same_active, active_request_key, run_row_key. cbn -[is_active]. rewrite bool_decide_ints, <- orb_assoc. f_equal.
  destruct (is_active (run_status v)), (is_active (run_status w)), (run_request_key v), (run_request_key w); cbn.
  all: decides_keys.
Qed.
#[export] Instance run_entity : Entity run_row run_key :=
  {| en_table := "pipeline_runs"; en_columns := runs_columns 4; en_indexes := runs_indexes 4; en_row := run_values;
     en_key := run_row_key; en_other := same_active; en_auto := eq_refl; en_collides := runs_collide |}.

Definition stage_values (id : Z) (r : StageRow) : row :=
  [("id", VInt id); ("pipeline", VText (Stage_Pipeline r)); ("run_no", VInt (Stage_RunNo r)); ("stage", VText (Stage_Stage r));
   ("start_time", VTime (Stage_StartTime r)); ("end_time", opt_time (Stage_EndTime r)); ("status", VText (Stage_Status r))].
Definition stage_row_key (r : StageRow) : stage_key := (ci (Stage_Pipeline r), Stage_RunNo r, ci (Stage_Stage r)).
Lemma stages_collide i v j w :
  collides stages_indexes (stage_values i v) (stage_values j w) = ((i =? j)%Z || bool_decide (stage_row_key v = stage_row_key w) || false).
Proof.
  unfold collides, same_key, stage_row_key. cbn. rewrite bool_decide_ints, <- orb_assoc. f_equal. decides_keys.
Qed.
#[export] Instance stage_entity : Entity StageRow stage_key :=
  {| en_table := "stage_runs"; en_columns := stages_columns; en_indexes := stages_indexes; en_row := stage_values;
     en_key := stage_row_key; en_other := fun _ _ => false; en_auto := eq_refl; en_collides := stages_collide |}.

Definition job_values (id : Z) (r : JobRow) : row :=
  [("id", VInt id); ("pipeline", VText (Job_Pipeline r)); ("run_no", VInt (Job_RunNo r)); ("stage", VText (JobRow_Stage r));
   ("job", VText (Job_Job r)); ("start_time", VTime (Job_StartTime r)); ("end_time", opt_time (Job_EndTime r));
   ("status", VText (Job_Status r)); ("failures", truth (JobRow_Failures r))].
Definition job_row_key (r : JobRow) : job_key := (ci (Job_Pipeline r), Job_RunNo r, ci (JobRow_Stage r), ci (Job_Job r)).
Lemma jobs_collide i v j w :
  collides jobs_indexes (job_values i v) (job_values j w) = ((i =? j)%Z || bool_decide (job_row_key v = job_row_key w) || false).
Proof.
  unfold collides, same_key, job_row_key. cbn. rewrite bool_decide_ints, <- orb_assoc. f_equal. decides_keys.
Qed.
#[export] Instance job_entity : Entity JobRow job_key :=
  {| en_table := "job_runs"; en_columns := jobs_columns 4; en_indexes := jobs_indexes; en_row := job_values;
     en_key := job_row_key; en_other := fun _ _ => false; en_auto := eq_refl; en_collides := jobs_collide |}.

(** The sequences have no id: a row is a pipeline and its next number. *)
Definition sequence_values (x : string * Z) : row := [("pipeline", VText x.1); ("next_run_no", VInt x.2)].
Record sequence_rows (l : list (string * Z)) (m : gmap string Z) : Prop := {
  sr_key : NoDup ((fun x => ci x.1) <$> l);
  sr_map : forall k n, m !! k = Some n <-> exists x, x ∈ l /\ ci x.1 = k /\ x.2 = n;
}.
Definition sequences_table (l : list (string * Z)) (next : Z) : table :=
  MkTable sequences_columns sequences_indexes (sequence_values <$> l) next.
Definition holds_sequences (D : database) (m : gmap string Z) : Prop :=
  exists l next, D !! "pipeline_sequences" = Some (sequences_table l next) /\ sequence_rows l m.

(** Text fits a column of [n] characters. *)
Definition fits (n : Z) (s : string) : Prop := (char_length s <=? n)%Z = true.
Definition is_int (z : Z) : Prop := ((- 2 ^ 31 <=? z)%Z && (z <=? 2 ^ 31 - 1)%Z) = true.

(** The tables of [D] hold the rows of [d]. *)
Record represents (D : database) (d : db) : Prop := {
  rp_runs : holds_map D (pipeline_runs d);
  rp_stages : holds_map D (stage_runs d);
  rp_jobs : holds_map D (job_runs d);
  rp_sequences : holds_sequences D (pipeline_sequences d);
  rp_keys : forall k r, pipeline_runs d !! k = Some r -> fits 64 (COALESCE_empty (run_request_key r));
  rp_numbers : forall k n, pipeline_sequences d !! k = Some n -> is_int n;
}.
End tables.

(** ** The methods do what Store says *)

Section refinement.
Context {C : Collation} (now : Z).

(** The same result, and tables that hold the same rows. *)
Definition agrees {A} (x : database * res A) (y : db * res A) : Prop := represents x.1 y.1 /\ x.2 = y.2.

Lemma holds_same {V K} `{Countable K} {E : Entity V K} (D D' : database) (m : gmap K V) :
  D' !! en_table = D !! en_table -> holds_map D m -> holds_map D' m.
Proof. intros E' (l & next & Hl & R). exists l, next. by rewrite E'. Qed.

Lemma sequences_same (D D' : database) m : D' !! "pipeline_sequences" = D !! "pipeline_sequences" -> holds_sequences D m -> holds_sequences D' m.
Proof. intros E' (l & next & Hl & R). exists l, next. by rewrite E'. Qed.

Lemma represents_runs D D' d m : represents D d -> holds_map D' m -> (forall k r, m !! k = Some r -> fits 64 (COALESCE_empty (run_request_key r))) -> only_this (E:=run_entity) D D' -> represents D' (set_runs d m).
Proof.
  intros [H1 H2 H3 H4 H5 H6] Hm Hk Ho. split; [done|by apply (holds_same D), H2; apply (Ho "stage_runs")|by apply (holds_same D), H3; apply (Ho "job_runs")| |done|done].
  by apply (sequences_same D), H4; apply Ho.
Qed.
Lemma represents_stages D D' d m : represents D d -> holds_map D' m -> only_this (E:=stage_entity) D D' -> represents D' (set_stages d m).
Proof.
  intros [H1 H2 H3 H4 H5 H6] Hm Ho. split; [by apply (holds_same D), H1; apply (Ho "pipeline_runs")|done|by apply (holds_same D), H3; apply (Ho "job_runs")| |done|done].
  by apply (sequences_same D), H4; apply Ho.
Qed.
Lemma represents_jobs D D' d m : represents D d -> holds_map D' m -> only_this (E:=job_entity) D D' -> represents D' (set_jobs d m).
Proof.
  intros [H1 H2 H3 H4 H5 H6] Hm Ho. split; [by apply (holds_same D), H1; apply (Ho "pipeline_runs")|by apply (holds_same D), H2; apply (Ho "stage_runs")|done| |done|done].
  by apply (sequences_same D), H4; apply Ho.
Qed.

Lemma run_parsed sql st args s : parse sql = Some st -> run_sql now args sql s = perform now args st s.
Proof. intros E. unfold run_sql. by rewrite E. Qed.

Lemma in_int z : is_int z -> in_range (- 2 ^ 31) (2 ^ 31 - 1) z = ok (VInt z).
Proof. unfold in_range, is_int. by intros ->. Qed.

(** Computes a row up to the checks of widths and ranges. *)
#[local] Ltac compute_row :=
  cbn -[in_range Z.leb char_length is_active]; unfold mbind, ev_bind, lift, mret, ev_ret, ok, err in *; cbn -[in_range Z.leb char_length is_active].

(** What a statement outside a transaction makes of the tables. *)
Lemma exec_parsed sql st args D s r : parse sql = Some st -> perform now args st (MkSession D 0) = (s, r) ->
  ExecContext now sql args D = (ss_db s, _ ← r; ok tt).
Proof. intros E E'. unfold ExecContext. by rewrite (run_parsed _ _ _ _ E), E'. Qed.

(** *** Stages *)

Definition insert_stage_columns : list string := ["pipeline"; "run_no"; "stage"; "start_time"; "status"].
Definition params (n : nat) : list expr := EParam <$> seq 0 n.
Lemma insert_stage_parsed : parse insert_stage_sql = Some (Insert "stage_runs" insert_stage_columns (params 5) None).
Proof. vm_compute. reflexivity. Qed.

Lemma no_stage_conflict (m : gmap stage_key StageRow) v : conflict v m <-> is_Some (m !! stage_row_key v).
Proof. split; [by intros [?|(k & w & _ & ?)]|by left]. Qed.

Lemma CreateStage_agrees D d pipeline runNo stage start status : represents D d ->
  fits 255 pipeline -> is_int runNo -> fits 256 stage -> fits 32 status ->
  agrees (CreateStage_sql now pipeline runNo stage start status D) (CreateStage d pipeline runNo stage start status).
Proof.
  intros HD F1 F2%in_int F3 F4. set (v := MkStageRow pipeline runNo stage start None status).
  assert (Hm : makes now [VText pipeline; VInt runNo; VText stage; VTime start; VText status] insert_stage_columns (params 5) v 0).
  { split; [done|]. split; [done|]. intros l next. eexists. unfold new_row, fits in *. compute_row. by rewrite F1, F2, F3, F4. }
  destruct (insert_entity now _ _ _ v 0 D _ (rp_stages _ _ HD) Hm) as [Hc Hn]. rewrite no_stage_conflict in Hc, Hn.
  unfold CreateStage_sql, CreateStage. change (ci pipeline, runNo, ci stage) with (stage_row_key v).
  destruct (stage_runs d !! stage_row_key v) as [w|] eqn:Ew.
  - by rewrite (exec_parsed _ _ _ _ _ _ insert_stage_parsed (Hc ltac:(eauto))).
  - destruct Hn as (D' & last' & E & Hm' & Ho); [by intros [? ?]|].
    rewrite (exec_parsed _ _ _ _ _ _ insert_stage_parsed E). split; [|done]. by apply (represents_stages D).
Qed.


Lemma alter_lookup {V K} `{Countable K} (f : V -> V) (k : K) (m : gmap K V) :
  alter f k m = match m !! k with Some v => <[k := f v]> m | None => m end.
Proof.
  apply map_eq. intros k'. rewrite lookup_alter. case_decide as Hk; [subst k'|].
  - by destruct (m !! k) eqn:Ev; simpl; rewrite ?lookup_insert_eq, ?Ev.
  - destruct (m !! k); [by rewrite lookup_insert_ne|done].
Qed.

(** An update whose key is that of the WHERE clause, of a table with no other key. *)
Lemma update_agrees {V K} `{Countable K} {E : Entity V K} sql args sets w (k : K) (f : V -> V) D (m : gmap K V) :
  parse sql = Some (Update en_table sets w) ->
  (forall x, decides now args enc w (fun x => en_key x.2 = k) x) ->
  (forall x last, en_key x.2 = k -> assign now args en_columns sets (enc x) last = ok (enc (x.1, f x.2), last)) ->
  (forall v, en_key (f v) = en_key v) -> (forall v w, en_other v w = false) -> holds_map D m ->
  exists D', ExecContext now sql args D = (D', ok tt) /\ holds_map D' (alter f k m) /\ only_this D D'.
Proof.
  intros Hp Hw Hf Hk Ho Hm. destruct (update_entity now args sets w k f (fun _ => True) Hw (fun x last _ => Hf x last) Hk D m 0 Hm (fun _ _ _ => I)) as (Hn & _ & Hs).
  destruct (m !! k) as [v|] eqn:Ev.
  - destruct (Hs v eq_refl) as (D' & E1 & Hm' & Ho'). { intros (k' & v' & _ & _ & Hb). by rewrite Ho in Hb. }
    exists D'. rewrite (exec_parsed _ _ _ _ _ _ Hp E1). split; [done|]. split; [|done].
    by rewrite alter_lookup, Ev.
  - destruct (Hn eq_refl) as (D' & E1 & Hm' & Ho'). exists D'. rewrite (exec_parsed _ _ _ _ _ _ Hp E1). split; [done|]. split; [|done].
    by rewrite alter_lookup, Ev.
Qed.

Lemma is_true_truth b : is_true (truth b) = b.
Proof. by destruct b. Qed.
Lemma both_truth a b : both (truth a) (truth b) = truth (a && b).
Proof. by destruct a, b. Qed.

Lemma eqb_decide (a b : Z) : (a =? b)%Z = bool_decide (a = b).
Proof. destruct (Z.eqb_spec a b); [by rewrite bool_decide_eq_true_2|by rewrite bool_decide_eq_false_2]. Qed.

(** Decides a conjunction of equations with arguments. *)
#[local] Ltac decides_where :=
  intros ? ?; eexists; split; [reflexivity|]; rewrite ?both_truth, is_true_truth, ?eqb_decide, <- ?bool_decide_and;
  apply bool_decide_ext; cbn; unfold run_row_key, stage_row_key, job_row_key;
  (split; [intros ?; destruct_and?; congruence|intros [=]; split_and?; congruence]).

(** The WHERE clauses, from the [i]th argument on, and the assignments before. *)
Definition column_is (c : string) (i : nat) : expr := EEq (ECol c) (EParam i).
Definition where_run (i : nat) : expr := EAnd (column_is "pipeline" i) (column_is "run_no" (S i)).
Definition where_stage (i : nat) : expr := EAnd (column_is "pipeline" i) (EAnd (column_is "run_no" (S i)) (column_is "stage" (S (S i)))).
Definition where_job (i : nat) : expr :=
  EAnd (column_is "pipeline" i) (EAnd (column_is "run_no" (S i)) (EAnd (column_is "stage" (S (S i))) (column_is "job" (S (S (S i)))))).
Definition ends : list (string * expr) := [("end_time", EParam 0); ("status", EParam 1)].
Definition marks : list (string * expr) := [("status", EParam 0)].

Lemma updates_parsed :
  parse end_run_sql = Some (Update "pipeline_runs" ends (where_run 2)) /\ parse update_run_sql = Some (Update "pipeline_runs" marks (where_run 1)) /\
  parse end_stage_sql = Some (Update "stage_runs" ends (where_stage 2)) /\ parse update_stage_sql = Some (Update "stage_runs" marks (where_stage 1)) /\
  parse end_job_sql = Some (Update "job_runs" ends (where_job 2)) /\ parse update_job_sql = Some (Update "job_runs" marks (where_job 1)).
Proof. split_and!; vm_compute; reflexivity. Qed.

Lemma UpdateStage_agrees D d pipeline runNo stage endt status : represents D d -> fits 32 status ->
  agrees (UpdateStage_sql now pipeline runNo stage endt status D) (UpdateStage d pipeline runNo stage endt status).
Proof.
  intros HD F. unfold UpdateStage_sql, UpdateStage.
  cut (exists D', match endt with
    | Some t => ExecContext now end_stage_sql [VTime t; VText status; VText pipeline; VInt runNo; VText stage] D
    | None => ExecContext now update_stage_sql [VText status; VText pipeline; VInt runNo; VText stage] D
    end = (D', ok tt) /\ holds_map D' (alter (update_stage_row endt status) (ci pipeline, runNo, ci stage) (stage_runs d)) /\
    only_this (E:=stage_entity) D D').
  { intros (D' & -> & Hm & Ho). split; [by apply (represents_stages D)|done]. }
  destruct endt as [t|]; (eapply (update_agrees (E:=stage_entity)); [apply updates_parsed| | |done|done|apply HD]).
  - decides_where.
  - intros x last _. unfold fits in F. compute_row. by rewrite F.
  - decides_where.
  - intros x last _. unfold fits in F. compute_row. by rewrite F.
Qed.

(** *** Jobs *)

Definition insert_job_columns : list string := ["pipeline"; "run_no"; "stage"; "job"; "start_time"; "status"; "failures"].
Lemma insert_job_parsed : parse insert_job_sql = Some (Insert "job_runs" insert_job_columns (params 7) None).
Proof. vm_compute. reflexivity. Qed.

Lemma no_job_conflict (m : gmap job_key JobRow) v : conflict v m <-> is_Some (m !! job_row_key v).
Proof. split; [by intros [?|(k & w & _ & ?)]|by left]. Qed.

Lemma CreateJob_agrees D d pipeline runNo stage job start status failures : represents D d ->
  fits 255 pipeline -> is_int runNo -> fits 256 stage -> fits 256 job -> fits 32 status ->
  agrees (CreateJob_sql now pipeline runNo stage job start status failures D) (CreateJob d pipeline runNo stage job start status failures).
Proof.
  intros HD F1 F2%in_int F3 F4 F5. set (v := MkJobRow pipeline runNo stage job start None status failures).
  assert (Hm : makes now [VText pipeline; VInt runNo; VText stage; VText job; VTime start; VText status; truth failures]
    insert_job_columns (params 7) v 0).
  { split; [done|]. split; [done|]. intros l next. eexists. unfold new_row, fits in *. compute_row. rewrite F1, F2, F3, F4, F5. by destruct failures. }
  destruct (insert_entity now _ _ _ v 0 D _ (rp_jobs _ _ HD) Hm) as [Hc Hn]. rewrite no_job_conflict in Hc, Hn.
  unfold CreateJob_sql, CreateJob. change (ci pipeline, runNo, ci stage, ci job) with (job_row_key v).
  destruct (job_runs d !! job_row_key v) as [w|] eqn:Ew.
  - by rewrite (exec_parsed _ _ _ _ _ _ insert_job_parsed (Hc ltac:(eauto))).
  - destruct Hn as (D' & last' & E & Hm' & Ho); [by intros [? ?]|].
    rewrite (exec_parsed _ _ _ _ _ _ insert_job_parsed E). split; [|done]. by apply (represents_jobs D).
Qed.

Lemma UpdateJob_agrees D d pipeline runNo stage job endt status : represents D d -> fits 32 status ->
  agrees (UpdateJob_sql now pipeline runNo stage job endt status D) (UpdateJob d pipeline runNo stage job endt status).
Proof.
  intros HD F. unfold UpdateJob_sql, UpdateJob.
  cut (exists D', match endt with
    | Some t => ExecContext now end_job_sql [VTime t; VText status; VText pipeline; VInt runNo; VText stage; VText job] D
    | None => ExecContext now update_job_sql [VText status; VText pipeline; VInt runNo; VText stage; VText job] D
    end = (D', ok tt) /\ holds_map D' (alter (update_job_row endt status) (ci pipeline, runNo, ci stage, ci job) (job_runs d)) /\
    only_this (E:=job_entity) D D').
  { intros (D' & -> & Hm & Ho). split; [by apply (represents_jobs D)|done]. }
  destruct endt as [t|]; (eapply (update_agrees (E:=job_entity)); [apply updates_parsed| | |done|done|apply HD]).
  - decides_where.
  - intros x last _. unfold fits in F. compute_row. by rewrite F.
  - decides_where.
  - intros x last _. unfold fits in F. compute_row. by rewrite F.
Qed.

(** *** Runs *)

Definition active_expr : expr :=
  ECase (EIn (ECol "status") [ELit (VText "queued"); ELit (VText "running")]) (ECol "request_key") (ELit VNull).

Lemma eval_active args r st v last : field "status" r = Some (VText st) -> field "request_key" r = Some v ->
  eval now args r active_expr last = ok (if is_active st then v else VNull, last).
Proof.
  intros Es Ek. unfold active_expr, is_active, StatusQueued, StatusRunning. cbn. unfold mbind, ev_bind, lift. rewrite Es, Ek. cbn.
  rewrite bool_decide_or. by destruct (bool_decide (ci st = ci "queued")), (bool_decide (ci st = ci "running")).
Qed.

Lemma generate_run args a id r last : fits 64 (COALESCE_empty (run_request_key r)) ->
  generate now args (runs_columns 4) (run_values_with a id r) last = ok (run_values id r, last).
Proof.
  intros F. change (generate now args (runs_columns 4) (run_values_with a id r))
    with (v ← eval now args (run_values_with a id r) active_expr;
          v' ← lift (store_value (generated_column "active_request_key" (TVarchar 64) active_expr) v);
          mret (M:=ev) (set_field "active_request_key" v' (run_values_with a id r))).
  unfold mbind, ev_bind. erewrite eval_active by reflexivity. unfold ok at 1. cbv beta iota. unfold run_values.
  destruct (is_active (run_status r)); [|done]. unfold fits in F. destruct (run_request_key r) as [s|]; [|done].
  unfold lift. cbn -[Z.leb char_length] in F |- *. by rewrite F.
Qed.

Lemma active_conflict_other d k r : active_conflict d k r = true <->
  exists k' r', pipeline_runs d !! k' = Some r' /\ k' <> k /\ same_active r r' = true.
Proof.
  unfold same_active. destruct (active_request_key r) as [a|] eqn:Ea.
  - rewrite (active_conflict_true d k r a Ea). split; intros (k' & r' & Hk & Hne & H); exists k', r'; (split; [done|]; split; [done|]).
    + destruct H as [Hp Ha]. rewrite Ha. by rewrite !bool_decide_eq_true_2.
    + apply andb_true_iff in H as [H1%bool_decide_eq_true H2]. destruct (active_request_key r') as [b|]; [|done].
      apply bool_decide_eq_true in H2 as ->. done.
  - unfold active_conflict. rewrite Ea. split; [done|]. intros (k' & r' & _ & _ & H). by rewrite andb_false_r in H.
Qed.

Lemma find_end : find_column "end_time" (runs_columns 4) = ok (nullable "end_time" TDatetime).
Proof. reflexivity. Qed.
Lemma find_status : find_column "status" (runs_columns 4) = ok (not_null "status" (TVarchar 32)).
Proof. reflexivity. Qed.
#[local] Ltac assign_run :=
  cbn -[generate runs_columns find_column Z.leb char_length]; unfold mbind, ev_bind, lift;
  cbn -[generate runs_columns find_column Z.leb char_length].

Lemma UpdateRun_agrees D d pipeline runNo endt status : represents D d -> fits 32 status ->
  agrees (UpdateRun_sql now pipeline runNo endt status D) (UpdateRun d pipeline runNo endt status).
Proof.
  intros HD F. unfold UpdateRun. set (k := (ci pipeline, runNo)).
  assert (Hx : exists sql args sets w, parse sql = Some (Update "pipeline_runs" sets w) /\
    UpdateRun_sql now pipeline runNo endt status D = ExecContext now sql args D /\
    (forall y, decides now args enc w (fun y => en_key y.2 = k) y) /\
    (forall y last, fits 64 (COALESCE_empty (run_request_key y.2)) -> en_key y.2 = k ->
       assign now args (runs_columns 4) sets (enc y) last = ok (enc (y.1, update_run_row endt status y.2), last))).
  { unfold fits in F. destruct endt as [t|].
    - exists end_run_sql, [VTime t; VText status; VText pipeline; VInt runNo], ends, (where_run 2).
      split; [apply updates_parsed|]. split; [reflexivity|]. split; [unfold k; decides_where|].
      intros y last Fk _. assign_run. rewrite find_end. assign_run. rewrite find_status. assign_run. rewrite F.
      by apply (generate_run _ _ y.1 (update_run_row (Some t) status y.2)).
    - exists update_run_sql, [VText status; VText pipeline; VInt runNo], marks, (where_run 1).
      split; [apply updates_parsed|]. split; [reflexivity|]. split; [unfold k; decides_where|].
      intros y last Fk _. assign_run. rewrite find_status. assign_run. rewrite F.
      by apply (generate_run _ _ y.1 (update_run_row None status y.2)). }
  destruct Hx as (sql & args & sets & w & Hp & -> & Hw & Hf).
  destruct (update_entity now args sets w k (update_run_row endt status) _ Hw Hf ltac:(done) D _ 0 (rp_runs _ _ HD) (rp_keys _ _ HD))
    as (Hn & Ht & Hs).
  assert (Hkeys : forall r, pipeline_runs d !! k = Some r -> forall k' r', <[k := update_run_row endt status r]> (pipeline_runs d) !! k' = Some r' ->
    fits 64 (COALESCE_empty (run_request_key r'))).
  { intros r Hr k' r'. rewrite lookup_insert_Some. intros [[<- <-]|[_ H]]; [apply (rp_keys _ _ HD k r Hr)|apply (rp_keys _ _ HD k' r' H)]. }
  destruct (pipeline_runs d !! k) as [r|] eqn:Er.
  - destruct (active_conflict d k (update_run_row endt status r)) eqn:Ec.
    + rewrite (exec_parsed _ _ _ _ _ _ Hp (Ht r eq_refl (proj1 (active_conflict_other _ _ _) Ec))). by split.
    + destruct (Hs r eq_refl) as (D' & E & Hm & Ho). { intros H%active_conflict_other. by rewrite Ec in H. }
      rewrite (exec_parsed _ _ _ _ _ _ Hp E). split; [|done]. by apply (represents_runs D); [|apply Hm|eapply Hkeys|].
  - destruct (Hn eq_refl) as (D' & E & Hm & Ho). rewrite (exec_parsed _ _ _ _ _ _ Hp E). split; [|done].
    assert (H : represents D' (set_runs d (pipeline_runs d))) by (apply (represents_runs D); [done|done|apply HD|done]).
    by destruct d.
Qed.

(** *** A new run *)

Definition nullif (i : nat) : expr := ENullif (EParam i) (ELit (VText "")).
Definition insert_run_columns : list string :=
  ["pipeline"; "run_no"; "start_time"; "status"; "git_hash"; "git_branch"; "git_repo"; "trace_id"; "request_key"].
Definition insert_run_values : list expr := params 4 ++ (nullif <$> seq 4 5).
Lemma insert_run_parsed : parse insert_run_sql = Some (Insert "pipeline_runs" insert_run_columns insert_run_values None).
Proof. vm_compute. reflexivity. Qed.

Record fits_run (inp : CreateRunInput) : Prop := {
  fi_pipeline : fits 255 (In_Pipeline inp);
  fi_status : fits 32 (In_Status inp);
  fi_hash : fits 64 (In_GitHash inp);
  fi_branch : fits 256 (In_GitBranch inp);
  fi_repo : fits 1024 (In_GitRepo inp);
  fi_trace : fits 32 (In_TraceID inp);
  fi_key : fits 64 (In_RequestKey inp);
}.

Lemma nullif_spec s : (if is_true (truth (bool_decide (ci s = ci ""))) then VNull else VText s) = opt_text (NULLIF_empty s).
Proof. rewrite is_true_truth. unfold NULLIF_empty. by case_bool_decide; case_decide. Qed.

Lemma store_text c n s : fits n s -> store_value (not_null c (TVarchar n)) (VText s) = ok (VText s).
Proof. unfold fits. intros F. unfold store_value. cbn -[Z.leb char_length]. by rewrite F. Qed.
Lemma store_int c z : is_int z -> store_value (not_null c TInt) (VInt z) = ok (VInt z).
Proof. apply in_int. Qed.
Lemma store_nullif c n s : fits n s -> store_value (nullable c (TVarchar n)) (opt_text (NULLIF_empty s)) = ok (opt_text (NULLIF_empty s)).
Proof. unfold fits. intros F. unfold NULLIF_empty. case_decide; [done|]. unfold store_value. cbn -[Z.leb char_length]. by rewrite F. Qed.

Lemma store_trace e s : fits 32 s ->
  store_value (with_default "trace_id" (TVarchar 32) e) (opt_text (NULLIF_empty s)) = match NULLIF_empty s with None => err err1048 | Some s' => ok (VText s') end.
Proof. unfold fits. intros F. unfold NULLIF_empty. case_decide; [done|]. unfold store_value. cbn -[Z.leb char_length]. by rewrite F. Qed.

Section new_run.
Context (inp : CreateRunInput) (runNo : Z) (F : fits_run inp) (Hn : is_int runNo).
Definition run_args : list value :=
  [VText (In_Pipeline inp); VInt runNo; VTime (In_StartTime inp); VText (In_Status inp); VText (In_GitHash inp);
   VText (In_GitBranch inp); VText (In_GitRepo inp); VText (In_TraceID inp); VText (In_RequestKey inp)].
Definition run_given : list value :=
  [VText (In_Pipeline inp); VInt runNo; VTime (In_StartTime inp); VText (In_Status inp)] ++
  ((fun s => opt_text (NULLIF_empty s)) <$> [In_GitHash inp; In_GitBranch inp; In_GitRepo inp; In_TraceID inp; In_RequestKey inp]).
Definition row_to_insert (trace : string) : run_row :=
  MkRunRow (In_Pipeline inp) runNo (In_StartTime inp) None (In_Status inp) (NULLIF_empty (In_GitHash inp))
    (NULLIF_empty (In_GitBranch inp)) (NULLIF_empty (In_GitRepo inp)) trace (NULLIF_empty (In_RequestKey inp)).

Lemma run_evals last : evals now run_args [] insert_run_values last = ok (run_given, last).
Proof.
  unfold insert_run_values, run_args. cbn -[is_true]. unfold mbind, ev_bind, lift, mret, ev_ret. cbn -[is_true].
  by rewrite !nullif_spec.
Qed.

Lemma run_base next last : base_row now run_args next (zip insert_run_columns run_given) (runs_columns 4) last =
  match NULLIF_empty (In_TraceID inp) with
  | None => err err1048
  | Some trace => ok (run_values_with VNull next (row_to_insert trace), last)
  end.
Proof.
  destruct F as [F1 F2 F3 F4 F5 F6 F7].
  cbn -[store_value]. unfold mbind, ev_bind, lift, mret, ev_ret. cbn -[store_value].
  rewrite (store_text _ _ _ F1), (store_int _ _ Hn), (store_text _ _ _ F2), !store_nullif by done.
  rewrite (store_trace _ _ F6). by destruct (NULLIF_empty (In_TraceID inp)).
Qed.

Lemma run_row_made (l : list (Z * run_row)) next last :
  new_row now run_args (the_rows l next) insert_run_columns insert_run_values last =
  match NULLIF_empty (In_TraceID inp) with
  | None => err err1048
  | Some trace => ok (run_values next (row_to_insert trace), last)
  end.
Proof.
  unfold new_row. unfold mbind, ev_bind. rewrite run_evals. unfold ok at 1. cbv beta iota.
  change (tb_columns (the_rows l next)) with (runs_columns 4). change (tb_next (the_rows l next)) with next.
  rewrite run_base. destruct (NULLIF_empty (In_TraceID inp)) as [trace|]; [|done]. unfold ok at 1. cbv beta iota.
  apply generate_run. unfold row_to_insert, NULLIF_empty. cbn. destruct F. by case_decide.
Qed.

Lemma conflict_insert d r :
  conflict r (pipeline_runs d) <-> is_Some (pipeline_runs d !! run_row_key r) \/ active_conflict d (run_row_key r) r = true.
Proof.
  rewrite active_conflict_other. split.
  - intros [Hs|(k & w & Hk & Ho)]; [by left|]. destruct (decide (k = run_row_key r)) as [->|Hne]; [left; by eexists|right; by exists k, w].
  - intros [Hs|(k & w & Hk & _ & Ho)]; [by left|right; by exists k, w].
Qed.

(** The statement of [createRunTx] against the rows of the transaction. *)
Lemma insert_run_perform D d last : represents D d ->
  exists s r, perform now run_args (Insert "pipeline_runs" insert_run_columns insert_run_values None) (MkSession D last) = (s, r) /\
  match NULLIF_empty (In_TraceID inp) with
  | None => r = err err1048
  | Some trace =>
    match insert_run d (row_to_insert trace) with
    | (d', inl _) => r = ok [] /\ represents (ss_db s) d'
    | (_, inr e) => r = err e
    end
  end.
Proof.
  intros HD. destruct (NULLIF_empty (In_TraceID inp)) as [trace|] eqn:Et.
  - assert (Hm : makes now run_args insert_run_columns insert_run_values (row_to_insert trace) last).
    { split; [done|]. split; [done|]. intros l next. eexists. by rewrite run_row_made, Et. }
    destruct (insert_entity now _ _ _ _ last D _ (rp_runs _ _ HD) Hm) as [Hc Hno]. rewrite conflict_insert in Hc, Hno.
    unfold insert_run. change (ci (run_pipeline (row_to_insert trace)), run_run_no (row_to_insert trace)) with (run_row_key (row_to_insert trace)).
    destruct (pipeline_runs d !! run_row_key (row_to_insert trace)) as [w|] eqn:Ew.
    { eexists _, _. split; [apply Hc; left; by eexists|]. done. }
    destruct (active_conflict d _ _) eqn:Ea.
    { eexists _, _. split; [apply Hc; by right|]. done. }
    destruct Hno as (D' & last' & E & Hm' & Ho); [by intros [[]|]|]. eexists _, _. split; [exact E|]. split; [done|].
    apply (represents_runs D); [done|exact Hm'| |done]. intros k r. rewrite lookup_insert_Some.
    intros [[_ <-]|[_ H]]; [|by apply (rp_keys _ _ HD k)]. unfold row_to_insert, NULLIF_empty. cbn. destruct F. by case_decide.
  - destruct (rp_runs _ _ HD) as (l & next & Hl & R). eexists _, _. split; [|reflexivity].
    erewrite (perform_insert _ _ (MkSession D last)); [|exact Hl|apply insert_refused; [done|done|by rewrite run_row_made, Et]].
    reflexivity.
Qed.
End new_run.

(** *** The next number of a pipeline *)

Definition bump : string * expr := ("next_run_no", ELastId (Some (EAdd (ECol "next_run_no") (ELit (VInt 1))))).
Definition sequence_stmt : stmt :=
  Insert "pipeline_sequences" ["pipeline"; "next_run_no"] [EParam 0; ELastId (Some (ELit (VInt 2)))] (Some bump).
Lemma sequence_parsed : parse insert_sequence_sql = Some sequence_stmt.
Proof. vm_compute. reflexivity. Qed.
Lemma last_parsed : parse select_last_sql = Some (SelectValue (ELastId None)).
Proof. vm_compute. reflexivity. Qed.

Lemma sequence_collides p n x : collides sequences_indexes (sequence_values (p, n)) (sequence_values x) = bool_decide (ci x.1 = ci p).
Proof.
  destruct x as [q m]. unfold collides, same_key. cbn. rewrite orb_false_r. apply bool_decide_ext. split; [by intros [= ->]|by intros ->].
Qed.

Lemma sequence_rows_new l m p : sequence_rows l m -> m !! ci p = None -> sequence_rows (l ++ [(p, 2%Z)]) (<[ci p := 2%Z]> m).
Proof.
  intros [R1 R2] Hp. assert (Hk : forall x, x ∈ l -> ci x.1 <> ci p).
  { intros x Hx Ex. rewrite (proj2 (R2 (ci p) x.2)) in Hp; [done|by exists x]. }
  split.
  - rewrite fmap_app. apply NoDup_app. split_and!; [done| |apply NoDup_singleton].
    intros k (x & -> & Hx)%list_elem_of_fmap Hin%list_elem_of_singleton. by apply (Hk x Hx).
  - intros k n. rewrite lookup_insert_Some, R2. setoid_rewrite elem_of_app. setoid_rewrite list_elem_of_singleton. split.
    + intros [[<- <-]|(Hne & x & Hx & Hkx & Hwx)]; [exists (p, 2%Z)|exists x]; auto.
    + intros (x & [Hx| ->] & <- & <-); [right|by left]. split; [by apply not_eq_sym, Hk|eauto].
Qed.

Lemma sequence_rows_next l m p i x n : sequence_rows l m -> l !! i = Some x -> ci x.1 = ci p ->
  sequence_rows (<[i := (x.1, n)]> l) (<[ci p := n]> m).
Proof.
  intros [R1 R2] Hi Hx. pose proof (lookup_lt_Some _ _ _ Hi) as Hlt. split.
  - rewrite list_fmap_insert. simpl. rewrite list_insert_id; [done|]. by rewrite list_lookup_fmap, Hi.
  - intros k n'. rewrite lookup_insert_Some, R2. split.
    + intros [[<- <-]|(Hne & y & Hy & <- & <-)].
      * exists (x.1, n). split; [|done]. apply (list_elem_of_lookup_2 _ i). by apply list_lookup_insert_eq.
      * exists y. split; [|done]. apply list_elem_of_lookup in Hy as [j Hj]. apply (list_elem_of_lookup_2 _ j).
        rewrite list_lookup_insert_ne; [done|]. intros ->. rewrite Hi in Hj. injection Hj as ->. by apply Hne.
    + intros (y & Hy & <- & <-). apply list_elem_of_lookup in Hy as [j Hj]. destruct (decide (i = j)) as [<-|Hne].
      * rewrite list_lookup_insert_eq in Hj by done. injection Hj as <-. by left.
      * rewrite list_lookup_insert_ne in Hj by done. right. split; [|exists y; split; [by eapply list_elem_of_lookup_2|done]].
        intros Ey. apply Hne. apply (NoDup_lookup _ i j (ci p) R1); rewrite list_lookup_fmap; [by rewrite Hi, <- Hx|by rewrite Hj, Ey].
Qed.

Lemma sequence_others l m i x n : sequence_rows l m -> l !! i = Some x ->
  existsb (collides sequences_indexes (sequence_values (x.1, n))) (take i (sequence_values <$> l) ++ drop (S i) (sequence_values <$> l)) = false.
Proof.
  intros [R _] Hi. apply not_true_iff_false. rewrite existsb_exists. intros (r & Hr%list_elem_of_In & Hc).
  assert (exists j y, l !! j = Some y /\ j <> i /\ r = sequence_values y) as (j & y & Hj & Hne & ->).
  { rewrite <- fmap_take, <- fmap_drop, <- fmap_app in Hr. apply list_elem_of_fmap in Hr as (y & -> & Hy).
    apply elem_of_app in Hy as [[j Hj]%list_elem_of_lookup|[j Hj]%list_elem_of_lookup].
    - apply lookup_take_Some in Hj as [Hj Hlt]. exists j, y. split; [done|]. split; [lia|done].
    - rewrite lookup_drop in Hj. exists (S i + j), y. split; [done|]. split; [lia|done]. }
  rewrite sequence_collides in Hc. apply bool_decide_eq_true in Hc. apply Hne.
  apply (NoDup_lookup _ j i (ci x.1) R); rewrite list_lookup_fmap; [by rewrite Hj, <- Hc|by rewrite Hi].
Qed.

Lemma assign_bump args x last : is_int x.2 ->
  assign now args sequences_columns [bump] (sequence_values x) last =
    if decide (max_int < x.2 + 1)%Z then err err1264 else ok (sequence_values (x.1, (x.2 + 1)%Z), (x.2 + 1)%Z).
Proof.
  intros Hx. cbn -[in_range]. unfold mbind, ev_bind, lift, mret, ev_ret. cbn -[in_range].
  unfold is_int in Hx. apply andb_true_iff in Hx as [Hx%Z.leb_le _]. unfold in_range, max_int in *.
  assert (- 2 ^ 31 <= x.2 + 1)%Z as ->%Z.leb_le by lia. case_decide as Hd.
  - by rewrite (proj2 (Z.leb_gt _ _)).
  - by rewrite (proj2 (Z.leb_le _ _)) by lia.
Qed.

Lemma sequence_perform D d p last : represents D d -> fits 255 p ->
  let n := match pipeline_sequences d !! ci p with None => 2 | Some n => n + 1 end%Z in
  exists s r, perform now [VText p] sequence_stmt (MkSession D last) = (s, r) /\
  if decide (max_int < n)%Z then r = err err1264
  else r = ok [] /\ ss_last s = n /\ represents (ss_db s) (set_sequences d (<[ci p := n]> (pipeline_sequences d))).
Proof.
  intros HD F n. destruct (rp_sequences _ _ HD) as (l & next & Hl & R).
  assert (Hrow : stored_row now [VText p] (sequences_table l next) ["pipeline"; "next_run_no"] [EParam 0; ELastId (Some (ELit (VInt 2)))] last 2
    (sequence_values (p, 2%Z))).
  { split; [done|]. split; [done|]. unfold new_row, fits in *. compute_row. by rewrite F. }
  assert (Hrep : forall l' next', sequence_rows l' (<[ci p := n]> (pipeline_sequences d)) -> is_int n ->
    represents (<["pipeline_sequences" := sequences_table l' next']> D) (set_sequences d (<[ci p := n]> (pipeline_sequences d)))).
  { intros l' next' R' Hn. destruct HD as [H1 H2 H3 H4 H5 H6]. split; simpl; [..|done|].
    - by apply (holds_same D), H1; rewrite lookup_insert_ne.
    - by apply (holds_same D), H2; rewrite lookup_insert_ne.
    - by apply (holds_same D), H3; rewrite lookup_insert_ne.
    - exists l', next'. by rewrite lookup_insert_eq.
    - intros k m. rewrite lookup_insert_Some. intros [[_ <-]|[_ H]]; [done|by apply (H6 k)]. }
  unfold sequence_stmt. erewrite (perform_insert _ _ (MkSession D last)) by (done || reflexivity). cbn [ss_last ss_db].
  rewrite (insert_found _ _ _ _ _ _ _ _ _ Hrow).
  destruct (list_find _ _) as [[i old]|] eqn:Ef.
  - apply list_find_Some in Ef as (Hi & Hc & _). change (tb_rows (sequences_table l next)) with (sequence_values <$> l) in *.
    rewrite list_lookup_fmap in Hi. destruct (l !! i) as [x|] eqn:Ex; [|done]. injection Hi as <-.
    change (tb_indexes (sequences_table l next)) with sequences_indexes in *. rewrite sequence_collides in Hc. apply bool_decide_eq_true in Hc.
    assert (En : pipeline_sequences d !! ci p = Some x.2).
    { apply (sr_map _ _ R). exists x. split; [by eapply list_elem_of_lookup_2|done]. }
    assert (n = (x.2 + 1)%Z) as -> by (unfold n; by rewrite En).
    unfold mbind, ev_bind. change (tb_columns (sequences_table l next)) with sequences_columns.
    rewrite assign_bump by (by eapply (rp_numbers _ _ HD)).
    case_decide as Hd; [by eexists _, _|]. unfold ok at 1. cbv beta iota.
    change (tb_indexes (sequences_table l next)) with sequences_indexes. rewrite (sequence_others l (pipeline_sequences d) i x) by done.
    eexists _, _. split; [reflexivity|]. split; [done|]. split; [done|].
    replace (with_rows _ _ _) with (sequences_table (<[i := (x.1, (x.2 + 1)%Z)]> l) next).
    2:{ unfold sequences_table, with_rows. simpl. by rewrite list_fmap_insert. }
    apply Hrep; [by eapply sequence_rows_next|]. unfold is_int, max_int in *.
    pose proof (rp_numbers _ _ HD _ _ En) as Hx. unfold is_int in Hx. rewrite !andb_true_iff, !Z.leb_le in *. lia.
  - assert (Hnone : pipeline_sequences d !! ci p = None).
    { apply eq_None_not_Some. intros [m (x & Hx & Hk & _)%(sr_map _ _ R)]. apply list_find_None in Ef.
      apply (list_elem_of_fmap_2 sequence_values) in Hx. rewrite Forall_forall in Ef. apply (Ef _ Hx).
      change (tb_indexes (sequences_table l next)) with sequences_indexes. rewrite sequence_collides. by apply bool_decide_eq_true. }
    assert (n = 2%Z) as -> by (unfold n; by rewrite Hnone). eexists _, _. split; [reflexivity|].
    rewrite decide_False by done. split; [done|]. split; [done|].
    replace (with_rows _ _ _) with (sequences_table (l ++ [(p, 2%Z)]) (next + 1)).
    2:{ unfold sequences_table, with_rows. simpl. by rewrite fmap_app. }
    apply Hrep; [by apply sequence_rows_new|done].
Qed.

Lemma perform_last s : perform now [] (SelectValue (ELastId None)) s = (s, ok [[VInt (ss_last s)]]).
Proof. by destruct s. Qed.

Lemma createRunTx_agrees D d inp : represents D d -> fits_run inp ->
  exists s, createRunTx_sql now inp (MkSession D 0) = (s, (createRunTx d inp).2) /\
    (forall n, (createRunTx d inp).2 = ok n -> represents (ss_db s) (createRunTx d inp).1).
Proof.
  intros HD F. destruct (sequence_perform D d (In_Pipeline inp) 0 HD (fi_pipeline _ F)) as (s1 & r1 & E1 & H1).
  unfold createRunTx_sql. rewrite (run_parsed _ _ _ _ sequence_parsed), E1. unfold createRunTx.
  set (n := match pipeline_sequences d !! ci (In_Pipeline inp) with None => _ | Some m => _ end) in *.
  case_decide as Hmax; [subst r1; by exists s1|]. destruct H1 as (-> & Hlast & HD1). unfold ok at 1. cbv beta iota.
  rewrite (run_parsed _ _ _ _ last_parsed), perform_last. unfold ok at 1. cbv beta iota.
  rewrite Hlast. destruct (decide (n <= 1)%Z) as [Hle|Hle]; [by eexists|].
  assert (Hint : is_int (n - 1)) by (unfold is_int, max_int in *; rewrite andb_true_iff, !Z.leb_le; lia).
  rewrite (run_parsed _ _ _ _ insert_run_parsed).
  destruct (insert_run_perform inp (n - 1) F Hint (ss_db s1) _ n HD1) as (s & r & E & H).
  fold (run_args inp (n - 1)). replace s1 with (MkSession (ss_db s1) n) by (by destruct s1; simpl in *; subst). rewrite E. destruct (NULLIF_empty (In_TraceID inp)) as [trace|]; [|subst r; by exists s].
  unfold row_to_insert in H. destruct (insert_run _ _) as [d' [u|e]]; [|subst r; by exists s].
  destruct H as [-> Hd']. by exists s.
Qed.

Lemma CreateRun_agrees D d inp : represents D d -> fits_run inp -> agrees (CreateRun_sql now inp D) (CreateRun d inp).
Proof.
  intros HD F. destruct (createRunTx_agrees D d inp HD F) as (s & E & Hs). unfold CreateRun_sql, CreateRun. rewrite E.
  destruct (createRunTx d inp) as [d' [n|e]]; [|by split]. split; [by apply (Hs n)|done].
Qed.

(** *** The active run with a key *)

Definition select_active_stmt : stmt :=
  Select [ECol "run_no"; ECol "status"] "pipeline_runs"
    (EAnd (column_is "pipeline" 0) (EAnd (column_is "request_key" 1) (EIn (ECol "status") [EParam 2; EParam 3]))) ["run_no"] (Some 1).
Lemma select_active_parsed : parse select_active_sql = Some select_active_stmt.
Proof. vm_compute. reflexivity. Qed.

Lemma query_parsed sql st args D r : parse sql = Some st -> perform now args st (MkSession D 0) = (MkSession D 0, r) ->
  QueryContext now sql args D = r.
Proof. intros E E'. unfold QueryContext. by rewrite (run_parsed _ _ _ _ E), E'. Qed.

Lemma matches_active_bool pipeline key r :
  bool_decide (matches_active pipeline key r) =
    bool_decide (ci (run_pipeline r) = ci pipeline) &&
    (match run_request_key r with Some k => bool_decide (ci k = ci key) | None => false end && is_active (run_status r)).
Proof.
  apply eq_iff_eq_true. rewrite !andb_true_iff, !bool_decide_eq_true. unfold matches_active, active_request_key.
  destruct (is_active _); [|by split; [intros [_ ?]|intros (_ & _ & ?)]].
  destruct (run_request_key r) as [k|]; simpl; [rewrite bool_decide_eq_true|by split; [intros [_ ?]|intros (_ & ? & _)]].
  split; [by intros [-> [= ->]]|by intros (-> & -> & _)].
Qed.

Lemma active_where pipeline key y :
  decides now [VText pipeline; VText key; VText StatusQueued; VText StatusRunning] enc
    (EAnd (column_is "pipeline" 0) (EAnd (column_is "request_key" 1) (EIn (ECol "status") [EParam 2; EParam 3])))
    (fun y => matches_active pipeline key y.2) y.
Proof.
  intros last. rewrite matches_active_bool. unfold is_active. rewrite bool_decide_or.
  cbn -[bool_decide]. unfold mbind, ev_bind, lift, mret, ev_ret. cbn -[bool_decide].
  destruct (bool_decide (ci (run_pipeline y.2) = ci pipeline)), (bool_decide (ci (run_status y.2) = ci StatusQueued)),
    (bool_decide (ci (run_status y.2) = ci StatusRunning)); destruct (run_request_key y.2) as [k|]; cbn -[bool_decide];
    try destruct (bool_decide (ci k = ci key)); eexists; (split; [reflexivity|done]).
Qed.

(** At most one row, in no particular order. *)
Definition any_order {A} (x y : A) : Prop := True.
#[local] Instance any_order_dec A (x y : A) : Decision (any_order x y) := left I.
#[local] Instance any_order_trans A : Transitive (@any_order A).
Proof. done. Qed.
#[local] Instance any_order_total A : Total (@any_order A).
Proof. by left. Qed.

Lemma run_values_key D d r : represents D d -> r ∈ (map_to_list (pipeline_runs d)).*2 -> pipeline_runs d !! run_row_key r = Some r.
Proof.
  intros HD [k Hk]%elem_of_values. destruct (rp_runs _ _ HD) as (l & next & _ & R). pose proof (rows_key _ _ _ _ _ R Hk) as E.
  change (run_row_key r = k) in E. by rewrite E.
Qed.

Lemma run_no_order (x y : Z * run_row) : row_le ["run_no"] (enc x) (enc y) -> run_no_le x.2 y.2.
Proof.
  unfold row_le, run_no_le, enc. cbn. destruct (Z.compare_spec (run_run_no x.2) (run_run_no y.2)); intros ?; [lia|lia|done].
Qed.

Lemma select_active_agrees D d pipeline key : represents D d ->
  (rows ← QueryContext now select_active_sql [VText pipeline; VText key; VText StatusQueued; VText StatusRunning] D; scan_one scan_active rows) =
  match select_active d pipeline key with Some x => ok x | None => err ErrNoRows end.
Proof.
  intros HD. erewrite (query_parsed _ _ _ _ _ select_active_parsed).
  2:{ apply (select_entity (E:=run_entity) now _ [ECol "run_no"; ECol "status"] _ _ (Some 1) (matches_active pipeline key) run_no_le
        (fun r => [VInt (run_run_no r); VText (run_status r)]) (active_where pipeline key) (fun x last => eq_refl) run_no_order D _ 0 (rp_runs _ _ HD)).
      intros v v' Hv Hv' [Hp _] [Hp' _] H1 H2. apply (run_values_key D) in Hv, Hv'; [|done|done].
      assert (run_row_key v = run_row_key v') as E; [|rewrite E in Hv; congruence].
      unfold run_row_key. f_equal; [congruence|unfold run_no_le in *; lia]. }
  unfold select_active, limited. by destruct (merge_sort _ _).
Qed.

Lemma CreateRunOrGetActive_agrees Dv view D d inp : represents Dv view -> represents D d -> fits_run inp ->
  agrees (CreateRunOrGetActive_sql now inp Dv D) (CreateRunOrGetActive view d inp).
Proof.
  intros HV HD F. destruct (createRunTx_agrees D d inp HD F) as (s & E & Hs).
  unfold CreateRunOrGetActive_sql, CreateRunOrGetActive. rewrite E, (select_active_agrees Dv view) by done.
  destruct (createRunTx d inp) as [d' [n|e]] eqn:Et; cbn [fst snd].
  - specialize (Hs n eq_refl). cbn [fst] in Hs. destruct (decide (In_RequestKey inp <> "")); [|by split].
    destruct (select_active view _ _) as [[m st]|]; by split.
  - destruct (decide (In_RequestKey inp <> "")) as [Hk|Hk].
    + rewrite bool_decide_eq_true_2 by done. destruct (select_active view _ _) as [[m st]|]; [by split|]. simpl.
      destruct (isDuplicateKeyError e); [rewrite decide_True by done|rewrite decide_False by (by intros [??])]; by split.
    + rewrite bool_decide_eq_false_2, decide_False by (done || by intros [??]). by split.
Qed.

(** *** Reads *)

Definition select_run_items : list expr :=
  [ECol "pipeline"; ECol "run_no"; ECol "start_time"; ECol "end_time"; ECol "status"] ++
  ((fun c => ECoalesce (ECol c) (ELit (VText ""))) <$> ["git_hash"; "git_branch"; "git_repo"; "trace_id"; "request_key"]).
Definition select_stage_items : list expr := ECol <$> ["pipeline"; "run_no"; "stage"; "start_time"; "end_time"; "status"].
Definition select_job_items : list expr :=
  (ECol <$> ["pipeline"; "run_no"; "stage"; "job"; "start_time"; "end_time"; "status"]) ++ [ECoalesce (ECol "failures") (ELit (VInt 0))].
(** The WHERE clause of the queries of jobs. *)
Definition where_jobs (stageFilter jobFilter : string) : expr :=
  let filters := (if decide (stageFilter <> "") then [column_is "stage" 2] else []) ++
                 (if decide (jobFilter <> "") then [column_is "job" (if decide (stageFilter <> "") then 3 else 2)] else []) in
  match filters with
  | [] => where_run 0
  | [f] => EAnd (column_is "pipeline" 0) (EAnd (column_is "run_no" 1) f)
  | f :: f' :: _ => EAnd (column_is "pipeline" 0) (EAnd (column_is "run_no" 1) (EAnd f f'))
  end.

Lemma selects_parsed :
  parse select_run_sql = Some (Select select_run_items "pipeline_runs" (where_run 0) [] None) /\
  parse select_runs_sql = Some (Select select_run_items "pipeline_runs" (column_is "pipeline" 0) ["run_no"] None) /\
  parse select_stage_sql = Some (Select select_stage_items "stage_runs" (where_stage 0) ["stage"] None) /\
  parse select_stages_sql = Some (Select select_stage_items "stage_runs" (where_run 0) ["stage"] None) /\
  forall stageFilter jobFilter, parse (select_jobs_sql stageFilter jobFilter) =
    Some (Select select_job_items "job_runs" (where_jobs stageFilter jobFilter) ["stage"; "job"] None).
Proof.
  split_and!; [vm_compute; reflexivity..|]. intros stageFilter jobFilter. unfold select_jobs_sql, where_jobs.
  destruct (decide (stageFilter <> "")), (decide (jobFilter <> "")); vm_compute; reflexivity.
Qed.

(** What a query of runs returns of a row. *)
Definition run_columns (r : run_row) : list value :=
  [VText (run_pipeline r); VInt (run_run_no r); VTime (run_start_time r); opt_time (run_end_time r); VText (run_status r);
   VText (COALESCE_empty (run_git_hash r)); VText (COALESCE_empty (run_git_branch r)); VText (COALESCE_empty (run_git_repo r));
   VText (run_trace_id r); VText (COALESCE_empty (run_request_key r))].
Lemma select_run_evals args (x : Z * run_row) last : evals now args (enc x) select_run_items last = ok (run_columns x.2, last).
Proof.
  by destruct x as [i [p n st e ss [] [] [] tr []]].
Qed.
Lemma scan_run_columns r : scan_run (run_columns r) = ok (scanRun r).
Proof. by destruct r as [p n st [] ss h b rp tr k]. Qed.

Lemma scan_all_fmap {A B} (scan : list value -> res A) (f : B -> list value) (g : B -> A) l :
  (forall x, scan (f x) = ok (g x)) -> scan_all scan (f <$> l) = ok (g <$> l).
Proof. intros H. induction l as [|x l IH]; [done|]. rewrite !fmap_cons. cbn [scan_all]. by rewrite H, IH. Qed.

Lemma GetRun_agrees D d pipeline runNo : represents D d -> GetRun_sql now pipeline runNo D = GetRun d pipeline runNo.
Proof.
  intros HD. unfold GetRun_sql, GetRun. erewrite (query_parsed _ _ _ _ _ (proj1 selects_parsed)).
  2:{ apply (select_entity (E:=run_entity) now [VText pipeline; VInt runNo] select_run_items (where_run 0) [] None
        (fun r => run_row_key r = (ci pipeline, runNo)) any_order run_columns ltac:(decides_where)
        (fun x last => select_run_evals _ x last) ltac:(done) D _ 0 (rp_runs _ _ HD)).
      intros v v' Hv Hv' Hk Hk' _ _. apply (run_values_key D) in Hv, Hv'; [|done|done]. rewrite Hk in Hv. rewrite Hk' in Hv'. congruence. }
  unfold limited. set (l := merge_sort _ _).
  assert (Hl : forall r, r ∈ l <-> pipeline_runs d !! (ci pipeline, runNo) = Some r).
  { intros r. unfold l. rewrite merge_sort_Permutation, list_elem_of_filter. split.
    - intros [<- Hr]. by apply (run_values_key D).
    - intros Hr. assert (Hin : r ∈ (map_to_list (pipeline_runs d)).*2) by (apply elem_of_values; by eexists).
      split; [|done]. apply (run_values_key D) in Hin; [|done]. destruct (rp_runs _ _ HD) as (l' & next & _ & R). exact (rows_key _ _ _ _ _ R Hr). }
  destruct l as [|r l].
  - destruct (pipeline_runs d !! _) as [r|]; [|done]. pose proof (proj2 (Hl r) eq_refl) as Hr. by apply elem_of_nil in Hr.
  - rewrite (proj1 (Hl r) (list_elem_of_here _ _)). unfold mbind, res_bind. unfold ok at 1. rewrite fmap_cons. cbn [scan_one]. by rewrite scan_run_columns.
Qed.

Lemma GetRunsByPipeline_agrees D d pipeline : represents D d -> GetRunsByPipeline_sql now pipeline D = ok (GetRunsByPipeline d pipeline).
Proof.
  intros HD. unfold GetRunsByPipeline_sql, GetRunsByPipeline. erewrite (query_parsed _ _ _ _ _ (proj1 (proj2 selects_parsed))).
  2:{ apply (select_entity (E:=run_entity) now [VText pipeline] select_run_items (column_is "pipeline" 0) ["run_no"] None
        (fun r => ci (run_pipeline r) = ci pipeline) run_no_le run_columns ltac:(decides_where)
        (fun x last => select_run_evals _ x last) run_no_order D _ 0 (rp_runs _ _ HD)).
      intros v v' Hv Hv' Hp Hp' H1 H2. apply (run_values_key D) in Hv, Hv'; [|done|done].
      assert (run_row_key v = run_row_key v') as E; [|rewrite E in Hv; congruence].
      unfold run_row_key. f_equal; [congruence|unfold run_no_le in *; lia]. }
  unfold mbind, res_bind. unfold ok at 1. by rewrite (scan_all_fmap _ _ scanRun) by apply scan_run_columns.
Qed.

(** The order of text. *)
Lemma ascii_compare_trans (a b c : Ascii.ascii) : Ascii.compare a b = Lt -> Ascii.compare b c = Lt -> Ascii.compare a c = Lt.
Proof. unfold Ascii.compare. rewrite !N.compare_lt_iff. lia. Qed.
Lemma string_compare_trans a b c : String.compare a b = Lt -> String.compare b c = Lt -> String.compare a c = Lt.
Proof.
  revert b c. induction a as [|x a IH]; intros [|y b] [|z c]; simpl; try done.
  destruct (Ascii.compare x y) eqn:E1; [|destruct (Ascii.compare y z) eqn:E2|done]; intros H1.
  - apply Ascii.compare_eq_iff in E1 as ->. destruct (Ascii.compare y z) eqn:E2; [by apply IH|done|done].
  - apply Ascii.compare_eq_iff in E2 as ->. by rewrite E1.
  - by rewrite (ascii_compare_trans x y z).
  - done.
Qed.
Lemma leb_not_gt a b : String.leb a b = true <-> String.compare a b <> Gt.
Proof. unfold String.leb. by destruct (String.compare a b). Qed.
Lemma compare_refl a : String.compare a a = Eq.
Proof. pose proof (String.compare_antisym a a). by destruct (String.compare a a). Qed.
Lemma not_gt_trans a b c : String.compare a b <> Gt -> String.compare b c <> Gt -> String.compare a c <> Gt.
Proof.
  destruct (String.compare a b) eqn:E1; [apply String.compare_eq_iff in E1 as ->; done| |done].
  destruct (String.compare b c) eqn:E2; [apply String.compare_eq_iff in E2 as ->; by rewrite E1| |done].
  by rewrite (string_compare_trans a b c).
Qed.
#[local] Instance stage_le_total : Total stage_le.
Proof. intros x y. unfold stage_le. destruct (String.leb_total (ci (Stage_Stage x)) (ci (Stage_Stage y))); auto. Qed.
#[local] Instance stage_le_trans : Transitive stage_le.
Proof. intros x y z. unfold stage_le. rewrite !leb_not_gt. apply not_gt_trans. Qed.

(** [job_le] compares the stages, then the jobs. *)
Lemma job_le_spec x y : job_le x y <->
  String.compare (ci (JobRow_Stage x)) (ci (JobRow_Stage y)) = Lt \/
  ci (JobRow_Stage x) = ci (JobRow_Stage y) /\ String.compare (ci (Job_Job x)) (ci (Job_Job y)) <> Gt.
Proof.
  unfold job_le. destruct (String.compare (ci (JobRow_Stage x)) _) eqn:E.
  - apply String.compare_eq_iff in E. rewrite leb_not_gt. split; [by right|]. by intros [?|[_ ?]].
  - split; [by left|done].
  - split; [done|]. intros [?|[E' _]]; [done|]. by rewrite E', compare_refl in E.
Qed.
#[local] Instance job_le_total : Total job_le.
Proof.
  intros x y. rewrite !job_le_spec. rewrite (String.compare_antisym (ci (JobRow_Stage y))), (String.compare_antisym (ci (Job_Job y))).
  destruct (String.compare (ci (JobRow_Stage x)) _) eqn:E; simpl; [|auto|auto].
  apply String.compare_eq_iff in E. destruct (String.compare (ci (Job_Job x)) _); simpl; [left|left|right]; right; auto.
Qed.
#[local] Instance job_le_trans : Transitive job_le.
Proof.
  intros x y z. rewrite !job_le_spec. intros [H1|[H1 H1']] [H2|[H2 H2']].
  - left. by eapply string_compare_trans.
  - left. by rewrite <- H2.
  - left. by rewrite H1.
  - right. split; [congruence|]. by eapply not_gt_trans.
Qed.

Definition stage_columns (r : StageRow) : list value :=
  [VText (Stage_Pipeline r); VInt (Stage_RunNo r); VText (Stage_Stage r); VTime (Stage_StartTime r); opt_time (Stage_EndTime r);
   VText (Stage_Status r)].
Lemma scan_stage_columns r : scan_stage (stage_columns r) = ok r.
Proof. by destruct r as [p n s st [] ss]. Qed.
Lemma stage_order (x y : Z * StageRow) : row_le ["stage"] (enc x) (enc y) -> stage_le x.2 y.2.
Proof. unfold row_le, stage_le, enc. cbn. rewrite leb_not_gt. by destruct (String.compare _ _). Qed.
Lemma stage_values_key D d r : represents D d -> r ∈ (map_to_list (stage_runs d)).*2 -> stage_runs d !! stage_row_key r = Some r.
Proof.
  intros HD [k Hk]%elem_of_values. destruct (rp_stages _ _ HD) as (l & next & _ & R). pose proof (rows_key _ _ _ _ _ R Hk) as E.
  change (stage_row_key r = k) in E. by rewrite E.
Qed.

Lemma select_stages_agrees D d pipeline runNo sf args w : represents D d ->
  (forall x : Z * StageRow, decides now args enc w
     (fun x => (ci (Stage_Pipeline x.2) = ci pipeline /\ Stage_RunNo x.2 = runNo) /\ filter_matches sf (Stage_Stage x.2)) x) ->
  perform now args (Select select_stage_items "stage_runs" w ["stage"] None) (MkSession D 0) =
    (MkSession D 0, ok (stage_columns <$> GetStagesForRun d pipeline runNo sf)).
Proof.
  intros HD Hw.
  apply (select_entity (E:=stage_entity) now args select_stage_items w ["stage"] None _ stage_le stage_columns Hw
    (fun x last => eq_refl) stage_order D _ 0 (rp_stages _ _ HD)).
  intros v v' Hv Hv' [[Hp Hn] _] [[Hp' Hn'] _] H1 H2. apply (stage_values_key D) in Hv, Hv'; [|done|done].
  assert (stage_row_key v = stage_row_key v') as E; [|rewrite E in Hv; congruence].
  unfold stage_row_key. f_equal; [congruence|]. by apply String.leb_antisym.
Qed.

(** Decides a filter that is set, or not. *)
#[local] Ltac decides_filter :=
  intros ? ?; eexists; split; [reflexivity|]; rewrite ?both_truth, is_true_truth, ?eqb_decide, <- ?bool_decide_and;
  apply bool_decide_ext; cbn; unfold filter_matches; tauto.

Lemma GetStagesForRun_agrees D d pipeline runNo stageFilter : represents D d ->
  GetStagesForRun_sql now pipeline runNo stageFilter D = ok (GetStagesForRun d pipeline runNo stageFilter).
Proof.
  intros HD. unfold GetStagesForRun_sql. destruct selects_parsed as (_ & _ & P1 & P2 & _). destruct (decide _) as [Hs|Hs].
  - erewrite (query_parsed _ _ _ _ _ P1) by (apply (select_stages_agrees D d pipeline runNo stageFilter); [done|decides_filter]).
    unfold mbind, res_bind. unfold ok at 1. rewrite (scan_all_fmap _ _ id) by apply scan_stage_columns. by rewrite list_fmap_id.
  - erewrite (query_parsed _ _ _ _ _ P2) by (apply (select_stages_agrees D d pipeline runNo stageFilter); [done|decides_filter]).
    unfold mbind, res_bind. unfold ok at 1. rewrite (scan_all_fmap _ _ id) by apply scan_stage_columns. by rewrite list_fmap_id.
Qed.

Definition job_columns (r : JobRow) : list value :=
  [VText (Job_Pipeline r); VInt (Job_RunNo r); VText (JobRow_Stage r); VText (Job_Job r); VTime (Job_StartTime r);
   opt_time (Job_EndTime r); VText (Job_Status r); truth (JobRow_Failures r)].
Lemma scan_job_columns r : scan_job (job_columns r) = ok r.
Proof. by destruct r as [p n s j st [] ss []]. Qed.
Lemma select_job_evals args (x : Z * JobRow) last : evals now args (enc x) select_job_items last = ok (job_columns x.2, last).
Proof. by destruct x as [i [p n s j st e ss f]]. Qed.
Lemma job_order (x y : Z * JobRow) : row_le ["stage"; "job"] (enc x) (enc y) -> job_le x.2 y.2.
Proof.
  unfold row_le, job_le, enc. cbn. destruct (String.compare (ci (JobRow_Stage x.2)) _); [|done|done].
  rewrite leb_not_gt. by destruct (String.compare _ _).
Qed.
Lemma job_values_key D d r : represents D d -> r ∈ (map_to_list (job_runs d)).*2 -> job_runs d !! job_row_key r = Some r.
Proof.
  intros HD [k Hk]%elem_of_values. destruct (rp_jobs _ _ HD) as (l & next & _ & R). pose proof (rows_key _ _ _ _ _ R Hk) as E.
  change (job_row_key r = k) in E. by rewrite E.
Qed.
Lemma job_le_antisym x y : job_le x y -> job_le y x -> ci (JobRow_Stage x) = ci (JobRow_Stage y) /\ ci (Job_Job x) = ci (Job_Job y).
Proof.
  rewrite !job_le_spec, (String.compare_antisym (ci (JobRow_Stage y))), (String.compare_antisym (ci (Job_Job y))).
  intros [H1|[E H1]] [H2|[E2 H2]]; [by rewrite H1 in H2|by rewrite E2, compare_refl in H1|by rewrite E, compare_refl in H2|].
  split; [done|]. destruct (String.compare (ci (Job_Job x)) _) eqn:Ej; [by apply String.compare_eq_iff|done|done].
Qed.

Lemma jobs_where pipeline runNo sf jf x :
  decides now (select_jobs_args pipeline runNo sf jf) enc (where_jobs sf jf)
    (fun x : Z * JobRow => ((ci (Job_Pipeline x.2) = ci pipeline /\ Job_RunNo x.2 = runNo) /\ filter_matches sf (JobRow_Stage x.2)) /\ filter_matches jf (Job_Job x.2)) x.
Proof.
  unfold select_jobs_args, where_jobs. destruct (decide (sf <> "")), (decide (jf <> "")).
  all: revert x; decides_filter.
Qed.

Lemma GetJobsForRun_agrees D d pipeline runNo stageFilter jobFilter : represents D d ->
  GetJobsForRun_sql now pipeline runNo stageFilter jobFilter D = ok (GetJobsForRun d pipeline runNo stageFilter jobFilter).
Proof.
  intros HD. unfold GetJobsForRun_sql. destruct selects_parsed as (_ & _ & _ & _ & P).
  erewrite (query_parsed _ _ _ _ _ (P stageFilter jobFilter)).
  2:{ apply (select_entity (E:=job_entity) now _ select_job_items _ _ None
        (fun r => ((ci (Job_Pipeline r) = ci pipeline /\ Job_RunNo r = runNo) /\ filter_matches stageFilter (JobRow_Stage r)) /\ filter_matches jobFilter (Job_Job r))
        job_le job_columns (jobs_where pipeline runNo stageFilter jobFilter)
        (fun x last => select_job_evals _ x last) job_order D _ 0 (rp_jobs _ _ HD)).
      intros v v' Hv Hv' [[[Hp Hn] _] _] [[[Hp' Hn'] _] _] H1 H2. apply (job_values_key D) in Hv, Hv'; [|done|done].
      assert (job_row_key v = job_row_key v') as E; [|rewrite E in Hv; congruence].
      destruct (job_le_antisym v v' H1 H2) as [E1 E2]. unfold job_row_key. congruence. }
  unfold limited, mbind, res_bind. unfold ok at 1. rewrite (scan_all_fmap _ _ id) by apply scan_job_columns. by rewrite list_fmap_id.
Qed.

(** *** The new database, and everything together *)

Lemma empty_rows {V K} `{Countable K} {E : Entity V K} next : rows_of [] next (∅ : gmap K V).
Proof.
  split; [constructor|constructor|by intros ? ?%elem_of_nil|]. intros k v. rewrite lookup_empty. split; [done|].
  by intros (? & ?%elem_of_nil & _).
Qed.

Lemma migrated_represents D : holds 4 new_contents D -> represents D empty_db.
Proof.
  intros [H1 H2 H3 H4]. split; simpl.
  - exists [], 1%Z. split; [exact H1|apply empty_rows].
  - exists [], 1%Z. split; [exact H2|apply empty_rows].
  - exists [], 1%Z. split; [exact H3|apply empty_rows].
  - exists [], 1%Z. split; [exact H4|]. split; [constructor|]. intros k n. rewrite lookup_empty. split; [done|].
    by intros (? & ?%elem_of_nil & _).
  - intros k r. by rewrite lookup_empty.
  - intros k n. by rewrite lookup_empty.
Qed.

(** The migrations of an empty database server, not killed, make one without rows. *)
Lemma migrated_empty now' b : NoDup (ci <$> migration_files.*1) -> 18 <= b ->
  exists k D0, apply_migrations now' (b, ∅) = ((k, D0), ok tt) /\ represents D0 empty_db.
Proof.
  intros Hnames Hb. destruct (apply_migrations_complete now' Hnames 0 new_contents ∅ (b - 18) ltac:(lia) at_version_empty)
    as (k & D0 & E & Hx & _). replace (18 + (b - 18)) with b in E by lia.
  exists k, D0. split; [exact E|]. apply migrated_represents. apply Hx.
Qed.

(** C21: the methods of the store as they are, with their SQL text, on the
    tables that the migrations make, do what Store says they do: on databases with
    the same rows, where the texts that are written fit their columns and, to create
    the row of a stage or a job, the run number fits an INT, every write has the
    same result and leaves the same rows, and every read, of whatever names and
    numbers, returns the same records in the same order. The migrations of an empty
    server, not killed, with the names of their files told apart by the tables,
    succeed and leave a database that holds no rows. *)
Theorem store_refines_sql D d :
  (represents D d ->
  (forall inp, fits_run inp -> agrees (CreateRun_sql now inp D) (CreateRun d inp)) /\
  (forall inp Dv view, represents Dv view -> fits_run inp -> agrees (CreateRunOrGetActive_sql now inp Dv D) (CreateRunOrGetActive view d inp)) /\
  (forall p n e st, fits 32 st -> agrees (UpdateRun_sql now p n e st D) (UpdateRun d p n e st)) /\
  (forall p n s t st, fits 255 p -> is_int n -> fits 256 s -> fits 32 st -> agrees (CreateStage_sql now p n s t st D) (CreateStage d p n s t st)) /\
  (forall p n s e st, fits 32 st -> agrees (UpdateStage_sql now p n s e st D) (UpdateStage d p n s e st)) /\
  (forall p n s j t st f, fits 255 p -> is_int n -> fits 256 s -> fits 256 j -> fits 32 st ->
     agrees (CreateJob_sql now p n s j t st f D) (CreateJob d p n s j t st f)) /\
  (forall p n s j e st, fits 32 st -> agrees (UpdateJob_sql now p n s j e st D) (UpdateJob d p n s j e st)) /\
  (forall p n, GetRun_sql now p n D = GetRun d p n) /\
  (forall p, GetRunsByPipeline_sql now p D = ok (GetRunsByPipeline d p)) /\
  (forall p n sf, GetStagesForRun_sql now p n sf D = ok (GetStagesForRun d p n sf)) /\
  (forall p n sf jf, GetJobsForRun_sql now p n sf jf D = ok (GetJobsForRun d p n sf jf))) /\
  (NoDup (ci <$> migration_files.*1) -> forall now' b, 18 <= b ->
     exists k D0, apply_migrations now' (b, ∅) = ((k, D0), ok tt) /\ represents D0 empty_db).
Proof.
  split; [intros HD; split_and!|intros Hnames now' b; by apply migrated_empty].
  - intros inp. by apply CreateRun_agrees.
  - intros inp Dv view. intros. by apply CreateRunOrGetActive_agrees.
  - intros. by apply UpdateRun_agrees.
  - intros. by apply CreateStage_agrees.
  - intros. by apply UpdateStage_agrees.
  - intros. by apply CreateJob_agrees.
  - intros. by apply UpdateJob_agrees.
  - intros. by apply GetRun_agrees.
  - intros. by apply GetRunsByPipeline_agrees.
  - intros. by apply GetStagesForRun_agrees.
  - intros. by apply GetJobsForRun_agrees.
Qed.

(** What a text that does not fit comes to: a pipeline whose name has more than 255
    characters is verified and planned, but its run cannot be created. *)
Theorem long_name_refused D d inp : represents D d -> ~ fits 255 (In_Pipeline inp) -> CreateRun_sql now inp D = (D, err err1406).
Proof.
  intros HD Hw. destruct (rp_sequences _ _ HD) as (l & next & Hl & R).
  unfold CreateRun_sql, createRunTx_sql. rewrite (run_parsed _ _ _ _ sequence_parsed). unfold sequence_stmt.
  erewrite (perform_insert _ _ (MkSession D 0)); [|exact Hl|apply (insert_refused _ _ _ _ _ _ _ err1406); [done|done|]]; [done|].
  unfold new_row, fits in *. apply not_true_iff_false in Hw. compute_row. by rewrite Hw.
Qed.
End refinement.

Definition demo_database : database := let _ := binary_collation in (apply_migrations 0 (18, ∅)).1.2.
Lemma demo_represents : represents (C:=binary_collation) demo_database empty_db.
Proof. apply migrated_represents. split; vm_compute; reflexivity. Qed.

Lemma demo_input_fits : fits_run demo_input.
Proof. split; vm_compute; reflexivity. Qed.

(** The first run of a new database, created and read. *)
Lemma store_refines_sql_witness :
  agrees (C:=binary_collation) (CreateRun_sql (C:=binary_collation) 0 demo_input demo_database) (CreateRun (C:=binary_collation) empty_db demo_input) /\
  (CreateRun_sql (C:=binary_collation) 0 demo_input demo_database).2 = ok 1%Z /\
  GetRun_sql (C:=binary_collation) 0 "demo" 1 (CreateRun_sql (C:=binary_collation) 0 demo_input demo_database).1 =
    ok (scanRun (new_run_row (C:=binary_collation) demo_input 1)).
Proof.
  refine (conj (proj1 (proj1 (store_refines_sql (C:=binary_collation) 0 demo_database empty_db) demo_represents) demo_input demo_input_fits) (conj _ _)).
  all: vm_compute; reflexivity.
Defined.

Definition long_name_input : CreateRunInput :=
  MkCreateRun (String.concat "" (replicate 256 "a")) 5 "queued" "" "" "" "0af7" "".
Lemma long_name_refused_witness :
  CreateRun_sql (C:=binary_collation) 0 long_name_input demo_database = (demo_database, err err1406).
Proof.
  refine (long_name_refused (C:=binary_collation) 0 demo_database empty_db long_name_input demo_represents _).
  vm_compute. discriminate.
Defined.
