(* ===== verification/StageState.v ===== *)
(** * The runtime state of one stage (services/orchestrator/service.go)

    [stageState] counts, for every job of the stage, the needs that have not
    yet succeeded, and remembers which jobs were handed out ([queued]) and which
    ended ([completed]). Methods that mutate the receiver return the new state.
    A [map[string]bool] that only ever stores [true] is a [gset].

    The events a stage can see are polling for ready jobs, a success (or
    tolerated failure) and a terminal failure, of any name, in any order, any
    number of times. Theorems: whatever the events, no job is handed out twice
    and none before all its needs succeeded; when only handed-out jobs succeed
    the stage is never stuck, and it is complete exactly when every job of the
    stage has been handed out and has succeeded. *)

From S2P Require Import Prelude Models Graph Wellformed Planner.

Record jobConfig := MkJobConfig { allowFailures : bool; cfg_needs : list string }.
Definition zeroJobConfig : jobConfig := MkJobConfig false [].

Record stageState := MkStageState {
  plan : StagePlan;
  remainingNeeds : gmap string Z;
  queued : gset string;
  completed : gset string;
  jobConfigs : gmap string jobConfig;
  startedAt : Z;
}.

Definition newStageState (stagePlan : StagePlan) : stageState :=
  MkStageState stagePlan (InDegree stagePlan) ∅ ∅ ∅ 0.

Definition set_remaining (s : stageState) (m : gmap string Z) : stageState :=
  MkStageState (plan s) m (queued s) (completed s) (jobConfigs s) (startedAt s).
Definition set_startedAt (s : stageState) (t : Z) : stageState :=
  MkStageState (plan s) (remainingNeeds s) (queued s) (completed s) (jobConfigs s) t.
Definition set_jobConfig (s : stageState) (name : string) (c : jobConfig) : stageState :=
  MkStageState (plan s) (remainingNeeds s) (queued s) (completed s) (<[name := c]> (jobConfigs s)) (startedAt s).

Definition markQueued (s : stageState) (jobName : string) : stageState :=
  MkStageState (plan s) (remainingNeeds s) ({[jobName]} ∪ queued s) (completed s) (jobConfigs s) (startedAt s).

Definition markJobTerminal (s : stageState) (jobName : string) : stageState :=
  MkStageState (plan s) (remainingNeeds s) (queued s) ({[jobName]} ∪ completed s) (jobConfigs s) (startedAt s).

(** [remainingNeeds[n] == 0 && !queued[n] && !completed[n]] *)
Definition remaining (s : stageState) (n : string) : Z := default 0%Z (remainingNeeds s !! n).
Definition is_ready (s : stageState) (n : string) : bool :=
  bool_decide (remaining s n = 0%Z /\ n ∉ queued s /\ n ∉ completed s).

Fixpoint readyLoop (s : stageState) (jobs : list JobExecutionPlan) : stageState * list JobExecutionPlan :=
  match jobs with
  | [] => (s, [])
  | job :: rest =>
    if is_ready s (JobPlan_Name job) then
      let '(s', ready) := readyLoop (markQueued s (JobPlan_Name job)) rest in (s', job :: ready)
    else readyLoop s rest
  end.

Definition getReadyJobs (s : stageState) : stageState * list JobExecutionPlan :=
  readyLoop s (StagePlan_Jobs (plan s)).

(** [if remainingNeeds[d] > 0 { remainingNeeds[d]-- }] *)
Definition decrement (s : stageState) (d : string) : stageState :=
  if decide (0 < remaining s d)%Z
  then set_remaining s (<[d := (remaining s d - 1)%Z]> (remainingNeeds s)) else s.

Fixpoint releaseLoop (s : stageState) (dependents : list string) : stageState * list JobExecutionPlan :=
  match dependents with
  | [] => (s, [])
  | d :: rest =>
    let s1 := decrement s d in
    if is_ready s1 d then
      let '(s', ready) := releaseLoop (markQueued s1 d) rest in
      (s', default zeroJobPlan (JobByName (plan s) !! d) :: ready)
    else releaseLoop s1 rest
  end.

Definition markJobSucceeded (s : stageState) (jobName : string) : stageState * list JobExecutionPlan :=
  if decide (jobName ∈ completed s) then (s, [])
  else releaseLoop (markJobTerminal s jobName) (default [] (Dependents (plan s) !! jobName)).

Definition isStageComplete (s : stageState) : bool :=
  bool_decide (size (completed s) = size (JobByName (plan s))).

(** ** Events *)

Inductive stage_event := Poll | Success (n : string) | Terminal (n : string).

(** The state, the jobs handed out so far in order, the names that succeeded. *)
Record stage_trace := MkTrace {
  t_state : stageState;
  t_sent : list JobExecutionPlan;
  t_done : gset string;
}.

Definition stage_start (sp : StagePlan) : stage_trace := MkTrace (newStageState sp) [] ∅.

Definition stage_step (t : stage_trace) (e : stage_event) : stage_trace :=
  match e with
  | Poll => let '(s, ready) := getReadyJobs (t_state t) in MkTrace s (t_sent t ++ ready) (t_done t)
  | Success n =>
    if decide (n ∈ completed (t_state t)) then t
    else let '(s, ready) := markJobSucceeded (t_state t) n in
         MkTrace s (t_sent t ++ ready) ({[n]} ∪ t_done t)
  | Terminal n => MkTrace (markJobTerminal (t_state t) n) (t_sent t) (t_done t)
  end.

Definition stage_run (sp : StagePlan) (es : list stage_event) : stage_trace :=
  foldl stage_step (stage_start sp) es.

(** ** The invariant *)

Section stage.
Context (name : string) (p : Pipeline) (sp : StagePlan).
Context (Hvalid : valid_pipeline p) (Hplan : plan_of_stage name p sp).

Abbreviation jobs := (jobsForStage name p).
Abbreviation sent_names l := (fmap (M:=list) JobPlan_Name l).

Lemma stage_unique : NoDup (names jobs).
Proof. by apply jobsForStage_unique, vp_jobs_unique. Qed.

(** The needs of [j] that have not succeeded. *)
Definition unmet (done : gset string) (j : Job) : list string := filter (fun n => n ∉ done) (Job_Needs j).

Lemma unmet_insert done n j :
  n ∉ done -> length (unmet ({[n]} ∪ done) j) + occ n (Job_Needs j) = length (unmet done j).
Proof.
  intros Hn. unfold unmet. induction (Job_Needs j) as [|x l IH]; [done|].
  rewrite !filter_cons. simpl. repeat case_decide; simpl; set_solver by lia.
Qed.

Lemma unmet_nil done j n : unmet done j = [] -> n ∈ Job_Needs j -> n ∈ done.
Proof.
  intros E Hn. destruct (decide (n ∈ done)) as [|Hd]; [done|].
  assert (n ∈ unmet done j) as Hin by by apply list_elem_of_filter.
  rewrite E in Hin. by apply elem_of_nil in Hin.
Qed.

Definition sent_ok (done : gset string) (pl : JobExecutionPlan) : Prop :=
  exists j, j ∈ jobs /\ pl = jobPlan j /\ forall n, n ∈ Job_Needs j -> n ∈ done.

(** [todo] lists the dependents still to be decremented in a release loop. *)
Record stage_inv (s : stageState) (sent : list JobExecutionPlan) (done : gset string) (todo : list string) : Prop := {
  si_plan : plan s = sp;
  si_todo : forall n, n ∈ todo -> n ∈ names jobs;
  si_remaining : forall j, j ∈ jobs ->
    remaining s (Job_Name j) = Z.of_nat (length (unmet done j) + occ (Job_Name j) todo);
  si_queued : forall n, n ∈ queued s <-> n ∈ sent_names sent;
  si_nodup : NoDup (sent_names sent);
  si_sent : forall pl, pl ∈ sent -> sent_ok done pl;
  si_done : done ⊆ completed s;
}.

(** Whatever could be handed out has been. *)
Definition all_released (s : stageState) (done : gset string) (todo : list string) : Prop :=
  forall j, j ∈ jobs -> unmet done j = [] -> occ (Job_Name j) todo = 0 ->
    Job_Name j ∈ queued s \/ Job_Name j ∈ completed s.

Lemma is_ready_true s n :
  is_ready s n = true <-> remaining s n = 0%Z /\ n ∉ queued s /\ n ∉ completed s.
Proof. apply bool_decide_eq_true. Qed.

Lemma not_ready s n : is_ready s n = false -> remaining s n = 0%Z -> n ∈ queued s \/ n ∈ completed s.
Proof.
  intros H%bool_decide_eq_false Hr. destruct (decide (n ∈ queued s)); [by left|].
  destruct (decide (n ∈ completed s)); [by right|]. naive_solver.
Qed.

(** Handing out a job whose count is zero. *)
Lemma stage_inv_queue s sent done todo j :
  stage_inv s sent done todo -> j ∈ jobs -> is_ready s (Job_Name j) = true ->
  stage_inv (markQueued s (Job_Name j)) (sent ++ [jobPlan j]) done todo.
Proof.
  intros [Hp Ht Hr Hq Hnd Hs Hd] Hj (Hz & Hnq & _)%is_ready_true.
  assert (Hu : unmet done j = []).
  { pose proof (Hr j Hj). apply length_zero_iff_nil. lia. }
  split; simpl; try done.
  - intros n. rewrite fmap_app, elem_of_union, elem_of_singleton, elem_of_app, Hq. simpl.
    rewrite list_elem_of_singleton. naive_solver.
  - rewrite fmap_app. apply NoDup_snoc; [done|]. by rewrite <- Hq.
  - intros pl [Hpl|Hpl]%elem_of_app; [auto|]. apply list_elem_of_singleton in Hpl as ->.
    exists j. split_and!; [done|done|]. intros n. by apply unmet_nil.
Qed.

Lemma readyLoop_inv s sent done l :
  (forall j, j ∈ l -> j ∈ jobs) -> stage_inv s sent done [] ->
  let '(s', ready) := readyLoop s (jobPlan <$> l) in
  stage_inv s' (sent ++ ready) done [] /\ completed s' = completed s /\ queued s ⊆ queued s' /\
  (forall j, j ∈ l -> unmet done j = [] -> Job_Name j ∈ queued s' \/ Job_Name j ∈ completed s').
Proof.
  revert s sent. induction l as [|j l IH]; intros s sent Hl Hinv; simpl.
  - rewrite app_nil_r. split_and!; [done|done|done|]. by intros j ?%elem_of_nil.
  - destruct (is_ready s (Job_Name j)) eqn:Hrd.
    + pose proof (stage_inv_queue _ _ _ _ j Hinv ltac:(set_solver) Hrd) as Hinv'.
      specialize (IH _ _ ltac:(set_solver) Hinv'). destruct (readyLoop _ _) as [s' ready].
      rewrite <- app_assoc in IH. destruct IH as (? & ? & Hsub & Hall). split_and!; [done|done|set_solver|].
      intros k [->|Hk]%elem_of_cons Hu; [|auto]. left. apply Hsub. set_solver.
    + specialize (IH s sent ltac:(set_solver) Hinv). destruct (readyLoop _ _) as [s' ready].
      destruct IH as (? & Hc & Hsub & Hall). split_and!; [done|done|done|].
      intros k [->|Hk]%elem_of_cons Hu; [|auto].
      pose proof (si_remaining _ _ _ _ Hinv j ltac:(set_solver)) as Hr. rewrite Hu in Hr. simpl in Hr.
      destruct (not_ready _ _ Hrd Hr); [left; by apply Hsub|right; by rewrite Hc].
Qed.

Lemma decrement_inv s sent done d todo :
  stage_inv s sent done (d :: todo) -> stage_inv (decrement s d) sent done todo.
Proof.
  intros [Hp Ht Hr Hq Hnd Hs Hd]. assert (Hpos : (0 < remaining s d)%Z).
  { pose proof (Ht d ltac:(set_solver)) as (j & -> & Hj)%list_elem_of_fmap. rewrite (Hr j Hj). simpl.
    rewrite decide_True by done. lia. }
  unfold decrement. rewrite decide_True by done. split; simpl; try done.
  - set_solver.
  - intros j Hj. pose proof (Hr j Hj) as E. unfold remaining in *. simpl in *.
    destruct (decide (Job_Name j = d)) as [<-|Hne].
    + rewrite lookup_insert_eq. simpl. lia.
    + by rewrite lookup_insert_ne.
Qed.

Lemma decrement_queued s d : queued (decrement s d) = queued s.
Proof. unfold decrement. by case_decide. Qed.
Lemma decrement_completed s d : completed (decrement s d) = completed s.
Proof. unfold decrement. by case_decide. Qed.

Lemma releaseLoop_inv s sent done todo :
  stage_inv s sent done todo ->
  let '(s', ready) := releaseLoop s todo in
  stage_inv s' (sent ++ ready) done [] /\ completed s' = completed s /\
  (all_released s done todo -> all_released s' done []).
Proof.
  revert s sent. induction todo as [|d todo IH]; intros s sent Hinv; simpl; [by rewrite app_nil_r|].
  pose proof (decrement_inv _ _ _ _ _ Hinv) as Hinv1.
  pose proof (si_todo _ _ _ _ Hinv d ltac:(set_solver)) as (j & -> & Hj)%list_elem_of_fmap.
  destruct (is_ready _ _) eqn:Hrd.
  - pose proof (stage_inv_queue _ _ _ _ j Hinv1 Hj Hrd) as Hinv2.
    specialize (IH _ _ Hinv2). destruct (releaseLoop _ _) as [s' ready].
    rewrite (si_plan _ _ _ _ Hinv), (ps_byname _ _ _ Hplan j Hj). simpl.
    rewrite <- app_assoc in IH. destruct IH as (? & Hc & Hall). split_and!; [done|by rewrite Hc; simpl; apply decrement_completed|].
    intros Ha. apply Hall. intros k Hk Hu Ho. simpl. rewrite decrement_queued, decrement_completed, elem_of_union, elem_of_singleton.
    destruct (decide (Job_Name k = Job_Name j)) as [|Hne]; [by left; left|].
    destruct (Ha k Hk Hu); [simpl; by rewrite decide_False|by left; right|by right].
  - specialize (IH _ _ Hinv1). destruct (releaseLoop _ _) as [s' ready]. destruct IH as (? & Hc & Hall).
    split_and!; [done|by rewrite Hc, decrement_completed|].
    intros Ha. apply Hall. intros k Hk Hu Ho.
    destruct (decide (Job_Name k = Job_Name j)) as [E|Hne].
    + pose proof (si_remaining _ _ _ _ Hinv1 k Hk) as Hr. rewrite Hu, Ho, E in Hr.
      rewrite E. by apply not_ready.
    + rewrite decrement_queued, decrement_completed. apply Ha; [done|done|]. simpl. by rewrite decide_False.
Qed.

Lemma stage_inv_initial : stage_inv (newStageState sp) [] ∅ [].
Proof.
  split; simpl; try done.
  - set_solver.
  - intros j Hj. unfold remaining. simpl. rewrite (ps_indeg_val _ _ _ Hplan j Hj). simpl.
    assert (unmet ∅ j = Job_Needs j) as ->; [|lia].
    unfold unmet. induction (Job_Needs j) as [|n l IH]; [done|]. rewrite filter_cons_True, IH by set_solver. done.
  - set_solver.
  - constructor.
  - set_solver.
Qed.

(** Marking a name that succeeded: its dependents are to be decremented. *)
Lemma stage_inv_success s sent done n :
  stage_inv s sent done [] -> n ∉ completed s ->
  stage_inv (markJobTerminal s n) sent ({[n]} ∪ done) (default [] (Dependents (plan s) !! n)).
Proof.
  intros [Hp Ht Hr Hq Hnd Hs Hd] Hn. rewrite Hp, (ps_dependents _ _ _ Hplan).
  assert (Hdn : n ∉ done) by set_solver. split; simpl; try done.
  - intros d (j & Hd' & Hj)%list_elem_of_bind. apply elem_of_replicate in Hd' as [-> _].
    by apply list_elem_of_fmap_2.
  - intros j Hj. pose proof (Hr j Hj) as E. unfold remaining in *. simpl in *.
    rewrite (dependents_occ jobs n j stage_unique Hj), E, <- (unmet_insert done n j Hdn). lia.
  - intros pl Hpl. destruct (Hs pl Hpl) as (j & ? & ? & Hneeds). exists j. set_solver.
  - set_solver.
Qed.

Lemma success_released s done n :
  all_released s done [] -> n ∉ done ->
  all_released (markJobTerminal s n) ({[n]} ∪ done) (default [] (Dependents sp !! n)).
Proof.
  intros Ha Hn j Hj Hu Ho. rewrite (ps_dependents _ _ _ Hplan), (dependents_occ jobs n j stage_unique Hj) in Ho.
  pose proof (unmet_insert done n j Hn) as E. rewrite Hu, Ho in E. simpl in E.
  destruct (Ha j Hj); [by apply length_zero_iff_nil|done| |]; simpl; set_solver.
Qed.

Lemma plan_jobs : exists l, StagePlan_Jobs sp = jobPlan <$> l /\ l ≡ₚ jobs.
Proof. destruct (ps_jobs _ _ _ Hplan) as (l & ? & ? & _). eauto. Qed.

Lemma getReadyJobs_inv s sent done :
  stage_inv s sent done [] ->
  let '(s', ready) := getReadyJobs s in
  stage_inv s' (sent ++ ready) done [] /\ completed s' = completed s /\ all_released s' done [].
Proof.
  intros Hinv. destruct plan_jobs as (l & El & Hl). unfold getReadyJobs. rewrite (si_plan _ _ _ _ Hinv), El.
  pose proof (readyLoop_inv s sent done l) as H. destruct (readyLoop _ _) as [s' ready].
  destruct H as (? & ? & _ & Hall); [intros j; by rewrite Hl|done|]. split_and!; [done|done|].
  intros j Hj Hu _. apply Hall; [by rewrite Hl|done].
Qed.

Lemma markJobSucceeded_inv s sent done n :
  stage_inv s sent done [] -> n ∉ completed s ->
  let '(s', ready) := markJobSucceeded s n in
  stage_inv s' (sent ++ ready) ({[n]} ∪ done) [] /\ completed s' = {[n]} ∪ completed s /\
  (all_released s done [] -> all_released s' ({[n]} ∪ done) []).
Proof.
  intros Hinv Hn. unfold markJobSucceeded. rewrite decide_False by done.
  pose proof (stage_inv_success _ _ _ _ Hinv Hn) as Hinv1.
  pose proof (releaseLoop_inv _ _ _ _ Hinv1) as H. destruct (releaseLoop _ _) as [s' ready].
  destruct H as (? & Hc & Hall). split_and!; [done|done|]. intros Ha. apply Hall.
  rewrite (si_plan _ _ _ _ Hinv). apply success_released; [done|].
  pose proof (si_done _ _ _ _ Hinv). set_solver.
Qed.

Lemma markJobTerminal_inv s sent done n :
  stage_inv s sent done [] -> stage_inv (markJobTerminal s n) sent done [].
Proof. intros [Hp Ht Hr Hq Hnd Hs Hd]. split; simpl; try done. set_solver. Qed.

Lemma stage_step_inv t e :
  stage_inv (t_state t) (t_sent t) (t_done t) [] ->
  let t' := stage_step t e in stage_inv (t_state t') (t_sent t') (t_done t') [].
Proof.
  intros Hinv. destruct t as [s sent done], e as [|n|n]; simpl in *.
  - pose proof (getReadyJobs_inv _ _ _ Hinv) as H. destruct (getReadyJobs s). naive_solver.
  - case_decide as Hn; [done|]. pose proof (markJobSucceeded_inv _ _ _ _ Hinv Hn) as H.
    destruct (markJobSucceeded s n). naive_solver.
  - by apply markJobTerminal_inv.
Qed.

Lemma stage_run_inv es :
  let t := stage_run sp es in stage_inv (t_state t) (t_sent t) (t_done t) [].
Proof.
  unfold stage_run. induction es as [|e es IH] using rev_ind; [apply stage_inv_initial|].
  rewrite foldl_app. simpl. by apply stage_step_inv.
Qed.

(** The names counted as succeeded did succeed. *)
Lemma done_events es n : n ∈ t_done (stage_run sp es) -> Success n ∈ es.
Proof.
  unfold stage_run. induction es as [|e es IH] using rev_ind; [set_solver|].
  rewrite foldl_app, elem_of_app. simpl. destruct (foldl _ _ es) as [s sent done]. simpl in *.
  destruct e as [|m|m]; simpl.
  - destruct (getReadyJobs s). simpl. auto.
  - case_decide; [auto|]. destruct (markJobSucceeded s m). simpl. rewrite elem_of_union, elem_of_singleton.
    intros [->|?]; [right; by left|auto].
  - auto.
Qed.

(** C11: whatever events a stage sees (polls, successes and failures of any
    names, late, repeated, in any order): no job is handed out twice, and every
    job handed out is a job of the stage for each of whose needs a success has
    been seen by then. *)
Theorem stage_dispatch_safe es :
  let t := stage_run sp es in
  NoDup (sent_names (t_sent t)) /\
  forall pl, pl ∈ t_sent t ->
    exists j, j ∈ jobs /\ pl = jobPlan j /\ forall n, n ∈ Job_Needs j -> Success n ∈ es.
Proof.
  pose proof (stage_run_inv es) as H. split; [apply (si_nodup _ _ _ _ H)|].
  intros pl (j & ? & ? & Hn)%(si_sent _ _ _ _ H). exists j. split_and!; [done|done|].
  intros n ?%Hn. by apply done_events.
Qed.

(** ** Progress *)

(** Runs in which only handed-out jobs succeed and none fails terminally. *)
Inductive stage_reach : stage_trace -> Prop :=
| reach_start : stage_reach (stage_step (stage_start sp) Poll)
| reach_success t n :
    stage_reach t -> n ∈ sent_names (t_sent t) -> stage_reach (stage_step t (Success n)).

Record live_inv (s : stageState) (sent : list JobExecutionPlan) (done : gset string) : Prop := {
  li_inv : stage_inv s sent done [];
  li_released : all_released s done [];
  li_done : completed s = done;
  li_sent : forall n, n ∈ done -> n ∈ sent_names sent;
}.

Lemma live_success s sent n :
  live_inv s sent (completed s) -> n ∉ completed s -> n ∈ sent_names sent ->
  let '(s', ready) := markJobSucceeded s n in
  live_inv s' (sent ++ ready) (completed s') /\ completed s' = {[n]} ∪ completed s.
Proof.
  intros [Hinv Hrel _ Hs] Hn Hin.
  pose proof (markJobSucceeded_inv _ _ _ _ Hinv Hn) as H. destruct (markJobSucceeded s n) as [s' ready].
  destruct H as (Hinv' & Hc & Hrel'). split; [|done]. rewrite Hc. split; [done|auto|done|].
  intros m. rewrite fmap_app, elem_of_app, elem_of_union, elem_of_singleton. naive_solver.
Qed.

Lemma reach_live t : stage_reach t -> live_inv (t_state t) (t_sent t) (t_done t).
Proof.
  induction 1 as [|[s sent done] n _ IH Hin].
  - pose proof (getReadyJobs_inv _ _ _ stage_inv_initial) as H. unfold stage_start. simpl.
    destruct (getReadyJobs _) as [s ready]. simpl in *. destruct H as (? & Hc & ?). split; [done|done|done|set_solver].
  - simpl in *. case_decide as Hn; [done|]. destruct (li_done _ _ _ IH).
    pose proof (live_success _ _ _ IH Hn Hin) as H. destruct (markJobSucceeded s n) as [s' ready].
    destruct H as [H E]. simpl. by rewrite <- E.
Qed.

Lemma sent_in_jobs s sent done n : stage_inv s sent done [] -> n ∈ sent_names sent -> n ∈ names jobs.
Proof.
  intros Hinv (pl & -> & Hpl)%list_elem_of_fmap.
  destruct (si_sent _ _ _ _ Hinv pl Hpl) as (j & Hj & -> & _). by apply (list_elem_of_fmap_2 Job_Name).
Qed.

(** While a job is missing, some handed-out job is still running. *)
Lemma live_progress s sent done j :
  live_inv s sent done -> j ∈ jobs -> Job_Name j ∉ done ->
  exists pl, pl ∈ sent /\ JobPlan_Name pl ∉ done.
Proof.
  intros [Hinv Hrel Hd Hs] Hj Hn.
  destruct (decide (Exists (fun pl => JobPlan_Name pl ∉ done) sent)) as [(pl & ? & ?)%Exists_exists|Hex]; [eauto|].
  exfalso. assert (Hall : forall n, n ∈ sent_names sent -> n ∈ done).
  { intros n (pl & -> & Hpl)%list_elem_of_fmap. destruct (decide (JobPlan_Name pl ∈ done)); [done|].
    destruct Hex. apply Exists_exists. eauto. }
  assert (Htrap : forall x, ~ (x ∈ names jobs /\ x ∉ done)).
  { apply (needs_no_trap jobs); [intros y; by apply stage_acyclic|].
    intros x [(k & -> & Hk)%list_elem_of_fmap Hx]. destruct (unmet done k) as [|m l] eqn:Hu.
    - exfalso. destruct (Hrel k Hk Hu eq_refl) as [Hq|Hc]; [|by rewrite Hd in Hc].
      by apply Hx, Hall, (si_queued _ _ _ _ Hinv).
    - assert (m ∈ unmet done k) as Hm by (rewrite Hu; left). apply list_elem_of_filter in Hm as [Hm Hneed].
      exists m. split; [by exists k|]. split; [|done]. by eapply stage_needs_closed. }
  apply (Htrap (Job_Name j)). split; [by apply list_elem_of_fmap_2|done].
Qed.

Lemma byname_dom : dom (JobByName sp) = list_to_set (names jobs).
Proof.
  apply set_eq. intros n. rewrite elem_of_dom, elem_of_list_to_set. apply (ps_byname_dom _ _ _ Hplan).
Qed.

(** What never changes: the plan and the job configurations. *)
Lemma decrement_static s d : plan (decrement s d) = plan s /\ jobConfigs (decrement s d) = jobConfigs s.
Proof. unfold decrement. by case_decide. Qed.

Lemma readyLoop_static l s : plan (readyLoop s l).1 = plan s /\ jobConfigs (readyLoop s l).1 = jobConfigs s.
Proof.
  revert s. induction l as [|x l IH]; intros s; simpl; [done|]. destruct (is_ready s _); [|apply IH].
  specialize (IH (markQueued s (JobPlan_Name x))). by destruct (readyLoop _ l).
Qed.

Lemma releaseLoop_static l s : plan (releaseLoop s l).1 = plan s /\ jobConfigs (releaseLoop s l).1 = jobConfigs s.
Proof.
  revert s. induction l as [|d l IH]; intros s; simpl; [done|]. destruct (decrement_static s d) as [E1 E2].
  destruct (is_ready _ d).
  - specialize (IH (markQueued (decrement s d) d)). destruct (releaseLoop _ l). simpl in *.
    by rewrite <- E1, <- E2.
  - specialize (IH (decrement s d)). by rewrite <- E1, <- E2.
Qed.

Lemma markJobSucceeded_static s n :
  plan (markJobSucceeded s n).1 = plan s /\ jobConfigs (markJobSucceeded s n).1 = jobConfigs s.
Proof. unfold markJobSucceeded. case_decide; [done|]. apply (releaseLoop_static _ (markJobTerminal s n)). Qed.

(** The invariant does not depend on the configurations and the start time. *)
Lemma stage_inv_ext s s' sent done todo :
  plan s' = plan s -> remainingNeeds s' = remainingNeeds s -> queued s' = queued s -> completed s' = completed s ->
  stage_inv s sent done todo -> stage_inv s' sent done todo.
Proof.
  intros E1 E2 E3 E4 [Hp Ht Hr Hq Hnd Hs Hd]. split; rewrite ?E1, ?E3, ?E4; try done.
  intros j Hj. unfold remaining. rewrite E2. by apply Hr.
Qed.

(** A stage nobody has touched yet becomes live when it is polled. *)
Lemma poll_live s :
  plan s = sp -> remainingNeeds s = InDegree sp -> queued s = ∅ -> completed s = ∅ ->
  let '(s', ready) := getReadyJobs s in live_inv s' ready ∅ /\ completed s' = ∅.
Proof.
  intros E1 E2 E3 E4. assert (Hinv : stage_inv s [] ∅ []).
  { eapply stage_inv_ext; [| | | |apply stage_inv_initial]; done. }
  pose proof (getReadyJobs_inv _ _ _ Hinv) as H. destruct (getReadyJobs s) as [s' ready].
  destruct H as (H1 & H2 & H3). rewrite E4 in H2. split; [|done]. split; [done|done|done|]. set_solver.
Qed.

(** The count of completed names reaches the count of jobs exactly when every
    job has completed. *)
Lemma complete_iff s sent done :
  stage_inv s sent done [] -> completed s ⊆ list_to_set (names jobs) ->
  isStageComplete s = true <-> forall j, j ∈ jobs -> Job_Name j ∈ completed s.
Proof.
  intros Hinv Hsub. unfold isStageComplete.
  rewrite bool_decide_eq_true, (si_plan _ _ _ _ Hinv), <- (size_dom (JobByName sp)), byname_dom. split.
  - intros Hsz j Hj. assert (completed s = list_to_set (names jobs)) as E.
    { apply set_subseteq_size_eq; [done|lia]. }
    rewrite E, elem_of_list_to_set. by apply list_elem_of_fmap_2.
  - intros Hall. f_equal. apply set_eq. intros n. split; [apply Hsub|].
    rewrite elem_of_list_to_set. intros (j & -> & Hj)%list_elem_of_fmap. auto.
Qed.

Lemma live_bound s sent done : live_inv s sent done -> completed s ⊆ list_to_set (names jobs).
Proof.
  intros Hl n. rewrite (li_done _ _ _ Hl), elem_of_list_to_set. intros Hn.
  by eapply sent_in_jobs, (li_sent _ _ _ Hl); [apply (li_inv _ _ _ Hl)|].
Qed.

Lemma live_complete_iff s sent done :
  live_inv s sent done -> isStageComplete s = true <-> forall j, j ∈ jobs -> Job_Name j ∈ done.
Proof.
  intros Hl. rewrite <- (li_done _ _ _ Hl). eapply complete_iff; [apply (li_inv _ _ _ Hl)|by eapply live_bound].
Qed.

(** A complete stage has handed out exactly its jobs. *)
Lemma live_complete s sent done :
  live_inv s sent done -> isStageComplete s = true -> sent ≡ₚ jobPlan <$> jobs.
Proof.
  intros Hl Hc. pose proof (li_inv _ _ _ Hl) as Hinv.
  pose proof (proj1 (live_complete_iff _ _ _ Hl) Hc) as Hall. apply NoDup_Permutation.
  - eapply NoDup_fmap_1, (si_nodup _ _ _ _ Hinv).
  - apply (NoDup_fmap_1 JobPlan_Name). rewrite <- list_fmap_compose. apply stage_unique.
  - intros pl. split.
    + intros (j & Hj & -> & _)%(si_sent _ _ _ _ Hinv). by apply list_elem_of_fmap_2.
    + intros (j & -> & Hj)%list_elem_of_fmap.
      pose proof (li_sent _ _ _ Hl _ (Hall j Hj)) as (pl & E' & Hpl)%list_elem_of_fmap.
      destruct (si_sent _ _ _ _ Hinv pl Hpl) as (k & Hk & -> & _). simpl in E'.
      by rewrite (NoDup_name_inj jobs j k stage_unique Hj Hk E').
Qed.

Lemma live_incomplete s sent done :
  live_inv s sent done -> isStageComplete s = false -> exists pl, pl ∈ sent /\ JobPlan_Name pl ∉ done.
Proof.
  intros Hl E. destruct (decide (Forall (fun j => Job_Name j ∈ done) jobs)) as [HF|HF].
  - rewrite Forall_forall in HF. by rewrite (proj2 (live_complete_iff _ _ _ Hl) HF) in E.
  - apply not_Forall_Exists in HF; [|apply _]. apply Exists_exists in HF as (j & Hj & Hn).
    by eapply live_progress.
Qed.

(** C12: a stage in which only handed-out jobs succeed never gets stuck: when
    it is complete all its jobs have been handed out, each once, and have
    succeeded; until then some handed-out job has not ended. *)
Theorem stage_progress t :
  stage_reach t ->
  (isStageComplete (t_state t) = true ->
     t_sent t ≡ₚ jobPlan <$> jobs /\ forall j, j ∈ jobs -> Job_Name j ∈ t_done t) /\
  (isStageComplete (t_state t) = false -> exists pl, pl ∈ t_sent t /\ JobPlan_Name pl ∉ t_done t).
Proof.
  intros Hl%reach_live. split; [|by apply live_incomplete].
  intros E. split; [by eapply live_complete|by apply (live_complete_iff _ _ _ Hl)].
Qed.

End stage.

(** ** Witnesses *)

Definition demo_stage_plan : StagePlan :=
  default (MkStagePlan "" [] ∅ ∅ ∅ ∅) (BuildStagePlan demo_order "build" demo_pipeline).

Lemma demo_plan_of_stage : plan_of_stage "build" demo_pipeline demo_stage_plan.
Proof.
  destruct (BuildStagePlan_spec demo_order "build" demo_pipeline demo_valid) as (sp & E & H); [legal_order|].
  unfold demo_stage_plan. by rewrite E.
Qed.

Definition noisy_events : list stage_event :=
  [Success "ghost"; Poll; Success "fetch"; Success "fetch"; Terminal "lint"; Success "lint"; Success "compile"; Poll].

Lemma stage_dispatch_safe_witness :
  let t := stage_run demo_stage_plan noisy_events in
  map JobPlan_Name (t_sent t) = ["fetch"; "compile"; "lint"] /\
  NoDup (fmap (M:=list) JobPlan_Name (t_sent t)) /\
  forall pl, pl ∈ t_sent t ->
    exists j, j ∈ jobsForStage "build" demo_pipeline /\ pl = jobPlan j /\
      forall n, n ∈ Job_Needs j -> Success n ∈ noisy_events.
Proof.
  intros t. split; [vm_compute; reflexivity|].
  apply (stage_dispatch_safe "build" demo_pipeline demo_stage_plan demo_valid demo_plan_of_stage noisy_events).
Defined.

Definition demo_trace : stage_trace :=
  stage_step (stage_step (stage_step (stage_step (stage_step (stage_start demo_stage_plan)
    Poll) (Success "fetch")) (Success "lint")) (Success "lint")) (Success "compile").

Lemma demo_trace_reach : stage_reach demo_stage_plan demo_trace.
Proof.
  unfold demo_trace. repeat (apply reach_success; [|apply (bool_decide_unpack _); vm_compute; exact I]).
  apply reach_start.
Qed.

Lemma stage_progress_witness :
  isStageComplete (t_state demo_trace) = false /\
  exists pl, pl ∈ t_sent demo_trace /\ JobPlan_Name pl ∉ t_done demo_trace.
Proof.
  split; [vm_compute; reflexivity|].
  apply (stage_progress "build" demo_pipeline demo_stage_plan demo_valid demo_plan_of_stage demo_trace demo_trace_reach).
  vm_compute. reflexivity.
Defined.
