(* ===== verification/Connections.v ===== *)
(** * Connections and clients of the queue
    (mq/rabbitmq_cli.go, publisher.go, consumer.go; orchestrator/publisher.go; worker/consumer.go)

    A service opens one AMQP connection and several clients on it, each with a
    channel of its own, in confirm mode and with the queue declared. What the
    broker answers is an argument; what is opened and closed is the trace, over
    which [tracked] follows what is held. Theorem: opening a set of publishers
    ends with the connection and all its clients held, or with nothing held. *)

From S2P Require Import Prelude GoStrings Models Mq.

(** ** What is opened and closed *)

Inductive resource :=
| RConn (conn : nat)
| RClient (conn i : nat)
| RDocker
| RStore.
#[export] Instance resource_eq_dec : EqDecision resource.
Proof. solve_decision. Defined.
#[export] Instance resource_countable : Countable resource.
Proof.
  refine (inj_countable'
    (fun r => match r with RConn c => inl c | RClient c i => inr (inl (c, i)) | RDocker => inr (inr true) | RStore => inr (inr false) end)
    (fun x => match x with inl c => RConn c | inr (inl (c, i)) => RClient c i | inr (inr b) => if (b : bool) then RDocker else RStore end) _).
  by intros [].
Defined.

Inductive resource_action := Opened (r : resource) | Closed (r : resource).

(** The resources held after an action; [None] when it opens what is open or
    closes what is not. *)
Definition track (o : option (gset resource)) (a : resource_action) : option (gset resource) :=
  held ← o;
  match a with
  | Opened r => if decide (r ∈ held) then None else Some ({[r]} ∪ held)
  | Closed r => if decide (r ∈ held) then Some (held ∖ {[r]}) else None
  end.
Definition tracked (held : gset resource) (tr : list resource_action) : option (gset resource) :=
  foldl track (Some held) tr.

(** ** A client (rabbitmq_cli.go) *)

(** What [conn.Channel] and [channel.Confirm] leave behind when one of them fails. *)
Definition reopen_failed (a : attempt_env) (r : resource) : list resource_action :=
  if a_closed a then [] else match a_channel a with Some _ => [] | None => [Opened r; Closed r] end.

(** A nil connection is one that is closed. *)
Definition NewRabbitClientWithConn (cfg : Config) (a : attempt_env) (r : resource) : traced resource_action rabbit :=
  match Validate cfg with
  | inr e => ([], err (ErrWrap "%w: %v" [] ErrFatal))
  | inl _ =>
    match reopenChannelLocked a (MkRabbit false []) with
    | (_, inr e) => (reopen_failed a r, err e)
    | (client, inl _) =>
      match ensureQueueLocked a (JobQueue cfg) client with
      | inr e => ([Opened r; Closed r], err e)
      | inl _ => ([Opened r], ok client)
      end
    end
  end.

(** [startConsume], of a client. *)
Definition startConsume (a : attempt_env) (consume : option goerr) (queue : string) (c : rabbit) : res unit :=
  match ensureQueueLocked a queue c with
  | inr e => err (ErrWrap "declare queue %q: %w" [queue] e)
  | inl _ => match consume with Some e => err (ErrWrap "start consuming queue %q: %w" [queue] e) | None => ok tt end
  end.

(** [sleepWithContext] and [waitForRetry]: the pause, or the context's error. *)
Definition sleepWithContext (ctx : option goerr) : res unit := match ctx with Some e => err e | None => ok tt end.

(** [PingMQ]: the deferred calls close what was opened; a connection whose channel
    does not open is closed twice. *)
Definition PingMQ (cfg : Config) (dial channel_error declare : option goerr) : traced resource_action unit :=
  match Validate cfg with
  | inr e => ([], err (ErrWrap "mq config is invalid: %w" [] e))
  | inl _ =>
    match dial with
    | Some e => ([], err (ErrWrap "failed to connect with mq instance: %w" [] e))
    | None =>
      match channel_error with
      | Some e => ([Opened (RConn 0); Closed (RConn 0); Closed (RConn 0)], err (ErrWrap "failed to open channel: %w" [] e))
      | None =>
        ([Opened (RConn 0); Opened (RClient 0 0); Closed (RClient 0 0); Closed (RConn 0)],
         match declare with Some e => err (ErrWrap "queue %q not ready: %w" [JobQueue cfg] e) | None => ok tt end)
      end
    end
  end.

(** ** Publishers and consumers: a client and its queue *)

Record job_client := MkJobClient { jc_client : rabbit; jc_queue : string }.

(** [NewJobPublisher] and [NewJobConsumer]; [None] is a nil client. *)
Definition NewJobClient (client : option rabbit) (cfg : Config) : res job_client :=
  match client with
  | None => err (ErrNew "mq client is required" [])
  | Some c => match Validate cfg with inr e => err e | inl _ => ok (MkJobClient c (JobQueue cfg)) end
  end.

(** [newJobPublisher] and [newJobConsumer] *)
Definition openClient (cfg : Config) (a : attempt_env) (r : resource) : traced resource_action job_client :=
  client ← NewRabbitClientWithConn cfg a r;
  match NewJobClient (Some client) cfg with
  | inr e => ([Closed r], err e)
  | inl jc => ([], ok jc)
  end.

(** The loops of [createJobPublishers] and [createJobConsumers]: client [i] is
    opened, or all that were opened are closed. *)
Fixpoint openClients (fmt : string) (cfg : Config) (env : nat -> attempt_env) (conn total n i : nat) (opened : list job_client)
    : traced resource_action (list job_client) :=
  match n with
  | 0 => ([], ok opened)
  | S n' =>
    match openClient cfg (env i) (RClient conn i) with
    | (tr, inr e) => (tr ++ ((fun k => Closed (RClient conn k)) <$> seq 0 i), err (ErrWrap fmt [Itoa (Z.of_nat (S i)); Itoa (Z.of_nat total)] e))
    | (tr, inl jc) => let '(tr', r) := openClients fmt cfg env conn total n' (S i) (opened ++ [jc]) in (tr ++ tr', r)
    end
  end.

Definition createJobPublishers (cfg : Config) (env : nat -> attempt_env) (conn : nat) (count : Z) : traced resource_action (list job_client) :=
  if decide (count < 1)%Z then ([], err (ErrNew "publisher concurrency must be >= 1" []))
  else openClients "initialize job publisher %d/%d: %w" cfg env conn (Z.to_nat count) (Z.to_nat count) 0 [].

(** [newPublisherSet], before the set is made: the connection and its clients. *)
Definition dialPublishers (cfg : Config) (dial : res nat) (env : nat -> attempt_env) (concurrency : Z)
    : traced resource_action (list job_client) :=
  match dial with
  | inr e => ([], err (ErrWrap "fail to connect RabbitMQ: %w" [] e))
  | inl conn =>
    match createJobPublishers cfg env conn concurrency with
    | (tr, inr e) => (Opened (RConn conn) :: tr ++ [Closed (RConn conn)], err (ErrWrap "fail to create publishers: %w" [] e))
    | (tr, inl pubs) => (Opened (RConn conn) :: tr, ok pubs)
    end
  end.

(** [strconv.Atoi] of a positive number, or the default. *)
Definition loadConcurrency (key : string) (fallback : Z) (env : string -> string) : Z :=
  let raw := TrimSpace (env key) in
  if decide (raw = "") then fallback else
  match ParseInt64 raw with
  | Some v => if decide (v < 1)%Z then fallback else v
  | None => fallback
  end.
Definition loadPublisherConcurrency : (string -> string) -> Z := loadConcurrency "PUBLISHER_CONCURRENCY" 1.
Definition loadWorkerConcurrency : (string -> string) -> Z := loadConcurrency "WORKER_CONCURRENCY" 1.

Lemma loadConcurrency_positive key fallback env : (1 <= fallback)%Z -> (1 <= loadConcurrency key fallback env)%Z.
Proof. unfold loadConcurrency. intros H. repeat (case_decide || case_match); lia. Qed.

Definition createJobConsumers (cfg : Config) (env : nat -> attempt_env) (getenv : string -> string) (conn : nat)
    : traced resource_action (list job_client) :=
  let consumerNumber := loadWorkerConcurrency getenv in
  if decide (consumerNumber < 1)%Z then ([], err (ErrNew "worker concurrency must be >= 1" []))
  else openClients "initialize worker %d/%d: %w" cfg env conn (Z.to_nat consumerNumber) (Z.to_nat consumerNumber) 0 [].

(** ** What is held *)

Lemma tracked_app h tr1 tr2 h' : tracked h tr1 = Some h' -> tracked h (tr1 ++ tr2) = tracked h' tr2.
Proof. unfold tracked. rewrite foldl_app. by intros ->. Qed.
Lemma tracked_open h r tr : r ∉ h -> tracked h (Opened r :: tr) = tracked ({[r]} ∪ h) tr.
Proof. intros H. unfold tracked. simpl. by rewrite decide_False. Qed.
Lemma tracked_close h r tr : r ∈ h -> tracked h (Closed r :: tr) = tracked (h ∖ {[r]}) tr.
Proof. intros H. unfold tracked. simpl. by rewrite decide_True. Qed.

Lemma tracked_open_close h r : r ∉ h -> tracked h [Opened r; Closed r] = Some h.
Proof. intros H. rewrite tracked_open, tracked_close by set_solver. unfold tracked. simpl. f_equal. set_solver. Qed.

Lemma tracked_close_all h (l : list resource) : NoDup l -> Forall (fun r => r ∈ h) l ->
  tracked h (Closed <$> l) = Some (h ∖ list_to_set l).
Proof.
  intros Hl. revert h. induction Hl as [|r l Hr Hl IH]; intros h Hh; [unfold tracked; simpl; f_equal; set_solver|].
  apply Forall_cons in Hh as [Hr' Hh]. rewrite fmap_cons, tracked_close, IH; [f_equal; set_solver| |done].
  apply Forall_forall. intros x Hx. rewrite Forall_forall in Hh. set_solver.
Qed.

Definition clients (conn n : nat) : gset resource := list_to_set (RClient conn <$> seq 0 n).

Lemma elem_of_clients conn n r : r ∈ clients conn n <-> exists k, k < n /\ r = RClient conn k.
Proof.
  unfold clients. rewrite elem_of_list_to_set, list_elem_of_fmap. setoid_rewrite elem_of_seq.
  split; intros (k & ? & ?); exists k; split; (done || lia).
Qed.

Lemma tracked_close_clients conn n base : (forall k, RClient conn k ∉ base) ->
  tracked (clients conn n ∪ base) ((fun k => Closed (RClient conn k)) <$> seq 0 n) = Some base.
Proof.
  intros Hb. rewrite (list_fmap_compose (RClient conn) Closed), tracked_close_all.
  - f_equal. fold (clients conn n). apply set_eq. intros r. rewrite elem_of_difference, elem_of_union, elem_of_clients.
    split; [naive_solver|]. intros Hr. split; [by right|]. intros (k & _ & ->). by apply Hb in Hr.
  - apply NoDup_fmap_2, NoDup_seq. by intros ? ? [= ->].
  - apply Forall_forall. intros r Hr. apply elem_of_union_l. unfold clients. by apply elem_of_list_to_set.
Qed.

Lemma clients_S conn i : clients conn (S i) = {[RClient conn i]} ∪ clients conn i.
Proof.
  apply set_eq. intros r. rewrite elem_of_union, elem_of_singleton, !elem_of_clients. split.
  - intros (k & Hk & ->). destruct (decide (k = i)) as [->|]; [by left|]. right. exists k. split; [lia|done].
  - intros [->|(k & Hk & ->)]; [exists i|exists k]; split; (done || lia).
Qed.

(** A client that can be used: its channel is open, and its queue is the configured one. *)
Definition usable (cfg : Config) (jc : job_client) : Prop := channel (jc_client jc) = true /\ jc_queue jc = JobQueue cfg.

Lemma reopen_tracked a c r h e : r ∉ h -> (reopenChannelLocked a c).2 = inr e -> tracked h (reopen_failed a r) = Some h.
Proof.
  unfold reopenChannelLocked, reopen_failed. intros Hr. destruct (a_closed a); [done|].
  destruct (a_channel a); [done|]. destruct (a_confirm_mode a); [|done]. intros _. by apply tracked_open_close.
Qed.

Lemma openClient_tracked cfg a r h : r ∉ h ->
  let '(tr, o) := openClient cfg a r in
  tracked h tr = Some (match o with inl _ => {[r]} ∪ h | inr _ => h end) /\ forall jc, o = ok jc -> usable cfg jc.
Proof.
  intros Hr. unfold openClient, NewRabbitClientWithConn, NewJobClient. destruct (Validate cfg) as [[]|e]; [|done].
  pose proof (fun e => reopen_tracked a (MkRabbit false []) r h e Hr) as Hre.
  assert (Hopen : forall c, reopenChannelLocked a (MkRabbit false []) = (c, ok tt) -> channel c = true).
  { unfold reopenChannelLocked. intros c. by repeat case_match; intros [= <-]. }
  destruct (reopenChannelLocked a (MkRabbit false [])) as [c [[]|e]]; [|by split; [apply (Hre e)|]].
  destruct (ensureQueueLocked a (JobQueue cfg) c) as [[]|e]; simpl.
  - split; [by rewrite tracked_open|]. intros jc [= <-]. split; [by apply Hopen|done].
  - split; [by apply tracked_open_close|done].
Qed.

Lemma openClients_tracked fmt cfg env conn total base : (forall k, RClient conn k ∉ base) -> forall n i opened,
  length opened = i -> Forall (usable cfg) opened ->
  let '(tr, o) := openClients fmt cfg env conn total n i opened in
  tracked (clients conn i ∪ base) tr = Some (match o with inl _ => clients conn (i + n) ∪ base | inr _ => base end) /\
  forall l, o = ok l -> length l = i + n /\ Forall (usable cfg) l.
Proof.
  intros Hb. induction n as [|n IH]; intros i opened Hlen Hus; simpl.
  { rewrite Nat.add_0_r. split; [done|]. by intros l [= <-]. }
  assert (Hi : RClient conn i ∉ clients conn i ∪ base).
  { rewrite elem_of_union, elem_of_clients. intros [(k & Hk & [= ->])|H]; [lia|by apply Hb in H]. }
  pose proof (openClient_tracked cfg (env i) _ _ Hi) as Ho. destruct (openClient cfg (env i) (RClient conn i)) as [tr [jc|e]].
  - destruct Ho as [Htr Hjc]. specialize (Hjc jc eq_refl). specialize (IH (S i) (opened ++ [jc])).
    destruct (openClients fmt cfg env conn total n (S i) (opened ++ [jc])) as [tr' o].
    destruct IH as [Htr' Hl]; [rewrite length_app; simpl; lia|by apply Forall_app; split; [|constructor]|].
    rewrite (tracked_app _ _ _ _ Htr), (assoc_L (∪)), <- clients_S, Htr'.
    replace (i + S n) with (S i + n) by lia. by split.
  - destruct Ho as [Htr _]. split; [|done]. rewrite (tracked_app _ _ _ _ Htr).
    by rewrite (tracked_close_clients conn i base Hb).
Qed.

(** A set of publishers is opened as a whole: with a connection that is not in
    use, it ends with that connection and one usable client per configured
    publisher held, or with nothing new held. *)
Theorem dialPublishers_spec cfg conn env concurrency held :
  RConn conn ∉ held -> (forall k, RClient conn k ∉ held) ->
  let '(tr, o) := dialPublishers cfg (ok conn) env concurrency in
  tracked held tr = Some (match o with
    | inl _ => clients conn (Z.to_nat concurrency) ∪ ({[RConn conn]} ∪ held)
    | inr _ => held end) /\
  forall pubs, o = ok pubs -> (1 <= concurrency)%Z /\ length pubs = Z.to_nat concurrency /\ Forall (usable cfg) pubs.
Proof.
  intros Hc Hk. unfold dialPublishers, createJobPublishers. cbn [ok].
  set (base := {[RConn conn]} ∪ held). assert (Hb : forall k, RClient conn k ∉ base) by (intros k; specialize (Hk k); set_solver).
  assert (Hback : base ∖ {[RConn conn]} = held) by set_solver.
  case_decide as Hn.
  { split; [|done]. rewrite tracked_open by done. fold base. rewrite app_nil_l, tracked_close by set_solver. by rewrite Hback. }
  pose proof (openClients_tracked "initialize job publisher %d/%d: %w" cfg env conn (Z.to_nat concurrency) base Hb
    (Z.to_nat concurrency) 0 [] eq_refl (Forall_nil_2 _)) as Ho.
  destruct (openClients _ _ _ _ _ _ _ _) as [tr o]. destruct Ho as [Htr Hl].
  assert (E0 : clients conn 0 ∪ base = base) by (unfold clients; set_solver). rewrite E0 in Htr.
  destruct o as [pubs|e].
  - split; [by rewrite tracked_open|]. intros ? [= <-]. destruct (Hl pubs eq_refl). split; [lia|done].
  - split; [|done]. rewrite tracked_open by done. fold base. rewrite (tracked_app _ _ _ _ Htr), tracked_close by set_solver. by rewrite Hback.
Qed.

(** The second of three clients cannot declare its queue. *)
Definition demo_amqp (i : nat) : attempt_env :=
  MkAttempt (if decide (i = 1) then Some (ErrIs "amqp unrecoverable") else None) None (inl true) false false None None None.

Lemma dialPublishers_spec_witness :
  let '(tr, o) := dialPublishers (LoadConfig (fun _ => "")) (ok 7) demo_amqp 3 in
  tracked ∅ tr = Some ∅ /\
  tr = [Opened (RConn 7); Opened (RClient 7 0); Opened (RClient 7 1); Closed (RClient 7 1); Closed (RClient 7 0); Closed (RConn 7)].
Proof.
  pose proof (dialPublishers_spec (LoadConfig (fun _ => "")) 7 demo_amqp 3 ∅ ltac:(set_solver) ltac:(set_solver)) as H.
  destruct (dialPublishers (LoadConfig (fun _ => "")) (ok 7) demo_amqp 3) as [tr o] eqn:E.
  vm_compute in E. injection E as <- <-. split; [apply H|reflexivity].
Defined.
