(* ===== verification/Publisher.v ===== *)
(** * The orchestrator's publishers (services/orchestrator/publisher.go, dispatch.go)

    A [publisherManager] holds the current set of publishers over one AMQP
    connection and the retired sets still in use. Sets are shared by pointer:
    the manager's heap maps pointers to sets. The manager's methods are atomic
    (they hold its mutex, or are one atomic instruction); [releaseSet] is two
    atomic parts. [enqueueJob] composes them; concurrent calls interleave in
    the step relation [pool_step].

    Theorems: a set is closed only when retired and unreferenced, so no call
    ever publishes through a closed set, and once all calls have returned only
    the current set is open; [enqueueJob] publishes at most three times, each of
    which may leave up to three copies of the message at the broker, and
    implements the [JobSink] interface the dispatcher is verified against. *)

From S2P Require Import Prelude GoStrings Models Mq.

(** ** The interface of the job queue

    What the dispatcher relies on. Whether a call confirms its message or returns
    an error, the broker may hold copies of it: a publish whose confirmation is lost
    or late is enqueued all the same, and is tried again. A call that returns nil leaves
    at least one; while the queue is healthy, every call returns nil and leaves one.
    [requested] is a history: the messages that calls were made for. *)
Definition max_copies : nat := 9.

Class JobSink (Q : Type) := {
  enqueueJob : JobExecutionMessage -> Q -> Q * res unit;
  requested : Q -> list JobExecutionMessage;
  held : Q -> list JobExecutionMessage;
  healthy : Q -> Prop;
  enqueueJob_requested msg q q' r : enqueueJob msg q = (q', r) -> requested q' = requested q ++ [msg];
  enqueueJob_held msg q q' r : enqueueJob msg q = (q', r) ->
    exists k, k <= max_copies /\ held q' = held q ++ replicate k msg /\ (r = ok tt -> 0 < k);
  enqueueJob_healthy msg q : healthy q ->
    exists q', enqueueJob msg q = (q', ok tt) /\ healthy q' /\ held q' = held q ++ [msg];
}.

(** ** Sets and the manager *)

Abbreviation ptr := nat.

Record publisherSet := MkSet {
  gen : Z;
  pubs : list rabbit;
  idx : Z;
  retired : bool;
  refs : Z;
  closings : nat;  (** how often [Close] ran on the set *)
}.

Record publisherManager := MkManager {
  heap : gmap ptr publisherSet;
  fresh : ptr;
  current : option ptr;
  stale : gmap Z ptr;
}.

Definition set_heap (m : publisherManager) (h : gmap ptr publisherSet) : publisherManager :=
  MkManager h (fresh m) (current m) (stale m).
Definition update_set (m : publisherManager) (p : ptr) (f : publisherSet -> publisherSet) : publisherManager :=
  set_heap m (alter f p (heap m)).

Definition add_refs (d : Z) (s : publisherSet) : publisherSet :=
  MkSet (gen s) (pubs s) (idx s) (retired s) (refs s + d) (closings s).
Definition retire (s : publisherSet) : publisherSet :=
  MkSet (gen s) (pubs s) (idx s) true (refs s) (closings s).
Definition close_set (s : publisherSet) : publisherSet :=
  MkSet (gen s) (pubs s) (idx s) (retired s) (refs s) (S (closings s)).

(** [nextPublisher]: the index of the publisher to use. The counter is an
    int64 and Go's [%] keeps the sign, so a wrapped counter indexes out of range. *)
Definition nextPublisher (s : publisherSet) : go (option (publisherSet * nat)) :=
  match pubs s with
  | [] => Ret None
  | _ =>
    let counter := wrap64 (idx s + 1) in
    let i := Z.rem (wrap64 (counter - 1)) (Z.of_nat (length (pubs s))) in
    if decide (i < 0)%Z then Panic
    else Ret (Some (MkSet (gen s) (pubs s) counter (retired s) (refs s) (closings s), Z.to_nat i))
  end.

(** [newPublisherSet], of what dialling and opening the publishers gave: see
    [dialPublishers] of Connections, whose error has the texts. *)
Definition newPublisherSet (outcome : res (list rabbit)) (g : Z) : res publisherSet :=
  match outcome with
  | inl ps => ok (MkSet g ps 0 false 0 0)
  | inr e => err e
  end.

Definition newPublisherManager (outcome : res (list rabbit)) : res publisherManager :=
  match newPublisherSet outcome 0 with
  | inl s => ok (MkManager {[0 := s]} 1 (Some 0) ∅)
  | inr e => err (ErrWrap "create publisher set failed: %w" [] e)
  end.

Definition acquireCurrentSet (m : publisherManager) : publisherManager * option ptr :=
  match current m with
  | None => (m, None)
  | Some p => (update_set m p (add_refs 1), Some p)
  end.

(** [releaseSet]: the decrement and the test of [retired] ... *)
Definition release_refs (m : publisherManager) (p : ptr) : publisherManager * bool :=
  let m' := update_set m p (add_refs (-1)) in
  (m', match heap m' !! p with
       | Some s => bool_decide (refs s = 0%Z) && retired s
       | None => false
       end).

(** ... and, when both said so, the part under the mutex. *)
Definition release_close (m : publisherManager) (p : ptr) : publisherManager :=
  match heap m !! p with
  | Some s =>
    if retired s && bool_decide (refs s = 0%Z)
    then MkManager (alter close_set p (heap m)) (fresh m) (current m) (delete (gen s) (stale m))
    else m
  | None => m
  end.

Definition releaseSet (m : publisherManager) (p : ptr) : publisherManager :=
  let '(m', last) := release_refs m p in if last then release_close m' p else m'.

Definition rebuildIfCurrent (outcome : res (list rabbit)) (m : publisherManager) (failed : ptr)
    : publisherManager * res unit :=
  if decide (current m ≠ Some failed) then (m, ok tt) else
  match heap m !! failed with
  | None => (m, ok tt)
  | Some s =>
    match newPublisherSet outcome (gen s + 1) with
    | inr e => (m, err (ErrWrap "create publisher set failed: %w" [] e))
    | inl ns =>
      (MkManager (<[fresh m := ns]> (alter retire failed (heap m))) (S (fresh m)) (Some (fresh m))
         (<[gen s := failed]> (stale m)), ok tt)
    end
  end.

(** [Close]: retire the current set, close and forget every unreferenced one. *)
Definition closable (m : publisherManager) (p : ptr) : bool :=
  match heap m !! p with Some s => bool_decide (refs s = 0%Z) | None => false end.

Definition managerClose (m : publisherManager) : publisherManager :=
  let m1 := match current m with
            | None => m
            | Some p =>
              MkManager (alter retire p (heap m)) (fresh m) None
                (match heap m !! p with Some s => <[gen s := p]> (stale m) | None => stale m end)
            end in
  let toClose := filter (fun p => closable m1 p = true) (map_to_list (stale m1)).*2 in
  MkManager (foldl (fun h p => alter close_set p h) (heap m1) toClose) (fresh m1) (current m1)
    (filter (fun kp : Z * ptr => closable m1 kp.2 = false) (stale m1)).

(** ** Concurrent use

    A call holds the set it acquired, or is about to run the second part of
    [releaseSet] on it. *)
Inductive pc := Holding (p : ptr) | Closing (p : ptr).
#[export] Instance pc_eq_dec : EqDecision pc.
Proof. solve_decision. Defined.

Record pool := MkPool { manager : publisherManager; calls : gmap nat pc }.

Inductive pool_step : pool -> pool -> Prop :=
| step_acquire m ts t m' p :
    ts !! t = None -> acquireCurrentSet m = (m', Some p) ->
    pool_step (MkPool m ts) (MkPool m' (<[t := Holding p]> ts))
| step_rebuild m ts t p outcome m' r :
    ts !! t = Some (Holding p) -> rebuildIfCurrent outcome m p = (m', r) ->
    pool_step (MkPool m ts) (MkPool m' ts)
| step_release m ts t p m' :
    ts !! t = Some (Holding p) -> release_refs m p = (m', false) ->
    pool_step (MkPool m ts) (MkPool m' (delete t ts))
| step_release_last m ts t p m' :
    ts !! t = Some (Holding p) -> release_refs m p = (m', true) ->
    pool_step (MkPool m ts) (MkPool m' (<[t := Closing p]> ts))
| step_close_set m ts t p :
    ts !! t = Some (Closing p) ->
    pool_step (MkPool m ts) (MkPool (release_close m p) (delete t ts))
| step_close_manager m ts :
    pool_step (MkPool m ts) (MkPool (managerClose m) ts).

(** The calls that hold a set. *)
Definition holders (ts : gmap nat pc) (p : ptr) : nat := size (filter (fun tp : nat * pc => tp.2 = Holding p) ts).

(** ** The invariant of concurrent use *)

Lemma holders_insert ts t x q :
  ts !! t = None -> holders (<[t := x]> ts) q = holders ts q + (if decide (x = Holding q) then 1 else 0).
Proof.
  intros Ht. unfold holders. case_decide as Hx.
  - rewrite map_filter_insert_True by done. rewrite map_size_insert_None; [lia|].
    by apply map_lookup_filter_None_2; left.
  - rewrite map_filter_insert_False by done. rewrite delete_id by done. lia.
Qed.

Lemma holders_delete ts t x q :
  ts !! t = Some x -> holders ts q = holders (delete t ts) q + (if decide (x = Holding q) then 1 else 0).
Proof.
  intros Ht. rewrite <- (insert_delete_id ts t x Ht) at 1. apply holders_insert, lookup_delete_eq.
Qed.

Lemma holders_update ts t x y q :
  ts !! t = Some x ->
  holders (<[t := y]> ts) q + (if decide (x = Holding q) then 1 else 0)
  = holders ts q + (if decide (y = Holding q) then 1 else 0).
Proof.
  intros Ht. rewrite (holders_delete ts t x q Ht), <- insert_delete_eq, holders_insert by apply lookup_delete_eq. lia.
Qed.

Lemma holders_0 ts q : (forall u, ts !! u ≠ Some (Holding q)) -> holders ts q = 0.
Proof.
  intros H. unfold holders. apply map_size_empty_iff, map_empty. intros u.
  apply map_lookup_filter_None. right. intros x Hx. simpl. intros ->. by apply (H u).
Qed.

(** What a set's counters say, given how many calls hold it, whether some call
    is about to close it, and whether it is the current one. *)
Record set_ok (s : publisherSet) (held : nat) (closing is_current : Prop) : Prop := {
  so_refs : refs s = Z.of_nat held;
  so_current : is_current -> retired s = false;
  so_closed : 0 < closings s -> retired s = true /\ held = 0;
  so_closing : closing -> retired s = true;
  so_no_leak : retired s = true -> held = 0 -> 0 < closings s \/ closing;
  so_live : ~ is_current -> retired s = true;
}.

#[export] Instance set_ok_proper s held : Proper (iff ==> iff ==> iff) (set_ok s held).
Proof. intros c1 c2 Hc k1 k2 Hk. split; intros []; split; naive_solver. Qed.

Definition is_closing (ts : gmap nat pc) (p : ptr) : Prop := exists t, ts !! t = Some (Closing p).

Record pool_ok (st : pool) : Prop := {
  po_set : forall p s, heap (manager st) !! p = Some s ->
    set_ok s (holders (calls st) p) (is_closing (calls st) p) (current (manager st) = Some p);
  po_calls : forall t p, calls st !! t = Some (Holding p) \/ calls st !! t = Some (Closing p) ->
    is_Some (heap (manager st) !! p);
  po_current : forall p, current (manager st) = Some p -> is_Some (heap (manager st) !! p);
  po_fresh : forall p, is_Some (heap (manager st) !! p) -> p < fresh (manager st);
  po_stale : forall g p, stale (manager st) !! g = Some p -> is_Some (heap (manager st) !! p) /\ current (manager st) ≠ Some p;
}.

Lemma closing_insert ts t p q : ts !! t = None -> is_closing (<[t := Holding p]> ts) q <-> is_closing ts q.
Proof.
  intros Ht. split; intros [u Hu]; exists u.
  - apply lookup_insert_Some in Hu as [[_ ?]|[_ ?]]; done.
  - rewrite lookup_insert_ne; [done|]. by intros ->; rewrite Ht in Hu.
Qed.

Lemma closing_delete_holding ts t p q :
  ts !! t = Some (Holding p) -> is_closing (delete t ts) q <-> is_closing ts q.
Proof.
  intros Ht. split; intros [u Hu]; exists u.
  - by apply lookup_delete_Some in Hu as [_ ?].
  - apply lookup_delete_Some. split; [|done]. intros <-. by rewrite Ht in Hu.
Qed.

Lemma closing_update ts t p q :
  ts !! t = Some (Holding p) -> is_closing (<[t := Closing p]> ts) q <-> is_closing ts q \/ q = p.
Proof.
  intros Ht. split.
  - intros [u Hu]. apply lookup_insert_Some in Hu as [[<- [= ->]]|[_ ?]]; [by right|left; by exists u].
  - intros [[u Hu]| ->]; [|exists t; apply lookup_insert_eq]. exists u. rewrite lookup_insert_ne; [done|].
    intros <-. by rewrite Ht in Hu.
Qed.

Lemma pool_ok_acquire m ts t m' p :
  pool_ok (MkPool m ts) -> ts !! t = None -> acquireCurrentSet m = (m', Some p) ->
  pool_ok (MkPool m' (<[t := Holding p]> ts)).
Proof.
  unfold acquireCurrentSet. intros [Hset Hcalls Hcur Hfresh Hstale] Ht. simpl in *.
  destruct (current m) as [c|] eqn:Ec; [|done]. intros [= <- <-]. split; simpl.
  - intros q s Hq. rewrite Ec, holders_insert by done. apply lookup_alter_Some in Hq as [(<- & s0 & Hs0 & ->)|[Hne Hq]].
    + rewrite decide_True by done. destruct (Hset _ _ Hs0) as [R1 R2 R3 R4 R5 R6].
      specialize (R2 eq_refl). split; simpl; rewrite ?closing_insert by done; try done; [lia|..];
        intros; naive_solver congruence.
    + rewrite decide_False by (intros [= ->]; done). rewrite Nat.add_0_r.
      destruct (Hset _ _ Hq) as [R1 R2 R3 R4 R5 R6]. split; try done; rewrite closing_insert by done; done.
  - intros u q Hu. rewrite lookup_alter_is_Some. destruct (decide (t = u)) as [<-|Hne].
    + rewrite lookup_insert_eq in Hu. destruct Hu as [[= <-]|]; [by apply Hcur|done].
    + rewrite lookup_insert_ne in Hu by done. by eapply Hcalls.
  - intros q Hq. rewrite lookup_alter_is_Some. apply Hcur. congruence.
  - intros q. rewrite lookup_alter_is_Some. apply Hfresh.
  - intros g q Hq. rewrite lookup_alter_is_Some, Ec. by eapply Hstale.
Qed.

Lemma pool_ok_rebuild m ts t p outcome m' r :
  pool_ok (MkPool m ts) -> ts !! t = Some (Holding p) -> rebuildIfCurrent outcome m p = (m', r) ->
  pool_ok (MkPool m' ts).
Proof.
  unfold rebuildIfCurrent. intros Hok Ht. case_decide as Hc; [by intros [= <- _]|].
  destruct (heap m !! p) as [s|] eqn:Hp; [|by intros [= <- _]].
  destruct outcome as [ps|e]; [|by intros [= <- _]]. intros [= <- _].
  destruct Hok as [Hset Hcalls Hcur Hfresh Hstale]. simpl in *. pose proof (Hfresh p ltac:(eauto)) as Hlt.
  assert (Hnew : heap m !! fresh m = None).
  { destruct (heap m !! fresh m) eqn:E; [|done]. pose proof (Hfresh (fresh m) ltac:(eauto)). lia. }
  assert (Hnot : forall u, ts !! u = Some (Holding (fresh m)) \/ ts !! u = Some (Closing (fresh m)) -> False).
  { intros u Hu. apply Hcalls in Hu. rewrite Hnew in Hu. by destruct Hu. }
  assert (Hh : 0 < holders ts p).
  { rewrite (holders_delete ts t _ p Ht), decide_True by done. lia. }
  split; simpl.
  - intros q x. rewrite lookup_insert_Some, lookup_alter_Some.
    intros [[<- <-]|[Hne [(<- & s0 & Hs0 & ->)|[Hnp Hq]]]].
    + assert (holders ts (fresh m) = 0) as ->.
      { apply holders_0. intros u Hu. eauto. }
      split; simpl; try done; try lia. intros [u Hu]. exfalso; eauto.
    + destruct (Hset _ _ Hs0) as [R1 R2 R3 R4 R5 R6]. split; simpl; try done.
      * intros [= E]. lia.
      * intros Hcl. destruct (R3 Hcl). lia.
      * intros _ E. lia.
    + assert (Hcur' : Some (fresh m) = Some q <-> current m = Some q).
      { rewrite Hc. split; intros [= E]; lia || congruence. }
      rewrite Hcur'. by apply Hset.
  - intros u q Hu. rewrite lookup_insert_is_Some, lookup_alter_is_Some. destruct (decide (fresh m = q)); [by left|].
    right. split; [done|]. by eapply Hcalls.
  - intros q [= <-]. rewrite lookup_insert_eq. by eexists.
  - intros q. rewrite lookup_insert_is_Some, lookup_alter_is_Some. intros [<-|[_ Hq]]; [lia|].
    apply Hfresh in Hq. lia.
  - intros g q. rewrite lookup_insert_Some, lookup_insert_is_Some, lookup_alter_is_Some.
    intros [[_ <-]|[_ Hq]].
    + split; [right; split; [lia|by rewrite Hp]|]. intros [= E]. lia.
    + destruct (Hstale _ _ Hq) as [Hs _]. pose proof (Hfresh _ Hs). split; [right; split; [lia|done]|]. intros [= E]. lia.
Qed.

(** Both outcomes of the first part of [releaseSet]. *)
Lemma pool_ok_release m ts t p m' last :
  pool_ok (MkPool m ts) -> ts !! t = Some (Holding p) -> release_refs m p = (m', last) ->
  pool_ok (MkPool m' (if last then <[t := Closing p]> ts else delete t ts)).
Proof.
  intros [Hset Hcalls Hcur Hfresh Hstale] Ht. simpl in *.
  destruct (Hcalls t p (or_introl Ht)) as [s0 Hs0].
  unfold release_refs, update_set. simpl. rewrite lookup_alter_eq, Hs0. simpl. intros [= <- Hlast].
  pose proof (Hset _ _ Hs0) as [R1 R2 R3 R4 R5 R6].
  pose proof (holders_delete ts t _ p Ht) as Hh. rewrite decide_True in Hh by done.
  assert (Hheld : forall q, holders (if last then <[t:=Closing p]> ts else delete t ts) q
                            = if decide (q = p) then pred (holders ts q) else holders ts q).
  { intros q. pose proof (holders_delete ts t _ q Ht). pose proof (holders_update ts t _ (Closing p) q Ht) as Hu.
    destruct last; repeat case_decide; simplify_eq; lia. }
  assert (Hclo : forall q, is_closing (if last then <[t:=Closing p]> ts else delete t ts) q
                           <-> is_closing ts q \/ (last = true /\ q = p)).
  { intros q. destruct last; [rewrite closing_update by done|rewrite closing_delete_holding by done]; naive_solver. }
  split; simpl.
  - intros q s. rewrite lookup_alter_Some, Hheld, Hclo. intros [(<- & s1 & Hs1 & ->)|[Hne Hq]].
    + rewrite decide_True by done. rewrite Hs0 in Hs1. injection Hs1 as <-.
      assert (Hl : last = true <-> pred (holders ts p) = 0 /\ retired s0 = true).
      { rewrite <- Hlast, andb_true_iff, bool_decide_eq_true. split; intros [? ?]; (split; [lia|done]). }
      split; simpl; try done.
      * lia.
      * intros Hcl. destruct (R3 Hcl). lia.
      * intros [?|[? _]]; [auto|]. by apply Hl.
      * intros Hr E. right. right. split; [|done]. by apply Hl.
    + rewrite decide_False by congruence. assert (Hcl : is_closing ts q \/ last = true /\ q = p <-> is_closing ts q) by naive_solver.
      rewrite Hcl. by apply Hset.
  - intros u q Hu. rewrite lookup_alter_is_Some. apply (Hcalls u).
    destruct last; [apply or_comm in Hu; rewrite !lookup_insert_Some in Hu|rewrite !lookup_delete_Some in Hu]; naive_solver.
  - intros q Hq. rewrite lookup_alter_is_Some. by apply Hcur.
  - intros q. rewrite lookup_alter_is_Some. apply Hfresh.
  - intros g q Hq. rewrite lookup_alter_is_Some. by eapply Hstale.
Qed.

Lemma pool_ok_close_set m ts t p :
  pool_ok (MkPool m ts) -> ts !! t = Some (Closing p) -> pool_ok (MkPool (release_close m p) (delete t ts)).
Proof.
  intros [Hset Hcalls Hcur Hfresh Hstale] Ht. simpl in *.
  destruct (Hcalls t p (or_intror Ht)) as [s0 Hs0]. pose proof (Hset _ _ Hs0) as [R1 R2 R3 R4 R5 R6].
  assert (Hret : retired s0 = true) by (apply R4; by exists t).
  assert (Hheld : forall q, holders (delete t ts) q = holders ts q).
  { intros q. pose proof (holders_delete ts t _ q Ht) as H. rewrite decide_False in H by done. lia. }
  assert (Hclo : forall q, q ≠ p -> is_closing (delete t ts) q <-> is_closing ts q).
  { intros q Hq. split; intros [u Hu]; exists u; [by apply lookup_delete_Some in Hu as [_ ?]|].
    apply lookup_delete_Some. split; [|done]. intros <-. congruence. }
  assert (Hsub : is_closing (delete t ts) p -> is_closing ts p).
  { intros [u Hu]. exists u. by apply lookup_delete_Some in Hu as [_ ?]. }
  assert (Hpc : forall u q, delete t ts !! u = Some (Holding q) \/ delete t ts !! u = Some (Closing q) ->
                is_Some (heap m !! q)).
  { intros u q. rewrite !lookup_delete_Some. intros [[_ ?]|[_ ?]]; eauto. }
  unfold release_close. rewrite Hs0, Hret. simpl. case_bool_decide as Hz; simpl.
  - split; simpl.
    + intros q s. rewrite lookup_alter_Some, Hheld. intros [(<- & s1 & Hs1 & ->)|[Hne Hq]].
      * rewrite Hs0 in Hs1. injection Hs1 as <-. split; simpl; try done; [intros _; split; [done|lia]|intros _ _; left; lia].
      * rewrite Hclo by done. by apply Hset.
    + intros u q Hu. rewrite lookup_alter_is_Some. eauto.
    + intros q Hq. rewrite lookup_alter_is_Some. by apply Hcur.
    + intros q. rewrite lookup_alter_is_Some. apply Hfresh.
    + intros g q. rewrite lookup_delete_Some, lookup_alter_is_Some. intros [_ Hq]. by eapply Hstale.
  - split; simpl; try done. intros q s Hq. rewrite Hheld. destruct (decide (q = p)) as [->|Hne].
    + rewrite Hs0 in Hq. injection Hq as <-. split; simpl; try done. intros _ Hh. lia.
    + rewrite Hclo by done. by apply Hset.
Qed.

(** The sets that [Close] closes. *)
Lemma close_all_lookup l (h : gmap ptr publisherSet) q s' :
  foldl (fun h p => alter close_set p h) h l !! q = Some s' ->
  exists s, h !! q = Some s /\ refs s' = refs s /\ retired s' = retired s /\
            (q ∈ l -> closings s < closings s') /\ (q ∉ l -> closings s' = closings s).
Proof.
  revert h. induction l as [|p l IH]; intros h; simpl.
  - intros Hq. exists s'. split_and!; try done. by intros ?%elem_of_nil.
  - intros (s1 & Hs1 & E1 & E2 & Hin & Hout)%IH. rewrite lookup_alter_Some in Hs1.
    destruct Hs1 as [(<- & s & Hs & ->)|[Hne Hs]].
    + exists s. simpl in *. split_and!; try done.
      * intros _. destruct (decide (p ∈ l)) as [Hp|Hp]; [apply Hin in Hp; lia|rewrite (Hout Hp); lia].
      * set_solver.
    + exists s1. split_and!; try done; rewrite elem_of_cons; naive_solver.
Qed.

Lemma close_all_dom l (h : gmap ptr publisherSet) q :
  is_Some (h !! q) -> is_Some (foldl (fun h p => alter close_set p h) h l !! q).
Proof. revert h. induction l as [|p l IH]; intros h Hq; simpl; [done|]. apply IH. by rewrite lookup_alter_is_Some. Qed.

Lemma pool_ok_retire m ts :
  pool_ok (MkPool m ts) ->
  let m1 := match current m with
            | None => m
            | Some p => MkManager (alter retire p (heap m)) (fresh m) None
                (match heap m !! p with Some s => <[gen s := p]> (stale m) | None => stale m end)
            end in
  (forall q s, heap m1 !! q = Some s ->
     refs s = Z.of_nat (holders ts q) /\ retired s = true /\ (0 < closings s -> holders ts q = 0) /\
     (holders ts q = 0 -> 0 < closings s \/ is_closing ts q \/ exists g, stale m1 !! g = Some q)) /\
  (forall t q, ts !! t = Some (Holding q) \/ ts !! t = Some (Closing q) -> is_Some (heap m1 !! q)) /\
  (forall q, is_Some (heap m1 !! q) -> q < fresh m1) /\
  (forall g q, stale m1 !! g = Some q -> is_Some (heap m1 !! q)) /\ current m1 = None.
Proof.
  intros [Hset Hcalls Hcur Hfresh Hstale]. simpl in *. destruct (current m) as [c|] eqn:Ec; simpl.
  - destruct (Hcur c eq_refl) as [s0 Hs0]. rewrite Hs0. split_and!.
    + intros q s. rewrite lookup_alter_Some. intros [(<- & s1 & Hs1 & ->)|[Hne Hq]].
      * destruct (Hset _ _ Hs1) as [R1 R2 R3 R4 R5 R6]. simpl. split_and!; try done.
        -- intros Hcl. by apply R3 in Hcl as [? ?].
        -- intros _. right. right. exists (gen s0). apply lookup_insert_eq.
      * destruct (Hset _ _ Hq) as [R1 R2 R3 R4 R5 R6]. assert (Hr : retired s = true) by (apply R6; congruence).
        split_and!; try done; [intros Hcl; by apply R3 in Hcl as [? ?]|].
        intros Hh. destruct (R5 Hr Hh); auto.
    + intros t q Ht. rewrite lookup_alter_is_Some. eauto.
    + intros q. rewrite lookup_alter_is_Some. apply Hfresh.
    + intros g q. rewrite lookup_insert_Some, lookup_alter_is_Some. intros [[_ <-]|[_ Hq]]; [by eexists|].
      by eapply Hstale.
    + done.
  - split_and!; try done.
    + intros q s Hq. destruct (Hset _ _ Hq) as [R1 R2 R3 R4 R5 R6]. assert (Hr : retired s = true) by by apply R6.
      split_and!; try done; [intros Hcl; by apply R3 in Hcl as [? ?]|]. intros Hh. destruct (R5 Hr Hh); auto.
    + intros g q Hq. by eapply Hstale.
Qed.

Lemma pool_ok_close_manager m ts : pool_ok (MkPool m ts) -> pool_ok (MkPool (managerClose m) ts).
Proof.
  intros Hok. destruct (pool_ok_retire m ts Hok) as (Hset & Hcalls & Hfresh & Hstale & Hcur).
  unfold managerClose. set (m1 := match current m with None => _ | Some _ => _ end) in *. simpl in *.
  set (l := filter (fun p => closable m1 p = true) (map_to_list (stale m1)).*2).
  assert (Hl : forall q, q ∈ l <-> closable m1 q = true /\ exists g, stale m1 !! g = Some q).
  { intros q. unfold l. rewrite list_elem_of_filter, list_elem_of_fmap. split.
    - intros [? ([g q'] & -> & ?%elem_of_map_to_list)]. eauto.
    - intros [? [g ?]]. split; [done|]. exists (g, q). by rewrite elem_of_map_to_list. }
  split; simpl; rewrite ?Hcur.
  - intros q s' Hq. destruct (close_all_lookup _ _ _ _ Hq) as (s & Hs & E1 & E2 & Hin & Hout).
    destruct (Hset _ _ Hs) as (R1 & R2 & R3 & R4).
    assert (Hc : closable m1 q = bool_decide (refs s = 0%Z)) by (unfold closable; by rewrite Hs).
    assert (Hcl : 0 < closings s' -> holders ts q = 0).
    { intros Hpos. destruct (decide (q ∈ l)) as [Hql|Hql]; [|apply R3; by rewrite <- Hout].
      apply Hl in Hql as [Hql _]. rewrite Hc in Hql. apply bool_decide_eq_true in Hql. lia. }
    split; rewrite ?E1, ?E2; try done; try congruence; [auto|].
    intros _ Hh. destruct (R4 Hh) as [Hpos|[?|Hg]]; [|by right|].
    + left. destruct (decide (q ∈ l)) as [Hql|Hql]; [apply Hin in Hql; lia|by rewrite Hout].
    + left. enough (q ∈ l) as Hql by (apply Hin in Hql; lia). apply Hl. split; [|done].
      rewrite Hc. apply bool_decide_eq_true. lia.
  - intros t q Ht. apply close_all_dom. eauto.
  - done.
  - intros q [s' Hq]. destruct (close_all_lookup _ _ _ _ Hq) as (s & Hs & _). eauto.
  - intros g q [Hq _]%map_lookup_filter_Some. split; [|done]. apply close_all_dom. eauto.
Qed.

Lemma pool_step_ok st st' : pool_ok st -> pool_step st st' -> pool_ok st'.
Proof.
  intros Hok Hs. destruct Hs.
  - by eapply pool_ok_acquire.
  - by eapply pool_ok_rebuild.
  - by eapply (pool_ok_release _ _ _ _ _ false).
  - by eapply (pool_ok_release _ _ _ _ _ true).
  - by eapply pool_ok_close_set.
  - by apply pool_ok_close_manager.
Qed.

Definition pool_init (ps : list rabbit) : pool := MkPool (MkManager {[0 := MkSet 0 ps 0 false 0 0]} 1 (Some 0) ∅) ∅.

Lemma pool_init_ok ps : pool_ok (pool_init ps).
Proof.
  split; simpl.
  - intros q s. rewrite lookup_singleton_Some. intros [<- <-].
    assert (holders ∅ 0 = 0) as -> by (apply holders_0; intros u; by rewrite lookup_empty).
    split; simpl; try done; try lia. intros [t Ht]. by rewrite lookup_empty in Ht.
  - intros t q. rewrite lookup_empty. naive_solver.
  - intros q [= <-]. by rewrite lookup_singleton_eq.
  - intros q [s Hq]. apply lookup_singleton_Some in Hq as [<- _]. lia.
  - intros g q. by rewrite lookup_empty.
Qed.

Lemma pool_reach_ok ps st : rtc pool_step (pool_init ps) st -> pool_ok st.
Proof.
  intros H. remember (pool_init ps) as st0 eqn:E. assert (pool_ok st0) as Hok by (subst; apply pool_init_ok).
  clear E. induction H; [done|]. by eapply IHrtc, pool_step_ok.
Qed.

(** C16: under any interleaving of concurrent enqueue calls, rebuilds and a
    shutdown, a set held by a call is never closed, nor is the current set. *)
Theorem no_use_after_close ps st p s :
  rtc pool_step (pool_init ps) st -> heap (manager st) !! p = Some s ->
  (exists t, calls st !! t = Some (Holding p)) \/ current (manager st) = Some p -> closings s = 0.
Proof.
  intros Hok%pool_reach_ok Hp Hheld. destruct (po_set _ Hok _ _ Hp) as [R1 R2 R3 R4 R5 R6].
  destruct (decide (closings s = 0)) as [|Hcl]; [done|]. exfalso.
  destruct (R3 ltac:(lia)) as [Hr Hh]. destruct Hheld as [[t Ht]|Hc].
  - rewrite (holders_delete _ t _ p Ht), decide_True in Hh by done. lia.
  - rewrite (R2 Hc) in Hr. done.
Qed.

(** C17: no connection leaks: when no call is in flight, every set but the
    current one has been closed. *)
Theorem no_connection_leak ps st p s :
  rtc pool_step (pool_init ps) st -> calls st = ∅ -> heap (manager st) !! p = Some s ->
  current (manager st) = Some p \/ 0 < closings s.
Proof.
  intros Hok%pool_reach_ok Hcalls Hp. destruct (po_set _ Hok _ _ Hp) as [R1 R2 R3 R4 R5 R6].
  rewrite Hcalls in *. destruct (decide (current (manager st) = Some p)) as [|Hc]; [by left|]. right.
  destruct (R5 (R6 Hc)) as [|[t Ht]]; [done|done|]. by rewrite lookup_empty in Ht.
Qed.

(** ** enqueueJob *)

(** What the environment answers during one attempt: to the publish calls, and
    to the rebuild that may follow. *)
Record call_env := MkCallEnv { e_publish : nat -> attempt_env; e_rebuild : res (list rabbit) }.
Definition calm : call_env := MkCallEnv (fun _ => good_attempt) (ok [MkRabbit true []]).

(** The manager, the queue's name, the copies that the broker was given, the
    environment's answers to come, one per attempt (after those it is calm), and the
    messages that calls were made for. *)
Record sink := MkSink {
  sk_manager : publisherManager;
  sk_queue : string;
  sk_held : list JobExecutionMessage;
  sk_env : list call_env;
  sk_requested : list JobExecutionMessage;
}.

Definition maxPublishAttempts : nat := 3.

Fixpoint enqueue_loop (fuel : nat) (lastErr : goerr) (msg : JobExecutionMessage) (k : sink)
    : sink * go (res unit) :=
  match fuel with
  | 0 => (k, Ret (err lastErr))
  | S fuel' =>
    match acquireCurrentSet (sk_manager k) with
    | (_, None) => (k, Ret (err (ErrNew "job publisher is not initialized" [])))
    | (m1, Some p) =>
      let a := default calm (head (sk_env k)) in
      let with_manager m held := MkSink m (sk_queue k) held (tail (sk_env k)) (sk_requested k) in
      match (set ← heap m1 !! p; Some (nextPublisher set)) with
      | Some (Ret (Some (set', i))) =>
        match pubs set' !! i with
        | None => (with_manager m1 (sk_held k), Panic)
        | Some c =>
          let '(c', r) := PublishJob (e_publish a) (sk_queue k) msg c in
          let held := sk_held k ++ (omap copy_of (drop (length (log c)) (log c'))).*2 in
          let m2 := set_heap m1 (<[p := MkSet (gen set') (<[i := c']> (pubs set')) (idx set') (retired set')
                                         (refs set') (closings set')]> (heap m1)) in
          match r with
          | inl _ => (with_manager (releaseSet m2 p) held, Ret (ok tt))
          | inr e =>
            if is_closed e then
              let '(m3, rebuilt) := rebuildIfCurrent (e_rebuild a) m2 p in
              let k' := with_manager (releaseSet m3 p) held in
              match rebuilt with
              | inl _ => enqueue_loop fuel' e msg k'
              | inr e' => (k', Ret (err e'))
              end
            else (with_manager (releaseSet m2 p) held, Ret (err e))
          end
        end
      | _ => (with_manager m1 (sk_held k), Panic)
      end
    end
  end.

Definition enqueueJob_go (msg : JobExecutionMessage) (k : sink) : sink * go (res unit) :=
  enqueue_loop maxPublishAttempts (ErrNew "" []) msg k.

Lemma nextPublisher_pubs s s' i : nextPublisher s = Ret (Some (s', i)) -> pubs s' = pubs s /\ refs s' = refs s
  /\ retired s' = retired s /\ gen s' = gen s /\ closings s' = closings s.
Proof. unfold nextPublisher. destruct (pubs s); [done|]. case_decide; [done|]. by intros [= <- <-]. Qed.

(** C40: the round robin: as long as the int64 counter has not wrapped,
    [nextPublisher] picks an existing publisher, the next one in turn; once it
    has wrapped, a set of three publishers is indexed out of range. *)
Theorem nextPublisher_round_robin s :
  (pubs s ≠ [] -> (0 <= idx s < 2 ^ 63 - 1)%Z ->
   exists i, nextPublisher s = Ret (Some (MkSet (gen s) (pubs s) (idx s + 1) (retired s) (refs s) (closings s), i))
     /\ Z.of_nat i = (idx s mod Z.of_nat (length (pubs s)))%Z /\ i < length (pubs s)) /\
  (length (pubs s) = 3 -> idx s = (2 ^ 63 - 1)%Z -> exists s', nextPublisher s = Ret (Some (s', 1)) /\
     nextPublisher s' = Panic).
Proof.
  split.
  - intros Hne Hi. unfold nextPublisher. destruct (pubs s) as [|c l] eqn:Ep; [done|]. rewrite <- Ep.
    assert (0 < Z.of_nat (length (pubs s)))%Z as Hlen by (rewrite Ep; simpl; lia).
    assert (Hw : forall z, (- 2 ^ 63 <= z < 2 ^ 63)%Z -> wrap64 z = z).
    { intros z Hz. unfold wrap64. rewrite Z.mod_small by lia. lia. }
    rewrite (Hw (idx s + 1)%Z) by lia. replace (idx s + 1 - 1)%Z with (idx s) by lia. rewrite Hw by lia.
    rewrite Z.rem_mod_nonneg by lia. pose proof (Z.mod_pos_bound (idx s) _ Hlen).
    rewrite decide_False by lia. eexists. split; [done|]. split; lia.
  - intros Hl Hi. unfold nextPublisher. destruct (pubs s) as [|c l] eqn:Ep; [done|].
    rewrite Hl, Hi. eexists. split; [reflexivity|]. simpl. simpl in Hl. rewrite Hl. reflexivity.
Qed.

(** The copies that a publish adds. *)
Lemma PublishJob_new_copies env queue msg c c' r :
  PublishJob env queue msg c = (c', r) ->
  exists k, k <= 3 /\ (omap copy_of (drop (length (log c)) (log c'))).*2 = replicate k msg /\ (r = ok tt -> 0 < k).
Proof.
  intros E. destruct (PublishJob_log _ _ _ _ _ _ E) as [tr Htr]. destruct (PublishJob_copies _ _ _ _ _ _ E) as (k & Hk & Hc & Hok).
  exists k. split; [done|]. split; [|done]. rewrite Htr, drop_app_length. unfold copies in Hc. rewrite Htr, omap_app in Hc.
  apply app_inv_head in Hc. rewrite Hc. apply (fmap_replicate snd).
Qed.

(** Every attempt uses up one answer of the environment, and leaves at most three
    copies of the message. *)
Lemma enqueue_loop_held fuel lastErr msg k k' r :
  enqueue_loop fuel lastErr msg k = (k', r) ->
  sk_requested k' = sk_requested k /\
  exists n c, n <= fuel /\ c <= 3 * n /\ sk_env k' = drop n (sk_env k) /\ sk_held k' = sk_held k ++ replicate c msg /\
    (r = Ret (ok tt) -> 0 < c).
Proof.
  revert lastErr k. induction fuel as [|fuel IH]; intros lastErr k; cbn [enqueue_loop].
  - intros [= <- <-]. split; [done|]. exists 0, 0. by rewrite app_nil_r.
  - destruct (acquireCurrentSet (sk_manager k)) as [m1 [p|]];
      [|intros [= <- <-]; split; [done|]; exists 0, 0; rewrite app_nil_r; split_and!; [lia|lia|done..]].
    assert (Htl : tail (sk_env k) = drop 1 (sk_env k)) by (by destruct (sk_env k)).
    assert (Hpanic : forall m1' (r' : go (res unit)), r' ≠ Ret (ok tt) -> (MkSink m1' (sk_queue k) (sk_held k) (tail (sk_env k)) (sk_requested k), r') = (k', r) ->
      sk_requested k' = sk_requested k /\
      exists n c, n <= S fuel /\ c <= 3 * n /\ sk_env k' = drop n (sk_env k) /\ sk_held k' = sk_held k ++ replicate c msg /\ (r = Ret (ok tt) -> 0 < c)).
    { intros m1' r' Hr' [= <- <-]. split; [done|]. exists 1, 0. simpl. rewrite app_nil_r. split_and!; [lia|lia|done..]. }
    destruct (_ ≫= _) as [[[[s' i]|]|]|]; try (by apply Hpanic).
    destruct (pubs s' !! i) as [c|]; [|by apply Hpanic].
    destruct (PublishJob _ _ _ _) as [c' r1] eqn:Ep. destruct (PublishJob_new_copies _ _ _ _ _ _ Ep) as (x & Hx & -> & Hok).
    assert (Hend : forall m1' (r' : go (res unit)), (r' = Ret (ok tt) -> r1 = ok tt) -> (MkSink m1' (sk_queue k) (sk_held k ++ replicate x msg) (tail (sk_env k)) (sk_requested k), r') = (k', r) ->
      sk_requested k' = sk_requested k /\
      exists n c, n <= S fuel /\ c <= 3 * n /\ sk_env k' = drop n (sk_env k) /\ sk_held k' = sk_held k ++ replicate c msg /\ (r = Ret (ok tt) -> 0 < c)).
    { intros m1' r' Hr' [= <- <-]. split; [done|]. exists 1, x. simpl. split_and!; [lia|lia|done|done|auto]. }
    destruct r1 as [[]|e]; [by apply Hend|]. destruct (is_closed e); [|by apply Hend].
    destruct (rebuildIfCurrent _ _ _) as [m3 [[]|e']]; [|by apply Hend].
    intros [Hreq (n & y & Hn & Hy & En & Hheld & Hret)]%IH. simpl in *. split; [done|]. exists (S n), (x + y). split_and!.
    + lia.
    + lia.
    + rewrite En. destruct (sk_env k); simpl; by rewrite ?drop_nil.
    + by rewrite Hheld, replicate_add, app_assoc.
    + intros Hr. specialize (Hret Hr). lia.
Qed.

Definition one_publisher (k : sink) (c : rabbit) : Prop :=
  exists p s, current (sk_manager k) = Some p /\ heap (sk_manager k) !! p = Some s /\ pubs s = [c].

Lemma nextPublisher_one s c : pubs s = [c] -> exists s', nextPublisher s = Ret (Some (s', 0)) /\ pubs s' = [c].
Proof.
  intros Ep. unfold nextPublisher. rewrite Ep. simpl. rewrite Z.rem_1_r. eexists. by split.
Qed.

Lemma releaseSet_current m p :
  current (releaseSet m p) = current m.
Proof.
  unfold releaseSet, release_refs, release_close. repeat case_match; simplify_eq; done.
Qed.

Lemma releaseSet_heap m p :
  exists f, heap (releaseSet m p) = alter f p (heap m) /\ forall s, pubs (f s) = pubs s /\ idx (f s) = idx s.
Proof.
  unfold releaseSet. destruct (release_refs m p) as [m' last] eqn:E. unfold release_refs in E. injection E as <- _.
  destruct last; [|by exists (add_refs (-1))]. unfold release_close.
  destruct (heap _ !! p); [|by exists (add_refs (-1))]. destruct (_ && _); [|by exists (add_refs (-1))].
  exists (close_set ∘ add_refs (-1)). simpl. by rewrite alter_alter_eq.
Qed.

Lemma releaseSet_pubs m p q s :
  heap m !! q = Some s -> exists s', heap (releaseSet m p) !! q = Some s' /\ pubs s' = pubs s /\ idx s' = idx s.
Proof.
  intros Hq. destruct (releaseSet_heap m p) as (f & -> & Hf). destruct (decide (p = q)) as [->|Hne].
  - rewrite lookup_alter_eq, Hq. simpl. destruct (Hf s) as [? ?]. eauto.
  - rewrite lookup_alter_ne by done. eauto.
Qed.

(** ** One attempt *)

(** The publisher that the next attempt takes. *)
Definition next_publisher (k : sink) (c : rabbit) : Prop :=
  exists p s s' i, current (sk_manager k) = Some p /\ heap (sk_manager k) !! p = Some s /\
    nextPublisher (add_refs 1 s) = Ret (Some (s', i)) /\ pubs s' !! i = Some c.

Lemma one_next k c : one_publisher k c -> next_publisher k c.
Proof.
  intros (p & s & Hc & Hs & Hp). destruct (nextPublisher_one (add_refs 1 s) c Hp) as (s' & E & Hp').
  exists p, s, s', 0. by rewrite Hp'.
Qed.

(** How an attempt goes on, by the answer of its publish. *)
Lemma enqueue_attempt fuel lastErr msg k c c' r :
  let a := default calm (head (sk_env k)) in
  next_publisher k c -> PublishJob (e_publish a) (sk_queue k) msg c = (c', r) ->
  exists k1, sk_queue k1 = sk_queue k /\ sk_env k1 = tail (sk_env k) /\
    (one_publisher k c -> (forall e, r = err e -> is_closed e = false) -> one_publisher k1 c') /\
    match r with
    | inl _ => enqueue_loop (S fuel) lastErr msg k = (k1, Ret (ok tt))
    | inr e =>
      if is_closed e then
        match e_rebuild a with
        | inl ps => (forall c2 ps', ps = c2 :: ps' -> next_publisher k1 c2) /\ enqueue_loop (S fuel) lastErr msg k = enqueue_loop fuel e msg k1
        | inr e' => enqueue_loop (S fuel) lastErr msg k = (k1, Ret (err (ErrWrap "create publisher set failed: %w" [] e')))
        end
      else enqueue_loop (S fuel) lastErr msg k = (k1, Ret (err e))
    end.
Proof.
  intros a (p & s & s' & i & Hc & Hs & Hn & Hi) Hp. cbn [enqueue_loop]. unfold acquireCurrentSet. rewrite Hc.
  cbn [update_set set_heap heap]. rewrite lookup_alter_eq, Hs. cbn [fmap option_fmap option_map mbind option_bind].
  rewrite Hn, Hi. fold a. rewrite Hp. set (held' := sk_held k ++ _).
  set (m2 := set_heap _ _).
  assert (Hone : one_publisher k c -> forall h, one_publisher (MkSink (releaseSet m2 p) (sk_queue k) h (tail (sk_env k)) (sk_requested k)) c').
  { intros (p0 & s0 & Hc0 & Hs0 & Hp0) h. rewrite Hc in Hc0. injection Hc0 as <-. rewrite Hs in Hs0. injection Hs0 as <-.
    destruct (nextPublisher_pubs _ _ _ Hn) as [Hps _]. rewrite Hps in Hi. simpl in Hi. rewrite Hp0 in Hi.
    assert (i = 0) as -> by (destruct i; [done|by destruct i]).
    destruct (releaseSet_pubs m2 p p (MkSet (gen s') (<[0 := c']> (pubs s')) (idx s') (retired s') (refs s') (closings s')))
      as (s2 & E2 & Hp2 & _); [apply lookup_insert_eq|].
    exists p, s2. simpl. rewrite releaseSet_current. split_and!; [done|done|]. rewrite Hp2. simpl. rewrite Hps. simpl. by rewrite Hp0. }
  set (k1 := MkSink (releaseSet m2 p) (sk_queue k) held' (tail (sk_env k)) (sk_requested k)).
  destruct r as [[]|e]; [exists k1; split_and!; [done|done|by intros ? _; apply Hone|done]|].
  destruct (is_closed e) eqn:Ecl; [|exists k1; split_and!; [done|done|by intros ? _; apply Hone|done]].
  unfold rebuildIfCurrent. cbn [current m2 set_heap update_set heap]. rewrite decide_False by (intros Hx; apply Hx; exact Hc).
  rewrite lookup_insert_eq. destruct (e_rebuild a) as [ps|e'] eqn:Er; cbn [newPublisherSet ok err].
  - set (m3 := MkManager _ _ _ _). eexists (MkSink (releaseSet m3 p) (sk_queue k) held' (tail (sk_env k)) (sk_requested k)).
    split; [done|]. split; [done|]. split; [intros _ Hx; by specialize (Hx e eq_refl); rewrite Ecl in Hx|]. split; [|done].
    intros c2 ps' ->.
    destruct (releaseSet_pubs m3 p (fresh (sk_manager k)) (MkSet (gen s' + 1) (c2 :: ps') 0 false 0 0)) as (s2 & E2 & Hp2 & Hi2).
    { unfold m3. simpl. apply lookup_insert_eq. }
    simpl in Hp2, Hi2. exists (fresh (sk_manager k)), s2. unfold nextPublisher. simpl. rewrite releaseSet_current, Hp2, Hi2.
    do 2 eexists. split_and!; [done|exact E2|reflexivity|done].
  - exists k1. split_and!; [done|done| |done]. intros _ Hx. specialize (Hx e eq_refl). by rewrite Ecl in Hx.
Qed.

(** A calm attempt over a single open publisher succeeds. *)
Lemma enqueue_calm fuel lastErr msg k c :
  one_publisher k c -> channel c = true -> sk_queue k ≠ "" -> sk_env k = [] ->
  exists k', enqueue_loop (S fuel) lastErr msg k = (k', Ret (ok tt)) /\
    one_publisher k' (note (Sent (sk_queue k) msg true) c) /\ sk_queue k' = sk_queue k /\ sk_env k' = [] /\
    sk_held k' = sk_held k ++ [msg].
Proof.
  intros Hone Hch Hq He.
  assert (Hp : PublishJob (e_publish (default Publisher.calm (head (sk_env k)))) (sk_queue k) msg c = (note (Sent (sk_queue k) msg true) c, ok tt)).
  { rewrite He. by apply PublishJob_healthy. }
  destruct (enqueue_attempt fuel lastErr msg k c _ _ (one_next k c Hone) Hp) as (k1 & E1 & E2 & E3 & E4).
  exists k1. split_and!; [done|by apply E3|done|by rewrite E2, He|].
  revert E4. destruct Hone as (p & s & Hc & Hs & Hps). cbn [enqueue_loop]. unfold acquireCurrentSet. rewrite Hc.
  cbn [update_set set_heap heap]. rewrite lookup_alter_eq, Hs. cbn [fmap option_fmap option_map mbind option_bind].
  destruct (nextPublisher_one (add_refs 1 s) c Hps) as (s' & -> & Hp'). rewrite Hp'. cbn [lookup list_lookup].
  rewrite Hp. intros [= <-]. simpl. rewrite drop_app_length. reflexivity.
Qed.

(** ** The interface, implemented *)

Definition sink_result (r : go (res unit)) : res unit :=
  match r with Ret r => r | Panic => err (ErrIs "panic") end.

Definition note_request (msg : JobExecutionMessage) (k : sink) : sink :=
  MkSink (sk_manager k) (sk_queue k) (sk_held k) (sk_env k) (sk_requested k ++ [msg]).

Definition sink_enqueue (msg : JobExecutionMessage) (k : sink) : sink * res unit :=
  let '(k', r) := enqueueJob_go msg (note_request msg k) in (k', sink_result r).

Definition sink_healthy (k : sink) : Prop :=
  exists c, one_publisher k c /\ channel c = true /\ sk_queue k ≠ "" /\ sk_env k = [].

Lemma sink_enqueue_requested msg k k' r : sink_enqueue msg k = (k', r) -> sk_requested k' = sk_requested k ++ [msg].
Proof.
  unfold sink_enqueue. destruct (enqueueJob_go msg _) as [k1 r1] eqn:E1. intros [= <- <-].
  by apply enqueue_loop_held in E1 as [-> _].
Qed.

Lemma sink_enqueue_held msg k k' r : sink_enqueue msg k = (k', r) ->
  exists c, c <= max_copies /\ sk_held k' = sk_held k ++ replicate c msg /\ (r = ok tt -> 0 < c).
Proof.
  unfold sink_enqueue. destruct (enqueueJob_go msg _) as [k1 r1] eqn:E1. intros [= <- <-].
  apply enqueue_loop_held in E1 as [_ (n & c & Hn & Hc & _ & Hh & Hok)]. exists c. unfold max_copies, maxPublishAttempts in *.
  split; [lia|]. split; [done|]. intros Hr. apply Hok. destruct r1 as [r1|]; [simpl in Hr; by rewrite Hr|done].
Qed.

Lemma sink_enqueue_healthy msg k :
  sink_healthy k -> exists k', sink_enqueue msg k = (k', ok tt) /\ sink_healthy k' /\ sk_held k' = sk_held k ++ [msg].
Proof.
  intros (c & Hone & Hch & Hq & He).
  destruct (enqueue_calm 2 (ErrNew "" []) msg (note_request msg k) c Hone Hch Hq He) as (k' & E & Hone' & Hq' & He' & Hh).
  exists k'. unfold sink_enqueue, enqueueJob_go, maxPublishAttempts. rewrite E. split; [done|]. split; [|done].
  exists (note (Sent (sk_queue k) msg true) c). by rewrite Hq'.
Qed.

#[export] Instance sink_JobSink : JobSink sink := {|
  enqueueJob := sink_enqueue;
  requested := sk_requested;
  held := sk_held;
  healthy := sink_healthy;
  enqueueJob_requested := sink_enqueue_requested;
  enqueueJob_held := sink_enqueue_held;
  enqueueJob_healthy := sink_enqueue_healthy;
|}.


(** ** Witnesses *)

Definition demo_sink (env : list call_env) : sink :=
  MkSink (manager (pool_init [MkRabbit true []])) "pipeline.jobs" [] env [].

Lemma demo_sink_healthy : healthy (demo_sink []).
Proof. exists (MkRabbit true []). split_and!; try done. by exists 0, (MkSet 0 [MkRabbit true []] 0 false 0 0). Qed.

Lemma nextPublisher_round_robin_witness :
  nextPublisher (MkSet 0 [MkRabbit true []; MkRabbit true []] 5 false 1 0)
    = Ret (Some (MkSet 0 [MkRabbit true []; MkRabbit true []] 6 false 1 0, 1)) /\
  exists i, nextPublisher (MkSet 0 [MkRabbit true []; MkRabbit true []] 5 false 1 0)
    = Ret (Some (MkSet 0 [MkRabbit true []; MkRabbit true []] (5 + 1) false 1 0, i))
    /\ Z.of_nat i = (5 mod Z.of_nat 2)%Z /\ i < 2.
Proof.
  split; [reflexivity|].
  apply (proj1 (nextPublisher_round_robin (MkSet 0 [MkRabbit true []; MkRabbit true []] 5 false 1 0))); simpl; [done|lia].
Defined.

(** Two calls share the first set, one of them rebuilds, both release. *)
Definition demo_set0 (n : Z) (r : bool) (cl : nat) : publisherSet := MkSet 0 [] 0 r n cl.
Definition demo_managers : list publisherManager :=
  [ MkManager {[0 := demo_set0 1 false 0]} 1 (Some 0) ∅;
    MkManager {[0 := demo_set0 2 false 0]} 1 (Some 0) ∅;
    MkManager (<[1 := MkSet 1 [] 0 false 0 0]> {[0 := demo_set0 2 true 0]}) 2 (Some 1) {[0%Z := 0]};
    MkManager (<[1 := MkSet 1 [] 0 false 0 0]> {[0 := demo_set0 1 true 0]}) 2 (Some 1) {[0%Z := 0]};
    MkManager (<[1 := MkSet 1 [] 0 false 0 0]> {[0 := demo_set0 0 true 0]}) 2 (Some 1) {[0%Z := 0]};
    MkManager (<[1 := MkSet 1 [] 0 false 0 0]> {[0 := demo_set0 0 true 1]}) 2 (Some 1) ∅ ].
Definition demo_manager (i : nat) : publisherManager := default (MkManager ∅ 0 None ∅) (demo_managers !! i).

Lemma demo_pool_3 : rtc pool_step (pool_init []) (MkPool (demo_manager 3) (delete 7 (<[8 := Holding 0]> (<[7 := Holding 0]> ∅)))).
Proof.
  eapply rtc_l; [eapply (step_acquire _ _ 7 (demo_manager 0) 0); reflexivity|].
  eapply rtc_l; [eapply (step_acquire _ _ 8 (demo_manager 1) 0); reflexivity|].
  eapply rtc_l; [eapply (step_rebuild _ _ 7 0 (ok []) (demo_manager 2)); reflexivity|].
  eapply rtc_l; [eapply (step_release _ _ 7 0 (demo_manager 3)); reflexivity|]. constructor.
Qed.

Lemma demo_pool_5 : rtc pool_step (pool_init []) (MkPool (demo_manager 5)
  (delete 8 (<[8 := Closing 0]> (delete 7 (<[8 := Holding 0]> (<[7 := Holding 0]> ∅)))))).
Proof.
  eapply rtc_r; [eapply rtc_r; [exact demo_pool_3|]|].
  - eapply (step_release_last _ _ 8 0 (demo_manager 4)); reflexivity.
  - change (demo_manager 5) with (release_close (demo_manager 4) 0). by apply step_close_set.
Qed.

Lemma no_use_after_close_witness : closings (demo_set0 1 true 0) = 0.
Proof.
  apply (no_use_after_close [] _ 0 (demo_set0 1 true 0) demo_pool_3); [reflexivity|].
  left. exists 8. reflexivity.
Defined.

Lemma no_connection_leak_witness :
  current (demo_manager 5) = Some 0 \/ 0 < closings (demo_set0 0 true 1).
Proof. apply (no_connection_leak [] _ 0 (demo_set0 0 true 1) demo_pool_5); reflexivity. Defined.

