(* ===== verification/Orchestrator.v ===== *)
(** * The orchestrator service (services/orchestrator)

    [world] is what its handlers share: the report store, the job queue (any
    [JobSink]), the clock, the in-memory runtimes. A runtime is shared by
    pointer between the map [runtimes] and the goroutine that dispatches its
    first jobs, so runtimes live in a heap. Handlers are computations of the
    state-and-error monad [M]; each store call first consumes one entry of
    [w_faults], which may make it fail. Here a handler runs to its end; Steps takes
    them apart, and Concurrent interleaves their steps. *)

From Stdlib Require Import Ascii.
From S2P Require Import Prelude GoStrings Models Wellformed Planner Store StageState Mq Publisher Parser.

Record runInfo := MkRunInfo {
  ri_RepoURL : string; ri_Branch : string; ri_Commit : string; ri_WorkspacePath : string;
}.

Abbreviation jobKey := (string * string)%type.  (** stage, name *)

Record PipelinePlan := MkPipelinePlan { PP_Pipeline : Pipeline; PP_ExecutionPlan : ExecutionPlan }.

Record pipelineRuntime := MkRuntime {
  rt_pipeline : string;
  rt_runNo : Z;
  rt_stageOrder : list string;
  rt_stageStates : gmap string stageState;
  rt_runInfo : runInfo;
  rt_pipelineStart : Z;
  rt_jobStartTimes : gmap jobKey Z;
  rt_executionPlan : ExecutionPlan;
}.

Record world {Q : Type} := MkWorld {
  w_db : db;
  w_queue : Q;
  w_heap : gmap ptr pipelineRuntime;
  w_next : ptr;
  w_runtimes : gmap string ptr;
  w_spawned : list ptr;  (** dispatch goroutines not yet run *)
  w_clock : Z;
  w_faults : list (option goerr);
}.
Arguments world Q : clear implicits.

(** A context carries the trace id of its span, when that is valid. *)
Abbreviation ctx := (option string).
Definition getSpanTraceId (c : ctx) : string := default "" c.

(** [runtimeKey]: "%s:%d" *)
Definition runtimeKey (pipeline : string) (runNo : Z) : string := pipeline +++ ":" +++ Itoa runNo.

Definition newRunInfo (req : RunRequest) : runInfo :=
  MkRunInfo (RepoURL req) (Branch req) (Commit req) (WorkspacePath req).

(** The first stage after [current]: the loop goes on past an occurrence of
    [current] in last position. *)
Fixpoint nextStageName (order : list string) (current : string) : option string :=
  match order with
  | [] => None
  | name :: rest =>
    match rest with
    | next :: _ => if decide (name = current) then Some next else nextStageName rest current
    | [] => None
    end
  end.

Definition buildJobConfigs (p : Pipeline) : gmap jobKey jobConfig :=
  foldl (fun m job => <[(Job_Stage job, Job_Name job) := MkJobConfig (Job_Failures job) (Job_Needs job)]> m)
    ∅ (Pipeline_Jobs p).

Definition buildJobExecutionMessage (runNo : Z) (pipelineName stage : string) (job : JobExecutionPlan) (ri : runInfo)
    : JobExecutionMessage :=
  MkMsg runNo pipelineName stage (ri_Branch ri) (ri_Commit ri) (ri_RepoURL ri) (ri_WorkspacePath ri) job.

Definition buildRunRequestKey (sha256_hex : string -> string) (req : RunRequest) (pipelineName : string) : string :=
  sha256_hex (Join [pipelineName; YAMLContent req; TrimSpace (Branch req); TrimSpace (Commit req);
                    TrimSpace (RepoURL req)] (String "010"%char EmptyString)).

(** ** The monad of the handlers *)

Section orchestrator.
Context {C : Collation} {Q : Type} {J : JobSink Q}.

Definition M (A : Type) : Type := world Q -> world Q * res A.
#[global] Instance M_ret : MRet M := fun A a w => (w, inl a).
#[global] Instance M_bind : MBind M := fun A B (f : A -> M B) (m : M A) w =>
  match m w with (w', inl a) => f a w' | (w', inr e) => (w', inr e) end.

Definition fail {A} (e : goerr) : M A := fun w => (w, inr e).
(** [if err := m(); err != nil { h(err) }] *)
Definition catch {A} (m : M A) (h : goerr -> M A) : M A := fun w =>
  match m w with (w', inl a) => (w', inl a) | (w', inr e) => h e w' end.
(** [return fmt.Errorf(format, args, err)] *)
Definition wrapf {A} (format : string) (args : list string) (m : M A) : M A :=
  catch m (fun e => fail (ErrWrap format args e)).
(** [_ = m()] *)
Definition ignore (m : M unit) : M unit := catch m (fun _ => mret tt).

Definition with_db (w : world Q) (d : db) (fs : list (option goerr)) : world Q :=
  MkWorld Q d (w_queue w) (w_heap w) (w_next w) (w_runtimes w) (w_spawned w) (w_clock w) fs.

Definition store_call {A} (f : db -> db * res A) : M A := fun w =>
  match w_faults w with
  | Some e :: fs => (with_db w (w_db w) fs, inr e)
  | fs => let '(d, r) := f (w_db w) in (with_db w d (tail fs), r)
  end.

(** [time.Now().UTC()] *)
Definition now : M Z := fun w =>
  (MkWorld Q (w_db w) (w_queue w) (w_heap w) (w_next w) (w_runtimes w) (w_spawned w) (w_clock w + 1) (w_faults w),
   inl (w_clock w)).

Definition enqueue (msg : JobExecutionMessage) : M unit := fun w =>
  let '(q, r) := enqueueJob msg (w_queue w) in
  (MkWorld Q (w_db w) q (w_heap w) (w_next w) (w_runtimes w) (w_spawned w) (w_clock w) (w_faults w), r).

(** ** Runtimes *)

Definition with_runtimes (w : world Q) (m : gmap string ptr) : world Q :=
  MkWorld Q (w_db w) (w_queue w) (w_heap w) (w_next w) m (w_spawned w) (w_clock w) (w_faults w).
Definition with_heap (w : world Q) (h : gmap ptr pipelineRuntime) : world Q :=
  MkWorld Q (w_db w) (w_queue w) h (w_next w) (w_runtimes w) (w_spawned w) (w_clock w) (w_faults w).

(** [&pipelineRuntime{...}] *)
Definition alloc (rt : pipelineRuntime) : M ptr := fun w =>
  (MkWorld Q (w_db w) (w_queue w) (<[w_next w := rt]> (w_heap w)) (S (w_next w)) (w_runtimes w) (w_spawned w)
     (w_clock w) (w_faults w), inl (w_next w)).

Definition putRuntime (pipeline : string) (runNo : Z) (p : ptr) : M unit := fun w =>
  (with_runtimes w (<[runtimeKey pipeline runNo := p]> (w_runtimes w)), inl tt).

Definition getPipelineRuntime (pipeline : string) (runNo : Z) : M (option (ptr * pipelineRuntime)) := fun w =>
  (w, inl (p ← w_runtimes w !! runtimeKey pipeline runNo; rt ← w_heap w !! p; Some (p, rt))).

Definition deleteRuntime (pipeline : string) (runNo : Z) : M unit := fun w =>
  (with_runtimes w (delete (runtimeKey pipeline runNo) (w_runtimes w)), inl tt).

Definition set_startTimes (m : gmap jobKey Z) (rt : pipelineRuntime) : pipelineRuntime :=
  MkRuntime (rt_pipeline rt) (rt_runNo rt) (rt_stageOrder rt) (rt_stageStates rt) (rt_runInfo rt)
    (rt_pipelineStart rt) m (rt_executionPlan rt).
Definition set_stage (name : string) (s : stageState) (rt : pipelineRuntime) : pipelineRuntime :=
  MkRuntime (rt_pipeline rt) (rt_runNo rt) (rt_stageOrder rt) (<[name := s]> (rt_stageStates rt)) (rt_runInfo rt)
    (rt_pipelineStart rt) (rt_jobStartTimes rt) (rt_executionPlan rt).

(** A mutation through a pointer. *)
Definition update_runtime (p : ptr) (f : pipelineRuntime -> pipelineRuntime) : M unit := fun w =>
  (with_heap w (alter f p (w_heap w)), inl tt).

Definition noteJobStarted (pipeline : string) (runNo : Z) (stageName jobName : string) : M unit :=
  o ← getPipelineRuntime pipeline runNo;
  match o with
  | None => mret tt
  | Some (p, rt) =>
    t ← now; update_runtime p (set_startTimes (<[(stageName, jobName) := t]> (rt_jobStartTimes rt)))
  end.

(** The zero time when nothing was noted. *)
Definition popJobStartTime (pipeline : string) (runNo : Z) (stageName jobName : string) : M (option Z) :=
  o ← getPipelineRuntime pipeline runNo;
  match o with
  | None => mret None
  | Some (p, rt) =>
    update_runtime p (set_startTimes (delete (stageName, jobName) (rt_jobStartTimes rt)));;
    mret (rt_jobStartTimes rt !! (stageName, jobName))
  end.

(** ** Persistence (persistence.go) *)

Definition startPipelineRun (c : ctx) (pipeline : string) (ri : runInfo) (requestKey : string)
    : M (CreateRunResult * Z) :=
  t ← now;
  let repo := if decide (TrimSpace (ri_RepoURL ri) = "") then ri_WorkspacePath ri else ri_RepoURL ri in
  let inp := MkCreateRun pipeline t StatusQueued (ri_Commit ri) (ri_Branch ri) repo (getSpanTraceId c) requestKey in
  r ← store_call (fun d => CreateRunOrGetActive d d inp);
  mret (r, t).

Definition finishPipelineRun (pipeline : string) (runNo : Z) (status : string) : M unit :=
  t ← now; store_call (fun d => UpdateRun d pipeline runNo (Some t) status).
Definition finishPipelineRunWithMetrics := finishPipelineRun.

Definition startStage (pipeline : string) (runNo : Z) (stage : string) : M unit :=
  t ← now; store_call (fun d => CreateStage d pipeline runNo stage t StatusQueued).

Definition finishStage (pipeline : string) (runNo : Z) (stage status : string) : M unit :=
  t ← now; store_call (fun d => UpdateStage d pipeline runNo stage (Some t) status).
Definition finishStageWithMetrics := finishStage.

Definition startJob (pipeline : string) (runNo : Z) (stage job : string) (failures : bool) : M unit :=
  t ← now; store_call (fun d => CreateJob d pipeline runNo stage job t StatusQueued failures).

Definition finishJob (pipeline : string) (runNo : Z) (stage job status : string) : M unit :=
  t ← now; store_call (fun d => UpdateJob d pipeline runNo stage job (Some t) status).

Definition markJobRunning (pipeline : string) (runNo : Z) (stage job : string) : M unit :=
  store_call (fun d => UpdateJob d pipeline runNo stage job None StatusRunning).

(** ** Dispatch (dispatch.go) *)

Fixpoint enqueueReadyJobs (pipelineName stageName : string) (runNo : Z) (jobs : list JobExecutionPlan) (ri : runInfo)
    : M unit :=
  match jobs with
  | [] => mret tt
  | job :: rest =>
    enqueue (buildJobExecutionMessage runNo pipelineName stageName job ri);;
    enqueueReadyJobs pipelineName stageName runNo rest ri
  end.

(** The stage states are read and written through the runtime's pointer. *)
Definition load (p : ptr) : M pipelineRuntime := fun w =>
  match w_heap w !! p with Some rt => (w, inl rt) | None => (w, inr (ErrIs "nil pointer")) end.

Fixpoint enqueueFirstReadyStageJobs (p : ptr) (pipelineName : string) (runNo : Z) (stages : list StageExecutionPlan)
    (ri : runInfo) : M unit :=
  match stages with
  | [] => mret tt
  | stage :: rest =>
    rt ← load p;
    match rt_stageStates rt !! StageExec_Name stage with
    | None => enqueueFirstReadyStageJobs p pipelineName runNo rest ri
    | Some state =>
      let '(state', readyJobs) := getReadyJobs state in
      update_runtime p (set_stage (StageExec_Name stage) state');;
      match readyJobs with
      | [] =>
        match StageExec_Jobs stage with
        | [] =>
          wrapf "finish empty stage %q: %w" [StageExec_Name stage]
            (finishStageWithMetrics pipelineName runNo (StageExec_Name stage) StatusSuccess);;
          enqueueFirstReadyStageJobs p pipelineName runNo rest ri
        | _ => enqueueFirstReadyStageJobs p pipelineName runNo rest ri
        end
      | _ =>
        wrapf "enqueue ready jobs for stage %q: %w" [StageExec_Name stage]
          (enqueueReadyJobs pipelineName (StageExec_Name stage) runNo readyJobs ri)
      end
    end
  end.

Definition dispatchPipelineStartJobs (p : ptr) : M unit :=
  rt ← load p;
  catch (enqueueFirstReadyStageJobs p (rt_pipeline rt) (rt_runNo rt) (Plan_Stages (rt_executionPlan rt)) (rt_runInfo rt))
    (fun e =>
       ignore (finishPipelineRunWithMetrics (rt_pipeline rt) (rt_runNo rt) StatusFailed);;
       deleteRuntime (rt_pipeline rt) (rt_runNo rt);;
       fail e).

(** ** Starting a run (service.go) *)

(** The inner loop of [initializePipelineRuntime], over the jobs of a stage. *)
Fixpoint createJobRecords (pipeline : string) (runNo : Z) (stage : string) (configs : gmap jobKey jobConfig)
    (jobs : list JobExecutionPlan) (st : stageState) : M stageState :=
  match jobs with
  | [] => mret st
  | job :: rest =>
    let cfg := default zeroJobConfig (configs !! (stage, JobPlan_Name job)) in
    let st' := set_jobConfig st (JobPlan_Name job) cfg in
    catch (startJob pipeline runNo stage (JobPlan_Name job) (allowFailures cfg))
      (fun e =>
         ignore (finishStageWithMetrics pipeline runNo stage StatusFailed);;
         ignore (finishPipelineRunWithMetrics pipeline runNo StatusFailed);;
         fail (ErrWrap "create job record failed: %w" [] e));;
    createJobRecords pipeline runNo stage configs rest st'
  end.

(** The outer loop; [orders i] is the map iteration order of the i-th
    [planner.BuildStagePlan]. *)
Fixpoint createStageRecords (orders : nat -> list string) (i : nat) (p : Pipeline) (runNo : Z)
    (configs : gmap jobKey jobConfig) (stages : list StageExecutionPlan) (states : gmap string stageState)
    : M (gmap string stageState) :=
  match stages with
  | [] => mret states
  | stage :: rest =>
    catch (startStage (Pipeline_Name p) runNo (StageExec_Name stage))
      (fun e =>
         ignore (finishPipelineRunWithMetrics (Pipeline_Name p) runNo StatusFailed);;
         fail (ErrWrap "create stage record failed: %w" [] e));;
    match BuildStagePlan (orders i) (StageExec_Name stage) p with
    | None => fail (ErrIs "planner out of fuel")
    | Some stagePlan =>
      t ← now;
      st ← createJobRecords (Pipeline_Name p) runNo (StageExec_Name stage) configs (StageExec_Jobs stage)
             (set_startedAt (newStageState stagePlan) t);
      createStageRecords orders (S i) p runNo configs rest (<[StageExec_Name stage := st]> states)
    end
  end.

(** [inl] of a deduplicated run: its number and status; [inr]: the new runtime. *)
Definition initializePipelineRuntime (c : ctx) (orders : nat -> list string) (plan : PipelinePlan)
    (configs : gmap jobKey jobConfig) (ri : runInfo) (requestKey : string)
    : M ((Z * string) + ptr) :=
  let p := PP_Pipeline plan in
  let stages := Plan_Stages (PP_ExecutionPlan plan) in
  rs ← wrapf "create pipeline run record failed: %w" [] (startPipelineRun c (Pipeline_Name p) ri requestKey);
  let '(runResult, runStart) := rs in
  if Deduped runResult then mret (inl (RunNo runResult, ExistingStatus runResult)) else
  let runNo := RunNo runResult in
  states ← createStageRecords orders 0 p runNo configs stages ∅;
  rt ← alloc (MkRuntime (Pipeline_Name p) runNo (StageExec_Name <$> stages) states ri runStart ∅ (PP_ExecutionPlan plan));
  (match stages with
   | [] => wrapf "finish empty pipeline run: %w" []
             (finishPipelineRunWithMetrics (Pipeline_Name p) runNo StatusSuccess)
   | _ => mret tt
   end);;
  mret (inr rt).

(** [go func() { dispatchPipelineStartJobs(...) }()] *)
Definition spawn (p : ptr) : M unit := fun w =>
  (MkWorld Q (w_db w) (w_queue w) (w_heap w) (w_next w) (w_runtimes w) (w_spawned w ++ [p]) (w_clock w) (w_faults w),
   inl tt).

(** [Run] after [prepareRun]. *)
Definition runPlan (sha256_hex : string -> string) (c : ctx) (orders : nat -> list string) (req : RunRequest)
    (plan : PipelinePlan) : M RunResponse :=
  let name := Pipeline_Name (PP_Pipeline plan) in
  r ← initializePipelineRuntime c orders plan (buildJobConfigs (PP_Pipeline plan)) (newRunInfo req)
        (buildRunRequestKey sha256_hex req name);
  match r with
  | inl (runNo, status) =>
    mret (MkRunResponse name runNo status []
            ("duplicate run request dropped; using in-flight run " +++ Itoa runNo +++ "."))
  | inr p =>
    rt ← load p;
    putRuntime (rt_pipeline rt) (rt_runNo rt) p;;
    spawn p;;
    mret (MkRunResponse name (rt_runNo rt) StatusQueued [] "")
  end.

(** ** Callbacks (callbacks.go) *)

Definition missing_identity (req : JobStatusCallbackRequest) : bool :=
  bool_decide (TrimSpace (Cb_Pipeline req) = "" \/ TrimSpace (Cb_Stage req) = "" \/
               TrimSpace (Cb_Job req) = "" \/ Cb_RunNo req = 0%Z).
Definition identity_error : goerr := ErrNew "pipeline, run_no, stage, and job are required" [].

Definition HandleJobStarted (req : JobStatusCallbackRequest) : M unit :=
  if missing_identity req then fail identity_error else
  markJobRunning (Cb_Pipeline req) (Cb_RunNo req) (Cb_Stage req) (Cb_Job req);;
  noteJobStarted (Cb_Pipeline req) (Cb_RunNo req) (Cb_Stage req) (Cb_Job req).

(** The part of [HandleJobFinished] after the stage's state was adjusted. *)
Definition advance (req : JobStatusCallbackRequest) (p : ptr) (stage : stageState) : M unit :=
  let '(pipeline, runNo) := (Cb_Pipeline req, Cb_RunNo req) in
  if negb (isStageComplete stage) then mret tt else
  finishStageWithMetrics pipeline runNo (Cb_Stage req) StatusSuccess;;
  rt ← load p;
  match nextStageName (rt_stageOrder rt) (Cb_Stage req) with
  | None =>
    finishPipelineRunWithMetrics pipeline runNo StatusSuccess;;
    deleteRuntime pipeline runNo
  | Some next =>
    match rt_stageStates rt !! next with
    | None => mret tt
    | Some nextStage =>
      let '(nextStage', readyJobs) := getReadyJobs nextStage in
      update_runtime p (set_stage next nextStage');;
      enqueueReadyJobs pipeline next runNo readyJobs (rt_runInfo rt);;
      if isStageComplete nextStage' then finishStageWithMetrics pipeline runNo next StatusSuccess else mret tt
    end
  end.

(** The success of a job, or a failure it is allowed. *)
Definition jobSucceeded (req : JobStatusCallbackRequest) (p : ptr) (rt : pipelineRuntime) (stage : stageState) : M unit :=
  let '(stage', newlyReady) := markJobSucceeded stage (Cb_Job req) in
  update_runtime p (set_stage (Cb_Stage req) stage');;
  enqueueReadyJobs (Cb_Pipeline req) (Cb_Stage req) (Cb_RunNo req) newlyReady (rt_runInfo rt);;
  advance req p stage'.

Definition HandleJobFinished (req : JobStatusCallbackRequest) : M unit :=
  if missing_identity req then fail identity_error else
  let status := TrimSpace (Cb_Status req) in
  if bool_decide (status ≠ StatusSuccess /\ status ≠ StatusFailed)
  then fail (ErrNew "invalid finished status %q" [Cb_Status req]) else
  let '(pipeline, runNo) := (Cb_Pipeline req, Cb_RunNo req) in
  finishJob pipeline runNo (Cb_Stage req) (Cb_Job req) status;;
  o ← getPipelineRuntime pipeline runNo;
  match o with
  | None => mret tt
  | Some (p, rt) =>
    match rt_stageStates rt !! Cb_Stage req with
    | None => mret tt
    | Some stage =>
      let cfg := default zeroJobConfig (jobConfigs stage !! Cb_Job req) in
      if decide (status = StatusFailed) then
        if allowFailures cfg then jobSucceeded req p rt stage
        else
          update_runtime p (set_stage (Cb_Stage req) (markJobTerminal stage (Cb_Job req)));;
          finishStageWithMetrics pipeline runNo (Cb_Stage req) StatusFailed;;
          finishPipelineRunWithMetrics pipeline runNo StatusFailed;;
          deleteRuntime pipeline runNo
      else jobSucceeded req p rt stage
    end
  end.

(** ** Reasoning about handlers

    [wp m Φ w]: run in world [w], [m] returns without error, and its result and
    the world it leaves satisfy [Φ]. *)

Definition wp {A} (m : M A) (Φ : A -> world Q -> Prop) (w : world Q) : Prop :=
  match m w with (w', inl a) => Φ a w' | (_, inr _) => False end.

Lemma wp_run {A} (m : M A) Φ w : wp m Φ w -> exists w' a, m w = (w', ok a) /\ Φ a w'.
Proof. unfold wp. destruct (m w) as [w' [a|e]]; [|done]. eauto. Qed.

Lemma wp_ret {A} (a : A) (Φ : A -> world Q -> Prop) w : Φ a w -> wp (mret a) Φ w.
Proof. done. Qed.

Lemma wp_bind {A B} (m : M A) (f : A -> M B) Φ w : wp m (fun a w' => wp (f a) Φ w') w -> wp (m ≫= f) Φ w.
Proof. unfold wp, mbind, M_bind. by destruct (m w) as [w' [a|e]]. Qed.

Lemma wp_mono {A} (m : M A) (Φ Ψ : A -> world Q -> Prop) w : wp m Φ w -> (forall a w', Φ a w' -> Ψ a w') -> wp m Ψ w.
Proof. unfold wp. destruct (m w) as [w' [a|e]]; auto. Qed.

Lemma wp_catch {A} (m : M A) h Φ w : wp m Φ w -> wp (catch m h) Φ w.
Proof. unfold wp, catch. by destruct (m w) as [w' [a|e]]. Qed.

(** [w'] differs from [w] at most in the components listed, and no fault is due. *)
Record leads (w w' : world Q) (d : db) (q : Q) (h : gmap ptr pipelineRuntime) (m : gmap string ptr) : Prop := {
  ld_db : w_db w' = d;
  ld_queue : w_queue w' = q;
  ld_heap : w_heap w' = h;
  ld_map : w_runtimes w' = m;
  ld_next : w_next w' = w_next w;
  ld_spawned : w_spawned w' = w_spawned w;
  ld_faults : w_faults w' = [];
}.

(** One timestamped call of the store. *)
Lemma wp_timed_call (g : Z -> db -> db * res unit) (Φ : unit -> world Q -> Prop) w :
  w_faults w = [] ->
  (forall t, (g t (w_db w)).2 = inl tt) ->
  (forall w' t, leads w w' (g t (w_db w)).1 (w_queue w) (w_heap w) (w_runtimes w) -> Φ tt w') ->
  wp (t ← now; store_call (g t)) Φ w.
Proof.
  intros Hf Hok HΦ. apply wp_bind. unfold wp at 1, now. unfold wp, store_call. simpl. rewrite Hf.
  pose proof (Hok (w_clock w)) as Ho. destruct (g (w_clock w) (w_db w)) as [d r] eqn:E. simpl in Ho. subst r.
  simpl. apply (HΦ _ (w_clock w)). split; simpl; rewrite ?E; done.
Qed.

Lemma wp_finishStage p n s st (Φ : unit -> world Q -> Prop) w :
  w_faults w = [] ->
  (forall w' t, leads w w' (UpdateStage (w_db w) p n s (Some t) st).1 (w_queue w) (w_heap w) (w_runtimes w) -> Φ tt w') ->
  wp (finishStage p n s st) Φ w.
Proof. intros Hf HΦ. by apply (wp_timed_call (fun t d => UpdateStage d p n s (Some t) st)). Qed.

Lemma wp_finishJob p n s j st (Φ : unit -> world Q -> Prop) w :
  w_faults w = [] ->
  (forall w' t, leads w w' (UpdateJob (w_db w) p n s j (Some t) st).1 (w_queue w) (w_heap w) (w_runtimes w) -> Φ tt w') ->
  wp (finishJob p n s j st) Φ w.
Proof. intros Hf HΦ. by apply (wp_timed_call (fun t d => UpdateJob d p n s j (Some t) st)). Qed.

(** Finishing a run cannot violate the index on active request keys. *)
Lemma finished_not_active st : st = StatusSuccess \/ st = StatusFailed -> is_active st = false.
Proof.
  pose proof ci_statuses as Hnd. cbn [fmap list_fmap] in Hnd.
  rewrite !NoDup_cons, !not_elem_of_cons in Hnd. unfold is_active. intros Hst.
  apply bool_decide_eq_false. unfold StatusQueued, StatusRunning, StatusSuccess, StatusFailed in *.
  destruct Hst as [-> | ->]; naive_solver.
Qed.

Lemma UpdateRun_finish d p n t st :
  st = StatusSuccess \/ st = StatusFailed ->
  UpdateRun d p n (Some t) st
  = (set_runs d (alter (update_run_row (Some t) st) (ci p, n) (pipeline_runs d)), ok tt).
Proof.
  intros Hst. unfold UpdateRun. destruct (pipeline_runs d !! (ci p, n)) as [r|] eqn:E.
  - unfold active_conflict, active_request_key at 1. simpl. rewrite finished_not_active by done.
    do 2 f_equal. apply map_eq. intros k. destruct (decide (k = (ci p, n))) as [->|Hne].
    + by rewrite lookup_insert_eq, lookup_alter_eq, E.
    + by rewrite lookup_insert_ne, lookup_alter_ne.
  - destruct d as [runs ss js sq]. unfold set_runs. simpl in *. do 2 f_equal. apply map_eq. intros k.
    destruct (decide (k = (ci p, n))) as [->|Hne]; [by rewrite lookup_alter_eq, E|by rewrite lookup_alter_ne].
Qed.

Lemma wp_finishRun p n st (Φ : unit -> world Q -> Prop) w :
  w_faults w = [] -> st = StatusSuccess \/ st = StatusFailed ->
  (forall w' t, leads w w' (set_runs (w_db w) (alter (update_run_row (Some t) st) (ci p, n) (pipeline_runs (w_db w))))
     (w_queue w) (w_heap w) (w_runtimes w) -> Φ tt w') ->
  wp (finishPipelineRun p n st) Φ w.
Proof.
  intros Hf Hst HΦ. apply (wp_timed_call (fun t d => UpdateRun d p n (Some t) st)); [done| |].
  - intros t. by rewrite UpdateRun_finish.
  - intros w' t. rewrite UpdateRun_finish by done. apply HΦ.
Qed.

Lemma wp_update_runtime p f (Φ : unit -> world Q -> Prop) w :
  w_faults w = [] ->
  (forall w', leads w w' (w_db w) (w_queue w) (alter f p (w_heap w)) (w_runtimes w) -> Φ tt w') ->
  wp (update_runtime p f) Φ w.
Proof. intros Hf HΦ. unfold wp, update_runtime. apply HΦ. by split. Qed.

Lemma wp_deleteRuntime p n (Φ : unit -> world Q -> Prop) w :
  w_faults w = [] ->
  (forall w', leads w w' (w_db w) (w_queue w) (w_heap w) (delete (runtimeKey p n) (w_runtimes w)) -> Φ tt w') ->
  wp (deleteRuntime p n) Φ w.
Proof. intros Hf HΦ. unfold wp, deleteRuntime. apply HΦ. by split. Qed.

Lemma wp_load p rt (Φ : pipelineRuntime -> world Q -> Prop) w :
  w_heap w !! p = Some rt -> Φ rt w -> wp (load p) Φ w.
Proof. intros Hp HΦ. unfold wp, load. by rewrite Hp. Qed.

Lemma wp_getRuntime p n pt rt (Φ : option (ptr * pipelineRuntime) -> world Q -> Prop) w :
  w_runtimes w !! runtimeKey p n = Some pt -> w_heap w !! pt = Some rt ->
  Φ (Some (pt, rt)) w -> wp (getPipelineRuntime p n) Φ w.
Proof. intros Hp Ht HΦ. unfold wp, getPipelineRuntime. rewrite Hp. simpl. by rewrite Ht. Qed.

(** Over a healthy queue a list of ready jobs goes out in order. *)
Lemma wp_enqueueReadyJobs p s n jobs ri (Φ : unit -> world Q -> Prop) w :
  w_faults w = [] -> healthy (w_queue w) ->
  (forall w' q, healthy q ->
     held q = held (w_queue w) ++ ((fun j => buildJobExecutionMessage n p s j ri) <$> jobs) ->
     leads w w' (w_db w) q (w_heap w) (w_runtimes w) -> Φ tt w') ->
  wp (enqueueReadyJobs p s n jobs ri) Φ w.
Proof.
  revert w. induction jobs as [|j jobs IH]; intros w Hf Hh HΦ; simpl.
  - apply wp_ret. apply (HΦ w (w_queue w)); [done|by rewrite app_nil_r|]. by split.
  - apply wp_bind. unfold wp at 1, enqueue.
    destruct (enqueueJob_healthy (buildJobExecutionMessage n p s j ri) (w_queue w) Hh) as (q1 & E & Hh1 & Hq1).
    rewrite E. apply IH; simpl; [done|done|]. intros w' q Hq Hc [E1 E2 E3 E4 E5 E6 E7].
    apply (HΦ w' q); [done| |by split].
    rewrite Hc. simpl. rewrite Hq1, <- app_assoc. done.
Qed.

(** ** Runtime keys *)

Lemma runtimeKey_inj p1 n1 p2 n2 : runtimeKey p1 n1 = runtimeKey p2 n2 -> p1 = p2 /\ n1 = n2.
Proof.
  unfold runtimeKey. change (":" +++ ?s) with (String ":"%char s).
  intros [-> E]%sep_last_inj; [|apply Itoa_no_colon..]. split; [done|]. by apply Itoa_inj.
Qed.

End orchestrator.
