(* ===== verification/Execution.v ===== *)
(** * Executions of a run

    The orchestrator's handlers, one after the other, over a calm environment (no
    store faults, a healthy queue): from the callbacks of the workers to the end of the run.
    [running] is the invariant of a run in progress. Theorems: dispatching
    starts the first stage; every report of a handed-out job keeps the
    invariant, starts the next stage when one is complete, and ends the run as
    a success after the last one; a failure that is not allowed ends it as
    failed; so a run whose jobs are reported ends, and it is never stuck
    before. *)

From S2P Require Import Prelude GoStrings Models Graph Wellformed Planner Store StageState Mq Publisher Orchestrator.

Section execution.
Context {C : Collation} {Q : Type} {J : JobSink Q}.

(** ** Statuses of rows *)

Definition run_status_of (d : db) (p : string) (n : Z) : option string :=
  run_status <$> pipeline_runs d !! (ci p, n).
Definition stage_status_of (d : db) (p : string) (n : Z) (s : string) : option string :=
  Stage_Status <$> stage_runs d !! (ci p, n, ci s).
Definition job_status_of (d : db) (p : string) (n : Z) (s j : string) : option string :=
  Job_Status <$> job_runs d !! (ci p, n, ci s, ci j).

Lemma stage_status_update d p n s t st s' :
  stage_status_of (UpdateStage d p n s t st).1 p n s'
  = if decide (ci s' = ci s) then (fun _ => st) <$> stage_status_of d p n s' else stage_status_of d p n s'.
Proof.
  unfold stage_status_of. simpl. case_decide as E.
  - rewrite E, lookup_alter_eq. by destruct (stage_runs d !! _).
  - rewrite lookup_alter_ne; congruence.
Qed.

Lemma job_status_update d p n s j t st s' j' :
  job_status_of (UpdateJob d p n s j t st).1 p n s' j'
  = if decide (ci s' = ci s /\ ci j' = ci j) then (fun _ => st) <$> job_status_of d p n s' j'
    else job_status_of d p n s' j'.
Proof.
  unfold job_status_of. simpl. case_decide as E.
  - destruct E as [-> ->]. rewrite lookup_alter_eq. by destruct (job_runs d !! _).
  - rewrite lookup_alter_ne; [done|]. intros [= E1 E2]. by apply E.
Qed.

Lemma run_status_finish d p n t st :
  run_status_of (set_runs d (alter (update_run_row t st) (ci p, n) (pipeline_runs d))) p n
  = (fun _ => st) <$> run_status_of d p n.
Proof. unfold run_status_of. simpl. rewrite lookup_alter_eq. by destruct (pipeline_runs d !! _). Qed.

(** ** A run in progress *)

Section run.
Context (p : Pipeline) (n : Z) (ri : runInfo) (pt : ptr) (base : list JobExecutionMessage).
Context (Hvalid : valid_pipeline p).

Abbreviation pname := (Pipeline_Name p).
Abbreviation stage_names := (fmap (M:=list) Stage_Name (Pipeline_Stages p)).
Abbreviation handed := (list (string * list JobExecutionPlan)).

(** Names are told apart by the store as the program tells them apart, and no
    name is blank: what the callbacks and the tables need to identify a job. *)
Record identifiable : Prop := {
  id_run : n ≠ 0%Z;
  id_pipeline : TrimSpace pname ≠ "";
  id_stage : forall s, s ∈ stage_names -> TrimSpace s ≠ "";
  id_job : forall j, j ∈ Pipeline_Jobs p -> TrimSpace (Job_Name j) ≠ "";
  id_ci_stage : forall s s', s ∈ stage_names -> s' ∈ stage_names -> ci s = ci s' -> s = s';
  id_ci_job : forall j j', j ∈ Pipeline_Jobs p -> j' ∈ Pipeline_Jobs p -> Job_Stage j = Job_Stage j' ->
    ci (Job_Name j) = ci (Job_Name j') -> Job_Name j = Job_Name j';
}.

(** The messages of jobs handed out, stage by stage. *)
Definition stage_messages (s : string) (sent : list JobExecutionPlan) : list JobExecutionMessage :=
  (fun job => buildJobExecutionMessage n pname s job ri) <$> sent.
Definition messages (h : handed) : list JobExecutionMessage := h ≫= fun x => stage_messages x.1 x.2.

(** All jobs of a stage, in some order. *)
Definition whole_stage (x : string * list JobExecutionPlan) : Prop := x.2 ≡ₚ jobPlan <$> jobsForStage x.1 p.

Definition configs_ok (s : string) (st : stageState) : Prop :=
  forall j, j ∈ jobsForStage s p ->
    exists c, jobConfigs st !! Job_Name j = Some c /\ allowFailures c = Job_Failures j.

Definition stage_live (s : string) (st : stageState) (sent : list JobExecutionPlan) (done : gset string) : Prop :=
  (exists sp, plan_of_stage s p sp /\ live_inv s p sp st sent done) /\ configs_ok s st /\ isStageComplete st = false.

(** A stage not yet started. *)
Definition stage_fresh (s : string) (st : stageState) : Prop :=
  (exists sp, plan_of_stage s p sp /\ plan st = sp /\ remainingNeeds st = InDegree sp) /\
  queued st = ∅ /\ completed st = ∅ /\ configs_ok s st.

Record runtime_ok (rt : pipelineRuntime) : Prop := {
  ro_pipeline : rt_pipeline rt = pname;
  ro_runNo : rt_runNo rt = n;
  ro_order : rt_stageOrder rt = stage_names;
  ro_info : rt_runInfo rt = ri;
}.

(** The rows of the run: finished stages, open stages, and every job. *)
Record rows_ok (d : db) (status : string) (finished open : list string) (ended : Job -> Prop) : Prop := {
  rw_run : run_status_of d pname n = Some status;
  rw_finished : forall s, s ∈ finished -> stage_status_of d pname n s = Some StatusSuccess;
  rw_open : forall s, s ∈ open -> stage_status_of d pname n s = Some StatusQueued;
  rw_jobs : forall j, j ∈ Pipeline_Jobs p -> exists st,
    job_status_of d pname n (Job_Stage j) (Job_Name j) = Some st /\
    (ended j -> st = StatusSuccess \/ st = StatusFailed);
}.

Definition job_ended (past : handed) (cur : string) (done : gset string) (j : Job) : Prop :=
  Job_Stage j ∈ past.*1 \/ (Job_Stage j = cur /\ Job_Name j ∈ done).

Record running (w : world Q) (past : handed) (cur : string) (sent : list JobExecutionPlan) (done : gset string)
    (future : list string) : Prop := {
  rn_calm : w_faults w = [];
  rn_healthy : healthy (w_queue w);
  rn_stages : past.*1 ++ cur :: future = stage_names;
  rn_past : forall x, x ∈ past -> whole_stage x;
  rn_map : w_runtimes w !! runtimeKey pname n = Some pt;
  rn_heap : exists rt, w_heap w !! pt = Some rt /\ runtime_ok rt /\
    (exists st, rt_stageStates rt !! cur = Some st /\ stage_live cur st sent done) /\
    (forall s, s ∈ future -> exists st, rt_stageStates rt !! s = Some st /\ stage_fresh s st);
  rn_confirmed : held (w_queue w) = base ++ messages (past ++ [(cur, sent)]);
  rn_rows : rows_ok (w_db w) StatusQueued past.*1 (cur :: future) (job_ended past cur done);
}.

(** The run is over, with every job of every stage handed out once. *)
Record finished (w : world Q) (all : handed) : Prop := {
  fi_calm : w_faults w = [];
  fi_healthy : healthy (w_queue w);
  fi_stages : all.*1 = stage_names;
  fi_whole : forall x, x ∈ all -> whole_stage x;
  fi_map : w_runtimes w !! runtimeKey pname n = None;
  fi_confirmed : held (w_queue w) = base ++ messages all;
  fi_rows : rows_ok (w_db w) StatusSuccess stage_names [] (fun _ => True);
}.

(** A worker's report that job [j] of stage [cur] ended with [status]. *)
Record report (req : JobStatusCallbackRequest) (cur : string) (j : Job) (status : string) : Prop := {
  rp_pipeline : Cb_Pipeline req = pname;
  rp_run : Cb_RunNo req = n;
  rp_stage : Cb_Stage req = cur;
  rp_job : Cb_Job req = Job_Name j;
  rp_status : TrimSpace (Cb_Status req) = status;
}.

(** Success, or a failure the job is allowed. *)
Definition tolerated (j : Job) (status : string) : Prop :=
  status = StatusSuccess \/ (status = StatusFailed /\ Job_Failures j = true).

Context (Hid : identifiable).

Lemma stages_unique : NoDup stage_names.
Proof. apply vp_stages_unique, Hvalid. Qed.

Lemma cur_in past cur future : past ++ cur :: future = stage_names -> cur ∈ stage_names.
Proof. intros <-. set_solver. Qed.

Lemma stage_jobs_nonempty s : s ∈ stage_names -> exists j, j ∈ jobsForStage s p.
Proof.
  intros (sg & -> & Hs)%list_elem_of_fmap. destruct (vp_stage_nonempty _ Hvalid sg Hs) as (j & Hj & E).
  exists j. by apply jobsForStage_elem.
Qed.

(** *** Rows *)

Lemma rows_finish_job d status fin open ended cur j st t :
  rows_ok d status fin open ended -> cur ∈ stage_names -> j ∈ jobsForStage cur p ->
  st = StatusSuccess \/ st = StatusFailed ->
  rows_ok (UpdateJob d pname n cur (Job_Name j) t st).1 status fin open
    (fun k => ended k \/ (Job_Stage k = cur /\ Job_Name k = Job_Name j)).
Proof.
  intros [R1 R2 R3 R4] Hcur [Hj Es]%jobsForStage_elem Hst. split; try done.
  intros k Hk. destruct (R4 k Hk) as (st0 & E0 & Hend). rewrite job_status_update.
  case_decide as Hc.
  - rewrite E0. simpl. exists st. split; [done|]. by intros _.
  - exists st0. split; [done|]. intros [?|[E1 E2]]; [auto|]. destruct Hc. by rewrite E1, E2.
Qed.

Lemma rows_finish_stage d status fin open ended cur t :
  rows_ok d status fin (cur :: open) ended -> cur ∈ stage_names ->
  (forall s, s ∈ fin -> s ∈ stage_names) -> (forall s, s ∈ open -> s ∈ stage_names /\ s ≠ cur) ->
  rows_ok (UpdateStage d pname n cur t StatusSuccess).1 status (fin ++ [cur]) open ended.
Proof.
  intros [R1 R2 R3 R4] Hcur Hfin Hopen. split; try done.
  - intros s Hs. rewrite stage_status_update. apply elem_of_app in Hs as [Hs|Hs].
    + rewrite (R2 s Hs). by case_decide.
    + apply list_elem_of_singleton in Hs as ->. rewrite decide_True, (R3 cur) by (done || set_solver). done.
  - intros s Hs. rewrite stage_status_update. destruct (Hopen s Hs) as [Hin Hne].
    rewrite decide_False; [apply R3; set_solver|]. intros E. by apply Hne, (id_ci_stage Hid).
Qed.

Lemma rows_ended d status fin open ended ended' :
  rows_ok d status fin open ended -> (forall j, j ∈ Pipeline_Jobs p -> ended' j -> ended j) ->
  rows_ok d status fin open ended'.
Proof.
  intros [R1 R2 R3 R4] H. split; try done. intros j Hj. destruct (R4 j Hj) as (st & E & He). exists st.
  split; [done|]. intros Hj'. auto.
Qed.

Lemma rows_finish_run d status status' fin open ended t :
  rows_ok d status fin open ended ->
  rows_ok (set_runs d (alter (update_run_row t status') (ci pname, n) (pipeline_runs d))) status' fin open ended.
Proof. intros [R1 R2 R3 R4]. split; try done. by rewrite run_status_finish, R1. Qed.

(** *** The next stage *)

Lemma next_stage past cur future :
  past ++ cur :: future = stage_names -> nextStageName stage_names cur = head future.
Proof.
  intros E. pose proof stages_unique as Hnd. rewrite <- E in *. clear E.
  induction past as [|s past IH]; simpl in *.
  - destruct future as [|nx future]; [done|]. by rewrite decide_True.
  - apply NoDup_cons in Hnd as [Hs Hnd]. assert (s ≠ cur) by set_solver. destruct (past ++ cur :: future) as [|nx rest] eqn:E; [by destruct past|].
    rewrite decide_False by done. by apply IH.
Qed.

(** A live stage that has just seen a success. *)
Lemma live_step s st sent done j :
  stage_live s st sent done -> JobPlan_Name (jobPlan j) ∈ JobPlan_Name <$> sent -> Job_Name j ∉ done ->
  let '(st', ready) := markJobSucceeded st (Job_Name j) in
  (exists sp, plan_of_stage s p sp /\ live_inv s p sp st' (sent ++ ready) ({[Job_Name j]} ∪ done)) /\ configs_ok s st'.
Proof.
  intros [(sp & Hsp & Hl) [Hc _]] Hin Hn. pose proof (li_done _ _ _ _ _ _ Hl) as Ed.
  pose proof (live_success s p sp Hvalid Hsp st sent (Job_Name j)) as H.
  pose proof (markJobSucceeded_static st (Job_Name j)) as [_ Ec].
  destruct (markJobSucceeded st (Job_Name j)) as [st' ready]. simpl in Ec.
  rewrite Ed in H. destruct H as [H1 H2]; [done|done|done|].
  split.
  - exists sp. split; [done|]. by rewrite <- H2.
  - intros k Hk. rewrite Ec. by apply Hc.
Qed.

(** A fresh stage with jobs becomes live, and is not complete yet. *)
Lemma fresh_poll s st :
  s ∈ stage_names -> stage_fresh s st ->
  let '(st', ready) := getReadyJobs st in stage_live s st' ready ∅.
Proof.
  intros Hs [(sp & Hsp & E1 & E2) (E3 & E4 & Hc)].
  pose proof (poll_live s p sp Hvalid Hsp st E1 E2 E3 E4) as H.
  pose proof (readyLoop_static (StagePlan_Jobs (plan st)) st) as [_ Ec]. unfold getReadyJobs in *.
  destruct (readyLoop st (StagePlan_Jobs (plan st))) as [st' ready]. simpl in Ec. destruct H as [Hl Hcomp].
  split; [by exists sp|]. split; [intros k Hk; rewrite Ec; by apply Hc|].
  apply not_true_iff_false. intros Hcomplete. destruct (stage_jobs_nonempty s Hs) as [j Hj].
  pose proof (proj1 (live_complete_iff s p sp Hsp _ _ _ Hl) Hcomplete j Hj). set_solver.
Qed.

(** *** One report *)

(** The state between the adjustment of the current stage and [advance]. *)
Record settling (w : world Q) (rt : pipelineRuntime) (st : stageState) (past : handed) (cur : string)
    (sent : list JobExecutionPlan) (done : gset string) (future : list string) : Prop := {
  se_calm : w_faults w = [];
  se_healthy : healthy (w_queue w);
  se_stages : past.*1 ++ cur :: future = stage_names;
  se_past : forall x, x ∈ past -> whole_stage x;
  se_map : w_runtimes w !! runtimeKey pname n = Some pt;
  se_heap : w_heap w !! pt = Some rt;
  se_rt : runtime_ok rt;
  se_cur : rt_stageStates rt !! cur = Some st;
  se_live : exists sp, plan_of_stage cur p sp /\ live_inv cur p sp st sent done;
  se_configs : configs_ok cur st;
  se_future : forall s, s ∈ future -> exists st, rt_stageStates rt !! s = Some st /\ stage_fresh s st;
  se_confirmed : held (w_queue w) = base ++ messages (past ++ [(cur, sent)]);
  se_rows : rows_ok (w_db w) StatusQueued past.*1 (cur :: future) (job_ended past cur done);
}.

(** What a tolerated report leads to. *)
Definition progress (w : world Q) (past : handed) (cur : string) (sent : list JobExecutionPlan) (done : gset string)
    (future : list string) : Prop :=
  running w past cur sent done future \/
  ((forall job, job ∈ sent -> JobPlan_Name job ∈ done) /\
   ((exists nx future' sent', future = nx :: future' /\ running w (past ++ [(cur, sent)]) nx sent' ∅ future') \/
    (future = [] /\ finished w (past ++ [(cur, sent)])))).

Lemma messages_snoc past cur sent :
  messages (past ++ [(cur, sent)]) = messages past ++ stage_messages cur sent.
Proof. unfold messages. rewrite bind_app. simpl. by rewrite app_nil_r. Qed.

Lemma messages_more past cur sent ready :
  messages (past ++ [(cur, sent)]) ++ stage_messages cur ready = messages (past ++ [(cur, sent ++ ready)]).
Proof. rewrite !messages_snoc, <- app_assoc. f_equal. unfold stage_messages. by rewrite fmap_app. Qed.

Lemma stage_over past cur sent future done j :
  past.*1 ++ cur :: future = stage_names ->
  (forall k, k ∈ jobsForStage cur p -> Job_Name k ∈ done) ->
  j ∈ Pipeline_Jobs p -> Job_Stage j ∈ (past ++ [(cur, sent)]).*1 -> job_ended past cur done j.
Proof.
  intros Hst Hall Hj. rewrite fmap_app, elem_of_app. simpl. intros [?|Hx%list_elem_of_singleton]; [by left|]. subst.
  right. split; [done|]. apply Hall. by apply jobsForStage_elem.
Qed.

Lemma past_whole past cur sent x :
  (forall x, x ∈ past -> whole_stage x) -> whole_stage (cur, sent) -> x ∈ past ++ [(cur, sent)] -> whole_stage x.
Proof. intros H1 H2 [?|Hx%list_elem_of_singleton]%elem_of_app; subst; auto. Qed.

(** Between two stages, or after the last one: the stages [all] are over. *)
Record between (w : world Q) (all : handed) (future : list string) : Prop := {
  bt_calm : w_faults w = [];
  bt_healthy : healthy (w_queue w);
  bt_stages : all.*1 ++ future = stage_names;
  bt_whole : forall x, x ∈ all -> whole_stage x;
  bt_map : w_runtimes w !! runtimeKey pname n = Some pt;
  bt_confirmed : held (w_queue w) = base ++ messages all;
  bt_rows : rows_ok (w_db w) StatusQueued all.*1 future (job_ended all "" ∅);
}.

Lemma future_ne past (cur : string) future s : past ++ cur :: future = stage_names -> s ∈ future -> s ≠ cur.
Proof.
  intros Hst Hs ->. pose proof stages_unique as Hu. rewrite <- Hst in Hu.
  apply NoDup_app in Hu as (_ & _ & Hu). by apply NoDup_cons in Hu as [Hu _].
Qed.

Lemma settled_between w w1 t rt st past cur sent done future :
  settling w rt st past cur sent done future -> isStageComplete st = true ->
  leads w w1 (UpdateStage (w_db w) pname n cur (Some t) StatusSuccess).1 (w_queue w) (w_heap w) (w_runtimes w) ->
  between w1 (past ++ [(cur, sent)]) future /\ forall job, job ∈ sent -> JobPlan_Name job ∈ done.
Proof.
  intros [Hcalm Hh Hst Hpast Hmap _ _ _ (sp & Hsp & Hl) _ _ Hconf Hrows] Hc L.
  pose proof (proj1 (live_complete_iff cur p sp Hsp _ _ _ Hl) Hc) as Hall. split.
  2:{ intros job Hjob. destruct (si_sent _ _ _ _ _ _ _ (li_inv _ _ _ _ _ _ Hl) job Hjob) as (k & Hk & -> & _). by apply Hall. }
  split.
  - apply (ld_faults _ _ _ _ _ _ L).
  - by rewrite (ld_queue _ _ _ _ _ _ L).
  - by rewrite fmap_app, <- app_assoc.
  - intros x. apply past_whole; [done|]. by eapply live_complete.
  - by rewrite (ld_map _ _ _ _ _ _ L).
  - by rewrite (ld_queue _ _ _ _ _ _ L).
  - rewrite (ld_db _ _ _ _ _ _ L), fmap_app. apply rows_finish_stage; [|by eapply cur_in| |].
    + eapply rows_ended; [exact Hrows|]. intros j Hj [Hin|[_ ?]]; [by eapply stage_over|set_solver].
    + intros s Hs. rewrite <- Hst. set_solver.
    + intros s Hs. split; [rewrite <- Hst; set_solver|by eapply future_ne].
Qed.

(** After the last stage the run ends. *)
Lemma run_over w all : between w all [] ->
  wp (finishPipelineRunWithMetrics pname n StatusSuccess;; deleteRuntime pname n) (fun _ w' => finished w' all) w.
Proof.
  intros [Hcalm Hh Hst Hwhole _ Hconf Hrows]. rewrite app_nil_r in Hst.
  apply wp_bind, wp_finishRun; [done|by left|]. intros w2 t2 L2.
  apply wp_deleteRuntime; [apply (ld_faults _ _ _ _ _ _ L2)|]. intros w3 L3.
  assert (Eq : w_queue w3 = w_queue w) by by rewrite (ld_queue _ _ _ _ _ _ L3), (ld_queue _ _ _ _ _ _ L2).
  split; rewrite ?Eq; try done.
  - apply (ld_faults _ _ _ _ _ _ L3).
  - rewrite (ld_map _ _ _ _ _ _ L3). apply lookup_delete_eq.
  - rewrite (ld_db _ _ _ _ _ _ L3), (ld_db _ _ _ _ _ _ L2). rewrite Hst in Hrows. eapply rows_finish_run, rows_ended; [exact Hrows|].
    intros j Hj _. left. rewrite Hst. by apply (vp_job_stage _ Hvalid).
Qed.

(** Before it, the next one starts, and does not end at once. *)
Lemma next_stage_started w all nx future rt stn :
  between w all (nx :: future) -> w_heap w !! pt = Some rt -> runtime_ok rt ->
  rt_stageStates rt !! nx = Some stn -> stage_fresh nx stn ->
  (forall s, s ∈ future -> exists st, rt_stageStates rt !! s = Some st /\ stage_fresh s st) ->
  let '(stn', ready) := getReadyJobs stn in
  wp (update_runtime pt (set_stage nx stn');; enqueueReadyJobs pname nx n ready (rt_runInfo rt);;
      if isStageComplete stn' then finishStageWithMetrics pname n nx StatusSuccess else mret tt)
     (fun _ w' => running w' all nx ready ∅ future) w.
Proof.
  intros [Hcalm Hh Hst Hwhole Hmap Hconf Hrows] Hheap Hrt Hstn Hfresh Hfut.
  pose proof (fresh_poll nx stn (cur_in _ _ _ Hst) Hfresh) as Hpoll. destruct (getReadyJobs stn) as [stn' ready].
  apply wp_bind, wp_update_runtime; [done|]. intros w2 L2.
  apply wp_bind, wp_enqueueReadyJobs; [apply (ld_faults _ _ _ _ _ _ L2)|by rewrite (ld_queue _ _ _ _ _ _ L2)|].
  intros w3 q Hq Hcq L3. destruct Hpoll as (Hlive & Hcfgn & Hnc). rewrite Hnc. apply wp_ret. split; try done.
  - apply (ld_faults _ _ _ _ _ _ L3).
  - by rewrite (ld_queue _ _ _ _ _ _ L3).
  - by rewrite (ld_map _ _ _ _ _ _ L3), (ld_map _ _ _ _ _ _ L2).
  - exists (set_stage nx stn' rt). split_and!.
    + by rewrite (ld_heap _ _ _ _ _ _ L3), (ld_heap _ _ _ _ _ _ L2), lookup_alter_eq, Hheap.
    + destruct Hrt. by split.
    + exists stn'. simpl. by rewrite lookup_insert_eq.
    + intros s Hs. simpl. rewrite lookup_insert_ne by (apply not_eq_sym; by eapply future_ne). by apply Hfut.
  - rewrite (ld_queue _ _ _ _ _ _ L3), Hcq, (ld_queue _ _ _ _ _ _ L2), Hconf.
    by rewrite messages_snoc, (ro_info _ Hrt), <- app_assoc.
  - rewrite (ld_db _ _ _ _ _ _ L3), (ld_db _ _ _ _ _ _ L2). eapply rows_ended; [exact Hrows|].
    intros j Hj [?|[_ ?]]; [by left|set_solver].
Qed.

Lemma advance_progress req w rt st past cur sent done future :
  settling w rt st past cur sent done future ->
  Cb_Pipeline req = pname -> Cb_RunNo req = n -> Cb_Stage req = cur ->
  wp (advance req pt st) (fun _ w' => progress w' past cur sent done future) w.
Proof.
  intros Hse Ep En Ec. pose proof Hse as [Hcalm Hh Hst Hpast Hmap Hheap Hrt Hcur (sp & Hsp & Hl) Hcfg Hfut Hconf Hrows].
  unfold advance. rewrite Ep, En, Ec. destruct (isStageComplete st) eqn:Hc; simpl.
  2:{ apply wp_ret. left. split; try done. exists rt. split_and!; try done. exists st. split; [done|].
      split; [by exists sp|done]. }
  apply wp_bind, wp_finishStage; [done|]. intros w1 t L1.
  destruct (settled_between _ _ _ _ _ _ _ _ _ _ Hse Hc L1) as [Hb Hdone].
  assert (Hheap1 : w_heap w1 !! pt = Some rt) by by rewrite (ld_heap _ _ _ _ _ _ L1).
  apply wp_bind, (wp_load _ rt); [done|]. rewrite (ro_order _ Hrt), (next_stage _ _ _ Hst).
  destruct future as [|nx future]; simpl.
  - eapply wp_mono; [by apply run_over|]. intros [] w' Hf. right. split; [done|]. by right.
  - destruct (Hfut nx ltac:(left)) as (stn & Hstn & Hfresh). rewrite Hstn.
    pose proof (next_stage_started w1 _ nx future rt stn Hb Hheap1 Hrt Hstn Hfresh) as H.
    destruct (getReadyJobs stn) as [stn' ready]. eapply wp_mono; [apply H; intros s Hs; apply Hfut; by right|].
    intros [] w' Hr. right. split; [done|]. left. by exists nx, future, ready.
Qed.

Lemma report_identified req cur j status :
  report req cur j status -> cur ∈ stage_names -> j ∈ Pipeline_Jobs p -> missing_identity req = false.
Proof.
  intros [E1 E2 E3 E4 _] Hcur Hj. unfold missing_identity. rewrite E1, E2, E3, E4. apply bool_decide_eq_false.
  destruct Hid. naive_solver.
Qed.

(** After the job's row was updated, the state of the run is what it was. *)
Lemma job_row_updated w w' past cur sent done future j t status :
  running w past cur sent done future -> j ∈ jobsForStage cur p ->
  status = StatusSuccess \/ status = StatusFailed ->
  leads w w' (UpdateJob (w_db w) pname n cur (Job_Name j) (Some t) status).1 (w_queue w) (w_heap w) (w_runtimes w) ->
  rows_ok (w_db w') StatusQueued past.*1 (cur :: future) (job_ended past cur ({[Job_Name j]} ∪ done)).
Proof.
  intros [Hcalm Hh Hst Hpast Hmap _ Hconf Hrows] Hj Hstatus L. rewrite (ld_db _ _ _ _ _ _ L).
  eapply rows_ended; [eapply (rows_finish_job _ _ _ _ _ cur j); [exact Hrows|rewrite <- Hst; set_solver|done|exact Hstatus]|].
  intros k Hk [?|[E Hin]]; [left; by left|]. apply elem_of_union in Hin as [Hin|Hin]; [|left; by right].
  right. split; [done|]. by apply elem_of_singleton in Hin.
Qed.

Lemma jobSucceeded_progress req w rt st past cur sent done future j :
  w_faults w = [] -> healthy (w_queue w) -> past.*1 ++ cur :: future = stage_names ->
  (forall x, x ∈ past -> whole_stage x) ->
  w_runtimes w !! runtimeKey pname n = Some pt -> w_heap w !! pt = Some rt -> runtime_ok rt ->
  rt_stageStates rt !! cur = Some st -> stage_live cur st sent done ->
  (forall s, s ∈ future -> exists st, rt_stageStates rt !! s = Some st /\ stage_fresh s st) ->
  held (w_queue w) = base ++ messages (past ++ [(cur, sent)]) ->
  rows_ok (w_db w) StatusQueued past.*1 (cur :: future) (job_ended past cur ({[Job_Name j]} ∪ done)) ->
  Job_Name j ∈ JobPlan_Name <$> sent -> Job_Name j ∉ done ->
  Cb_Pipeline req = pname -> Cb_RunNo req = n -> Cb_Stage req = cur -> Cb_Job req = Job_Name j ->
  wp (jobSucceeded req pt rt st)
     (fun _ w' => exists ready, progress w' past cur (sent ++ ready) ({[Job_Name j]} ∪ done) future) w.
Proof.
  intros Hcalm Hh Hst Hpast Hmap Hheap Hrt Hcur Hlive Hfut Hconf Hrows Hin Hn Ep En Ec Ej.
  unfold jobSucceeded. rewrite Ej. pose proof (live_step cur st sent done j Hlive Hin Hn) as Hstep.
  destruct (markJobSucceeded st (Job_Name j)) as [st' ready]. destruct Hstep as [Hl Hcfg].
  apply wp_bind, wp_update_runtime; [done|]. intros w1 L1.
  apply wp_bind, wp_enqueueReadyJobs.
  { by rewrite (ld_faults _ _ _ _ _ _ L1). } { by rewrite (ld_queue _ _ _ _ _ _ L1). }
  intros w2 q Hq Hcq L2.
  assert (Hs : settling w2 (set_stage cur st' rt) st' past cur (sent ++ ready) ({[Job_Name j]} ∪ done) future).
  { split; try done.
    - by rewrite (ld_faults _ _ _ _ _ _ L2).
    - by rewrite (ld_queue _ _ _ _ _ _ L2).
    - by rewrite (ld_map _ _ _ _ _ _ L2), (ld_map _ _ _ _ _ _ L1).
    - rewrite (ld_heap _ _ _ _ _ _ L2), (ld_heap _ _ _ _ _ _ L1), Ec, lookup_alter_eq, Hheap. done.
    - destruct Hrt. by split.
    - simpl. apply lookup_insert_eq.
    - intros s Hs. simpl. rewrite lookup_insert_ne; [by apply Hfut|]. intros ->.
      pose proof stages_unique as Hu. rewrite <- Hst in Hu. apply NoDup_app in Hu as (_ & _ & Hu).
      by apply NoDup_cons in Hu as [Hu _].
    - rewrite (ld_queue _ _ _ _ _ _ L2), Hcq, (ld_queue _ _ _ _ _ _ L1), Hconf, <- app_assoc.
      f_equal. rewrite Ep, En, Ec, (ro_info _ Hrt). apply messages_more.
    - by rewrite (ld_db _ _ _ _ _ _ L2), (ld_db _ _ _ _ _ _ L1). }
  pose proof (advance_progress req _ _ _ _ _ _ _ _ Hs Ep En Ec) as Hadv. unfold wp in *.
  destruct (advance req pt st' w2) as [w3 [[]|]]; [|done]. by exists ready.
Qed.

(** One tolerated report of a handed-out job. *)
Lemma tolerated_report w past cur sent done future j req status :
  running w past cur sent done future -> j ∈ jobsForStage cur p ->
  Job_Name j ∈ JobPlan_Name <$> sent -> Job_Name j ∉ done ->
  report req cur j status -> tolerated j status ->
  wp (HandleJobFinished req)
     (fun _ w' => exists ready, progress w' past cur (sent ++ ready) ({[Job_Name j]} ∪ done) future) w.
Proof.
  intros Hrun Hj Hin Hn Hrep Htol.
  assert (Hcin : cur ∈ stage_names) by (rewrite <- (rn_stages _ _ _ _ _ _ Hrun); set_solver).
  assert (Hjp : j ∈ Pipeline_Jobs p) by (by apply jobsForStage_elem in Hj as [? _]).
  assert (Hstatus : status = StatusSuccess \/ status = StatusFailed) by (destruct Htol as [?|[? _]]; auto).
  unfold HandleJobFinished. rewrite (report_identified _ _ _ _ Hrep Hcin Hjp).
  destruct Hrep as [E1 E2 E3 E4 E5]. rewrite E5, bool_decide_eq_false_2 by naive_solver.
  rewrite E1, E2, E3, E4. apply wp_bind, wp_finishJob; [apply (rn_calm _ _ _ _ _ _ Hrun)|]. intros w1 t L1.
  pose proof (job_row_updated _ _ _ _ _ _ _ _ _ _ Hrun Hj Hstatus L1) as Hrows.
  destruct (rn_heap _ _ _ _ _ _ Hrun) as (rt & Hheap & Hrt & (st & Hst & Hlive) & Hfut).
  pose proof Hlive as (_ & Hcfg & _). destruct (Hcfg j Hj) as (c & Hc & Hallow).
  apply wp_bind, (wp_getRuntime _ _ pt rt).
  { rewrite (ld_map _ _ _ _ _ _ L1). apply (rn_map _ _ _ _ _ _ Hrun). }
  { by rewrite (ld_heap _ _ _ _ _ _ L1). }
  rewrite Hst, Hc. simpl. rewrite Hallow.
  assert (Hgo : wp (jobSucceeded req pt rt st)
     (fun _ w' => exists ready, progress w' past cur (sent ++ ready) ({[Job_Name j]} ∪ done) future) w1).
  { apply jobSucceeded_progress; try done.
    - apply (ld_faults _ _ _ _ _ _ L1).
    - rewrite (ld_queue _ _ _ _ _ _ L1). apply (rn_healthy _ _ _ _ _ _ Hrun).
    - apply (rn_stages _ _ _ _ _ _ Hrun).
    - apply (rn_past _ _ _ _ _ _ Hrun).
    - rewrite (ld_map _ _ _ _ _ _ L1). apply (rn_map _ _ _ _ _ _ Hrun).
    - by rewrite (ld_heap _ _ _ _ _ _ L1).
    - rewrite (ld_queue _ _ _ _ _ _ L1). apply (rn_confirmed _ _ _ _ _ _ Hrun). }
  case_decide as Hf; [|done]. destruct Htol as [->|[_ ->]]; done.
Qed.

(** The run has failed: its rows say so, and it is forgotten. *)
Record failed (w : world Q) (past : handed) (cur : string) (sent : list JobExecutionPlan) : Prop := {
  fa_calm : w_faults w = [];
  fa_map : w_runtimes w !! runtimeKey pname n = None;
  fa_confirmed : held (w_queue w) = base ++ messages (past ++ [(cur, sent)]);
  fa_run : run_status_of (w_db w) pname n = Some StatusFailed;
  fa_stage : stage_status_of (w_db w) pname n cur = Some StatusFailed;
  fa_past : forall s, s ∈ past.*1 -> stage_status_of (w_db w) pname n s = Some StatusSuccess;
}.

Lemma failed_report w past cur sent done future j req :
  running w past cur sent done future -> j ∈ jobsForStage cur p ->
  report req cur j StatusFailed -> Job_Failures j = false ->
  wp (HandleJobFinished req) (fun _ w' => failed w' past cur sent /\
    job_status_of (w_db w') pname n cur (Job_Name j) = Some StatusFailed) w.
Proof.
  intros Hrun Hj Hrep Hnot.
  assert (Hcin : cur ∈ stage_names) by (rewrite <- (rn_stages _ _ _ _ _ _ Hrun); set_solver).
  pose proof (proj1 (jobsForStage_elem _ _ _) Hj) as [Hjp Ejs].
  unfold HandleJobFinished. rewrite (report_identified _ _ _ _ Hrep Hcin Hjp).
  destruct Hrep as [E1 E2 E3 E4 E5]. rewrite E5, bool_decide_eq_false_2 by naive_solver.
  rewrite E1, E2, E3, E4. apply wp_bind, wp_finishJob; [apply (rn_calm _ _ _ _ _ _ Hrun)|]. intros w1 t L1.
  pose proof (rn_rows _ _ _ _ _ _ Hrun) as [R1 R2 R3 R4].
  destruct (rn_heap _ _ _ _ _ _ Hrun) as (rt & Hheap & Hrt & (st & Hst & Hlive) & Hfut).
  pose proof Hlive as (_ & Hcfg & _). destruct (Hcfg j Hj) as (c & Hc & Hallow).
  apply wp_bind, (wp_getRuntime _ _ pt rt).
  { rewrite (ld_map _ _ _ _ _ _ L1). apply (rn_map _ _ _ _ _ _ Hrun). }
  { by rewrite (ld_heap _ _ _ _ _ _ L1). }
  rewrite Hst, Hc. simpl. rewrite Hallow, Hnot.
  apply wp_bind, wp_update_runtime; [apply (ld_faults _ _ _ _ _ _ L1)|]. intros w2 L2.
  apply wp_bind, wp_finishStage; [apply (ld_faults _ _ _ _ _ _ L2)|]. intros w3 t3 L3.
  apply wp_bind, wp_finishRun; [apply (ld_faults _ _ _ _ _ _ L3)|by right|]. intros w4 t4 L4.
  apply wp_deleteRuntime; [apply (ld_faults _ _ _ _ _ _ L4)|]. intros w5 L5.
  assert (Edb : w_db w5 = set_runs (UpdateStage (UpdateJob (w_db w) pname n cur (Job_Name j) (Some t) StatusFailed).1
      pname n cur (Some t3) StatusFailed).1 (alter (update_run_row (Some t4) StatusFailed) (ci pname, n) (pipeline_runs (w_db w)))).
  { by rewrite (ld_db _ _ _ _ _ _ L5), (ld_db _ _ _ _ _ _ L4), (ld_db _ _ _ _ _ _ L3), (ld_db _ _ _ _ _ _ L2), (ld_db _ _ _ _ _ _ L1). }
  assert (Est : forall s, stage_status_of (w_db w5) pname n s
    = if decide (ci s = ci cur) then (fun _ => StatusFailed) <$> stage_status_of (w_db w) pname n s
      else stage_status_of (w_db w) pname n s).
  { intros s. rewrite Edb. rewrite <- (stage_status_update (UpdateJob (w_db w) pname n cur (Job_Name j) (Some t) StatusFailed).1
      pname n cur (Some t3)). done. }
  split; [split|].
  - apply (ld_faults _ _ _ _ _ _ L5).
  - rewrite (ld_map _ _ _ _ _ _ L5). apply lookup_delete_eq.
  - rewrite (ld_queue _ _ _ _ _ _ L5), (ld_queue _ _ _ _ _ _ L4), (ld_queue _ _ _ _ _ _ L3), (ld_queue _ _ _ _ _ _ L2),
      (ld_queue _ _ _ _ _ _ L1). apply (rn_confirmed _ _ _ _ _ _ Hrun).
  - rewrite Edb. pose proof (run_status_finish (w_db w) pname n (Some t4) StatusFailed) as H. rewrite R1 in H. done.
  - rewrite Est, decide_True, (R3 cur) by (done || left). done.
  - intros s Hs. rewrite Est, decide_False; [by apply R2|]. intros E.
    pose proof stages_unique as Hu. pose proof (rn_stages _ _ _ _ _ _ Hrun) as Hstg. rewrite <- Hstg in Hu.
    assert (s = cur) as -> by (apply (id_ci_stage Hid); [rewrite <- Hstg; set_solver|done|done]).
    apply NoDup_app in Hu as (_ & Hu & _). apply (Hu cur Hs). left.
  - rewrite Edb. destruct (R4 j Hjp) as (s0 & Es0 & _). rewrite Ejs in Es0.
    pose proof (job_status_update (w_db w) pname n cur (Job_Name j) (Some t) StatusFailed cur (Job_Name j)) as H.
    rewrite decide_True, Es0 in H by done. exact H.
Qed.

End run.

(** ** Starting a run *)

Section start.
Context (p : Pipeline) (Hvalid : valid_pipeline p).
Abbreviation pname := (Pipeline_Name p).

Lemma buildJobConfigs_lookup j :
  j ∈ Pipeline_Jobs p ->
  buildJobConfigs p !! (Job_Stage j, Job_Name j) = Some (MkJobConfig (Job_Failures j) (Job_Needs j)).
Proof.
  intros Hj. unfold buildJobConfigs.
  apply (foldl_insert_spec (fun job => (Job_Stage job, Job_Name job))
           (fun job => MkJobConfig (Job_Failures job) (Job_Needs job))); [|done].
  apply (NoDup_fmap_1 snd). rewrite <- list_fmap_compose. apply (vp_jobs_unique _ Hvalid).
Qed.

(** A job record: the key of its row. *)
Definition job_row_key (n : Z) (stage : string) (job : JobExecutionPlan) : job_key :=
  (ci pname, n, ci stage, ci (JobPlan_Name job)).

Definition queued_job (d : db) (n : Z) (stage : string) (job : JobExecutionPlan) : Prop :=
  job_status_of d pname n stage (JobPlan_Name job) = Some StatusQueued.

Lemma wp_createJobRecords n stage configs jobs st (Φ : stageState -> world Q -> Prop) w :
  w_faults w = [] -> NoDup (job_row_key n stage <$> jobs) ->
  (forall job, job ∈ jobs -> job_runs (w_db w) !! job_row_key n stage job = None) ->
  (forall w' st', leads w w' (w_db w') (w_queue w) (w_heap w) (w_runtimes w) ->
     pipeline_runs (w_db w') = pipeline_runs (w_db w) -> stage_runs (w_db w') = stage_runs (w_db w) ->
     (forall k, k ∉ job_row_key n stage <$> jobs -> job_runs (w_db w') !! k = job_runs (w_db w) !! k) ->
     (forall job, job ∈ jobs -> queued_job (w_db w') n stage job) ->
     plan st' = plan st -> remainingNeeds st' = remainingNeeds st -> queued st' = queued st ->
     completed st' = completed st ->
     (forall name, jobConfigs st' !! name = if decide (name ∈ JobPlan_Name <$> jobs)
        then Some (default zeroJobConfig (configs !! (stage, name))) else jobConfigs st !! name) ->
     Φ st' w') ->
  wp (createJobRecords pname n stage configs jobs st) Φ w.
Proof.
  revert st w. induction jobs as [|job jobs IH]; intros st w Hf Hnd Habs HΦ; simpl.
  - apply wp_ret. apply HΦ; try done; try by split.
    + by intros ? ?%elem_of_nil.
  - rewrite fmap_cons in Hnd. apply NoDup_cons in Hnd as [Hjob Hnd].
    assert (Hnone : job_runs (w_db w) !! job_row_key n stage job = None) by (apply Habs; left).
    unfold job_row_key in Hnone.
    apply wp_bind, wp_catch. unfold startJob.
    apply (wp_timed_call (fun t d => CreateJob d pname n stage (JobPlan_Name job) t StatusQueued
      (allowFailures (default zeroJobConfig (configs !! (stage, JobPlan_Name job)))))); [done| |].
    { intros t. unfold CreateJob. by rewrite Hnone. }
    intros w1 t L1. pose proof (ld_db _ _ _ _ _ _ L1) as Ed. unfold CreateJob in Ed. rewrite Hnone in Ed. simpl in Ed.
    apply IH; [apply (ld_faults _ _ _ _ _ _ L1)|done| |].
    { intros job' Hin. rewrite Ed. simpl. rewrite lookup_insert_ne; [apply Habs; by right|].
      intros E. apply Hjob. change (job_row_key n stage job = job_row_key n stage job') in E. rewrite E.
      by apply list_elem_of_fmap_2. }
    intros w2 st2 L2 P1 P2 P3 P4 S1 S2 S3 S4 S5. apply HΦ; try done.
    + destruct L1, L2. split; congruence.
    + by rewrite P1, Ed.
    + by rewrite P2, Ed.
    + intros k Hk. rewrite fmap_cons, not_elem_of_cons in Hk. rewrite P3, Ed by apply Hk. simpl.
      rewrite lookup_insert_ne; [done|]. intros <-. by apply (proj1 Hk).
    + intros job' [->|Hin]%elem_of_cons; [|by apply P4]. unfold queued_job, job_status_of.
      change (ci pname, n, ci stage, ci (JobPlan_Name job)) with (job_row_key n stage job).
      rewrite P3, Ed by done. simpl. by rewrite lookup_insert_eq.
    + intros name. rewrite S5, fmap_cons. simpl.
      destruct (decide (name ∈ JobPlan_Name <$> jobs)) as [Hin|Hin].
      * rewrite decide_True by (by right). done.
      * destruct (decide (name = JobPlan_Name job)) as [->|Hne].
        -- rewrite lookup_insert_eq, decide_True by left. done.
        -- rewrite lookup_insert_ne, decide_False by set_solver. done.
Qed.

(** The rows and states of the stages of the plan. *)
Record created (w : world Q) (n : Z) (states : gmap string stageState) (s : string) : Prop := {
  cr_stage : stage_status_of (w_db w) pname n s = Some StatusQueued;
  cr_jobs : forall j, j ∈ jobsForStage s p -> job_status_of (w_db w) pname n s (Job_Name j) = Some StatusQueued;
  cr_state : exists st, states !! s = Some st /\ stage_fresh p s st;
}.

Definition row_key_of (n : Z) (s : Stage) := (ci pname, n, ci (Stage_Name s)).

(** From [w] to [w'] exactly the rows and states of [stages] were added. *)
Record added (w w' : world Q) (n : Z) (stages : list Stage) (states states' : gmap string stageState) : Prop := {
  ad_leads : leads w w' (w_db w') (w_queue w) (w_heap w) (w_runtimes w);
  ad_runs : pipeline_runs (w_db w') = pipeline_runs (w_db w);
  ad_stages : forall k, (forall s, s ∈ stages -> k ≠ row_key_of n s) -> stage_runs (w_db w') !! k = stage_runs (w_db w) !! k;
  ad_jobs : forall k j, (forall s, s ∈ stages -> k ≠ row_key_of n s) ->
    job_runs (w_db w') !! (k, j) = job_runs (w_db w) !! (k, j);
  ad_states : forall name, name ∉ Stage_Name <$> stages -> states' !! name = states !! name;
  ad_created : forall s, s ∈ stages -> created w' n states' (Stage_Name s);
}.

Lemma row_key_ne n stage (stages : list Stage) :
  ci (Stage_Name stage) ∉ ((fun s => ci (Stage_Name s)) <$> stages : list string) ->
  forall s, s ∈ stages -> row_key_of n stage ≠ row_key_of n s.
Proof. intros Hn s Hs [= E]. apply Hn. rewrite E. by apply (list_elem_of_fmap_2 (fun s => ci (Stage_Name s))). Qed.

Lemma added_cons w w1 w2 n stage stages st0 st1 st2 :
  added w w1 n [stage] st0 st1 -> added w1 w2 n stages st1 st2 ->
  ci (Stage_Name stage) ∉ ((fun s => ci (Stage_Name s)) <$> stages : list string) -> added w w2 n (stage :: stages) st0 st2.
Proof.
  intros [L1 R1 S1 J1 T1 C1] [L2 R2 S2 J2 T2 C2] Hn. pose proof (row_key_ne n stage stages Hn) as Hk.
  assert (Hname : Stage_Name stage ∉ Stage_Name <$> stages).
  { intros (s & E & Hs)%list_elem_of_fmap. apply Hn. rewrite E. by apply (list_elem_of_fmap_2 (fun s => ci (Stage_Name s))). }
  split.
  - destruct L1, L2. split; congruence.
  - congruence.
  - intros k H. rewrite S2, S1; [done|intros s ->%list_elem_of_singleton|intros s Hs]; apply H; set_solver.
  - intros k j H. rewrite J2, J1; [done|intros s ->%list_elem_of_singleton|intros s Hs]; apply H; set_solver.
  - intros name H. rewrite fmap_cons, not_elem_of_cons in H. rewrite T2, T1; [done|set_solver|apply H].
  - intros s [->|Hs]%elem_of_cons; [|by apply C2]. destruct (C1 stage ltac:(left)) as [Ks Kj (st & E & Hst)]. split.
    + unfold stage_status_of. rewrite S2 by done. exact Ks.
    + intros j Hj. unfold job_status_of. rewrite J2 by done. by apply Kj.
    + exists st. by rewrite T2.
Qed.

Lemma wp_createStageRecord orders n stage sp sps i states (Φ : gmap string stageState -> world Q -> Prop) w :
  w_faults w = [] -> stage_planned p stage sp ->
  iteration_order (buildInDegree (jobsForStage (Stage_Name stage) p)) (orders i) ->
  (forall j j', j ∈ jobsForStage (Stage_Name stage) p -> j' ∈ jobsForStage (Stage_Name stage) p ->
     ci (Job_Name j) = ci (Job_Name j') -> j = j') ->
  stage_runs (w_db w) !! row_key_of n stage = None ->
  (forall j, job_runs (w_db w) !! (row_key_of n stage, j) = None) ->
  (forall w' st, added w w' n [stage] states (<[Stage_Name stage := st]> states) ->
     wp (createStageRecords orders (S i) p n (buildJobConfigs p) sps (<[Stage_Name stage := st]> states)) Φ w') ->
  wp (createStageRecords orders i p n (buildJobConfigs p) (sp :: sps) states) Φ w.
Proof.
  intros Hf (Ename & ordered & Ejobs & Hperm & _) Ho Hcj Hnone Hnj HΦ. unfold row_key_of in Hnone. simpl. rewrite Ename.
  apply wp_bind, wp_catch. unfold startStage.
  apply (wp_timed_call (fun t d => CreateStage d pname n (Stage_Name stage) t StatusQueued)); [done| |].
  { intros t. unfold CreateStage. by rewrite Hnone. }
  intros w1 t1 L1. pose proof (ld_db _ _ _ _ _ _ L1) as Ed. unfold CreateStage in Ed. rewrite Hnone in Ed. simpl in Ed.
  destruct (BuildStagePlan_spec (orders i) (Stage_Name stage) p Hvalid Ho) as (plan & Ebuild & Hspec).
  rewrite Ebuild. apply wp_bind. unfold wp at 1, now. apply wp_bind. rewrite Ejobs.
  apply wp_createJobRecords; simpl.
  - apply (ld_faults _ _ _ _ _ _ L1).
  - rewrite <- list_fmap_compose. apply NoDup_fmap_2_strong.
    + intros j j' Hj Hj' E. unfold job_row_key in E. simpl in E. injection E as E.
      apply Hcj; [by rewrite <- Hperm|by rewrite <- Hperm|done].
    + rewrite Hperm. eapply NoDup_fmap_1, jobsForStage_unique, (vp_jobs_unique _ Hvalid).
  - intros job (j & -> & Hj)%list_elem_of_fmap. rewrite Ed. apply Hnj.
  - intros w2 st L2 P1 P2 P3 P4 S1 S2 S3 S4 S5. apply HΦ. split.
    + destruct L1, L2. simpl in *. split; congruence.
    + by rewrite P1, Ed.
    + intros k Hk. rewrite P2, Ed. apply lookup_insert_ne, not_eq_sym, Hk. left.
    + intros k j Hk. rewrite P3, Ed; [done|]. intros (job & E & _)%list_elem_of_fmap.
      unfold job_row_key in E. injection E as E _. by apply (Hk stage); [left|].
    + intros name Hn. apply lookup_insert_ne. set_solver.
    + intros s ->%list_elem_of_singleton. split.
      * unfold stage_status_of. rewrite P2, Ed. simpl. by rewrite lookup_insert_eq.
      * intros j Hj. apply (P4 (jobPlan j)). apply list_elem_of_fmap_2. by rewrite Hperm.
      * exists st. split; [apply lookup_insert_eq|]. split; [exists plan; split_and!; [done|by rewrite S1|by rewrite S2]|].
        split_and!; [by rewrite S3|by rewrite S4|]. intros j Hj. rewrite S5, decide_True.
        -- apply jobsForStage_elem in Hj as [Hj <-]. rewrite buildJobConfigs_lookup by done. by eexists.
        -- rewrite <- list_fmap_compose. apply (list_elem_of_fmap_2 (JobPlan_Name ∘ jobPlan)). by rewrite Hperm.
Qed.

Lemma wp_createStageRecords orders n stages sps i states (Φ : gmap string stageState -> world Q -> Prop) w :
  w_faults w = [] -> Forall2 (stage_planned p) stages sps ->
  (forall k stage, stages !! k = Some stage ->
     iteration_order (buildInDegree (jobsForStage (Stage_Name stage) p)) (orders (i + k))) ->
  NoDup ((fun s => ci (Stage_Name s)) <$> stages) ->
  (forall s j j', j ∈ jobsForStage s p -> j' ∈ jobsForStage s p -> ci (Job_Name j) = ci (Job_Name j') -> j = j') ->
  (forall s, s ∈ stages -> stage_runs (w_db w) !! row_key_of n s = None) ->
  (forall s j, s ∈ stages -> job_runs (w_db w) !! (row_key_of n s, j) = None) ->
  (forall w' states', added w w' n stages states states' -> Φ states' w') ->
  wp (createStageRecords orders i p n (buildJobConfigs p) sps states) Φ w.
Proof.
  intros Hf HF. revert i states w Hf. induction HF as [|stage sp stages sps Hplan HF IH];
    intros i states w Hf Ho Hnd Hcj Hsa Hja HΦ.
  - apply wp_ret. apply HΦ. split; try done; try by split. by intros s ?%elem_of_nil.
  - rewrite fmap_cons in Hnd. apply NoDup_cons in Hnd as [Hstage Hnd]. pose proof (row_key_ne n stage stages Hstage) as Hk.
    apply (wp_createStageRecord orders n stage); [done|done| |by apply Hcj|by apply Hsa; left|by intros; apply Hja; left|].
    { specialize (Ho 0 stage eq_refl). by rewrite Nat.add_0_r in Ho. }
    intros w1 st Hadd. destruct (ad_leads _ _ _ _ _ _ Hadd) as [_ _ _ _ _ _ Hf1].
    assert (Hother : forall s s', s ∈ stages -> s' ∈ [stage] -> row_key_of n s ≠ row_key_of n s').
    { intros s s' Hs ->%list_elem_of_singleton. apply not_eq_sym. auto. }
    apply IH; [done| |done|done| | |].
    + intros k s Hks. specialize (Ho (S k) s Hks). by rewrite Nat.add_succ_r in Ho.
    + intros s Hs. rewrite (ad_stages _ _ _ _ _ _ Hadd) by auto. apply Hsa. by right.
    + intros s j Hs. rewrite (ad_jobs _ _ _ _ _ _ Hadd) by auto. apply Hja. by right.
    + intros w2 states2 Hadd2. apply HΦ. by eapply added_cons.
Qed.

Lemma GenerateExecutionPlan_planned orders ep :
  legal_orders orders p -> GenerateExecutionPlan orders p = Some ep ->
  Forall2 (stage_planned p) (Pipeline_Stages p) (Plan_Stages ep).
Proof.
  intros Ho E. destruct (planStages_spec orders p Hvalid (Pipeline_Stages p) 0) as (sps & E' & HF).
  { intros k s Hk. by apply Ho. }
  unfold GenerateExecutionPlan in E. rewrite E' in E. by injection E as <-.
Qed.

Lemma planned_names sps :
  Forall2 (stage_planned p) (Pipeline_Stages p) sps -> StageExec_Name <$> sps = Stage_Name <$> Pipeline_Stages p.
Proof. induction 1 as [|s sp ? ? [E _] _ IH]; [done|]. by rewrite !fmap_cons, E, IH. Qed.

(** What a run needs of the world it starts in. *)
Record startable (c : ctx) (req : RunRequest) (sha256_hex : string -> string) (w : world Q) : Prop := {
  re_calm : w_faults w = [];
  re_wf : db_wf (w_db w);
  re_trace : ci (getSpanTraceId c) ≠ ci "";
  re_room : (next_run_no (w_db w) pname < max_int)%Z;
  re_no_duplicate : forall k r, pipeline_runs (w_db w) !! k = Some r ->
    ~ matches_active pname (buildRunRequestKey sha256_hex req pname) r;
  re_no_stages : forall s, stage_runs (w_db w) !! (ci pname, next_run_no (w_db w) pname, s) = None;
  re_no_jobs : forall s j, job_runs (w_db w) !! (ci pname, next_run_no (w_db w) pname, s, j) = None;
}.
(** For its jobs to be published, besides. *)
Record ready_world (c : ctx) (req : RunRequest) (sha256_hex : string -> string) (w : world Q) : Prop := {
  re_startable :> startable c req sha256_hex w;
  re_healthy : healthy (w_queue w);
}.

Lemma wp_startPipelineRun c req sha256_hex (Φ : CreateRunResult * Z -> world Q -> Prop) w :
  startable c req sha256_hex w ->
  (forall w' t, leads w w' (w_db w') (w_queue w) (w_heap w) (w_runtimes w) ->
     run_status_of (w_db w') pname (next_run_no (w_db w) pname) = Some StatusQueued ->
     stage_runs (w_db w') = stage_runs (w_db w) -> job_runs (w_db w') = job_runs (w_db w) ->
     Φ (MkRunResult (next_run_no (w_db w) pname) false StatusQueued, t) w') ->
  wp (startPipelineRun c pname (newRunInfo req) (buildRunRequestKey sha256_hex req pname)) Φ w.
Proof.
  intros [Hcalm Hwf Htr Hroom Hdup Hs Hj] HΦ. unfold startPipelineRun. apply wp_bind. unfold wp at 1, now.
  apply wp_bind. unfold wp, store_call. simpl. rewrite Hcalm. simpl.
  match goal with |- context [CreateRunOrGetActive _ _ ?i] => set (inp := i) end.
  destruct (CreateRunOrGetActive_fresh (w_db w) inp Hwf) as (d' & E & _ & Er & _ & _ & Es & Ej).
  { intros k r _. apply Hdup. } { done. } { done. }
  rewrite E. simpl. apply HΦ; simpl; try done.
  unfold run_status_of. rewrite Er. simpl. by rewrite lookup_insert_eq.
Qed.

(** Dispatching the first stage of fresh states. *)
Lemma wp_dispatch n ri pt base w rt ep (Hid : identifiable p n) (Φ : unit -> world Q -> Prop) :
  w_faults w = [] -> healthy (w_queue w) -> base = held (w_queue w) ->
  w_runtimes w !! runtimeKey pname n = Some pt -> w_heap w !! pt = Some rt -> runtime_ok p n ri rt ->
  rt_executionPlan rt = ep -> Forall2 (stage_planned p) (Pipeline_Stages p) (Plan_Stages ep) ->
  (forall s, s ∈ Pipeline_Stages p -> created w n (rt_stageStates rt) (Stage_Name s)) ->
  run_status_of (w_db w) pname n = Some StatusQueued ->
  (forall w' cur sent future, running p n ri pt base w' [] cur sent ∅ future -> Φ tt w') ->
  wp (dispatchPipelineStartJobs pt) Φ w.
Proof.
  intros Hcalm Hh -> Hmap Hheap Hrt <- HF Hcr Hrun HΦ. unfold dispatchPipelineStartJobs.
  apply wp_bind, (wp_load _ rt); [done|]. apply wp_catch. rewrite (ro_pipeline _ _ _ _ Hrt), (ro_runNo _ _ _ _ Hrt).
  destruct (Pipeline_Stages p) as [|stage stages] eqn:Estages; [by destruct (vp_some_stage _ Hvalid)|].
  inversion HF as [|? sp ? sps [Ename _] HF' E1 E2]; subst. cbn [enqueueFirstReadyStageJobs].
  apply wp_bind, (wp_load _ rt); [done|]. rewrite Ename.
  destruct (cr_state _ _ _ _ (Hcr stage ltac:(left))) as (st & Hst & Hfresh). rewrite Hst.
  assert (Hin : Stage_Name stage ∈ Stage_Name <$> Pipeline_Stages p) by (rewrite Estages; left).
  pose proof (fresh_poll p n Hvalid Hid (Stage_Name stage) st Hin Hfresh) as Hpoll.
  destruct (getReadyJobs st) as [st' ready]. destruct Hpoll as ((sp' & Hsp & Hl) & Hcfg & Hnc).
  apply wp_bind, wp_update_runtime; [done|]. intros w1 L1.
  destruct (live_incomplete _ p sp' Hvalid Hsp _ _ _ Hl Hnc) as (pl & Hpl & _).
  destruct ready as [|x ready]; [by apply elem_of_nil in Hpl|].
  apply wp_catch, wp_enqueueReadyJobs.
  { apply (ld_faults _ _ _ _ _ _ L1). } { by rewrite (ld_queue _ _ _ _ _ _ L1). }
  intros w2 q Hq Hcq L2. apply (HΦ w2 (Stage_Name stage) (x :: ready) (Stage_Name <$> stages)).
  pose proof (vp_stages_unique _ Hvalid) as Hu. rewrite Estages, fmap_cons in Hu. apply NoDup_cons in Hu as [Hu _].
  split.
  - apply (ld_faults _ _ _ _ _ _ L2).
  - by rewrite (ld_queue _ _ _ _ _ _ L2).
  - by rewrite Estages.
  - by intros y ?%elem_of_nil.
  - by rewrite (ld_map _ _ _ _ _ _ L2), (ld_map _ _ _ _ _ _ L1).
  - exists (set_stage (Stage_Name stage) st' rt). split_and!.
    + by rewrite (ld_heap _ _ _ _ _ _ L2), (ld_heap _ _ _ _ _ _ L1), lookup_alter_eq, Hheap.
    + destruct Hrt. by split.
    + exists st'. simpl. rewrite lookup_insert_eq. split; [done|]. split; [by exists sp'|done].
    + intros s (s' & -> & Hs')%list_elem_of_fmap. simpl. rewrite lookup_insert_ne.
      * apply (cr_state _ _ _ _ (Hcr s' ltac:(by right))).
      * intros E. apply Hu. rewrite E. by apply list_elem_of_fmap_2.
  - rewrite (ld_queue _ _ _ _ _ _ L2), Hcq, (ld_queue _ _ _ _ _ _ L1), (ro_info _ _ _ _ Hrt). f_equal.
    unfold messages. simpl. by rewrite app_nil_r.
  - rewrite (ld_db _ _ _ _ _ _ L2), (ld_db _ _ _ _ _ _ L1). split; [done|by intros s ?%elem_of_nil| |].
    + intros s Hs. assert (exists s', s' ∈ stage :: stages /\ s = Stage_Name s') as (s' & Hs' & ->).
      { apply elem_of_cons in Hs as [->|Hs]; [exists stage; split; [left|done]|].
        apply list_elem_of_fmap in Hs as (s' & -> & Hs'). exists s'. split; [by right|done]. }
      apply (cr_stage _ _ _ _ (Hcr s' Hs')).
    + intros j Hj. pose proof (vp_job_stage _ Hvalid j Hj) as Hjs. rewrite Estages in Hjs.
      apply list_elem_of_fmap in Hjs as (s & Es & Hs). exists StatusQueued. split.
      * rewrite Es. apply (cr_jobs _ _ _ _ (Hcr s Hs)). by apply jobsForStage_elem.
      * intros [Hx|[_ Hx]]; [by apply elem_of_nil in Hx|set_solver].
Qed.

Lemma wp_initialize c orders ep req sha256_hex (Φ : (Z * string) + ptr -> world Q -> Prop) w :
  let n := next_run_no (w_db w) pname in
  startable c req sha256_hex w -> identifiable p n ->
  Forall2 (stage_planned p) (Pipeline_Stages p) (Plan_Stages ep) -> legal_orders orders p ->
  (forall w1 rt t, leads w w1 (w_db w1) (w_queue w) (w_heap w) (w_runtimes w) ->
     runtime_ok p n (newRunInfo req) rt -> rt_executionPlan rt = ep ->
     (forall s, s ∈ Pipeline_Stages p -> created w1 n (rt_stageStates rt) (Stage_Name s)) ->
     run_status_of (w_db w1) pname n = Some StatusQueued ->
     t = w_next w ->
     wp (mret (inr t)) Φ (MkWorld Q (w_db w1) (w_queue w) (<[t := rt]> (w_heap w)) (S t) (w_runtimes w)
                            (w_spawned w) (w_clock w1) [])) ->
  wp (initializePipelineRuntime c orders (MkPipelinePlan p ep) (buildJobConfigs p) (newRunInfo req)
        (buildRunRequestKey sha256_hex req pname)) Φ w.
Proof.
  intros n Hre Hid HF Ho HΦ. unfold initializePipelineRuntime. simpl.
  apply wp_bind, wp_catch, (wp_startPipelineRun c req sha256_hex); [done|]. intros w1 t1 L1 Hrun Es Ej. simpl.
  pose proof (ld_faults _ _ _ _ _ _ L1) as Hf1.
  assert (Hci : forall s s', s ∈ Pipeline_Stages p -> s' ∈ Pipeline_Stages p ->
            ci (Stage_Name s) = ci (Stage_Name s') -> s = s').
  { intros [a] [b] Ha Hb E. simpl in E. f_equal. apply (id_ci_stage _ _ Hid); [..|done].
    - by apply (list_elem_of_fmap_2 Stage_Name) in Ha.
    - by apply (list_elem_of_fmap_2 Stage_Name) in Hb. }
  apply wp_bind. eapply wp_createStageRecords; [done|exact HF| | | | | |].
  - intros k s Hk. by apply Ho.
  - apply NoDup_fmap_2_strong; [by intros; apply Hci|].
    eapply NoDup_fmap_1, (vp_stages_unique _ Hvalid).
  - intros s j j' Hj Hj' E. apply jobsForStage_elem in Hj as [Hj Ej1], Hj' as [Hj' Ej2].
    apply (NoDup_name_inj _ _ _ (vp_jobs_unique _ Hvalid) Hj Hj').
    apply (id_ci_job _ _ Hid); [done|done|congruence|done].
  - intros s _. rewrite Es. apply (re_no_stages _ _ _ _ Hre).
  - intros s j _. rewrite Ej. apply (re_no_jobs _ _ _ _ Hre).
  - intros w2 states [L2 R1 _ _ _ R5]. apply wp_bind. unfold wp at 1, alloc. apply wp_bind.
    destruct (Plan_Stages ep) as [|sp sps] eqn:Eps.
    { exfalso. apply Forall2_nil_inv_r in HF. by destruct (vp_some_stage _ Hvalid). }
    apply wp_ret. rewrite (ld_faults _ _ _ _ _ _ L2), (ld_queue _ _ _ _ _ _ L2), (ld_queue _ _ _ _ _ _ L1),
      (ld_heap _ _ _ _ _ _ L2), (ld_heap _ _ _ _ _ _ L1), (ld_map _ _ _ _ _ _ L2), (ld_map _ _ _ _ _ _ L1),
      (ld_next _ _ _ _ _ _ L2), (ld_next _ _ _ _ _ _ L1), (ld_spawned _ _ _ _ _ _ L2), (ld_spawned _ _ _ _ _ _ L1).
    refine (HΦ w2 _ (w_next w) _ _ _ _ _ _); try done.
    + destruct L1, L2. split; congruence.
    + split; simpl; [done|done| |done]. rewrite <- Eps in HF. rewrite <- (planned_names _ HF), Eps. done.
    + by rewrite <- Hrun; unfold run_status_of; rewrite R1.
Qed.

(** What [Run] leaves for the goroutine it starts. *)
Record initialized (n : Z) (ri : runInfo) (pt : ptr) (w : world Q) (rt : pipelineRuntime) (ep : ExecutionPlan) : Prop := {
  pr_map : w_runtimes w !! runtimeKey pname n = Some pt;
  pr_heap : w_heap w !! pt = Some rt;
  pr_runtime : runtime_ok p n ri rt;
  pr_plan : rt_executionPlan rt = ep;
  pr_planned : Forall2 (stage_planned p) (Pipeline_Stages p) (Plan_Stages ep);
  pr_created : forall s, s ∈ Pipeline_Stages p -> created w n (rt_stageStates rt) (Stage_Name s);
  pr_run : run_status_of (w_db w) pname n = Some StatusQueued;
}.
Record prepared (n : Z) (ri : runInfo) (pt : ptr) (base : list JobExecutionMessage) (w : world Q) (rt : pipelineRuntime)
    (ep : ExecutionPlan) : Prop := {
  pr_initialized :> initialized n ri pt w rt ep;
  pr_calm : w_faults w = [];
  pr_healthy : healthy (w_queue w);
  pr_confirmed : base = held (w_queue w);
}.

Lemma run_initialized c orders orders' ep req sha256_hex w :
  let n := next_run_no (w_db w) pname in
  startable c req sha256_hex w -> identifiable p n ->
  legal_orders orders' p -> GenerateExecutionPlan orders' p = Some ep -> legal_orders orders p ->
  exists w1 rt,
    runPlan sha256_hex c orders req (MkPipelinePlan p ep) w = (w1, ok (MkRunResponse pname n StatusQueued [] "")) /\
    w_spawned w1 = w_spawned w ++ [w_next w] /\ w_queue w1 = w_queue w /\ w_faults w1 = [] /\
    initialized n (newRunInfo req) (w_next w) w1 rt ep.
Proof.
  intros n Hre Hid Ho' Ep Ho. pose proof (GenerateExecutionPlan_planned _ _ Ho' Ep) as HF.
  cut (wp (runPlan sha256_hex c orders req (MkPipelinePlan p ep)) (fun resp w1 =>
    resp = MkRunResponse pname n StatusQueued [] "" /\ w_spawned w1 = w_spawned w ++ [w_next w] /\
    w_queue w1 = w_queue w /\ w_faults w1 = [] /\
    exists rt, initialized n (newRunInfo req) (w_next w) w1 rt ep) w).
  { intros (w1 & resp & E1 & -> & Hsp & Hq & Hf & rt & Hp)%wp_run. by exists w1, rt. }
  unfold runPlan. apply wp_bind, (wp_initialize c orders ep req sha256_hex); [done..|].
  intros w1 rt t L1 Hrt Hplan Hcr Hrun ->. apply wp_ret.
  apply wp_bind, (wp_load _ rt); [simpl; apply lookup_insert_eq|].
  apply wp_bind. unfold wp at 1, putRuntime. apply wp_bind. unfold wp at 1, spawn. apply wp_ret. simpl.
  rewrite (ro_pipeline _ _ _ _ Hrt), (ro_runNo _ _ _ _ Hrt).
  split_and!; [done..|]. exists rt. split; simpl; try done.
  - apply lookup_insert_eq.
  - apply lookup_insert_eq.
  - intros s Hs. destruct (Hcr s Hs). by split.
Qed.

Lemma run_prepared c orders orders' ep req sha256_hex w :
  let n := next_run_no (w_db w) pname in
  ready_world c req sha256_hex w -> identifiable p n ->
  legal_orders orders' p -> GenerateExecutionPlan orders' p = Some ep -> legal_orders orders p ->
  exists w1 rt,
    runPlan sha256_hex c orders req (MkPipelinePlan p ep) w = (w1, ok (MkRunResponse pname n StatusQueued [] "")) /\
    w_spawned w1 = w_spawned w ++ [w_next w] /\ w_queue w1 = w_queue w /\
    prepared n (newRunInfo req) (w_next w) (held (w_queue w)) w1 rt ep.
Proof.
  intros n Hre Hid Ho' Ep Ho. destruct (run_initialized c orders orders' ep req sha256_hex w Hre Hid Ho' Ep Ho)
    as (w1 & rt & E1 & Hsp & Hq & Hf & P).
  exists w1, rt. split_and!; [done..|]. split; [done|done| |by rewrite Hq]. rewrite Hq. apply Hre.
Qed.

Lemma run_started c orders orders' ep req sha256_hex w :
  let n := next_run_no (w_db w) pname in
  ready_world c req sha256_hex w -> identifiable p n ->
  legal_orders orders' p -> GenerateExecutionPlan orders' p = Some ep -> legal_orders orders p ->
  exists w1 w2 cur sent future,
    runPlan sha256_hex c orders req (MkPipelinePlan p ep) w = (w1, ok (MkRunResponse pname n StatusQueued [] "")) /\
    w_spawned w1 = w_spawned w ++ [w_next w] /\ w_queue w1 = w_queue w /\
    dispatchPipelineStartJobs (w_next w) w1 = (w2, ok tt) /\
    running p n (newRunInfo req) (w_next w) (held (w_queue w)) w2 [] cur sent ∅ future.
Proof.
  intros n Hre Hid Ho' Ep Ho. destruct (run_prepared c orders orders' ep req sha256_hex w Hre Hid Ho' Ep Ho)
    as (w1 & rt & E1 & Hsp & Hq & P).
  destruct (wp_run _ _ _ (wp_dispatch n _ _ _ w1 rt ep Hid (fun _ w2 => exists cur sent future,
      running p n (newRunInfo req) (w_next w) (held (w_queue w)) w2 [] cur sent ∅ future)
    (pr_calm _ _ _ _ _ _ _ P) (pr_healthy _ _ _ _ _ _ _ P) (pr_confirmed _ _ _ _ _ _ _ P) (pr_map _ _ _ _ _ _ P)
    (pr_heap _ _ _ _ _ _ P) (pr_runtime _ _ _ _ _ _ P) (pr_plan _ _ _ _ _ _ P) (pr_planned _ _ _ _ _ _ P)
    (pr_created _ _ _ _ _ _ P) (pr_run _ _ _ _ _ _ P)
    (fun w2 cur sent future Hr => ex_intro _ cur (ex_intro _ sent (ex_intro _ future Hr)))))
    as (w2 & [] & E2 & cur & sent & future & Hr).
  by exists w1, w2, cur, sent, future.
Qed.

(** Starting a run. In a calm world, [Run] of a valid pipeline whose
    request is not a duplicate answers with the next run number and status
    queued, having published nothing; the goroutine it leaves behind publishes
    the jobs of the first stage that need nothing, and the run is in progress. *)
Theorem run_starts c orders orders' ep req sha256_hex w :
  let n := next_run_no (w_db w) pname in
  ready_world c req sha256_hex w -> identifiable p n ->
  legal_orders orders' p -> GenerateExecutionPlan orders' p = Some ep -> legal_orders orders p ->
  exists w1 w2 cur sent future,
    runPlan sha256_hex c orders req (MkPipelinePlan p ep) w = (w1, ok (MkRunResponse pname n StatusQueued [] "")) /\
    w_spawned w1 = w_spawned w ++ [w_next w] /\ w_queue w1 = w_queue w /\
    dispatchPipelineStartJobs (w_next w) w1 = (w2, ok tt) /\
    running p n (newRunInfo req) (w_next w) (held (w_queue w)) w2 [] cur sent ∅ future.
Proof. apply run_started. Qed.

End start.
(** ** Whole executions *)

Section whole.
Context (p : Pipeline) (n : Z) (ri : runInfo) (pt : ptr) (base : list JobExecutionMessage).
Context (Hvalid : valid_pipeline p) (Hid : identifiable p n).
Abbreviation pname := (Pipeline_Name p).
Abbreviation running := (running p n ri pt base).
Abbreviation finished := (finished p n ri base).
Abbreviation messages := (messages p n ri).

(** The messages of the run that the broker holds. *)
Definition published (w : world Q) : list JobExecutionMessage := drop (length base) (held (w_queue w)).

(** [req] reports the job of message [m], with a status that lets the run go on. *)
Definition good_report (req : JobStatusCallbackRequest) (m : JobExecutionMessage) : Prop :=
  Cb_Pipeline req = Msg_PipelineName m /\ Cb_RunNo req = Msg_RunNo m /\ Cb_Stage req = Msg_Stage m /\
  Cb_Job req = JobPlan_Name (Msg_Job m) /\
  exists j, j ∈ Pipeline_Jobs p /\ Job_Name j = Cb_Job req /\ tolerated j (TrimSpace (Cb_Status req)).

(** From [w0], after the reports of the messages [reported], in this order. *)
Inductive served (w0 : world Q) : list JobExecutionMessage -> world Q -> Prop :=
| served_none : served w0 [] w0
| served_report reported w m req w' r :
    served w0 reported w -> m ∈ published w -> m ∉ reported -> good_report req m ->
    HandleJobFinished req w = (w', r) -> served w0 (reported ++ [m]) w'.

(** The reported messages are those of the stages that are over, and of the
    jobs of the current stage that ended. *)
Definition reported_ok (reported : list JobExecutionMessage) (past : list (string * list JobExecutionPlan)) (cur : string)
    (sent : list JobExecutionPlan) (done : gset string) : Prop :=
  forall m, m ∈ reported <-> m ∈ messages past \/
    exists job, job ∈ sent /\ m = buildJobExecutionMessage n pname cur job ri /\ JobPlan_Name job ∈ done.

Definition over (w : world Q) (reported : list JobExecutionMessage) : Prop :=
  exists all, finished w all /\ forall m, m ∈ reported <-> m ∈ messages all.

Definition in_progress (w : world Q) (reported : list JobExecutionMessage) : Prop :=
  exists past cur sent done future, running w past cur sent done future /\ reported_ok reported past cur sent done.

Lemma in_messages_snoc past cur sent m :
  m ∈ messages (past ++ [(cur, sent)]) <->
  m ∈ messages past \/ exists job, job ∈ sent /\ m = buildJobExecutionMessage n pname cur job ri.
Proof.
  rewrite messages_snoc, elem_of_app. unfold stage_messages. rewrite list_elem_of_fmap. naive_solver.
Qed.

Lemma running_published w past cur sent done future :
  running w past cur sent done future -> published w = messages (past ++ [(cur, sent)]).
Proof. intros H. unfold published. by rewrite (rn_confirmed _ _ _ _ _ _ _ _ _ _ _ H), drop_app_length. Qed.

Lemma live_names w past cur sent done future :
  running w past cur sent done future ->
  NoDup (JobPlan_Name <$> sent) /\ (forall m, m ∈ done -> m ∈ JobPlan_Name <$> sent) /\
  (forall job, job ∈ sent -> exists j, j ∈ jobsForStage cur p /\ job = jobPlan j) /\
  (exists job, job ∈ sent /\ JobPlan_Name job ∉ done).
Proof.
  intros H. destruct (rn_heap _ _ _ _ _ _ _ _ _ _ _ H) as (rt & _ & _ & (st & _ & (sp & Hsp & Hl) & _ & Hnc) & _).
  pose proof (li_inv _ _ _ _ _ _ Hl) as Hinv. split_and!.
  - apply (si_nodup _ _ _ _ _ _ _ Hinv).
  - apply (li_sent _ _ _ _ _ _ Hl).
  - intros job Hjob. destruct (si_sent _ _ _ _ _ _ _ Hinv job Hjob) as (j & ? & ? & _). eauto.
  - by eapply live_incomplete.
Qed.

(** A published message that was not reported is of an open job of the current stage. *)
Lemma open_message w reported past cur sent done future m :
  running w past cur sent done future -> reported_ok reported past cur sent done ->
  m ∈ published w -> m ∉ reported ->
  exists j, j ∈ jobsForStage cur p /\ jobPlan j ∈ sent /\
    m = buildJobExecutionMessage n pname cur (jobPlan j) ri /\ Job_Name j ∉ done.
Proof.
  intros Hrun Hrep Hm Hnew. unfold reported_ok in Hrep.
  rewrite (running_published _ _ _ _ _ _ Hrun) in Hm. apply in_messages_snoc in Hm as [Hm|(job & Hjob & Em)].
  { exfalso. apply Hnew, Hrep. by left. }
  destruct (live_names _ _ _ _ _ _ Hrun) as (_ & _ & Hsent & _).
  destruct (Hsent job Hjob) as (j & Hj & ->). exists j. split_and!; [done..|].
  intros Hin. apply Hnew, Hrep. right. by exists (jobPlan j).
Qed.

(** Reports only add messages. *)
Lemma progress_published w w' past cur sent done future ready done' future' :
  running w past cur sent done future -> progress p n ri pt base w' past cur (sent ++ ready) done' future' ->
  forall x, x ∈ published w -> x ∈ published w'.
Proof.
  intros Hrun Hprog x. rewrite (running_published _ _ _ _ _ _ Hrun), in_messages_snoc.
  assert (Hmore : (x ∈ messages past \/ exists job, job ∈ sent /\ x = buildJobExecutionMessage n pname cur job ri) ->
    x ∈ messages (past ++ [(cur, sent ++ ready)])).
  { rewrite in_messages_snoc. intros [?|(job & ? & ?)]; [by left|right]. exists job. set_solver. }
  intros Hx%Hmore. destruct Hprog as [Hr|[_ [(nx & f & s' & _ & Hr)|[_ Hf]]]].
  - by rewrite (running_published _ _ _ _ _ _ Hr).
  - rewrite (running_published _ _ _ _ _ _ Hr), in_messages_snoc. by left.
  - unfold published. by rewrite (fi_confirmed _ _ _ _ _ _ Hf), drop_app_length.
Qed.

(** The reported messages after one more report. *)
Lemma reported_more reported past cur sent done ready j :
  reported_ok reported past cur sent done -> j ∈ jobsForStage cur p -> jobPlan j ∈ sent ->
  (forall job, job ∈ sent -> exists k, k ∈ jobsForStage cur p /\ job = jobPlan k) ->
  (forall name, name ∈ done -> name ∈ JobPlan_Name <$> sent) ->
  NoDup (JobPlan_Name <$> (sent ++ ready)) ->
  reported_ok (reported ++ [buildJobExecutionMessage n pname cur (jobPlan j) ri]) past cur (sent ++ ready) ({[Job_Name j]} ∪ done).
Proof.
  intros Hrep Hj Hjob Hsent Hdone Hnd x. rewrite elem_of_app, list_elem_of_singleton, (Hrep x).
  assert (Hold : forall job, job ∈ sent ++ ready -> JobPlan_Name job ∈ {[Job_Name j]} ∪ done -> job ∈ sent).
  { intros job [?|Hr]%elem_of_app Hin; [done|]. exfalso. rewrite fmap_app in Hnd.
    apply NoDup_app in Hnd as (_ & Hnd & _). apply (Hnd (JobPlan_Name job)); [|by apply list_elem_of_fmap_2].
    apply elem_of_union in Hin as [Hin|Hin]; [|by apply Hdone]. apply elem_of_singleton in Hin as ->.
    by apply (list_elem_of_fmap_2 JobPlan_Name) in Hjob. }
  split.
  - intros [[?|(job & ? & ? & ?)]| ->]; [by left| |]; right.
    + exists job. split_and!; [set_solver|done|set_solver].
    + exists (jobPlan j). split_and!; [set_solver|done|set_solver].
  - intros [?|(job & Hin & -> & Hd)]; [by left; left|]. pose proof (Hold job Hin Hd) as Hs.
    apply elem_of_union in Hd as [Hd|Hd]; [|left; right; eauto]. right. apply elem_of_singleton in Hd. f_equal.
    destruct (Hsent job Hs) as (k & Hk & ->). f_equal. apply (NoDup_name_inj _ _ _ (stage_unique cur p Hvalid) Hk Hj Hd).
Qed.

(** The names handed out stay distinct, also when the stage is over. *)
Lemma progress_names w past cur sent done future :
  progress p n ri pt base w past cur sent done future -> NoDup (JobPlan_Name <$> sent).
Proof.
  intros [Hr|[_ H]]; [by apply (live_names _ _ _ _ _ _ Hr)|].
  assert (Hwhole : whole_stage p (cur, sent)).
  { destruct H as [(nx & f & s' & _ & Hr)|[_ Hf]].
    - apply (rn_past _ _ _ _ _ _ _ _ _ _ _ Hr). set_solver.
    - apply (fi_whole _ _ _ _ _ _ Hf). set_solver. }
  unfold whole_stage in Hwhole. simpl in Hwhole. rewrite Hwhole, <- list_fmap_compose. apply (stage_unique cur p Hvalid).
Qed.

(** What was reported decides how far the run is. *)
Lemma progress_state w reported past cur sent done future :
  progress p n ri pt base w past cur sent done future -> reported_ok reported past cur sent done ->
  in_progress w reported \/ over w reported.
Proof.
  intros [Hr|[Hall H]] Hrep; [left; by exists past, cur, sent, done, future|].
  assert (Hcover : forall x, x ∈ reported <-> x ∈ messages (past ++ [(cur, sent)])).
  { intros x. rewrite (Hrep x), in_messages_snoc. split; intros [?|(job & Hjob & Hx)]; try by left.
    - right. exists job. by split; [|apply Hx].
    - right. exists job. split_and!; [done|done|by apply Hall]. }
  destruct H as [(nx & f & s' & _ & Hr)|[_ Hf]]; [left|right; by eexists].
  eexists _, nx, s', ∅, f. split; [exact Hr|]. intros x. rewrite Hcover. split; [by left|].
  intros [?|(? & ? & ? & ?)]; [done|set_solver].
Qed.

(** One report from a run in progress. *)
Lemma report_step w reported past cur sent done future m req w' r :
  running w past cur sent done future -> reported_ok reported past cur sent done ->
  m ∈ published w -> m ∉ reported -> good_report req m -> HandleJobFinished req w = (w', r) ->
  r = ok tt /\ (forall x, x ∈ published w -> x ∈ published w') /\
  (in_progress w' (reported ++ [m]) \/ over w' (reported ++ [m])).
Proof.
  intros Hrun Hrep Hm Hnew (E1 & E2 & E3 & E4 & j & Hj & Ej & Htol) Hh.
  destruct (live_names _ _ _ _ _ _ Hrun) as (_ & Hdone & Hsent & _).
  destruct (open_message _ _ _ _ _ _ _ _ Hrun Hrep Hm Hnew) as (k & Hk & Hjob & -> & Hnd). simpl in E1, E2, E3, E4.
  assert (k = j) as ->.
  { pose proof (proj1 (jobsForStage_elem _ _ _) Hk) as [Hkp _].
    apply (NoDup_name_inj _ _ _ (vp_jobs_unique _ Hvalid) Hkp Hj). by rewrite Ej, E4. }
  assert (Hjn : Job_Name j ∈ JobPlan_Name <$> sent) by (by apply (list_elem_of_fmap_2 JobPlan_Name) in Hjob).
  assert (Hreport : report p n req cur j (TrimSpace (Cb_Status req))) by (split; try done; by rewrite E4).
  pose proof (tolerated_report p n ri pt base Hvalid Hid w past cur sent done future j req (TrimSpace (Cb_Status req))
    Hrun Hk Hjn Hnd Hreport Htol) as Hwp.
  apply wp_run in Hwp as (w1 & [] & E & ready & Hprog). rewrite Hh in E. injection E as -> ->. split; [done|].
  split; [by eapply progress_published|]. eapply progress_state; [exact Hprog|].
  by apply reported_more; [| | | | |eapply progress_names].
Qed.

Lemma served_state w0 cur sent future reported w :
  running w0 [] cur sent ∅ future -> served w0 reported w ->
  NoDup reported /\ (in_progress w reported \/ over w reported).
Proof.
  intros Hrun Hs. induction Hs as [|reported w m req w' r _ [Hnd IH] Hm Hnew Hreq Hh].
  - split; [constructor|]. left. exists [], cur, sent, ∅, future. split; [done|]. intros m. split.
    + by intros ?%elem_of_nil.
    + intros [Hx|(? & ? & ? & ?)]; [by apply elem_of_nil in Hx|set_solver].
  - split; [by apply NoDup_snoc|]. destruct IH as [(past & c & st & done & f & Hr & Hrep)|(all & Hf & Hcover)].
    + by eapply report_step.
    + exfalso. apply Hnew, Hcover. unfold published in Hm.
      by rewrite (fi_confirmed _ _ _ _ _ _ Hf), drop_app_length in Hm.
Qed.

Lemma whole_jobs past :
  past.*1 = Stage_Name <$> Pipeline_Stages p -> (forall x, x ∈ past -> whole_stage p x) ->
  (past ≫= snd) ≡ₚ jobPlan <$> Pipeline_Jobs p.
Proof.
  intros E Hw. rewrite <- (stages_cover p Hvalid).
  assert (H : forall stages, past.*1 = Stage_Name <$> stages ->
            (past ≫= snd) ≡ₚ jobPlan <$> (stages ≫= fun s => jobsForStage (Stage_Name s) p)); [|by apply H].
  clear E. induction past as [|[s sent] past IH]; intros [|sg stages] E; simpl in E; try done.
  injection E as -> E. rewrite !bind_cons, fmap_app, <- (IH (fun x Hx => Hw x ltac:(by right)) stages E).
  by rewrite (Hw (Stage_Name sg, sent) ltac:(left)).
Qed.

(** Every message of the run is the message of a job. *)
Definition job_message (j : Job) : JobExecutionMessage :=
  buildJobExecutionMessage n pname (Job_Stage j) (jobPlan j) ri.

Lemma messages_jobs all m :
  (forall x, x ∈ all -> forall job, job ∈ x.2 -> exists j, j ∈ jobsForStage x.1 p /\ job = jobPlan j) ->
  m ∈ messages all -> m ∈ job_message <$> Pipeline_Jobs p.
Proof.
  intros Hall (x & Hm & Hx)%list_elem_of_bind. apply list_elem_of_fmap in Hm as (job & -> & Hjob).
  destruct (Hall x Hx job Hjob) as (j & [Hj <-]%jobsForStage_elem & ->). by apply (list_elem_of_fmap_2 job_message).
Qed.

Lemma whole_in x job : whole_stage p x -> job ∈ x.2 -> exists j, j ∈ jobsForStage x.1 p /\ job = jobPlan j.
Proof. intros Hw. rewrite Hw. intros (j & -> & Hj)%list_elem_of_fmap. eauto. Qed.

Lemma messages_stage all m : m ∈ messages all -> Msg_Stage m ∈ all.*1.
Proof.
  intros (x & Hm & Hx)%list_elem_of_bind. apply list_elem_of_fmap in Hm as (job & -> & _).
  by apply (list_elem_of_fmap_2 fst).
Qed.

Lemma messages_Msg_Job all : Msg_Job <$> messages all = all ≫= snd.
Proof.
  unfold messages. induction all as [|x all IH]; [done|]. rewrite !bind_cons, fmap_app, IH. f_equal.
  unfold stage_messages. rewrite <- list_fmap_compose. apply list_fmap_id.
Qed.

(** The jobs of stages that were handed out whole are published. *)
Lemma whole_message all j :
  (forall x, x ∈ all -> whole_stage p x) -> j ∈ Pipeline_Jobs p -> Job_Stage j ∈ all.*1 -> job_message j ∈ messages all.
Proof.
  intros Hw Hj ([s sent] & E & Hx)%list_elem_of_fmap. apply list_elem_of_bind. exists (s, sent). split; [|done].
  simpl in *. rewrite <- E. apply list_elem_of_fmap. exists (jobPlan j). split; [done|].
  pose proof (Hw _ Hx) as Hs. unfold whole_stage in Hs. simpl in Hs. rewrite Hs.
  apply list_elem_of_fmap_2, jobsForStage_elem. by rewrite E.
Qed.

(** A job that was handed out has its needs reported. *)
Lemma live_needs w past cur sent done future j x :
  running w past cur sent done future -> j ∈ jobsForStage cur p -> jobPlan j ∈ sent -> x ∈ Job_Needs j ->
  x ∈ done /\ x ∈ JobPlan_Name <$> sent.
Proof.
  intros H Hj Hs Hx. destruct (rn_heap _ _ _ _ _ _ _ _ _ _ _ H) as (rt & _ & _ & (st & _ & (sp & Hsp & Hl) & _ & Hnc) & _).
  destruct (si_sent _ _ _ _ _ _ _ (li_inv _ _ _ _ _ _ Hl) _ Hs) as (j' & Hj' & E & Hneeds).
  assert (j = j') as <-.
  { apply (NoDup_name_inj _ _ _ (stage_unique cur p Hvalid) Hj Hj'). by injection E. }
  split; [by apply Hneeds|]. by apply (li_sent _ _ _ _ _ _ Hl), Hneeds.
Qed.

Lemma published_jobs w reported m : in_progress w reported \/ over w reported -> m ∈ published w ->
  m ∈ job_message <$> Pipeline_Jobs p.
Proof.
  intros [(past & c & st & done & f & Hr & Hrep)|(all & Hf & Hcover)] Hm.
  - rewrite (running_published _ _ _ _ _ _ Hr) in Hm. apply (messages_jobs _ _) in Hm; [done|].
    intros x [Hx|Hx%list_elem_of_singleton]%elem_of_app job Hjob.
    + apply whole_in; [|done]. by apply (rn_past _ _ _ _ _ _ _ _ _ _ _ Hr).
    + subst x. by apply (live_names _ _ _ _ _ _ Hr).
  - unfold published in Hm. rewrite (fi_confirmed _ _ _ _ _ _ Hf), drop_app_length in Hm.
    apply (messages_jobs _ _) in Hm; [done|]. intros x Hx job. apply whole_in. by apply (fi_whole _ _ _ _ _ _ Hf).
Qed.

Lemma reported_published w reported m :
  in_progress w reported \/ over w reported -> m ∈ reported -> m ∈ published w.
Proof.
  intros [(past & c & st & done & f & Hr & Hrep)|(all & Hf & Hcover)] Hm.
  - rewrite (running_published _ _ _ _ _ _ Hr). apply in_messages_snoc. apply Hrep in Hm. naive_solver.
  - unfold published. rewrite (fi_confirmed _ _ _ _ _ _ Hf), drop_app_length. by apply Hcover.
Qed.

Lemma state_bound w reported :
  NoDup reported -> in_progress w reported \/ over w reported -> length reported <= length (Pipeline_Jobs p).
Proof.
  intros Hnd Hst. rewrite <- (length_fmap job_message). apply submseteq_length, (NoDup_submseteq _ _ Hnd).
  intros m Hm. by eapply published_jobs, reported_published.
Qed.

Lemma in_progress_open w reported : in_progress w reported -> exists m, m ∈ published w /\ m ∉ reported.
Proof.
  intros (past & c & st & done & f & Hr & Hrep).
  destruct (live_names _ _ _ _ _ _ Hr) as (_ & _ & _ & (job & Hjob & Hn)).
  exists (buildJobExecutionMessage n pname c job ri). split.
  - rewrite (running_published _ _ _ _ _ _ Hr). apply in_messages_snoc. right. eauto.
  - intros [Hin|(job' & _ & Heq & Hd)]%Hrep.
    + apply messages_stage in Hin. simpl in Hin. pose proof (vp_stages_unique _ Hvalid) as Hu.
      rewrite <- (rn_stages _ _ _ _ _ _ _ _ _ _ _ Hr) in Hu. apply NoDup_app in Hu as (_ & Hu & _).
      apply (Hu c Hin). left.
    + unfold buildJobExecutionMessage in Heq. injection Heq as <-. done.
Qed.

(** C9: a run whose jobs are reported, in whatever order, ends as a success, when
    each report is handled to its end before the next one, no call of the store
    fails, every publish to the queue is confirmed, and the names of the pipeline
    are told apart by the tables and not blank. Starting from its dispatch, report
    each published message once, as a success or as a failure its job is allowed.
    Then every report is accepted; there are never more reports than jobs; while the
    run is not over some published message is still unreported, so it is never
    stuck; and when all published messages have been reported the run, all its
    stages and all its jobs are recorded as ended, every job of the pipeline was
    published exactly once, stage after stage, and the runtime is forgotten. *)
Theorem run_completes w0 cur sent future reported w :
  running w0 [] cur sent ∅ future -> served w0 reported w ->
  length reported <= length (Pipeline_Jobs p) /\
  (forall m req w' r, m ∈ published w -> m ∉ reported -> good_report req m ->
     HandleJobFinished req w = (w', r) -> r = ok tt) /\
  ((forall m, m ∈ published w -> m ∈ reported) ->
     exists all, finished w all /\ published w = messages all /\
       (Msg_Job <$> published w) ≡ₚ jobPlan <$> Pipeline_Jobs p).
Proof.
  intros Hrun Hs. destruct (served_state _ _ _ _ _ _ Hrun Hs) as [Hnd Hst].
  split; [by eapply state_bound|]. split.
  - intros m req w' r Hm Hnew Hreq Hh. destruct Hst as [(past & c & st & done & f & Hr & Hrep)|(all & Hf & Hcover)].
    + by eapply report_step.
    + exfalso. apply Hnew, Hcover. unfold published in Hm.
      by rewrite (fi_confirmed _ _ _ _ _ _ Hf), drop_app_length in Hm.
  - intros Hall. destruct Hst as [Hst|(all & Hf & Hcover)].
    + exfalso. destruct (in_progress_open _ _ Hst) as (m & Hm & Hn). by apply Hn, Hall.
    + exists all. unfold published. rewrite (fi_confirmed _ _ _ _ _ _ Hf), drop_app_length, messages_Msg_Job.
      split_and!; [done|done|]. apply whole_jobs; [apply (fi_stages _ _ _ _ _ _ Hf)|apply (fi_whole _ _ _ _ _ _ Hf)].
Qed.

(** C10: under the same conditions (reports handled one at a time, no failing call of
    the store, names told apart and not blank), in a run in progress none of whose
    jobs failed that may not, the report of a failure that is not allowed is
    accepted and ends the run: when its handler returns, the run, the stage and the
    job are recorded as failed, earlier stages stay successful, nothing was
    published, and the runtime is forgotten. Handlers that interleave can undo this
    (Race). *)
Theorem failed_job_fails_run w past cur sent done future j req :
  running w past cur sent done future -> j ∈ jobsForStage cur p ->
  report p n req cur j StatusFailed -> Job_Failures j = false ->
  exists w', HandleJobFinished req w = (w', ok tt) /\ failed p n ri base w' past cur sent /\
    job_status_of (w_db w') pname n cur (Job_Name j) = Some StatusFailed.
Proof.
  intros Hr Hj Hrep Hnot.
  destruct (wp_run _ _ _ (failed_report p n ri pt base Hvalid Hid w past cur sent done future j req Hr Hj Hrep Hnot))
    as (w' & [] & E & ? & ?). by exists w'.
Qed.

End whole.

End execution.
