(* ===== verification/Callbacks.v ===== *)
(** * Callbacks out of the ordinary, and concrete executions

    What the orchestrator does with callbacks that are malformed, late,
    repeated, or about runs it has forgotten, and with duplicate run requests;
    and witnesses of the theorems on executions: the demo pipeline run from the
    request to its end over the implementation of the queue. *)

From S2P Require Import Prelude GoStrings Models Graph Wellformed Planner Store StageState Mq Publisher Orchestrator Execution Parser Verifier.

Section callbacks.
Context {C : Collation} {Q : Type} {J : JobSink Q}.

(** A callback that does not identify a job, or that reports the end of a
    job with neither "success" nor "failed", is refused and changes nothing. *)
Theorem malformed_callback_refused req (w : world Q) :
  (missing_identity req = true ->
     HandleJobStarted req w = (w, err identity_error) /\ HandleJobFinished req w = (w, err identity_error)) /\
  (TrimSpace (Cb_Status req) ≠ StatusSuccess -> TrimSpace (Cb_Status req) ≠ StatusFailed ->
     exists e, HandleJobFinished req w = (w, err e)).
Proof.
  split.
  - intros H. unfold HandleJobStarted, HandleJobFinished. by rewrite H.
  - intros H1 H2. unfold HandleJobFinished. destruct (missing_identity req); [by eexists|].
    rewrite bool_decide_eq_true_2 by done. by eexists.
Qed.

(** Once a run is over and forgotten, no callback about it publishes
    anything or touches any other runtime, whatever the environment does. *)
Theorem forgotten_run_publishes_nothing req (w : world Q) :
  w_runtimes w !! runtimeKey (Cb_Pipeline req) (Cb_RunNo req) = None ->
  let w' := (HandleJobFinished req w).1 in
  w_queue w' = w_queue w /\ w_heap w' = w_heap w /\ w_runtimes w' = w_runtimes w /\
  pipeline_runs (w_db w') = pipeline_runs (w_db w) /\ stage_runs (w_db w') = stage_runs (w_db w).
Proof.
  intros Hnone. unfold HandleJobFinished. destruct (missing_identity req); [done|]. case_bool_decide; [done|].
  unfold finishJob, mbind, M_bind, now, store_call, getPipelineRuntime. simpl.
  destruct (w_faults w) as [|[e|] fs]; simpl; [|done|]; by rewrite Hnone.
Qed.

(** [HandleJobStarted] has no guard on the row's state: whatever status
    the job has, also a terminal one, a (late or redelivered) start callback
    sets it to "running". *)
Theorem started_overwrites_terminal req (w : world Q) r :
  w_faults w = [] -> missing_identity req = false ->
  job_runs (w_db w) !! (ci (Cb_Pipeline req), Cb_RunNo req, ci (Cb_Stage req), ci (Cb_Job req)) = Some r ->
  exists w', HandleJobStarted req w = (w', ok tt) /\
    job_status_of (w_db w') (Cb_Pipeline req) (Cb_RunNo req) (Cb_Stage req) (Cb_Job req) = Some StatusRunning.
Proof.
  intros Hf Hid Hr. unfold HandleJobStarted. rewrite Hid.
  unfold markJobRunning, noteJobStarted, getPipelineRuntime, mbind, M_bind, store_call. rewrite Hf. simpl.
  assert (Hs : forall d, job_runs d = alter (update_job_row None StatusRunning)
      (ci (Cb_Pipeline req), Cb_RunNo req, ci (Cb_Stage req), ci (Cb_Job req)) (job_runs (w_db w)) ->
      job_status_of d (Cb_Pipeline req) (Cb_RunNo req) (Cb_Stage req) (Cb_Job req) = Some StatusRunning).
  { intros d E. unfold job_status_of. by rewrite E, lookup_alter_eq, Hr. }
  destruct (w_runtimes w !! _) as [p|]; simpl; [destruct (w_heap w !! p) as [rt|]; simpl|];
    eexists; (split; [reflexivity|]); by apply Hs.
Qed.

(** Reporting a job again after its success changes its row but neither
    the queue nor the other tables while its stage is still open: a job's
    dependents are published at most once. *)
Theorem repeated_report_publishes_nothing req (w : world Q) p rt st :
  w_faults w = [] -> missing_identity req = false -> TrimSpace (Cb_Status req) = StatusSuccess ->
  w_runtimes w !! runtimeKey (Cb_Pipeline req) (Cb_RunNo req) = Some p -> w_heap w !! p = Some rt ->
  rt_stageStates rt !! Cb_Stage req = Some st -> Cb_Job req ∈ completed st -> isStageComplete st = false ->
  exists w', HandleJobFinished req w = (w', ok tt) /\ w_queue w' = w_queue w /\
    pipeline_runs (w_db w') = pipeline_runs (w_db w) /\ stage_runs (w_db w') = stage_runs (w_db w).
Proof.
  intros Hf Hid Hst Hmap Hheap Hs Hc Hnc.
  cut (wp (HandleJobFinished req) (fun _ w' => w_queue w' = w_queue w /\
    pipeline_runs (w_db w') = pipeline_runs (w_db w) /\ stage_runs (w_db w') = stage_runs (w_db w)) w).
  { intros (w' & [] & E & H)%wp_run. by exists w'. }
  unfold HandleJobFinished. rewrite Hid, Hst. simpl.
  apply wp_bind, wp_finishJob; [done|]. intros w1 t L1.
  apply wp_bind, (wp_getRuntime _ _ p rt).
  { by rewrite (ld_map _ _ _ _ _ _ L1). } { by rewrite (ld_heap _ _ _ _ _ _ L1). }
  rewrite Hs. simpl. unfold jobSucceeded, markJobSucceeded. rewrite decide_True by done.
  apply wp_bind, wp_update_runtime; [apply (ld_faults _ _ _ _ _ _ L1)|]. intros w2 L2. simpl.
  apply wp_bind, wp_ret. unfold advance. rewrite Hnc. simpl. apply wp_ret.
  by rewrite (ld_queue _ _ _ _ _ _ L2), (ld_queue _ _ _ _ _ _ L1), (ld_db _ _ _ _ _ _ L2), (ld_db _ _ _ _ _ _ L1).
Qed.

(** Runtimes of different runs never collide: registering or forgetting a
    run leaves the runtime found for every other pipeline or run number. *)
Theorem runtimes_isolated (w : world Q) pl n pl' n' p :
  (pl, n) ≠ (pl', n') ->
  (getPipelineRuntime pl' n' (putRuntime pl n p w).1).2 = (getPipelineRuntime pl' n' w).2 /\
  (getPipelineRuntime pl' n' (deleteRuntime pl n w).1).2 = (getPipelineRuntime pl' n' w).2.
Proof.
  intros Hne. unfold getPipelineRuntime, putRuntime, deleteRuntime. simpl.
  assert (runtimeKey pl n ≠ runtimeKey pl' n') by (intros [-> ->]%runtimeKey_inj; done).
  by rewrite lookup_insert_ne, lookup_delete_ne.
Qed.

(** A duplicate of an active run is not started: [Run] answers with the
    existing run and leaves the tables, the queue and the runtimes alone. *)
Theorem duplicate_run_dropped sha256_hex c orders req plan (w : world Q) k r :
  let name := Pipeline_Name (PP_Pipeline plan) in
  let key := buildRunRequestKey sha256_hex req name in
  w_faults w = [] -> db_wf (w_db w) -> key ≠ "" ->
  pipeline_runs (w_db w) !! k = Some r -> matches_active name key r ->
  exists w', runPlan sha256_hex c orders req plan w =
      (w', ok (MkRunResponse name (run_run_no r) (run_status r) []
                 ("duplicate run request dropped; using in-flight run " +++ Itoa (run_run_no r) +++ "."))) /\
    w_db w' = w_db w /\ w_queue w' = w_queue w /\ w_runtimes w' = w_runtimes w /\ w_spawned w' = w_spawned w.
Proof.
  intros name key Hf Hwf Hkey Hk Hm.
  unfold runPlan, initializePipelineRuntime, wrapf, catch, startPipelineRun, mbind, M_bind, now, store_call. simpl.
  rewrite Hf. simpl.
  match goal with |- context [CreateRunOrGetActive _ _ ?i] => set (inp := i) end.
  rewrite (CreateRunOrGetActive_duplicate (w_db w) inp k r Hwf Hkey Hk Hm). simpl. by eexists.
Qed.

End callbacks.

(** ** The demo pipeline, run over the implementation of the queue *)

#[local] Existing Instance binary_collation.

Definition demo_world (env : list call_env) : world sink :=
  MkWorld sink empty_db (demo_sink env) ∅ 0 ∅ [] 1000 [].
Definition demo_request : RunRequest := MkRunRequest "pipeline: ..." "main" "abc" "https://x/y.git" "".
Definition demo_plan : PipelinePlan :=
  MkPipelinePlan demo_pipeline (default (MkExecutionPlan []) (GenerateExecutionPlan demo_orders demo_pipeline)).
Definition demo_sha (s : string) : string := "k".

Definition demo_report (stage job status : string) : JobStatusCallbackRequest :=
  MkCallback "demo" 1 stage job status "" "".

(** Run, dispatch, then the given callbacks in order; and the last answer. *)
Definition demo_execution (env : list call_env) (reqs : list JobStatusCallbackRequest) : world sink * res unit :=
  let '(w1, _) := runPlan demo_sha (Some "0af7") demo_orders demo_request demo_plan (demo_world env) in
  let '(w2, r2) := dispatchPipelineStartJobs 0 w1 in
  foldl (fun '(w, _) req => HandleJobFinished req w) (w2, r2) reqs.

Definition jobs_of (w : world sink) : list string := (fun m => JobPlan_Name (Msg_Job m)) <$> held (w_queue w).

(** What is observed of an execution: the last answer, the jobs published, the
    status of the run, and whether it is still registered. *)
Definition observe (x : world sink * res unit) : option goerr * list string * option string * bool :=
  (match x.2 with inl _ => None | inr e => Some e end, jobs_of x.1, run_status_of (w_db x.1) "demo" 1,
   bool_decide (is_Some (w_runtimes x.1 !! runtimeKey "demo" 1))).

Example demo_success :
  observe (demo_execution [] [demo_report "build" "fetch" "success"; demo_report "build" "lint" " failed ";
    demo_report "build" "compile" "success"; demo_report "build" "package" "success"; demo_report "test" "unit" "success"])
  = (None, ["fetch"; "compile"; "lint"; "package"; "unit"], Some StatusSuccess, false).
Proof. vm_compute. reflexivity. Qed.

Example demo_failure :
  observe (demo_execution [] [demo_report "build" "fetch" "success"; demo_report "build" "compile" "failed"])
  = (None, ["fetch"; "compile"; "lint"], Some StatusFailed, false).
Proof. vm_compute. reflexivity. Qed.

(** The broker refuses the second publication. *)
Definition refusing : call_env :=
  MkCallEnv (fun _ => MkAttempt None (Some (ErrNew "queue limit" [])) (inl true) false false None None None) (ok []).

(** A lost dispatch. When publishing a released job fails, the callback
    that released it is answered with an error, but the job is already marked
    as queued: the worker's retry of the callback succeeds and publishes
    nothing, so the jobs that were to follow are never published and the run
    stays "queued" with no job left to report. *)
Theorem lost_dispatch :
  let fetched := demo_report "build" "fetch" "success" in
  let first := demo_execution [calm; refusing; calm] [fetched] in
  let retried := HandleJobFinished fetched first.1 in
  observe first = (Some (ErrWrap "publish job execution message: %w" []
    (ErrWrap "publish message failed after %d attempts: %w" ["3"] (ErrNew "queue limit" []))),
    ["fetch"], Some StatusQueued, true) /\
  observe retried = (None, ["fetch"], Some StatusQueued, true) /\
  (st ← (rt ← w_heap retried.1 !! 0; rt_stageStates rt !! "build");
   Some (isStageComplete st, JobPlan_Name <$> (getReadyJobs st).2)) = Some (false, []).
Proof. vm_compute. split_and!; reflexivity. Qed.

(** The verifier accepts a pipeline whose name is blank, but the
    orchestrator refuses every callback about its runs. *)
Theorem blank_name_accepted_then_refused :
  let p := MkPipeline " " [MkStage "build"] [MkJob "compile" "build" "golang" ["make"] [] false] in
  Verify ["compile"] (NewPipelineVerifier "content" p (render p)) = Ret [] /\
  forall (w : world sink) n stage job status logs e,
    HandleJobFinished (MkCallback (Pipeline_Name p) n stage job status logs e) w = (w, err identity_error).
Proof.
  intros p. split; [vm_compute; reflexivity|]. intros w n stage job status logs e. unfold HandleJobFinished.
  assert (missing_identity (MkCallback (Pipeline_Name p) n stage job status logs e) = true) as E; [|by rewrite E].
  apply bool_decide_eq_true. by left.
Qed.

(** ** Witnesses *)

Ltac by_decide := apply (bool_decide_unpack _); vm_compute; exact I.

Lemma demo_numbered n : n ≠ 0%Z -> identifiable demo_pipeline n.
Proof.
  intros Hn. split; try discriminate; [done| |..].
  - intros s Hs. cut (Forall (fun s => TrimSpace s ≠ "") (Stage_Name <$> Pipeline_Stages demo_pipeline)).
    + rewrite Forall_forall. auto.
    + by_decide.
  - intros j Hj. cut (Forall (fun j => TrimSpace (Job_Name j) ≠ "") (Pipeline_Jobs demo_pipeline)).
    + rewrite Forall_forall. auto.
    + by_decide.
  - by intros s s' _ _ E.
  - by intros j j' _ _ _ E.
Qed.
Lemma demo_identifiable : identifiable demo_pipeline 1.
Proof. by apply demo_numbered. Qed.

Lemma demo_ready : ready_world demo_pipeline (Some "0af7") demo_request demo_sha (demo_world []).
Proof.
  split; [split; first [done|apply empty_db_wf]|apply demo_sink_healthy].
Qed.

Definition demo_ep : ExecutionPlan := PP_ExecutionPlan demo_plan.
Lemma demo_ep_eq : GenerateExecutionPlan demo_orders demo_pipeline = Some demo_ep.
Proof. vm_compute. reflexivity. Qed.

Lemma run_starts_witness :
  exists w1 w2 cur sent future,
    runPlan demo_sha (Some "0af7") demo_orders demo_request (MkPipelinePlan demo_pipeline demo_ep) (demo_world [])
      = (w1, ok (MkRunResponse "demo" 1 StatusQueued [] "")) /\
    w_spawned w1 = [0] /\ w_queue w1 = demo_sink [] /\
    dispatchPipelineStartJobs 0 w1 = (w2, ok tt) /\
    running demo_pipeline 1 (newRunInfo demo_request) 0 [] w2 [] cur sent ∅ future.
Proof.
  apply (run_starts demo_pipeline demo_valid (Some "0af7") demo_orders demo_orders demo_ep demo_request demo_sha
           (demo_world []) demo_ready demo_identifiable demo_orders_legal demo_ep_eq demo_orders_legal).
Defined.

(** The world after the dispatch, and the worlds after each report. *)
Definition demo_w0 : world sink := (demo_execution [] []).1.

Lemma demo_running :
  running demo_pipeline 1 (newRunInfo demo_request) 0 [] demo_w0 [] "build"
    [MkJobPlan "fetch" "alpine" ["make deps"]] ∅ ["test"].
Proof.
  destruct (run_started demo_pipeline demo_valid (Some "0af7") demo_orders demo_orders demo_ep demo_request demo_sha
    (demo_world []) demo_ready demo_identifiable demo_orders_legal demo_ep_eq demo_orders_legal)
    as (w1 & w2 & cur & sent & future & E1 & _ & _ & E2 & Hr).
  assert (w2 = demo_w0) as ->.
  { change (MkPipelinePlan demo_pipeline demo_ep) with demo_plan in E1.
    unfold demo_w0, demo_execution. rewrite E1. change (w_next (demo_world [])) with 0 in E2. by rewrite E2. }
  pose proof (rn_stages _ _ _ _ _ _ _ _ _ _ _ Hr) as Hs. simpl in Hs. injection Hs as -> ->.
  pose proof (rn_confirmed _ _ _ _ _ _ _ _ _ _ _ Hr) as Hc. change (held (w_queue (demo_world []))) with
    ([] : list JobExecutionMessage) in Hc. cbn [app] in Hc.
  apply (f_equal (fmap Msg_Job)) in Hc. rewrite messages_Msg_Job in Hc. cbn [mbind list_bind snd app] in Hc.
  rewrite app_nil_r in Hc.
  assert (sent = [MkJobPlan "fetch" "alpine" ["make deps"]]) as ->; [|exact Hr].
  rewrite <- Hc. vm_compute. reflexivity.
Qed.

Definition demo_message_of (stage : string) (i : nat) : JobExecutionMessage :=
  buildJobExecutionMessage 1 "demo" stage (jobPlan (default zeroJob (Pipeline_Jobs demo_pipeline !! i))) (newRunInfo demo_request).

Definition demo_reports : list (string * nat * JobStatusCallbackRequest) :=
  [("build", 3, demo_report "build" "fetch" "success"); ("build", 2, demo_report "build" "lint" " failed ");
   ("build", 1, demo_report "build" "compile" "success"); ("build", 0, demo_report "build" "package" "success");
   ("test", 4, demo_report "test" "unit" "success")].

Definition demo_w (k : nat) : world sink := (demo_execution [] (take k demo_reports).*2).1.
Definition demo_reported (k : nat) : list JobExecutionMessage :=
  (fun x => demo_message_of x.1.1 x.1.2) <$> take k demo_reports.

Lemma demo_serve i stage k req :
  demo_reports !! i = Some (stage, k, req) ->
  served demo_pipeline [] demo_w0 (demo_reported i) (demo_w i) ->
  demo_message_of stage k ∈ published [] (demo_w i) -> demo_message_of stage k ∉ demo_reported i ->
  good_report demo_pipeline req (demo_message_of stage k) ->
  served demo_pipeline [] demo_w0 (demo_reported (S i)) (demo_w (S i)).
Proof.
  intros Hi Hs Hm Hn Hg. unfold demo_reported. rewrite (take_S_r _ _ _ Hi), fmap_app.
  eapply (served_report _ _ _ (demo_reported i) (demo_w i) _ req _ (HandleJobFinished req (demo_w i)).2); try done.
  unfold demo_w, demo_execution. rewrite (take_S_r _ _ _ Hi), fmap_app.
  destruct (runPlan _ _ _ _ _ _) as [w1 r1]. destruct (dispatchPipelineStartJobs 0 w1) as [w2 r2].
  rewrite foldl_app. simpl. destruct (foldl _ _ _) as [w3 r3]. simpl. by destruct (HandleJobFinished req w3).
Qed.

Lemma demo_served : served demo_pipeline [] demo_w0 (demo_reported 5) (demo_w 5).
Proof.
  assert (Hgood : forall stage k req, let j := default zeroJob (Pipeline_Jobs demo_pipeline !! k) in
    j ∈ Pipeline_Jobs demo_pipeline -> req = demo_report stage (Job_Name j) (Cb_Status req) ->
    tolerated j (TrimSpace (Cb_Status req)) -> good_report demo_pipeline req (demo_message_of stage k)).
  { intros stage k req j Hj E Ht. rewrite E. split_and!; try done. by exists j. }
  repeat (eapply demo_serve; [reflexivity| |by_decide|by_decide|apply Hgood; [by_decide|reflexivity|]]);
    [apply served_none|..]; first [by left|by right].
Qed.

Lemma run_completes_witness :
  exists all, finished demo_pipeline 1 (newRunInfo demo_request) [] (demo_w 5) all /\
    published [] (demo_w 5) = messages demo_pipeline 1 (newRunInfo demo_request) all /\
    (Msg_Job <$> published [] (demo_w 5)) ≡ₚ jobPlan <$> Pipeline_Jobs demo_pipeline.
Proof.
  apply (run_completes demo_pipeline 1 (newRunInfo demo_request) 0 [] demo_valid demo_identifiable demo_w0 "build"
    [MkJobPlan "fetch" "alpine" ["make deps"]] ["test"] (demo_reported 5) (demo_w 5) demo_running demo_served).
  cut (Forall (fun m => m ∈ demo_reported 5) (published [] (demo_w 5))).
  - intros HF m Hm. eapply Forall_forall in HF; [exact HF|exact Hm].
  - by_decide.
Defined.

Definition demo_fetch : Job := MkJob "fetch" "build" "alpine" ["make deps"] [] false.

Lemma failed_job_fails_run_witness :
  exists w', HandleJobFinished (demo_report "build" "fetch" "failed") demo_w0 = (w', ok tt) /\
    failed demo_pipeline 1 (newRunInfo demo_request) [] w' [] "build" [MkJobPlan "fetch" "alpine" ["make deps"]] /\
    job_status_of (w_db w') (Pipeline_Name demo_pipeline) 1 "build" (Job_Name demo_fetch) = Some StatusFailed.
Proof.
  apply (failed_job_fails_run demo_pipeline 1 (newRunInfo demo_request) 0 [] demo_valid demo_identifiable demo_w0 []
    "build" [MkJobPlan "fetch" "alpine" ["make deps"]] ∅ ["test"]
    demo_fetch (demo_report "build" "fetch" "failed") demo_running).
  - by_decide.
  - split; reflexivity.
  - reflexivity.
Defined.

Lemma malformed_callback_refused_witness :
  HandleJobStarted (MkCallback "demo" 0 "build" "fetch" "success" "" "") demo_w0 = (demo_w0, err identity_error) /\
  exists e, HandleJobFinished (demo_report "build" "fetch" "done") demo_w0 = (demo_w0, err e).
Proof.
  split.
  - apply (proj1 (malformed_callback_refused (MkCallback "demo" 0 "build" "fetch" "success" "" "") demo_w0)). reflexivity.
  - apply (proj2 (malformed_callback_refused (demo_report "build" "fetch" "done") demo_w0)); discriminate.
Defined.

Lemma forgotten_run_publishes_nothing_witness :
  w_queue (HandleJobFinished (demo_report "build" "fetch" "success") (demo_w 5)).1 = w_queue (demo_w 5).
Proof.
  apply (forgotten_run_publishes_nothing (demo_report "build" "fetch" "success") (demo_w 5)).
  vm_compute. reflexivity.
Defined.

Definition demo_job_key : job_key := ("demo", 1%Z, "build", "fetch").

Lemma started_overwrites_terminal_witness :
  job_status_of (w_db (demo_w 5)) "demo" 1 "build" "fetch" = Some StatusSuccess /\
  exists w', HandleJobStarted (demo_report "build" "fetch" "started") (demo_w 5) = (w', ok tt) /\
    job_status_of (w_db w') "demo" 1 "build" "fetch" = Some StatusRunning.
Proof.
  split; [vm_compute; reflexivity|].
  apply (started_overwrites_terminal (demo_report "build" "fetch" "started") (demo_w 5)
    (default (MkJobRow "" 0 "" "" 0 None "" false) (job_runs (w_db (demo_w 5)) !! demo_job_key)));
    vm_compute; reflexivity.
Defined.

Definition demo_rt (k : nat) : pipelineRuntime :=
  default (MkRuntime "" 0 [] ∅ (MkRunInfo "" "" "" "") 0 ∅ (MkExecutionPlan [])) (w_heap (demo_w k) !! 0).
Definition demo_st (k : nat) : stageState :=
  default (newStageState demo_stage_plan) (rt_stageStates (demo_rt k) !! "build").

Lemma repeated_report_publishes_nothing_witness :
  exists w', HandleJobFinished (demo_report "build" "fetch" "success") (demo_w 2) = (w', ok tt) /\
    w_queue w' = w_queue (demo_w 2) /\
    pipeline_runs (w_db w') = pipeline_runs (w_db (demo_w 2)) /\ stage_runs (w_db w') = stage_runs (w_db (demo_w 2)).
Proof.
  apply (repeated_report_publishes_nothing (demo_report "build" "fetch" "success") (demo_w 2) 0 (demo_rt 2) (demo_st 2)).
  1-6: vm_compute; reflexivity.
  - by_decide.
  - vm_compute. reflexivity.
Defined.

Lemma runtimes_isolated_witness :
  (getPipelineRuntime "demo" 1 (deleteRuntime "demo" 2 (demo_w 2)).1).2 = (getPipelineRuntime "demo" 1 (demo_w 2)).2.
Proof. apply (runtimes_isolated (demo_w 2) "demo" 2 "demo" 1 0). discriminate. Defined.

Lemma duplicate_run_dropped_witness :
  exists w', runPlan (fun _ => "k1") (Some "0af7") demo_orders demo_request demo_plan
      (MkWorld sink demo_db (demo_sink []) ∅ 0 ∅ [] 1000 [])
    = (w', ok (MkRunResponse "demo" 1 StatusQueued [] "duplicate run request dropped; using in-flight run 1.")) /\
    w_db w' = demo_db /\ w_queue w' = demo_sink [] /\ w_runtimes w' = ∅ /\ w_spawned w' = [].
Proof.
  apply (duplicate_run_dropped (fun _ => "k1") (Some "0af7") demo_orders demo_request demo_plan
    (MkWorld sink demo_db (demo_sink []) ∅ 0 ∅ [] 1000 []) ("demo", 1%Z) (new_run_row demo_input 1)).
  - reflexivity.
  - exact demo_db_wf.
  - discriminate.
  - reflexivity.
  - split; reflexivity.
Defined.
