(* ===== verification/Steps.v ===== *)
(** * The orchestrator's handlers, step by step
    (services/orchestrator/callbacks.go, dispatch.go)

    The HTTP server runs each callback in a goroutine of its own, beside the one
    that dispatches a run's first jobs. Here a handler is a program counter and a
    step function: a step is one call of the store, one publish, one access to the
    map of runtimes (under its mutex), or one method of a stage's state. The code
    has no lock around those methods; their steps are atomic here, so what is
    interleaved is what the scheduler may interleave between them. Theorems: a
    handler that is stepped alone does what the handler of Orchestrator does. *)

From S2P Require Import Prelude GoStrings Models Planner Store StageState Mq Publisher Orchestrator.

Section steps.
Context {C : Collation} {Q : Type} {J : JobSink Q}.

(** ** The started callback *)

Inductive start_point := MarkRunning | NoteStarted | Started.

Definition start_step (req : JobStatusCallbackRequest) (at_ : start_point) : M (Q := Q) start_point :=
  match at_ with
  | MarkRunning =>
    if missing_identity req then fail identity_error else
    markJobRunning (Cb_Pipeline req) (Cb_RunNo req) (Cb_Stage req) (Cb_Job req);; mret NoteStarted
  | NoteStarted =>
    noteJobStarted (Cb_Pipeline req) (Cb_RunNo req) (Cb_Stage req) (Cb_Job req);; mret Started
  | Started => mret Started
  end.

(** ** The finished callback *)

(** Where a handler is; [p] is the runtime it found. *)
Inductive point :=
| FinishJob
| GetRuntime
| MarkSucceeded (p : ptr)
| PublishReady (p : ptr) (jobs : list JobExecutionPlan)
| CheckStage (p : ptr)
| FinishStage (p : ptr)
| PollNext (p : ptr)
| PublishNext (p : ptr) (next : string) (jobs : list JobExecutionPlan)
| CheckNext (p : ptr) (next : string)
| FinishNext (next : string)
| MarkTerminal (p : ptr)
| FailStage
| FailRun
| FinishRun
| DeleteRun
| Returned.

(** [m] on the state of a stage of the runtime, if there is one. *)
Definition with_stage {A} (p : ptr) (name : string) (none : A) (m : pipelineRuntime -> stageState -> M (Q := Q) A) : M (Q := Q) A :=
  rt ← load p;
  match rt_stageStates rt !! name with None => mret none | Some stage => m rt stage end.

Definition finish_step (req : JobStatusCallbackRequest) (at_ : point) : M (Q := Q) point :=
  let '(pipeline, runNo, stageName, job) := (Cb_Pipeline req, Cb_RunNo req, Cb_Stage req, Cb_Job req) in
  let status := TrimSpace (Cb_Status req) in
  match at_ with
  | FinishJob =>
    if missing_identity req then fail identity_error else
    if bool_decide (status ≠ StatusSuccess /\ status ≠ StatusFailed)
    then fail (ErrNew "invalid finished status %q" [Cb_Status req]) else
    finishJob pipeline runNo stageName job status;; mret GetRuntime
  | GetRuntime =>
    o ← getPipelineRuntime pipeline runNo;
    match o with
    | None => mret Returned
    | Some (p, rt) =>
      match rt_stageStates rt !! stageName with
      | None => mret Returned
      | Some stage =>
        let cfg := default zeroJobConfig (jobConfigs stage !! job) in
        mret (if decide (status = StatusFailed) then if allowFailures cfg then MarkSucceeded p else MarkTerminal p
              else MarkSucceeded p)
      end
    end
  | MarkSucceeded p =>
    with_stage p stageName Returned (fun _ stage =>
      let '(stage', newlyReady) := markJobSucceeded stage job in
      update_runtime p (set_stage stageName stage');; mret (PublishReady p newlyReady))
  | PublishReady p [] => mret (CheckStage p)
  | PublishReady p (ready :: rest) =>
    rt ← load p;
    enqueue (buildJobExecutionMessage runNo pipeline stageName ready (rt_runInfo rt));; mret (PublishReady p rest)
  | CheckStage p =>
    with_stage p stageName Returned (fun _ stage => mret (if isStageComplete stage then FinishStage p else Returned))
  | FinishStage p => finishStageWithMetrics pipeline runNo stageName StatusSuccess;; mret (PollNext p)
  | PollNext p =>
    rt ← load p;
    match nextStageName (rt_stageOrder rt) stageName with
    | None => mret FinishRun
    | Some next =>
      with_stage p next Returned (fun _ nextStage =>
        let '(nextStage', readyJobs) := getReadyJobs nextStage in
        update_runtime p (set_stage next nextStage');; mret (PublishNext p next readyJobs))
    end
  | PublishNext p next [] => mret (CheckNext p next)
  | PublishNext p next (ready :: rest) =>
    rt ← load p;
    enqueue (buildJobExecutionMessage runNo pipeline next ready (rt_runInfo rt));; mret (PublishNext p next rest)
  | CheckNext p next =>
    with_stage p next Returned (fun _ nextStage => mret (if isStageComplete nextStage then FinishNext next else Returned))
  | FinishNext next => finishStageWithMetrics pipeline runNo next StatusSuccess;; mret Returned
  | MarkTerminal p =>
    with_stage p stageName Returned (fun _ stage =>
      update_runtime p (set_stage stageName (markJobTerminal stage job));; mret FailStage)
  | FailStage => finishStageWithMetrics pipeline runNo stageName StatusFailed;; mret FailRun
  | FailRun => finishPipelineRunWithMetrics pipeline runNo StatusFailed;; mret DeleteRun
  | FinishRun => finishPipelineRunWithMetrics pipeline runNo StatusSuccess;; mret DeleteRun
  | DeleteRun => deleteRuntime pipeline runNo;; mret Returned
  | Returned => mret Returned
  end.

(** ** The goroutine that dispatches the first jobs *)

Inductive dispatch_point :=
| Scan (stages : list StageExecutionPlan)
| FinishEmpty (stage : string) (rest : list StageExecutionPlan)
| PublishFirst (stage : string) (jobs : list JobExecutionPlan)
| AbortRun (e : goerr)
| AbortDelete (e : goerr)
| Dispatched (r : res unit).

(** An error aborts the run, and is the result of the goroutine. *)
Definition or_abort (format : string) (args : list string) (m : M (Q := Q) dispatch_point) : M (Q := Q) dispatch_point :=
  catch m (fun e => mret (AbortRun (ErrWrap format args e))).

Definition dispatch_step (p : ptr) (at_ : dispatch_point) : M (Q := Q) dispatch_point :=
  rt ← load p;
  let '(pipeline, runNo) := (rt_pipeline rt, rt_runNo rt) in
  match at_ with
  | Scan [] => mret (Dispatched (ok tt))
  | Scan (stage :: rest) =>
    match rt_stageStates rt !! StageExec_Name stage with
    | None => mret (Scan rest)
    | Some state =>
      let '(state', readyJobs) := getReadyJobs state in
      update_runtime p (set_stage (StageExec_Name stage) state');;
      mret (match readyJobs with
            | [] => match StageExec_Jobs stage with [] => FinishEmpty (StageExec_Name stage) rest | _ => Scan rest end
            | _ => PublishFirst (StageExec_Name stage) readyJobs
            end)
    end
  | FinishEmpty stage rest =>
    or_abort "finish empty stage %q: %w" [stage]
      (finishStageWithMetrics pipeline runNo stage StatusSuccess;; mret (Scan rest))
  | PublishFirst stage [] => mret (Dispatched (ok tt))
  | PublishFirst stage (job :: rest) =>
    or_abort "enqueue ready jobs for stage %q: %w" [stage]
      (enqueue (buildJobExecutionMessage runNo pipeline stage job (rt_runInfo rt));; mret (PublishFirst stage rest))
  | AbortRun e => ignore (finishPipelineRunWithMetrics pipeline runNo StatusFailed);; mret (AbortDelete e)
  | AbortDelete e => deleteRuntime pipeline runNo;; mret (Dispatched (err e))
  | Dispatched r => mret (Dispatched r)
  end.

(** ** A handler alone *)

(** From [at_] in [w], stepped until it is done, the handler leaves [w'] and ends with [r]. *)
Inductive alone {P A} (step : P -> M (Q := Q) P) (done : P -> option (res A)) : P -> world Q -> world Q -> res A -> Prop :=
| alone_done at_ w r : done at_ = Some r -> alone step done at_ w w r
| alone_error at_ w w' e : done at_ = None -> step at_ w = (w', err e) -> alone step done at_ w w' (err e)
| alone_step at_ w w1 at1 w' r :
    done at_ = None -> step at_ w = (w1, ok at1) -> alone step done at1 w1 w' r -> alone step done at_ w w' r.

Definition start_done (at_ : start_point) : option (res unit) :=
  match at_ with Started => Some (ok tt) | _ => None end.
Definition finish_done (at_ : point) : option (res unit) :=
  match at_ with Returned => Some (ok tt) | _ => None end.
Definition dispatch_done (at_ : dispatch_point) : option (res unit) :=
  match at_ with Dispatched r => Some r | _ => None end.

Lemma alone_det {P A} step done (at_ : P) w w1 (r1 : res A) w2 r2 :
  alone step done at_ w w1 r1 -> alone step done at_ w w2 r2 -> w1 = w2 /\ r1 = r2.
Proof.
  intros H. revert w2 r2.
  induction H as [at_ w r Hd|at_ w w' e Hd Hs|at_ w v at1 w' r Hd Hs _ IH]; intros w2 r2 H2;
    destruct H2 as [b u r2 Hd2|b u u' e2 Hd2 Hs2|b u v2 b1 u' r2 Hd2 Hs2 H2]; rewrite Hd in Hd2; try done.
  - by injection Hd2 as ->.
  - rewrite Hs in Hs2. by injection Hs2 as -> ->.
  - by rewrite Hs in Hs2.
  - by rewrite Hs in Hs2.
  - rewrite Hs in Hs2. injection Hs2 as -> ->. by apply IH.
Qed.

(** [m] is what stepping from [at_] does in [w]. *)
Definition runs {P A} (step : P -> M (Q := Q) P) (done : P -> option (res A)) (at_ : P) (m : M (Q := Q) A) (w : world Q) : Prop :=
  alone step done at_ w (m w).1 (m w).2.

Section runs.
Context {P A : Type} (step : P -> M (Q := Q) P) (done : P -> option (res A)).

Lemma runs_ret at_ a w : done at_ = Some (ok a) -> runs step done at_ (mret a) w.
Proof. intros H. by apply alone_done. Qed.

(** One step does [m], and the next point depends on its result. *)
Lemma runs_bind {X} (m : M X) (next : X -> P) (k : X -> M A) at_ w :
  done at_ = None -> step at_ w = (x ← m; mret (next x)) w ->
  (forall w1 x, m w = (w1, ok x) -> runs step done (next x) (k x) w1) -> runs step done at_ (x ← m; k x) w.
Proof.
  intros Hd Hs Hk. unfold runs, mbind, M_bind in *. destruct (m w) as [w1 [x|e]].
  - eapply alone_step; [done|exact Hs|]. by apply Hk.
  - by eapply alone_error.
Qed.

(** A step that only looks. *)
Lemma runs_look at_ at1 m w : done at_ = None -> step at_ w = (w, ok at1) -> runs step done at1 m w -> runs step done at_ m w.
Proof. intros Hd Hs. by apply alone_step. Qed.

Lemma runs_ext at_ m m' w : m w = m' w -> runs step done at_ m w -> runs step done at_ m' w.
Proof. unfold runs. by intros ->. Qed.
End runs.

Lemma load_ok p rt w : w_heap w !! p = Some rt -> load (Q := Q) p w = (w, ok rt).
Proof. unfold load. by intros ->. Qed.

Lemma with_stage_ok {A} p name none (m : pipelineRuntime -> stageState -> M A) w rt stage :
  w_heap w !! p = Some rt -> rt_stageStates rt !! name = Some stage -> with_stage p name none m w = m rt stage w.
Proof. intros Hp Hs. unfold with_stage, mbind, M_bind. rewrite (load_ok p rt w Hp). cbn -[lookup]. by rewrite Hs. Qed.

(** A handler goes on with what it read, without a step. *)
Lemma runs_load {P A} step done (at_ : P) p rt (k : pipelineRuntime -> M A) w :
  w_heap w !! p = Some rt -> runs step done at_ (k rt) w -> runs step done at_ (rt ← load p; k rt) w.
Proof. intros Hp. apply runs_ext. unfold mbind, M_bind. by rewrite (load_ok p rt w Hp). Qed.

Lemma runs_catch_load {P A} step done (at_ : P) p rt (k : pipelineRuntime -> M A) h w :
  w_heap w !! p = Some rt -> runs step done at_ (catch (k rt) h) w -> runs step done at_ (catch (rt ← load p; k rt) h) w.
Proof. intros Hp. apply runs_ext. unfold catch, mbind, M_bind. by rewrite (load_ok p rt w Hp). Qed.

Lemma runs_read {P A} step done (at_ : P) pipeline runNo (k : option (ptr * pipelineRuntime) -> M A) w :
  runs step done at_ (k (p ← w_runtimes w !! runtimeKey pipeline runNo; rt ← w_heap w !! p; Some (p, rt))) w ->
  runs step done at_ (o ← getPipelineRuntime pipeline runNo; k o) w.
Proof. by apply runs_ext. Qed.

(** A call of the store leaves the queue and the runtimes alone. *)
Record quiet (w w1 : world Q) : Prop := {
  qu_heap : w_heap w1 = w_heap w;
  qu_queue : w_queue w1 = w_queue w;
  qu_map : w_runtimes w1 = w_runtimes w;
  qu_faults : w_faults w = [] -> w_faults w1 = [];
}.

Lemma quiet_store {A} (f : db -> db * res A) (w w1 : world Q) r : store_call f w = (w1, r) -> quiet w w1.
Proof.
  unfold store_call. destruct (w_faults w) as [|[e|] fs] eqn:E; [|by intros [= <- _]; split; rewrite ?E|];
    destruct (f (w_db w)); intros [= <- _]; split; by rewrite ?E.
Qed.
Lemma quiet_timed {A} (g : Z -> db -> db * res A) (w w1 : world Q) r : (t ← now; store_call (g t)) w = (w1, r) -> quiet w w1.
Proof. unfold mbind, M_bind, now. simpl. intros [H1 H2 H3 H4]%quiet_store. by split. Qed.
Lemma quiet_finishStage p n s st (w w1 : world Q) r : finishStageWithMetrics p n s st w = (w1, r) -> quiet w w1.
Proof. apply (quiet_timed (fun t d => UpdateStage d p n s (Some t) st)). Qed.
Lemma quiet_finishJob p n s j st (w w1 : world Q) r : finishJob p n s j st w = (w1, r) -> quiet w w1.
Proof. apply (quiet_timed (fun t d => UpdateJob d p n s j (Some t) st)). Qed.
Lemma quiet_finishRun p n st (w w1 : world Q) r : finishPipelineRunWithMetrics p n st w = (w1, r) -> quiet w w1.
Proof. apply (quiet_timed (fun t d => UpdateRun d p n (Some t) st)). Qed.
Lemma quiet_ignore m (w w1 : world Q) r : (forall w2 r2, m w = (w2, r2) -> quiet w w2) -> ignore m w = (w1, r) -> quiet w w1.
Proof. intros H. unfold ignore, catch. destruct (m w) as [w2 [[]|e]]; intros [= <- _]; by eapply H. Qed.

(** Without a fault the calls that end a job, a stage or a run succeed. *)
Lemma ok_timed (g : Z -> db -> db * res unit) (w w1 : world Q) r :
  w_faults w = [] -> (forall t, (g t (w_db w)).2 = ok tt) -> (t ← now; store_call (g t)) w = (w1, r) -> r = ok tt.
Proof.
  intros Hf Hok. unfold mbind, M_bind, now, store_call. simpl. rewrite Hf. specialize (Hok (w_clock w)).
  destruct (g (w_clock w) (w_db w)). by intros [= _ <-].
Qed.
Lemma ok_finishStage p n s st (w w1 : world Q) r : w_faults w = [] -> finishStageWithMetrics p n s st w = (w1, r) -> r = ok tt.
Proof. intros Hf. by apply (ok_timed (fun t d => UpdateStage d p n s (Some t) st)). Qed.
Lemma ok_finishJob p n s j st (w w1 : world Q) r : w_faults w = [] -> finishJob p n s j st w = (w1, r) -> r = ok tt.
Proof. intros Hf. by apply (ok_timed (fun t d => UpdateJob d p n s j (Some t) st)). Qed.
Lemma ok_finishRun p n st (w w1 : world Q) r : w_faults w = [] -> st = StatusSuccess \/ st = StatusFailed ->
  finishPipelineRunWithMetrics p n st w = (w1, r) -> r = ok tt.
Proof. intros Hf Hst. apply (ok_timed (fun t d => UpdateRun d p n (Some t) st)); [done|]. intros t. by rewrite UpdateRun_finish. Qed.

Lemma heap_enqueue msg (w w1 : world Q) r : enqueue msg w = (w1, r) -> w_heap w1 = w_heap w /\ w_runtimes w1 = w_runtimes w.
Proof. unfold enqueue. destruct (enqueueJob msg (w_queue w)). by intros [= <- _]. Qed.

(** Publishing a list of jobs, one step for each. *)
Lemma runs_publish {P A} step done (pt : list JobExecutionPlan -> P) p rt pipeline runNo stage jobs (k : M A) w :
  (forall l, done (pt l) = None) ->
  (forall job l w, w_heap w !! p = Some rt ->
     step (pt (job :: l)) w = (enqueue (buildJobExecutionMessage runNo pipeline stage job (rt_runInfo rt));; mret (pt l)) w) ->
  w_heap w !! p = Some rt ->
  (forall w1, w_heap w1 !! p = Some rt -> runs step done (pt []) k w1) ->
  runs step done (pt jobs) (enqueueReadyJobs pipeline stage runNo jobs (rt_runInfo rt);; k) w.
Proof.
  intros Hd Hs Hp Hk. revert w Hp. induction jobs as [|job jobs IH]; intros w Hp; [by apply Hk|].
  eapply (runs_ext _ _ _ (enqueue (buildJobExecutionMessage runNo pipeline stage job (rt_runInfo rt));;
    (enqueueReadyJobs pipeline stage runNo jobs (rt_runInfo rt);; k))).
  { unfold mbind, M_bind. simpl. unfold mbind, M_bind. by destruct (enqueue _ w) as [w1 [[]|e]]. }
  apply (runs_bind step done _ (fun _ => pt jobs)); [done|by apply Hs|].
  intros w1 [] E. apply IH. by rewrite (proj1 (heap_enqueue _ _ _ _ E)).
Qed.

(** ** Alone, a handler is the handler of Orchestrator *)

Lemma runs_HandleJobStarted req w : runs (start_step req) start_done MarkRunning (HandleJobStarted req) w.
Proof.
  unfold HandleJobStarted. destruct (missing_identity req) eqn:Hmi.
  { apply alone_error; [done|]. simpl. by rewrite Hmi. }
  apply (runs_bind _ _ _ (fun _ => NoteStarted)); [done|simpl; by rewrite Hmi|]. intros w1 [] _.
  eapply (runs_ext _ _ _ (noteJobStarted (Cb_Pipeline req) (Cb_RunNo req) (Cb_Stage req) (Cb_Job req);; mret tt)).
  { unfold mbind at 1, M_bind. by destruct (noteJobStarted _ _ _ _ w1) as [w2 [[]|e]]. }
  apply (runs_bind _ _ _ (fun _ => Started)); [done|done|]. intros w2 [] _. by apply runs_ret.
Qed.

Section finished.
Context (req : JobStatusCallbackRequest).
Abbreviation fruns := (runs (finish_step req) finish_done).

(** The step is evaluated as far as the point tells. *)
#[local] Ltac at_point := cbv beta iota zeta delta [finish_step].

(** The last step of a handler. *)
Lemma runs_last at_ (m : M (Q := Q) unit) w : finish_done at_ = None -> finish_step req at_ w = (m;; mret Returned) w -> fruns at_ m w.
Proof.
  intros Hd Hs. eapply (runs_ext _ _ _ (m;; mret tt)).
  { unfold mbind, M_bind. by destruct (m w) as [w1 [[]|e]]. }
  apply (runs_bind _ _ _ (fun _ => Returned)); [done|done|]. intros w1 [] _. by apply runs_ret.
Qed.

Lemma runs_CheckNext p next rt stage w :
  w_heap w !! p = Some rt -> rt_stageStates rt !! next = Some stage ->
  fruns (CheckNext p next)
    (if isStageComplete stage then finishStageWithMetrics (Cb_Pipeline req) (Cb_RunNo req) next StatusSuccess else mret tt) w.
Proof.
  intros Hp Hs.
  eapply (runs_look _ _ _ (if isStageComplete stage then FinishNext next else Returned)); [done| |].
  { at_point. by rewrite (with_stage_ok _ _ _ _ _ rt stage Hp Hs). }
  destruct (isStageComplete stage); [by apply runs_last|by apply runs_ret].
Qed.

Lemma runs_advance p rt stage w :
  w_heap w !! p = Some rt -> rt_stageStates rt !! Cb_Stage req = Some stage -> fruns (CheckStage p) (advance req p stage) w.
Proof.
  intros Hp Hs. unfold advance.
  eapply (runs_look _ _ _ (if isStageComplete stage then FinishStage p else Returned)); [done| |].
  { at_point. by rewrite (with_stage_ok _ _ _ _ _ rt stage Hp Hs). }
  destruct (isStageComplete stage); [|by apply runs_ret].
  apply (runs_bind _ _ _ (fun _ => PollNext p)); [done|done|]. intros w1 [] E1.
  assert (Hp1 : w_heap w1 !! p = Some rt) by (by rewrite (qu_heap _ _ (quiet_finishStage _ _ _ _ _ _ _ E1))).
  apply (runs_load _ _ _ p rt); [done|]. cbv iota.
  assert (Hstep : finish_step req (PollNext p) w1 =
    match nextStageName (rt_stageOrder rt) (Cb_Stage req) with
    | None => mret FinishRun
    | Some next => with_stage p next Returned (fun _ nextStage =>
        let '(nextStage', readyJobs) := getReadyJobs nextStage in
        update_runtime p (set_stage next nextStage');; mret (PublishNext p next readyJobs))
    end w1).
  { at_point. unfold mbind at 1, M_bind at 1. by rewrite (load_ok p rt w1 Hp1). }
  destruct (nextStageName (rt_stageOrder rt) (Cb_Stage req)) as [next|].
  2:{ eapply runs_look; [done|exact Hstep|]. apply (runs_bind _ _ _ (fun _ => DeleteRun)); [done|done|]. intros w2 [] _. by apply runs_last. }
  destruct (rt_stageStates rt !! next) as [nst|] eqn:En.
  2:{ apply (runs_look _ _ _ Returned); [done| |by apply runs_ret]. rewrite Hstep. unfold with_stage, mbind, M_bind. rewrite (load_ok p rt w1 Hp1). cbn -[lookup]. by rewrite En. }
  rewrite (with_stage_ok _ _ _ _ _ rt nst Hp1 En) in Hstep. destruct (getReadyJobs nst) as [nst' ready].
  apply (runs_bind _ _ _ (fun _ => PublishNext p next ready)); [done|exact Hstep|]. intros w2 [] [= <-].
  assert (Hp2 : w_heap (with_heap w1 (alter (set_stage next nst') p (w_heap w1))) !! p = Some (set_stage next nst' rt)).
  { simpl. by rewrite lookup_alter_eq, Hp1. }
  apply (runs_publish _ _ (PublishNext p next) p (set_stage next nst' rt)); [done| |done|].
  - intros job l w3 H3. at_point. unfold mbind at 1, M_bind at 1. by rewrite (load_ok _ _ _ H3).
  - intros w3 H3. eapply runs_look; [done|done|]. apply (runs_CheckNext p next _ nst' w3 H3). apply lookup_insert_eq.
Qed.

Lemma runs_jobSucceeded p rt stage w :
  w_heap w !! p = Some rt -> rt_stageStates rt !! Cb_Stage req = Some stage ->
  fruns (MarkSucceeded p) (jobSucceeded req p rt stage) w.
Proof.
  intros Hp Hs. unfold jobSucceeded.
  assert (Hstep : finish_step req (MarkSucceeded p) w =
    (let '(stage', newlyReady) := markJobSucceeded stage (Cb_Job req) in
     update_runtime p (set_stage (Cb_Stage req) stage');; mret (PublishReady p newlyReady)) w).
  { at_point. by rewrite (with_stage_ok _ _ _ _ _ rt stage Hp Hs). }
  destruct (markJobSucceeded stage (Cb_Job req)) as [stage' ready].
  apply (runs_bind _ _ _ (fun _ => PublishReady p ready)); [done|exact Hstep|]. intros w1 [] [= <-].
  set (rt' := set_stage (Cb_Stage req) stage' rt).
  assert (Hp1 : w_heap (with_heap w (alter (set_stage (Cb_Stage req) stage') p (w_heap w))) !! p = Some rt').
  { simpl. by rewrite lookup_alter_eq, Hp. }
  apply (runs_publish _ _ (PublishReady p) p rt'); [done| |done|].
  - intros job l w3 H3. at_point. unfold mbind at 1, M_bind at 1. by rewrite (load_ok _ _ _ H3).
  - intros w3 H3. eapply runs_look; [done|done|]. apply (runs_advance p rt' stage' w3 H3). apply lookup_insert_eq.
Qed.

Lemma runs_HandleJobFinished w : fruns FinishJob (HandleJobFinished req) w.
Proof.
  unfold HandleJobFinished. destruct (missing_identity req) eqn:Hmi.
  { apply alone_error; [done|]. at_point. by rewrite Hmi. }
  destruct (bool_decide _) eqn:Hst.
  { apply alone_error; [done|]. at_point. by rewrite Hmi, Hst. }
  apply (runs_bind _ _ _ (fun _ => GetRuntime)); [done|at_point; by rewrite Hmi, Hst|]. intros w1 [] _.
  apply runs_read.
  assert (Hstep : finish_step req GetRuntime w1 =
    (w1, ok match (p ← w_runtimes w1 !! runtimeKey (Cb_Pipeline req) (Cb_RunNo req); rt ← w_heap w1 !! p; Some (p, rt)) with
     | None => Returned
     | Some (p, rt) =>
       match rt_stageStates rt !! Cb_Stage req with
       | None => Returned
       | Some stage =>
         let cfg := default zeroJobConfig (jobConfigs stage !! Cb_Job req) in
         if decide (TrimSpace (Cb_Status req) = StatusFailed) then if allowFailures cfg then MarkSucceeded p else MarkTerminal p
         else MarkSucceeded p
       end
     end)).
  { at_point. unfold mbind at 1, M_bind at 1, getPipelineRuntime. destruct (_ ≫= _) as [[p rt]|]; [|done].
    by destruct (rt_stageStates rt !! _). }
  eapply runs_look; [done|exact Hstep|].
  destruct (w_runtimes w1 !! _) as [p|]; [|by apply runs_ret]. simpl.
  destruct (w_heap w1 !! p) as [rt|] eqn:Hp; [|by apply runs_ret]. simpl.
  destruct (rt_stageStates rt !! Cb_Stage req) as [stage|] eqn:Hs; [|by apply runs_ret].
  destruct (decide (TrimSpace (Cb_Status req) = StatusFailed)); [|by apply runs_jobSucceeded].
  destruct (allowFailures _); [by apply runs_jobSucceeded|].
  apply (runs_bind _ _ _ (fun _ => FailStage)); [done|at_point; by rewrite (with_stage_ok _ _ _ _ _ rt stage Hp Hs)|].
  intros w2 [] _. apply (runs_bind _ _ _ (fun _ => FailRun)); [done|done|].
  intros w3 [] _. apply (runs_bind _ _ _ (fun _ => DeleteRun)); [done|done|]. intros w4 [] _. by apply runs_last.
Qed.
End finished.

Section dispatched.
Context (p : ptr) (pipeline : string) (runNo : Z) (ri : runInfo).
Abbreviation druns := (runs (dispatch_step p) dispatch_done).

(** What the goroutine reads of the runtime and nobody writes. *)
Definition dispatches (w : world Q) (rt : pipelineRuntime) : Prop :=
  w_heap w !! p = Some rt /\ rt_pipeline rt = pipeline /\ rt_runNo rt = runNo /\ rt_runInfo rt = ri.

Lemma dispatches_heap w w1 rt : w_heap w1 = w_heap w -> dispatches w rt -> dispatches w1 rt.
Proof. unfold dispatches. by intros ->. Qed.

(** A step, with what the runtime holds. *)
#[local] Ltac dispatch_at H :=
  let Hp := fresh in let E1 := fresh in let E2 := fresh in let E3 := fresh in destruct H as (Hp & E1 & E2 & E3);
  unfold dispatch_step, mbind at 1, M_bind at 1; rewrite (load_ok _ _ _ Hp); unfold ok; cbv iota beta; by rewrite ?E1, ?E2, ?E3.

(** What dispatchPipelineStartJobs does with an error. *)
Definition abort (e : goerr) : M (Q := Q) unit :=
  ignore (finishPipelineRunWithMetrics pipeline runNo StatusFailed);; deleteRuntime pipeline runNo;; fail e.

Lemma runs_abort e w rt : dispatches w rt -> druns (AbortRun e) (abort e) w.
Proof.
  intros Hd. apply (runs_bind _ _ _ (fun _ => AbortDelete e)); [done|dispatch_at Hd|].
  intros w1 [] E1. assert (Hd1 : dispatches w1 rt).
  { apply (dispatches_heap w); [|done]. eapply qu_heap, quiet_ignore; [apply quiet_finishRun|exact E1]. }
  apply (runs_bind _ _ _ (fun _ => Dispatched (err e))); [done|dispatch_at Hd1|].
  intros w2 [] _. by apply alone_done.
Qed.

(** A call whose error aborts the run. *)
Lemma runs_or_abort at_ format args (m : M (Q := Q) unit) next (k : M (Q := Q) unit) w rt :
  dispatches w rt -> dispatch_done at_ = None ->
  dispatch_step p at_ w = or_abort format args (m;; mret next) w -> (forall w1 r, m w = (w1, r) -> w_heap w1 = w_heap w) ->
  (forall w1, dispatches w1 rt -> druns next (catch k abort) w1) ->
  druns at_ (catch (wrapf format args m;; k) abort) w.
Proof.
  intros Hd Hn Hs Hh Hk. unfold or_abort, catch, mbind, M_bind in Hs. unfold runs, wrapf, catch, mbind, M_bind.
  destruct (m w) as [w1 [[]|e]] eqn:Em; pose proof (dispatches_heap _ _ _ (Hh _ _ eq_refl) Hd) as Hd1.
  - eapply alone_step; [done|exact Hs|]. by apply Hk.
  - eapply alone_step; [done|exact Hs|]. by apply (runs_abort _ _ rt).
Qed.

Lemma runs_PublishFirst stage jobs w rt :
  dispatches w rt ->
  druns (PublishFirst stage jobs)
    (catch (wrapf "enqueue ready jobs for stage %q: %w" [stage] (enqueueReadyJobs pipeline stage runNo jobs ri)) abort) w.
Proof.
  revert w. induction jobs as [|job jobs IH]; intros w Hd.
  - apply (runs_look _ _ _ (Dispatched (ok tt))); [done|dispatch_at Hd|by apply runs_ret].
  - eapply (runs_ext _ _ _ (catch (wrapf "enqueue ready jobs for stage %q: %w" [stage]
      (enqueue (buildJobExecutionMessage runNo pipeline stage job ri));;
      wrapf "enqueue ready jobs for stage %q: %w" [stage] (enqueueReadyJobs pipeline stage runNo jobs ri)) abort)).
    { unfold catch, wrapf, catch, mbind, M_bind. simpl. unfold mbind, M_bind. by destruct (enqueue _ w) as [w1 [[]|e]]. }
    apply (runs_or_abort _ _ _ _ (PublishFirst stage jobs) _ _ rt); [done|done|dispatch_at Hd| |].
    + intros w1 r E. by apply (heap_enqueue _ _ _ _ E).
    + intros w1 Hd1. by apply IH.
Qed.

Lemma runs_Scan stages w rt :
  dispatches w rt -> druns (Scan stages) (catch (enqueueFirstReadyStageJobs p pipeline runNo stages ri) abort) w.
Proof.
  revert w rt. induction stages as [|stage stages IH]; intros w rt Hd; pose proof Hd as (Hp & Epl & En & Eri).
  - apply (runs_look _ _ _ (Dispatched (ok tt))); [done|dispatch_at Hd|by apply runs_ret].
  - simpl. apply (runs_catch_load _ _ _ p rt); [done|].
    assert (Hstep : dispatch_step p (Scan (stage :: stages)) w =
      match rt_stageStates rt !! StageExec_Name stage with
      | None => mret (Scan stages)
      | Some state =>
        let '(state', readyJobs) := getReadyJobs state in
        update_runtime p (set_stage (StageExec_Name stage) state');;
        mret (match readyJobs with
              | [] => match StageExec_Jobs stage with [] => FinishEmpty (StageExec_Name stage) stages | _ => Scan stages end
              | _ => PublishFirst (StageExec_Name stage) readyJobs
              end)
      end w).
    { unfold dispatch_step, mbind at 1, M_bind at 1. by rewrite (load_ok p rt w Hp). }
    destruct (rt_stageStates rt !! StageExec_Name stage) as [state|].
    2:{ eapply runs_look; [done|exact Hstep|]. by apply (IH w rt). }
    destruct (getReadyJobs state) as [state' ready].
    eapply alone_step; [done|rewrite Hstep; reflexivity|].
    set (w1 := with_heap w _). set (rt1 := set_stage (StageExec_Name stage) state' rt).
    assert (Hd1 : dispatches w1 rt1).
    { split_and!; [|done..]. unfold w1. simpl. by rewrite lookup_alter_eq, Hp. }
    destruct ready as [|job ready]; [|by apply (runs_PublishFirst _ (job :: ready) w1 rt1)].
    destruct (StageExec_Jobs stage); [|by apply (IH w1 rt1)].
    apply (runs_or_abort _ _ _ _ (Scan stages) _ w1 rt1); [done|done|dispatch_at Hd1| |].
    + intros w2 r E. by apply quiet_finishStage in E as [].
    + intros w2 Hd2. by apply (IH w2 rt1).
Qed.

Lemma runs_dispatch w rt :
  dispatches w rt -> druns (Scan (Plan_Stages (rt_executionPlan rt))) (dispatchPipelineStartJobs p) w.
Proof.
  intros Hd. pose proof Hd as (Hp & E1 & E2 & E3). apply (runs_load _ _ _ p rt); [done|]. rewrite E1, E2, E3. by apply (runs_Scan _ _ rt).
Qed.
End dispatched.

(** C8: the program counters are the handlers: stepped alone, each callback
    and the dispatch goroutine do to the world, and answer, exactly what the
    handlers of Orchestrator do, whatever fails and whatever the callback says. *)
Theorem steps_alone (req : JobStatusCallbackRequest) (w : world Q) :
  (forall w' r, alone (start_step req) start_done MarkRunning w w' r <-> HandleJobStarted req w = (w', r)) /\
  (forall w' r, alone (finish_step req) finish_done FinishJob w w' r <-> HandleJobFinished req w = (w', r)) /\
  (forall p rt, w_heap w !! p = Some rt -> forall w' r,
     alone (dispatch_step p) dispatch_done (Scan (Plan_Stages (rt_executionPlan rt))) w w' r <->
     dispatchPipelineStartJobs p w = (w', r)).
Proof.
  assert (H : forall (P A : Type) step done (at_ : P) (m : M A), runs step done at_ m w ->
    forall w' r, alone step done at_ w w' r <-> m w = (w', r)).
  { intros P A step done at_ m Hr w' r. unfold runs in Hr. split.
    - intros Ha. destruct (alone_det _ _ _ _ _ _ _ _ Ha Hr) as [-> ->]. by destruct (m w).
    - intros E. by rewrite E in Hr. }
  split_and!; [apply H, runs_HandleJobStarted|apply H, runs_HandleJobFinished|].
  intros p rt Hp. by apply H, (runs_dispatch p (rt_pipeline rt) (rt_runNo rt) (rt_runInfo rt)).
Qed.
End steps.
