(* ===== verification/Http.v ===== *)
(** * HTTP requests and responses (internal/api, the services' handlers)

    A request is its method, its query parameters and its body, which is the
    decoded JSON value unless reading or decoding failed; a response is a status
    and a JSON value or the standard error. Header fields, encoding failures of
    the responses (none of these types has one) and write errors are left out.
    The text of an error, [err.Error()], is a parameter of the handlers. *)

From S2P Require Import Prelude GoStrings.

Inductive json_body (A : Type) :=
| BodyUnread (e : goerr)
| BodyInvalid (e : goerr)
| BodyJSON (a : A).
Arguments BodyUnread {A}. Arguments BodyInvalid {A}. Arguments BodyJSON {A}.

Record http_request (A : Type) := MkHttpRequest {
  Method : string; QueryGet : string -> string; ReqBody : json_body A }.
Arguments MkHttpRequest {A}. Arguments Method {A}. Arguments QueryGet {A}. Arguments ReqBody {A}.

Record ErrorResponse := MkErrorResponse { Err_Code : string; Err_Message : string }.
Record StatusResponse := MkStatusResponse { SR_Status : string }.
Record http_response (A : Type) := MkHttpResponse { StatusCode : Z; RespBody : A + ErrorResponse }.
Arguments MkHttpResponse {A}. Arguments StatusCode {A}. Arguments RespBody {A}.

(** ** response.go *)

(** [http.StatusText], of the statuses the handlers pass to it. *)
Definition StatusText (code : Z) : string :=
  if decide (code = 405%Z) then "Method Not Allowed"
  else if decide (code = 503%Z) then "Service Unavailable"
  else if decide (code = 500%Z) then "Internal Server Error" else "".

Definition error_codes : list (Z * string) :=
  [ (400%Z, "bad_request"); (405%Z, "method_not_allowed"); (404%Z, "not_found"); (409%Z, "conflict");
    (502%Z, "bad_gateway"); (504%Z, "gateway_timeout"); (503%Z, "service_unavailable"); (500%Z, "internal_error") ].

Definition defaultErrorCode (statusCode : Z) : string :=
  default "error" ((list_to_map error_codes : gmap Z string) !! statusCode).

Definition WriteJSON {A} (statusCode : Z) (v : A) : http_response A := MkHttpResponse statusCode (inl v).
Definition WriteError {A} (statusCode : Z) (code message : string) : http_response A :=
  MkHttpResponse statusCode (inr (MkErrorResponse code message)).
Definition WriteJSONError {A} (statusCode : Z) (message : string) : http_response A :=
  WriteError statusCode (defaultErrorCode statusCode) message.

Definition methodNotAllowed {A} : http_response A := WriteJSONError 405 (StatusText 405).

(** ** What the handlers share *)

(** [if r.Method != http.MethodPost ...; io.ReadAll; json.Unmarshal] *)
Definition decodeBody {A B} (error_text : goerr -> string) (r : http_request A) : A + http_response B :=
  if decide (Method r ≠ "POST") then inr methodNotAllowed else
  match ReqBody r with
  | BodyUnread e => inr (WriteJSONError 400 ("failed to read request body: " +++ error_text e))
  | BodyInvalid e => inr (WriteJSONError 400 ("invalid JSON: " +++ error_text e))
  | BodyJSON a => inl a
  end.

Definition handleHealth {A} (r : http_request A) : http_response StatusResponse :=
  if decide (Method r ≠ "GET") then methodNotAllowed else WriteJSON 200 (MkStatusResponse "healthy").

(** [handleReady] of the services that have dependencies. *)
Definition handleReady {A} (error_text : goerr -> string) (what : string) (ready : res unit) (r : http_request A)
    : http_response StatusResponse :=
  if decide (Method r ≠ "GET") then methodNotAllowed else
  match ready with
  | inr e => WriteJSONError 503 (what +++ " not ready: " +++ error_text e)
  | inl _ => WriteJSON 200 (MkStatusResponse "ready")
  end.

(** ** config/defaults.go *)

Definition GetEnvOrDefault (env : string -> string) (key fallback : string) : string :=
  let v := TrimSpace (env key) in if decide (v = "") then fallback else v.
Definition GetEnvOrDefaultURL (env : string -> string) (key fallback : string) : string :=
  TrimRightSlash (GetEnvOrDefault env key fallback).

(** ** What a client sees *)

(** An exchange ends in no response, a body that is not JSON, or a status and a
    decoded body. *)
Inductive http_outcome (A : Type) :=
| HttpError (e : goerr)
| HttpBadBody (e : goerr)
| HttpResponse (status : Z) (body : A).
Arguments HttpError {A}. Arguments HttpBadBody {A}. Arguments HttpResponse {A}.

Definition POST {A} (a : A) : http_request A := MkHttpRequest "POST" (fun _ => "") (BodyJSON a).

Lemma decodeBody_POST {A B} error_text (a : A) : decodeBody (B := B) error_text (POST a) = inl a.
Proof. done. Qed.

Example code_405 : defaultErrorCode 405 = "method_not_allowed". Proof. reflexivity. Qed.
Example code_418 : defaultErrorCode 418 = "error". Proof. reflexivity. Qed.
