(* ===== verification/Validation.v ===== *)
(** * Cache, validation service, and preparing a run
    (internal/cache, services/validation, services/orchestrator/validation.go)

    The cache is an interface ([CacheStore]) with two implementations, the
    no-op store and the Redis store over a client that is third-party code. A
    cached payload is a JSON document, kept as the value it encodes: decoding
    takes the fields it knows. The YAML decoder and the rendering of errors as
    text are parameters. Theorems: the cache is transparent as long as a path
    and commit determine the content and no commit has a colon; the orchestrator's requests carry neither,
    so once one pipeline was accepted every later one is; without a cache
    [prepareRun] lets only valid pipelines through. *)

From Stdlib Require Import Ascii.
From S2P Require Import Prelude GoStrings Models Graph Wellformed Parser Verifier Planner Http.

(** ** Requests and responses (api/types.go) *)

Record ValidateRequest := MkValidateRequest {
  VReq_YAMLContent : string; VReq_Commit : string; VReq_PipelinePath : string }.
Record ValidateResponse := MkValidateResponse { VResp_Valid : bool; VResp_Errors : list string }.
Record DryRunResponse := MkDryRunResponse {
  DResp_Valid : bool; DResp_Errors : list string; DResp_ExecutionPlan : option ExecutionPlan }.

(** ** Keys (keys.go) *)

Definition validateNamespace : string := "validate:v2".
Definition dryRunNamespace : string := "dryrun:v2".

Definition buildKey (prefix namespace path commit : string) : string :=
  let val := TrimSpace commit +++ ":" +++ TrimSpace path in
  let prefix := TrimSpace prefix in
  if decide (prefix = "") then namespace +++ ":" +++ val else prefix +++ ":" +++ namespace +++ ":" +++ val.

Definition ValidateKey (prefix path commit : string) : string := buildKey prefix validateNamespace path commit.
Definition DryRunKey (prefix path commit : string) : string := buildKey prefix dryRunNamespace path commit.

(** ** Stores (store.go, redis_store.go) *)

Inductive payload :=
| JValidate (r : ValidateResponse)
| JDryRun (r : DryRunResponse)
| JInvalid (bytes : string).

(** [json.Unmarshal] into either response: missing fields are zero. *)
Definition unmarshal_validate (p : payload) : option ValidateResponse :=
  match p with
  | JValidate r => Some r
  | JDryRun r => Some (MkValidateResponse (DResp_Valid r) (DResp_Errors r))
  | JInvalid _ => None
  end.
Definition unmarshal_dryrun (p : payload) : option DryRunResponse :=
  match p with
  | JValidate r => Some (MkDryRunResponse (VResp_Valid r) (VResp_Errors r) None)
  | JDryRun r => Some r
  | JInvalid _ => None
  end.

Definition ErrCacheMiss : goerr := ErrIs "cache miss".

(** What the services rely on: a store returns only what was set under the key;
    it may forget, expire or fail at any time. *)
Class CacheStore (S : Type) := {
  Get : string -> S -> S * res payload;
  Put : string -> payload -> Z -> S -> S * res unit;
  holds : S -> string -> payload -> Prop;
  Get_sound k s s' v : Get k s = (s', ok v) -> holds s k v;
  Get_keeps k s k' v : holds (Get k s).1 k' v -> holds s k' v;
  Put_keeps k v ttl s k' v' : holds (Put k v ttl s).1 k' v' -> holds s k' v' \/ (k' = k /\ v' = v);
}.

(** [NoopStore] *)
Inductive NoopStore := NewNoopStore.
#[export, refine] Instance noop_CacheStore : CacheStore NoopStore := {|
  Get _ s := (s, err ErrCacheMiss);
  Put _ _ _ s := (s, ok tt);
  holds _ _ _ := False;
|}.
Proof. all: naive_solver. Defined.

(** The client of go-redis: a lookup answers a value, [redis.Nil], or an error. *)
Class RedisClient (S : Type) := {
  redis_Get : string -> S -> S * res payload;
  redis_Set : string -> payload -> Z -> S -> S * res unit;
  redis_holds : S -> string -> payload -> Prop;
  redis_Get_sound k s s' v : redis_Get k s = (s', ok v) -> redis_holds s k v;
  redis_Get_keeps k s k' v : redis_holds (redis_Get k s).1 k' v -> redis_holds s k' v;
  redis_Set_keeps k v ttl s k' v' : redis_holds (redis_Set k v ttl s).1 k' v' -> redis_holds s k' v' \/ (k' = k /\ v' = v);
}.

Section redis.
Context {S : Type} {R : RedisClient S}.

(** [RedisStore]: [None] is a nil client. *)
Definition RedisStore := option S.

Definition redis_store_Get (k : string) (s : RedisStore) : RedisStore * res payload :=
  match s with
  | None => (s, err (ErrNew "redis client is nil" []))
  | Some c =>
    match redis_Get k c with
    | (c', inl v) => (Some c', ok v)
    | (c', inr e) => (Some c', if errors_Is e "redis: nil" then err ErrCacheMiss else err e)
    end
  end.

Definition redis_store_Set (k : string) (v : payload) (ttl : Z) (s : RedisStore) : RedisStore * res unit :=
  match s with
  | None => (s, err (ErrNew "redis client is nil" []))
  | Some c => let '(c', r) := redis_Set k v ttl c in (Some c', r)
  end.

Definition redis_store_holds (s : RedisStore) (k : string) (v : payload) : Prop :=
  match s with None => False | Some c => redis_holds c k v end.

#[export, refine] Instance redis_CacheStore : CacheStore RedisStore := {|
  Get := redis_store_Get; Put := redis_store_Set; holds := redis_store_holds |}.
Proof.
  - intros k [c|] s' v; simpl; [|done]. destruct (redis_Get k c) as [c' [w|e]] eqn:E.
    + intros [= <- <-]. by eapply redis_Get_sound.
    + by destruct (errors_Is e _).
  - intros k [c|] k' v; simpl; [|done]. pose proof (redis_Get_keeps k c k' v) as H.
    by destruct (redis_Get k c) as [c' [w|e]].
  - intros k v ttl [c|] k' v'; simpl; [|naive_solver]. pose proof (redis_Set_keeps k v ttl c k' v') as H.
    by destruct (redis_Set k v ttl c).
Defined.
End redis.

(** ** Configuration (config.go): [ParseBool] and [ParseDuration] of package
    strconv and time are arguments. *)
Record CacheConfig := MkCacheConfig {
  Enabled : bool; RedisURL : string; KeyPrefix : string; ValidateTTL : Z; DryRunTTL : Z;
  DialTimeout : Z; ReadTimeout : Z; WriteTimeout : Z }.

Definition millisecond : Z := 1000000.
Definition second : Z := (1000 * millisecond)%Z.
Definition minute : Z := (60 * second)%Z.

Definition loadString (env : string -> string) (key fallback : string) : string :=
  let v := TrimSpace (env key) in if decide (v = "") then fallback else v.
Definition loadDuration (ParseDuration : string -> option Z) (env : string -> string) (key : string) (fallback : Z) : Z :=
  let v := TrimSpace (env key) in
  if decide (v = "") then fallback else
  match ParseDuration v with Some d => if decide (d <= 0)%Z then fallback else d | None => fallback end.

(** [strconv.ParseBool] *)
Definition ParseBool (s : string) : option bool :=
  if decide (s ∈ ["1"; "t"; "T"; "true"; "TRUE"; "True"]) then Some true
  else if decide (s ∈ ["0"; "f"; "F"; "false"; "FALSE"; "False"]) then Some false else None.
Definition loadBool (env : string -> string) (key : string) (fallback : bool) : bool :=
  let v := TrimSpace (env key) in if decide (v = "") then fallback else default fallback (ParseBool v).

Definition LoadCacheConfig (ParseDuration : string -> option Z) (env : string -> string) : CacheConfig :=
  let dur := loadDuration ParseDuration env in
  MkCacheConfig (loadBool env "VALIDATION_CACHE_ENABLED" true)
    (loadString env "VALIDATION_CACHE_REDIS_URL" "redis://localhost:6379/0")
    (loadString env "VALIDATION_CACHE_KEY_PREFIX" "cicd")
    (dur "VALIDATION_CACHE_VALIDATE_TTL" (10 * minute)%Z) (dur "VALIDATION_CACHE_DRYRUN_TTL" (5 * minute)%Z)
    (dur "VALIDATION_CACHE_DIAL_TIMEOUT" (2 * second)%Z) (dur "VALIDATION_CACHE_READ_TIMEOUT" (500 * millisecond)%Z)
    (dur "VALIDATION_CACHE_WRITE_TIMEOUT" (500 * millisecond)%Z).

(** ** The service (service.go) *)

Section service.
Context {S : Type} {CS : CacheStore S}.
Context (yaml_Unmarshal : string -> res yaml_node) (os_ReadFile : string -> res string).
Context (error_text : goerr -> string) (verify_order : graph -> list string) (plan_orders : Pipeline -> nat -> list string).
Context (cacheCfg : CacheConfig).

(** The pipeline, or what is wrong with the content. *)
Definition validatePipelineContent (yamlContent : string) : go (Pipeline + list string) :=
  r ← Parse yaml_Unmarshal os_ReadFile (NewParserFromContent yamlContent);
  match r with
  | inr e => Ret (inr [error_text e])
  | inl (pipeline, rootNode) =>
    errors ← Verify (verify_order (needsGraph (Pipeline_Jobs pipeline))) (NewPipelineVerifier "content" pipeline rootNode);
    Ret (match errors with [] => inl pipeline | _ => inr (Error <$> errors) end)
  end.

Definition computeValidate (yamlContent : string) : go ValidateResponse :=
  r ← validatePipelineContent yamlContent;
  Ret (match r with
       | inl _ => MkValidateResponse true []
       | inr errs => MkValidateResponse (bool_decide (errs = [])) errs
       end).

Definition ValidateYAML (req : ValidateRequest) (s : S) : go (S * ValidateResponse) :=
  let key := ValidateKey (KeyPrefix cacheCfg) (VReq_PipelinePath req) (VReq_Commit req) in
  let '(s1, got) := Get key s in
  let compute :=
    response ← computeValidate (VReq_YAMLContent req);
    let '(s2, _) := Put key (JValidate response) (ValidateTTL cacheCfg) s1 in Ret (s2, response) in
  match got with
  | inl v => match unmarshal_validate v with Some response => Ret (s1, response) | None => compute end
  | inr _ => compute
  end.

(** [None]: the planner ran out of fuel, which it does not. *)
Definition computeDryRun (yamlContent : string) : go (option (DryRunResponse * bool)) :=
  r ← validatePipelineContent yamlContent;
  Ret (match r with
       | inr errs =>
         match errs with
         | [] => None
         | _ => Some (MkDryRunResponse false errs None, false)
         end
       | inl pipeline =>
         plan ← GenerateExecutionPlan (plan_orders pipeline) pipeline;
         Some (MkDryRunResponse true [] (Some plan), true)
       end).

Definition DryRunYAML (req : ValidateRequest) (s : S) : go (option (S * DryRunResponse)) :=
  let key := DryRunKey (KeyPrefix cacheCfg) (VReq_PipelinePath req) (VReq_Commit req) in
  let '(s1, got) := Get key s in
  let compute :=
    o ← computeDryRun (VReq_YAMLContent req);
    Ret (match o with
         | None => None
         | Some (response, false) => Some (s1, response)
         | Some (response, true) =>
           let '(s2, _) := Put key (JDryRun response) (DryRunTTL cacheCfg) s1 in Some (s2, response)
         end) in
  match got with
  | inl v => match unmarshal_dryrun v with Some response => Ret (Some (s1, response)) | None => compute end
  | inr _ => compute
  end.

(** ** The handlers (handler.go) *)

Definition handleValidate (r : http_request ValidateRequest) (s : S) : go (S * http_response ValidateResponse) :=
  match decodeBody error_text r with
  | inr refused => Ret (s, refused)
  | inl req => o ← ValidateYAML req s; Ret (o.1, WriteJSON 200 o.2)
  end.

Definition handleDryRun (r : http_request ValidateRequest) (s : S) : go (option (S * http_response DryRunResponse)) :=
  match decodeBody error_text r with
  | inr refused => Ret (Some (s, refused))
  | inl req => o ← DryRunYAML req s; Ret ('(s', resp) ← o; Some (s', WriteJSON 200 resp))
  end.

(** ** The orchestrator's client (orchestrator/validation.go) *)

Definition validatePipeline (outcome : http_outcome ValidateResponse) : res unit :=
  match outcome with
  | HttpError e => err (ErrWrap "failed to call validation service: %w" [] e)
  | HttpBadBody e => err (ErrWrap "failed to decode validation response: %w" [] e)
  | HttpResponse status resp =>
    if decide (status ≠ 200%Z) then
      let errors := match VResp_Errors resp with
                    | [] => ["validation service returned status " +++ Itoa status]
                    | es => es end in
      err (ErrNew "validation service returned status %d: %w" (Itoa status :: errors))
    else if VResp_Valid resp then ok tt
    else err (ErrNew "validation failed: %w" (VResp_Errors resp))
  end.

(** The orchestrator's request carries the content alone. *)
Definition orchestratorRequest (yamlContent : string) : ValidateRequest := MkValidateRequest yamlContent "" "".

(** The exchange with the validation service when the network delivers it; an
    error body has neither field of [ValidateResponse]. *)
Definition callValidation (yamlContent : string) (s : S) : go (S * http_outcome ValidateResponse) :=
  o ← handleValidate (POST (orchestratorRequest yamlContent)) s;
  Ret (o.1, HttpResponse (StatusCode o.2)
              (match RespBody o.2 with inl resp => resp | inr _ => MkValidateResponse false [] end)).

(** [prepareRun] over any way the call of the validation service can go. *)
Definition prepareRun {T} (call : string -> T -> go (T * http_outcome ValidateResponse)) (yamlContent : string) (t : T)
    : go (T * res (Pipeline * ExecutionPlan)) :=
  if decide (TrimSpace yamlContent = "") then Ret (t, err (ErrNew "pipeline content can not be empty" [])) else
  o ← call yamlContent t;
  match validatePipeline o.2 with
  | inr e => Ret (o.1, err (ErrWrap "validate pipeline failed: %w" [] e))
  | inl _ =>
    r ← Parse yaml_Unmarshal os_ReadFile (NewParserFromContent yamlContent);
    Ret (o.1, match r with
         | inr e => err (ErrWrap "pipeline parse failed: %w" [] e)
         | inl (pipeline, _) =>
           match GenerateExecutionPlan (plan_orders pipeline) pipeline with
           | Some plan => ok (pipeline, plan)
           | None => err (ErrIs "planner out of fuel")
           end
         end)
  end.

(** ** Without the cache, and with a cache that remembers *)

Definition accepted (p : Pipeline) (n : yaml_node) : Prop :=
  let v := NewPipelineVerifier "content" p n in
  checkYAMLTypes v = Ret [] /\
  (exists ns, GetJobNodes n = Ret ns /\ validateJobs v ns = Ret []) /\
  valid_pipeline p.

(** What the parameters stand for: yaml.v3 builds mappings of key/value pairs,
    and a Go map is iterated in some order over its keys. *)
Record environment_ok : Prop := {
  env_yaml : forall data n, yaml_Unmarshal data = ok n -> wf_node n;
  env_verify : forall g, iteration_order g (verify_order g);
  env_plan : forall p, legal_orders (plan_orders p) p;
}.

Lemma validatePipelineContent_decides yamlContent : environment_ok ->
  exists r o, Parse yaml_Unmarshal os_ReadFile (NewParserFromContent yamlContent) = Ret r /\
    validatePipelineContent yamlContent = Ret o /\ o ≠ inr [] /\
    forall p, o = inl p <-> exists n, r = ok (p, n) /\ accepted p n.
Proof.
  intros [Hy Hv Hp]. destruct (Parse_returns yaml_Unmarshal os_ReadFile (NewParserFromContent yamlContent) Hy)
    as (r & E & Hwf). unfold validatePipelineContent. rewrite E. cbn [mbind go_bind].
  destruct r as [[p n]|e]; [|eexists _, _; split; [done|]; split; [done|]; split; [done|naive_solver]].
  destruct (Verify_decides (verify_order (needsGraph (Pipeline_Jobs p))) (NewPipelineVerifier "content" p n))
    as (errs & Ev & Herrs); [by eapply Hwf|apply Hv|].
  rewrite Ev. cbn [mbind go_bind]. change (errs = [] <-> accepted p n) in Herrs.
  eexists _, _. split; [done|]. split; [done|]. destruct errs as [|e errs]; split; try done; intros p'.
  - split; [|by intros (n' & [= <- <-] & _)]. intros [= <-]. exists n. naive_solver.
  - split; [done|]. by intros (n' & [= <- <-] & Ha%Herrs).
Qed.

Lemma computeValidate_decides yamlContent : environment_ok ->
  exists r resp, Parse yaml_Unmarshal os_ReadFile (NewParserFromContent yamlContent) = Ret r /\
    computeValidate yamlContent = Ret resp /\
    (VResp_Valid resp = true <-> exists p n, r = ok (p, n) /\ accepted p n).
Proof.
  intros Henv. destruct (validatePipelineContent_decides yamlContent Henv) as (r & o & Er & Eo & Hne & Ho).
  unfold computeValidate. rewrite Eo. cbn [mbind go_bind]. eexists _, _. split_and!; [done|done|].
  destruct o as [p|errs].
  - split; [intros _|done]. exists p. by apply Ho.
  - cbn [VResp_Valid]. rewrite bool_decide_eq_true. split; [by intros ->|].
    intros (p & n & Hr). assert (inr errs = inl p) as [=]. apply Ho. by exists n.
Qed.

Lemma plan_exists p : environment_ok -> valid_pipeline p ->
  exists plan, GenerateExecutionPlan (plan_orders p) p = Some plan.
Proof.
  intros Henv Hv. destruct (planStages_spec (plan_orders p) p Hv (Pipeline_Stages p) 0) as (sps & E & _).
  { intros k stage Hk. by apply (env_plan Henv). }
  unfold GenerateExecutionPlan. rewrite E. by eexists.
Qed.

Lemma computeDryRun_returns yamlContent : environment_ok -> exists a b, computeDryRun yamlContent = Ret (Some (a, b)).
Proof.
  intros Henv. destruct (validatePipelineContent_decides yamlContent Henv) as (r & o & _ & Eo & Hne & Ho).
  unfold computeDryRun. rewrite Eo. cbn [mbind go_bind]. destruct o as [p|[|e errs]]; [|done|by eexists _, _].
  destruct (proj1 (Ho p) eq_refl) as (n & _ & Ha). destruct (plan_exists p Henv) as [plan ->]; [apply Ha|]. by eexists _, _.
Qed.

(** A store that answers with what it was last given. *)
Definition remembers (s : S) : Prop := forall k v ttl, Get k (Put k v ttl s).1 = ((Put k v ttl s).1, ok v).

(** A validation that was cached answers for every other pipeline: the key of
    the orchestrator's requests does not depend on their content, so once one
    pipeline was found valid, any later one that parses and plans is run,
    whatever the verifier would say about it. *)
Theorem cached_validation_answers_for_others good other s s1 p n plan :
  remembers s1 ->
  Get (ValidateKey (KeyPrefix cacheCfg) "" "") s = (s1, err ErrCacheMiss) ->
  computeValidate good = Ret (MkValidateResponse true []) ->
  TrimSpace other ≠ "" ->
  Parse yaml_Unmarshal os_ReadFile (NewParserFromContent other) = Ret (ok (p, n)) ->
  GenerateExecutionPlan (plan_orders p) p = Some plan ->
  exists s', callValidation good s = Ret (s', HttpResponse 200 (MkValidateResponse true [])) /\
    prepareRun callValidation other s' = Ret (s', ok (p, plan)).
Proof.
  intros Hmem Hmiss Hgood Hother Hparse Hplan.
  set (key := ValidateKey (KeyPrefix cacheCfg) "" "") in *.
  pose proof (Hmem key (JValidate (MkValidateResponse true [])) (ValidateTTL cacheCfg)) as Hget.
  exists (Put key (JValidate (MkValidateResponse true [])) (ValidateTTL cacheCfg) s1).1. split.
  - unfold callValidation, handleValidate. rewrite decodeBody_POST. unfold ValidateYAML. cbn [VReq_YAMLContent
      VReq_PipelinePath VReq_Commit orchestratorRequest]. fold key. rewrite Hmiss, Hgood. cbn [mbind go_bind err].
    by destruct (Put key _ _ s1) as [s2 o].
  - unfold prepareRun. rewrite decide_False by done. unfold callValidation, handleValidate.
    rewrite decodeBody_POST. unfold ValidateYAML. cbn [VReq_YAMLContent VReq_PipelinePath VReq_Commit
      orchestratorRequest]. fold key. rewrite Hget. cbn [mbind go_bind ok unmarshal_validate]. cbn.
    rewrite Hparse. cbn. by rewrite Hplan.
Qed.

End service.

(** ** Transparency *)

Section transparency.
Context {S : Type} {CS : CacheStore S}.
Context (yaml_Unmarshal : string -> res yaml_node) (os_ReadFile : string -> res string).
Context (error_text : goerr -> string) (cacheCfg : CacheConfig).

(** The orders in which the maps of one request are iterated. *)
Record orders := MkOrders { verify_orders : graph -> list string; planning_orders : Pipeline -> nat -> list string }.
Definition legal (o : orders) : Prop := environment_ok yaml_Unmarshal (verify_orders o) (planning_orders o).

(** The requests that the cache serves, and their answers. *)
Inductive cache_request := Validates (req : ValidateRequest) | DryRuns (req : ValidateRequest).
Inductive cache_answer := Validated (r : ValidateResponse) | DryRan (r : DryRunResponse).
Definition request_of (r : cache_request) : ValidateRequest := match r with Validates req | DryRuns req => req end.

Definition serve (o : orders) (r : cache_request) (s : S) : go (option (S * cache_answer)) :=
  match r with
  | Validates req =>
    x ← ValidateYAML yaml_Unmarshal os_ReadFile error_text (verify_orders o) cacheCfg req s; Ret (Some (x.1, Validated x.2))
  | DryRuns req =>
    x ← DryRunYAML yaml_Unmarshal os_ReadFile error_text (verify_orders o) (planning_orders o) cacheCfg req s;
    Ret ('(s', d) ← x; Some (s', DryRan d))
  end.
Fixpoint serve_all (l : list (orders * cache_request)) (s : S) : go (option (S * list cache_answer)) :=
  match l with
  | [] => Ret (Some (s, []))
  | (o, r) :: l' =>
    x ← serve o r s;
    match x with
    | None => Ret None
    | Some (s1, a) => y ← serve_all l' s1; Ret ('(s', answers) ← y; Some (s', a :: answers))
    end
  end.

(** What the content of a request yields without a cache, for some orders of the maps. *)
Definition yields (yamlContent : string) (a : cache_answer) : Prop :=
  exists o, legal o /\
  match a with
  | Validated r => computeValidate yaml_Unmarshal os_ReadFile error_text (verify_orders o) yamlContent = Ret r
  | DryRan r => exists kept, computeDryRun yaml_Unmarshal os_ReadFile error_text (verify_orders o) (planning_orders o) yamlContent = Ret (Some (r, kept))
  end.

(** [content path commit] is the YAML at [path] in [commit]; both are trimmed, and
    there is no colon in a commit. *)
Context (content : string -> string -> string).
Definition content_of (path commit : string) : string := content (TrimSpace path) (TrimSpace commit).
Definition a_commit (commit : string) : Prop := ":"%char ∉ chars (TrimSpace commit).
Definition determined (r : cache_request) : Prop :=
  let req := request_of r in
  a_commit (VReq_Commit req) /\ VReq_YAMLContent req = content_of (VReq_PipelinePath req) (VReq_Commit req).

(** What the cache holds is what the content yields. *)
Definition cache_ok (s : S) : Prop :=
  forall path commit v, a_commit commit ->
    (holds s (ValidateKey (KeyPrefix cacheCfg) path commit) v ->
       exists r, v = JValidate r /\ yields (content_of path commit) (Validated r)) /\
    (holds s (DryRunKey (KeyPrefix cacheCfg) path commit) v ->
       exists r, v = JDryRun r /\ yields (content_of path commit) (DryRan r)).

Lemma buildKey_inj prefix namespace path commit path' commit' :
  a_commit commit -> a_commit commit' ->
  buildKey prefix namespace path commit = buildKey prefix namespace path' commit' ->
  TrimSpace path = TrimSpace path' /\ TrimSpace commit = TrimSpace commit'.
Proof.
  intros H H' E. assert (E' : TrimSpace commit +++ ":" +++ TrimSpace path = TrimSpace commit' +++ ":" +++ TrimSpace path').
  { unfold buildKey in E. case_decide; repeat (apply append_inj_l in E); exact E. }
  change (":" +++ ?s) with (String ":"%char s) in E'. by destruct (sep_first_inj _ _ _ _ _ H H' E') as [-> ->].
Qed.

Lemma namespaces_apart prefix path commit path' commit' :
  ValidateKey prefix path commit ≠ DryRunKey prefix path' commit'.
Proof. unfold ValidateKey, DryRunKey, buildKey. case_decide; intros E; repeat (apply append_inj_l in E); discriminate. Qed.

Lemma same_content r prefix namespace path commit : determined r -> a_commit commit ->
  buildKey prefix namespace path commit = buildKey prefix namespace (VReq_PipelinePath (request_of r)) (VReq_Commit (request_of r)) ->
  content_of path commit = VReq_YAMLContent (request_of r).
Proof.
  intros [Hc ->] Hcommit E. unfold content_of. by destruct (buildKey_inj _ _ _ _ _ _ Hcommit Hc E) as [-> ->].
Qed.

(** What was put under the key of a request is there under that key alone. *)
Lemma put_validate_ok req s r ttl :
  cache_ok s -> determined (Validates req) -> yields (VReq_YAMLContent req) (Validated r) ->
  cache_ok (Put (ValidateKey (KeyPrefix cacheCfg) (VReq_PipelinePath req) (VReq_Commit req)) (JValidate r) ttl s).1.
Proof.
  intros Hok Hr Hy path commit v Hcommit. split; intros [Hv|[Ek ->]]%Put_keeps; try by apply (Hok path commit v Hcommit).
  - exists r. split; [done|]. by rewrite (same_content (Validates req) _ _ _ _ Hr Hcommit Ek).
  - symmetry in Ek. by apply namespaces_apart in Ek.
Qed.
Lemma put_dryrun_ok req s r ttl :
  cache_ok s -> determined (DryRuns req) -> yields (VReq_YAMLContent req) (DryRan r) ->
  cache_ok (Put (DryRunKey (KeyPrefix cacheCfg) (VReq_PipelinePath req) (VReq_Commit req)) (JDryRun r) ttl s).1.
Proof.
  intros Hok Hr Hy path commit v Hcommit. split; intros [Hv|[Ek ->]]%Put_keeps; try by apply (Hok path commit v Hcommit).
  - by apply namespaces_apart in Ek.
  - exists r. split; [done|]. by rewrite (same_content (DryRuns req) _ _ _ _ Hr Hcommit Ek).
Qed.
Lemma get_ok k s : cache_ok s -> cache_ok (Get k s).1.
Proof. intros Hok path commit v Hc. split; intros Hv%Get_keeps; by apply (Hok path commit v Hc). Qed.

Lemma serve_ok o r s : legal o -> determined r -> cache_ok s ->
  exists s' a, serve o r s = Ret (Some (s', a)) /\ yields (VReq_YAMLContent (request_of r)) a /\ cache_ok s'.
Proof.
  intros Ho Hr Hok. pose proof Hr as [Hc Hreq]. destruct r as [req|req]; cbn [request_of] in *.
  - unfold serve, ValidateYAML. set (key := ValidateKey _ _ _).
    pose proof (get_ok key s Hok) as Hok1. pose proof (Get_sound key s) as Hsound. destruct (Get key s) as [s1 got].
    destruct (computeValidate_decides yaml_Unmarshal os_ReadFile error_text (verify_orders o) (planning_orders o) (VReq_YAMLContent req) Ho)
      as (_ & r & _ & Er & _).
    assert (Hy : yields (VReq_YAMLContent req) (Validated r)) by (by exists o).
    assert (Hmiss : exists s' a, (x ← (response ← computeValidate yaml_Unmarshal os_ReadFile error_text (verify_orders o) (VReq_YAMLContent req);
        let '(s2, _) := Put key (JValidate response) (ValidateTTL cacheCfg) s1 in Ret (s2, response)); Ret (Some (x.1, Validated x.2)))
        = Ret (Some (s', a)) /\ yields (VReq_YAMLContent req) a /\ cache_ok s').
    { rewrite Er. cbn [mbind go_bind]. pose proof (put_validate_ok req s1 r (ValidateTTL cacheCfg) Hok1 Hr Hy) as Hok2. fold key in Hok2.
      destruct (Put key (JValidate r) (ValidateTTL cacheCfg) s1) as [s2 e]. by exists s2, (Validated r). }
    destruct got as [v|e]; [|exact Hmiss].
    destruct (proj1 (Hok (VReq_PipelinePath req) (VReq_Commit req) v Hc) (Hsound _ _ eq_refl)) as (r' & -> & Hy').
    exists s1, (Validated r'). split; [done|]. by rewrite Hreq.
  - unfold serve, DryRunYAML. set (key := DryRunKey _ _ _).
    pose proof (get_ok key s Hok) as Hok1. pose proof (Get_sound key s) as Hsound. destruct (Get key s) as [s1 got].
    destruct (computeDryRun_returns yaml_Unmarshal os_ReadFile error_text (verify_orders o) (planning_orders o) (VReq_YAMLContent req) Ho)
      as (r & kept & Er).
    assert (Hy : yields (VReq_YAMLContent req) (DryRan r)) by (exists o; eauto).
    assert (Hmiss : exists s' a, (x ← (o ← computeDryRun yaml_Unmarshal os_ReadFile error_text (verify_orders o) (planning_orders o) (VReq_YAMLContent req);
        Ret (match o with
             | None => None
             | Some (response, false) => Some (s1, response)
             | Some (response, true) => let '(s2, _) := Put key (JDryRun response) (DryRunTTL cacheCfg) s1 in Some (s2, response)
             end)); Ret ('(s', d) ← x; Some (s', DryRan d))) = Ret (Some (s', a)) /\ yields (VReq_YAMLContent req) a /\ cache_ok s').
    { rewrite Er. cbn [mbind go_bind]. destruct kept; [|by exists s1, (DryRan r)].
      pose proof (put_dryrun_ok req s1 r (DryRunTTL cacheCfg) Hok1 Hr Hy) as Hok2. fold key in Hok2.
      destruct (Put key (JDryRun r) (DryRunTTL cacheCfg) s1) as [s2 e]. by exists s2, (DryRan r). }
    destruct got as [v|e]; [|exact Hmiss].
    destruct (proj2 (Hok (VReq_PipelinePath req) (VReq_Commit req) v Hc) (Hsound _ _ eq_refl)) as (r' & -> & Hy').
    exists s1, (DryRan r'). split; [done|]. by rewrite Hreq.
Qed.

(** C37: the cache is transparent to requests whose path and commit, trimmed,
    determine their content, with no colon in a commit (the key joins the two with a
    colon, so that otherwise two pairs can share it). Whatever validations and dry
    runs are asked for, in whatever order, over a cache that holds only answers of
    this kind, such as an empty one, and whatever the store forgets or fails to do:
    each is answered, with what its own content yields without a cache for some order
    in which the verifier and the planner iterate over their maps; and the cache
    keeps holding only such answers. *)
Theorem cache_transparent l s :
  Forall (fun x => legal x.1 /\ determined x.2) l -> cache_ok s ->
  exists s' answers, serve_all l s = Ret (Some (s', answers)) /\
    Forall2 (fun x a => yields (VReq_YAMLContent (request_of x.2)) a) l answers /\ cache_ok s'.
Proof.
  intros Hl. revert s. induction Hl as [|[o r] l [Ho Hr] _ IH]; intros s Hok; [by exists s, []|].
  destruct (serve_ok o r s Ho Hr Hok) as (s1 & a & E1 & Ha & Hok1).
  destruct (IH s1 Hok1) as (s' & answers & E2 & Hall & Hok'). exists s', (a :: answers).
  cbn [serve_all]. rewrite E1. cbn [mbind go_bind]. rewrite E2. cbn [mbind go_bind option_bind]. split; [done|]. by split; [constructor|].
Qed.

(** With a colon in a commit two pairs of a path and a commit share a key. *)
Lemma keys_collide prefix namespace : buildKey prefix namespace "c" "a:b" = buildKey prefix namespace "b:c" "a".
Proof. unfold buildKey. by case_decide. Qed.
End transparency.

Section uncached.
Context (yaml_Unmarshal : string -> res yaml_node) (os_ReadFile : string -> res string).
Context (error_text : goerr -> string) (verify_order : graph -> list string) (plan_orders : Pipeline -> nat -> list string).
Context (cacheCfg : CacheConfig).

Definition describes (content : string) (p : Pipeline) : Prop :=
  exists n, Parse yaml_Unmarshal os_ReadFile (NewParserFromContent content) = Ret (ok (p, n)) /\ accepted p n.

Lemma prepareRun_decides content :
  environment_ok yaml_Unmarshal verify_order plan_orders ->
  TrimSpace content ≠ "" ->
  exists r, prepareRun yaml_Unmarshal os_ReadFile plan_orders
      (callValidation (S := NoopStore) yaml_Unmarshal os_ReadFile error_text verify_order cacheCfg) content NewNoopStore
      = Ret (NewNoopStore, r) /\
    match r with
    | inl (p, plan) => describes content p /\ GenerateExecutionPlan (plan_orders p) p = Some plan
    | inr _ => forall p, ~ describes content p
    end.
Proof.
  intros Henv Hne. unfold prepareRun. rewrite decide_False by done.
  destruct (computeValidate_decides yaml_Unmarshal os_ReadFile error_text verify_order plan_orders content Henv)
    as (r & resp & Er & Ec & Hvalid).
  unfold callValidation, handleValidate, ValidateYAML. rewrite decodeBody_POST.
  cbn [Get noop_CacheStore err VReq_YAMLContent orchestratorRequest]. rewrite Ec, Er.
  cbn [mbind go_bind Put noop_CacheStore fst snd WriteJSON StatusCode RespBody validatePipeline].
  rewrite decide_False by naive_solver.
  destruct (VResp_Valid resp) eqn:Ev.
  - destruct (proj1 Hvalid eq_refl) as (p & n & -> & Ha).
    destruct (plan_exists yaml_Unmarshal verify_order plan_orders p Henv) as [plan Hplan]; [by apply Ha|].
    cbn. rewrite Hplan. eexists. split; [done|]. split; [|done]. by exists n.
  - eexists. split; [done|]. intros p (n & E & Ha). rewrite Er in E. injection E as ->.
    cut (false = true); [done|]. apply Hvalid. eauto.
Qed.

(** C26: without the cache a run is prepared exactly for valid pipelines.
    [prepareRun] never panics. For content that is not blank and an exchange with the
    validation service that the network delivers, it succeeds exactly when the
    content parses, its types are right as the verifier takes them (Typing: a
    [pipeline] mapping with a name is required, image and script of a job are not)
    and its pipeline is valid, and then it returns that pipeline and its plan. Blank
    content, a service that cannot be reached, and an answer that does not decode are
    errors. *)
Theorem prepareRun_without_cache content :
  environment_ok yaml_Unmarshal verify_order plan_orders ->
  (TrimSpace content ≠ "" ->
   exists r, prepareRun yaml_Unmarshal os_ReadFile plan_orders
       (callValidation (S := NoopStore) yaml_Unmarshal os_ReadFile error_text verify_order cacheCfg) content NewNoopStore
       = Ret (NewNoopStore, r) /\
     forall p, (exists plan, r = ok (p, plan) /\ GenerateExecutionPlan (plan_orders p) p = Some plan) <-> describes content p) /\
  (forall (T : Type) (call : string -> T -> go (T * http_outcome ValidateResponse)) t t' outcome,
     TrimSpace content = "" \/ call content t = Ret (t', outcome) /\ (forall status resp, outcome ≠ HttpResponse status resp) ->
     exists t1 e, prepareRun yaml_Unmarshal os_ReadFile plan_orders call content t = Ret (t1, err e)).
Proof.
  intros Henv. split.
  - intros Hne. destruct (prepareRun_decides content Henv Hne) as (r & E & Hr). exists r. split; [done|].
    intros p. destruct r as [[p' plan]|e]; [|split; [by intros (? & ? & _)|by intros ?%Hr]].
    destruct Hr as [Hd Hplan]. split; [by intros (plan' & [= <- <-] & _)|].
    destruct Hd as (n & Ep & _). intros (n' & Ep' & _). rewrite Ep in Ep'. injection Ep' as <- <-. by exists plan.
  - intros T call t t' outcome H. unfold prepareRun. case_decide as Hb; [by eexists _, _|]. destruct H as [?|[E Ho]]; [done|].
    rewrite E. cbn [mbind go_bind fst snd]. destruct outcome as [e|e|status resp]; cbn [validatePipeline]; [by eexists _, _..|by destruct (Ho status resp)].
Qed.
End uncached.

(** ** Witnesses *)

(** An in-memory Redis. *)
#[refine] Instance mem_RedisClient : RedisClient (gmap string payload) := {|
  redis_Get k m := (m, match m !! k with Some v => ok v | None => err (ErrIs "redis: nil") end);
  redis_Set k v _ m := (<[k := v]> m, ok tt);
  redis_holds m k v := m !! k = Some v;
|}.
Proof.
  - intros k m m' v [= <- E]. by destruct (m !! k); simplify_eq.
  - done.
  - intros k v ttl m k' v'. simpl. rewrite lookup_insert_Some. naive_solver.
Defined.

Definition demo_yaml (data : string) : res yaml_node :=
  if decide (data = "good") then ok (render demo_pipeline)
  else if decide (data = "cyclic") then ok (render cyclic_pipeline) else err (ErrNew "yaml" []).
Definition no_file (_ : string) : res string := err (ErrNew "no file" []).
Definition no_text (_ : goerr) : string := "error".
Definition keys_order (g : graph) : list string := (map_to_list g).*1.
Definition keys_orders (p : Pipeline) (i : nat) : list string :=
  match Pipeline_Stages p !! i with
  | Some stage => (map_to_list (buildInDegree (jobsForStage (Stage_Name stage) p))).*1
  | None => []
  end.
Definition demo_cfg : CacheConfig := LoadCacheConfig (fun _ => None) (fun _ => "").

Lemma demo_environment : environment_ok demo_yaml keys_order keys_orders.
Proof.
  split.
  - intros data n. unfold demo_yaml. repeat case_decide; intros [= <-]; apply wf_render.
  - intros g. by unfold iteration_order.
  - intros p i stage Hs. unfold keys_orders, iteration_order. by rewrite Hs.
Qed.

Lemma prepareRun_without_cache_witness :
  let prepare := prepareRun demo_yaml no_file keys_orders
    (callValidation (S := NoopStore) demo_yaml no_file no_text keys_order demo_cfg) in
  (exists r, prepare "cyclic" NewNoopStore = Ret (NewNoopStore, r) /\ forall p,
    (exists plan, r = ok (p, plan) /\ GenerateExecutionPlan (keys_orders p) p = Some plan) <->
    (exists n, Parse demo_yaml no_file (NewParserFromContent "cyclic") = Ret (ok (p, n)) /\ accepted p n)) /\
  ~ accepted cyclic_pipeline (render cyclic_pipeline).
Proof.
  intros prepare. split.
  - apply (proj1 (prepareRun_without_cache demo_yaml no_file no_text keys_order keys_orders demo_cfg "cyclic" demo_environment)).
    discriminate.
  - intros (_ & _ & Hv). apply (vp_acyclic _ Hv "a").
    apply tc_l with "b"; [|apply tc_once].
    + exists (MkJob "a" "s" "" [] ["b"] false). split_and!; [left|done|left].
    + exists (MkJob "b" "s" "" [] ["a"] false). split_and!; [right; left|done|left].
Defined.

Lemma cached_validation_answers_for_others_witness :
  exists plan s', 
    callValidation demo_yaml no_file no_text keys_order demo_cfg "good" (Some ∅ : RedisStore (S := gmap string payload))
      = Ret (s', HttpResponse 200 (MkValidateResponse true [])) /\
    prepareRun demo_yaml no_file keys_orders
      (callValidation demo_yaml no_file no_text keys_order demo_cfg) "cyclic" s' = Ret (s', ok (cyclic_pipeline, plan)).
Proof.
  eexists.
  apply (cached_validation_answers_for_others demo_yaml no_file no_text keys_order keys_orders demo_cfg
    "good" "cyclic" (Some ∅) (Some ∅) cyclic_pipeline (render cyclic_pipeline)).
  - intros k v ttl. simpl. by rewrite lookup_insert_eq.
  - vm_compute. reflexivity.
  - vm_compute. reflexivity.
  - discriminate.
  - vm_compute. reflexivity.
  - vm_compute. reflexivity.
Defined.

(** Two pipelines of one commit, validated, dry-run and validated again. *)
Definition demo_content (path commit : string) : string := if decide (path = "bad.yaml") then "cyclic" else "good".
Definition demo_requests : list (orders * cache_request) :=
  (fun r => (MkOrders keys_order keys_orders, r)) <$>
    [Validates (MkValidateRequest "cyclic" "abc123" "bad.yaml"); Validates (MkValidateRequest "good" "abc123" " good.yaml");
     DryRuns (MkValidateRequest "good" "abc123" "good.yaml"); DryRuns (MkValidateRequest "cyclic" "abc123" "bad.yaml");
     Validates (MkValidateRequest "cyclic" " abc123" "bad.yaml"); DryRuns (MkValidateRequest "good" "abc123" "good.yaml")].

Lemma cache_transparent_witness :
  exists s' answers,
    serve_all demo_yaml no_file no_text demo_cfg demo_requests (Some ∅ : RedisStore (S := gmap string payload)) = Ret (Some (s', answers)) /\
    Forall2 (fun x a => yields demo_yaml no_file no_text (VReq_YAMLContent (request_of x.2)) a) demo_requests answers.
Proof.
  destruct (cache_transparent demo_yaml no_file no_text demo_cfg demo_content demo_requests (Some ∅ : RedisStore (S := gmap string payload)))
    as (s' & answers & E & H & _).
  - apply Forall_fmap. repeat (apply Forall_cons; split; [split; [apply demo_environment|split; [apply (bool_decide_unpack _); vm_compute; exact I|reflexivity]]|]).
    constructor.
  - intros path commit v _. split; intros []%lookup_empty_Some.
  - exists s', answers. split; [exact E|exact H].
Defined.
