(* ===== verification/Startup.v ===== *)
(** * Start-up and shutdown of the services
    (store/store.go, cache/redis_store.go, services/*/service.go and handler.go)

    The orchestrator opens the store and then its publishers; the reporting
    service the store alone; the validation service a cache client, which
    connects on first use. Theorem: closing an orchestrator that came up leaves
    nothing open, but one whose publishers do not come up leaves its store's
    connections open. *)

From S2P Require Import Prelude GoStrings Models Mq Connections Http Validation.

(** ** The store (store.go) *)

Definition store_New (open ping : option goerr) : traced resource_action unit :=
  match open with
  | Some e => ([], err e)
  | None => match ping with
            | Some e => ([Opened RStore; Closed RStore], err e)
            | None => ([Opened RStore], ok tt)
            end
  end.
Definition store_Close (db : bool) : list resource_action := if db then [Closed RStore] else [].
Definition store_Ping (ping : option goerr) : res unit := match ping with Some e => err e | None => ok tt end.

(** The store at [DATABASE_URL], as both services open it. *)
Definition open_store (env : string -> string) (open : string -> option goerr) (ping : option goerr) : traced resource_action unit :=
  let connURL := TrimSpace (env "DATABASE_URL") in
  if decide (connURL = "") then ([], err (ErrNew "DATABASE_URL is required" [])) else
  match store_New (open connURL) ping with
  | (tr, inr e) => (tr, err (ErrWrap "failed to connect report store: %w" [] e))
  | o => o
  end.

(** ** The reporting service *)

Definition reporting_NewService := open_store.

(** [Ping] of a service whose store may be nil. *)
Definition reporting_Ping (store : option (res unit)) : res unit :=
  match store with None => err (ErrNew "store is not initialized" []) | Some r => r end.
Definition reporting_handleReady {A} (store : option (res unit)) (r : http_request A) : http_response StatusResponse :=
  if decide (Method r ≠ "GET") then WriteError 405 "method_not_allowed" (StatusText 405) else
  match reporting_Ping store with
  | inr _ => WriteError 503 "service_unready" (StatusText 503)
  | inl _ => WriteJSON 200 (MkStatusResponse "ready")
  end.

(** ** The validation service *)

(** The connection options of the cache; those of the client's URL unless set. *)
Record redis_options := MkRedisOptions { o_dial : Z; o_read : Z; o_write : Z }.

Definition NewRedisStore (ParseURL : string -> res redis_options) (cfg : CacheConfig) : res redis_options :=
  match ParseURL (RedisURL cfg) with
  | inr e => err (ErrWrap "parse redis url: %w" [] e)
  | inl opts =>
    let pick (set default : Z) := if decide (0 < set)%Z then set else default in
    ok (MkRedisOptions (pick (DialTimeout cfg) (o_dial opts)) (pick (ReadTimeout cfg) (o_read opts)) (pick (WriteTimeout cfg) (o_write opts)))
  end.

(** [None] is the no-op store. *)
Definition NewStoreFromConfig (ParseURL : string -> res redis_options) (cfg : CacheConfig) : res (option redis_options) :=
  if negb (Enabled cfg) then ok None else
  match NewRedisStore ParseURL cfg with inr e => err e | inl o => ok (Some o) end.

Definition validation_NewService (ParseURL : string -> res redis_options) (ParseDuration : string -> option Z) (env : string -> string)
    : res (CacheConfig * option redis_options) :=
  let cfg := LoadCacheConfig ParseDuration env in
  match NewStoreFromConfig ParseURL cfg with
  | inr e => err (ErrWrap "initialize cache store: %w" [] e)
  | inl store => ok (cfg, store)
  end.

Definition validation_handleReady {A} (r : http_request A) : http_response StatusResponse :=
  if decide (Method r ≠ "GET") then methodNotAllowed else WriteJSON 200 (MkStatusResponse "ready").

(** ** The orchestrator (service.go) *)

Section orchestrator.
Context (env : string -> string).
Context (open : string -> option goerr) (ping : option goerr) (dial : res nat) (client : nat -> attempt_env).

(** The store, and the publishers over connection [conn]. *)
Definition orchestrator_NewService : traced resource_action (list job_client) :=
  _ ← open_store env open ping;
  let cfg := LoadConfig env in
  match Validate cfg with
  | inr e => ([], err (ErrWrap "mq config is invalid: %w" [] e))
  | inl _ =>
    match dialPublishers cfg dial client (loadPublisherConcurrency env) with
    | (tr, inr e) => (tr, err (ErrWrap "failed to create publisher manager: %w" [] (ErrWrap "create publisher set failed: %w" [] e)))
    | o => o
    end
  end.

(** [Service.Close], of a service whose publishers are not in use. *)
Definition orchestrator_Close (conn : nat) (pubs : list job_client) : list resource_action :=
  ((fun k => Closed (RClient conn k)) <$> seq 0 (length pubs)) ++ [Closed (RConn conn)] ++ store_Close true.

Lemma open_store_held : (open_store env open ping).2 = ok tt -> (open_store env open ping).1 = [Opened RStore].
Proof. unfold open_store, store_New. case_decide; [done|]. destruct (open _); [done|]. by destruct ping. Qed.

Lemma open_store_failed e : (open_store env open ping).2 = err e -> tracked ∅ (open_store env open ping).1 = Some ∅.
Proof.
  unfold open_store, store_New. case_decide; [done|]. destruct (open _); [done|]. destruct ping; [|done].
  intros _. by apply tracked_open_close.
Qed.

(** An orchestrator that came up has its store, one connection and a usable
    client per configured publisher, and closing it leaves nothing open. One that
    did not come up leaves nothing open only when its store did not open: after
    that, a bad queue configuration or publishers that cannot be opened leave the
    store's connections open, with nobody to close them. *)
Theorem orchestrator_NewService_spec :
  let '(tr, r) := orchestrator_NewService in
  match r with
  | inl pubs => exists conn, dial = ok conn /\ Forall (usable (LoadConfig env)) pubs /\
      length pubs = Z.to_nat (loadPublisherConcurrency env) /\ tracked ∅ (tr ++ orchestrator_Close conn pubs) = Some ∅
  | inr _ => tracked ∅ tr = Some (match (open_store env open ping).2 with inl _ => {[RStore]} | inr _ => ∅ end)
  end.
Proof.
  unfold orchestrator_NewService. pose proof open_store_held as Hheld. pose proof open_store_failed as Hfail.
  destruct (open_store env open ping) as [tr0 [[]|e]]; simpl in *; [|by apply (Hfail e)].
  rewrite (Hheld eq_refl). clear Hheld Hfail.
  assert (Hopen : tracked ∅ [Opened RStore] = Some {[RStore]}) by (rewrite tracked_open by set_solver; unfold tracked; simpl; f_equal; set_solver).
  destruct (Validate (LoadConfig env)); [|done]. destruct dial as [conn|e]; [|done].
  pose proof (dialPublishers_spec (LoadConfig env) conn client (loadPublisherConcurrency env) {[RStore]} ltac:(set_solver) ltac:(set_solver)) as Hd.
  cbn [ok] in Hd. destruct (dialPublishers _ _ _ _) as [tr [pubs|e]]; destruct Hd as [Htr Hl].
  - destruct (Hl pubs eq_refl) as (_ & Hlen & Hus). exists conn. split_and!; [done|done|done|].
    rewrite <- app_assoc, (tracked_app _ _ _ _ Hopen), (tracked_app _ _ _ _ Htr), <- Hlen.
    unfold orchestrator_Close. set (base := {[RConn conn]} ∪ {[RStore]}).
    rewrite (tracked_app _ _ _ _ (tracked_close_clients conn (length pubs) base ltac:(set_solver))).
    unfold base. simpl. rewrite tracked_close, tracked_close by set_solver. unfold tracked. simpl. f_equal. set_solver.
  - by rewrite (tracked_app _ _ _ _ Hopen).
Qed.

End orchestrator.
