(* ===== verification/Reporting.v ===== *)
(** * Reports (internal/services/reporting, models/report.go)

    [GetReport] over the four queries of the report store, with a fault that
    may replace the answer of any of them, and the HTTP handler around it. The
    queries of a report are not one transaction: each is answered from the tables as
    they are when it is made ([view]).
    Theorem: what a report contains, and which error each request gets. *)

From stdpp Require Import sorting.
From S2P Require Import Prelude GoStrings Store Http.

(** ** models/report.go *)

Record ReportQuery := MkReportQuery {
  Q_Pipeline : string; Q_Run : option Z; Q_Stage : string; Q_Job : string }.

Record ReportRun := MkReportRun {
  RR_RunNo : Z; RR_Status : string; RR_TraceID : string; RR_GitRepo : string; RR_GitBranch : string;
  RR_GitHash : string; RR_Start : Z; RR_End : option Z }.
Record ReportJob := MkReportJob {
  RJ_Name : string; RJ_Status : string; RJ_Start : Z; RJ_End : option Z; RJ_Failures : bool }.
Record ReportStage := MkReportStage {
  RS_Name : string; RS_Status : string; RS_Start : Z; RS_End : option Z;
  RS_Jobs : list ReportJob; RS_Job : list ReportJob }.
Record ReportPipeline := MkReportPipeline {
  RP_Name : string; RP_Runs : list ReportRun; RP_RunNo : Z; RP_Status : string; RP_TraceID : string;
  RP_Start : Z; RP_End : option Z; RP_Stages : list ReportStage; RP_Stage : list ReportStage }.

(** ** errors.go *)

Definition invalidReportQuery (message : string) : goerr := ErrWrap "%w: %s" [message] (ErrIs "invalid report query").
Definition reportNotFound (message : list string) : goerr := ErrWrap "%w: %s" message (ErrIs "report not found").

Definition classifyError (error_text : goerr -> string) (e : goerr) : Z * string * string :=
  if errors_Is e "invalid report query" then (400%Z, "invalid_argument", error_text e)
  else if errors_Is e "report not found" then (404%Z, "report_not_found", error_text e)
  else (500%Z, "internal_error", "internal server error").

(** ** service.go *)

Definition mapRun (r : Run) : ReportRun :=
  MkReportRun (Run_RunNo r) (Run_Status r) (Run_TraceID r) (Run_GitRepo r) (Run_GitBranch r) (Run_GitHash r)
    (Run_StartTime r) (Run_EndTime r).
Definition mapRuns (runs : list Run) : list ReportRun := mapRun <$> runs.

Definition mapStage (st : StageRow) : ReportStage :=
  MkReportStage (Stage_Stage st) (Stage_Status st) (Stage_StartTime st) (Stage_EndTime st) [] [].
Definition mapStages (stages : list StageRow) : list ReportStage := mapStage <$> stages.

Definition mapJob (j : JobRow) : ReportJob :=
  MkReportJob (Job_Job j) (Job_Status j) (Job_StartTime j) (Job_EndTime j) (JobRow_Failures j).
Definition mapJobs (jobs : list JobRow) : list ReportJob := mapJob <$> jobs.

Section reporting.
Context {C : Collation}.

(** The queries of [reportStore], of which a report makes each once at most;
    [fault] replaces the answer of a call. *)
Inductive store_call := CallRuns | CallRun | CallStages | CallJobs.
Definition faulty {A} (fault : store_call -> option goerr) (c : store_call) (answer : res A) : res A :=
  match fault c with Some e => err e | None => answer end.

Definition set_stage_jobs (st : ReportStage) (jobs job : list ReportJob) : ReportStage :=
  MkReportStage (RS_Name st) (RS_Status st) (RS_Start st) (RS_End st) jobs job.

(** [time.Time{}], the first instant of year 1. *)
Definition zeroTime : Z := (-62135596800000000)%Z.

(** The guards at the head of [GetReport]. *)
Definition checkReportQuery (query : ReportQuery) : option goerr :=
  if decide (TrimSpace (Q_Pipeline query) = "") then Some (invalidReportQuery "pipeline is required")
  else if match Q_Run query with Some n => bool_decide (n <= 0)%Z | None => false end
  then Some (invalidReportQuery "run must be a positive integer")
  else if decide (Q_Stage query ≠ "" /\ Q_Run query = None)
  then Some (invalidReportQuery "run is required when stage is provided")
  else if decide (Q_Job query ≠ "" /\ (Q_Run query = None \/ Q_Stage query = ""))
  then Some (invalidReportQuery "run and stage are required when job is provided")
  else None.

Definition GetReport (fault : store_call -> option goerr) (view : store_call -> db) (query : ReportQuery) : res ReportPipeline :=
  match checkReportQuery query with Some e => err e | None =>
  match Q_Run query with
  | None =>
    match faulty fault CallRuns (ok (GetRunsByPipeline (view CallRuns) (Q_Pipeline query))) with
    | inr e => err (ErrWrap "failed to read runs: %w" [] e)
    | inl [] => err (reportNotFound ["pipeline %q not found"; Q_Pipeline query])
    | inl runs => ok (MkReportPipeline (Q_Pipeline query) (mapRuns runs) 0 "" "" zeroTime None [] [])
    end
  | Some runNo =>
    match faulty fault CallRun (GetRun (view CallRun) (Q_Pipeline query) runNo) with
    | inr e =>
      if errors_Is e "not found"
      then err (reportNotFound ["run %d for pipeline %q not found"; Itoa runNo; Q_Pipeline query])
      else err (ErrWrap "failed to read run: %w" [] e)
    | inl run =>
      let resp stages stage := MkReportPipeline (Run_Pipeline run) [] (Run_RunNo run) (Run_Status run)
        (Run_TraceID run) (Run_StartTime run) (Run_EndTime run) stages stage in
      if decide (Q_Stage query = "") then
        match faulty fault CallStages (ok (GetStagesForRun (view CallStages) (Q_Pipeline query) runNo "")) with
        | inr e => err (ErrWrap "failed to read stages: %w" [] e)
        | inl stages => ok (resp (mapStages stages) [])
        end
      else
        match faulty fault CallStages (ok (GetStagesForRun (view CallStages) (Q_Pipeline query) runNo (Q_Stage query))) with
        | inr e => err (ErrWrap "failed to read stage: %w" [] e)
        | inl [] => err (reportNotFound ["stage %q not found for pipeline %q run %d"; Q_Stage query;
                                         Q_Pipeline query; Itoa runNo])
        | inl (st :: _) =>
          if decide (Q_Job query = "") then
            match faulty fault CallJobs (ok (GetJobsForRun (view CallJobs) (Q_Pipeline query) runNo (Q_Stage query) "")) with
            | inr e => err (ErrWrap "failed to read jobs: %w" [] e)
            | inl jobs => ok (resp [] [set_stage_jobs (mapStage st) (mapJobs jobs) []])
            end
          else
            match faulty fault CallJobs (ok (GetJobsForRun (view CallJobs) (Q_Pipeline query) runNo (Q_Stage query) (Q_Job query))) with
            | inr e => err (ErrWrap "failed to read job: %w" [] e)
            | inl [] => err (reportNotFound ["job %q not found in stage %q for pipeline %q run %d"; Q_Job query;
                                             Q_Stage query; Q_Pipeline query; Itoa runNo])
            | inl jobs => ok (resp [] [set_stage_jobs (mapStage st) [] (mapJobs jobs)])
            end
        end
    end
  end end.

(** ** handler.go *)

Definition parseReportQuery (QueryGet : string -> string) : res ReportQuery :=
  let query := MkReportQuery (TrimSpace (QueryGet "pipeline")) None
    (TrimSpace (QueryGet "stage")) (TrimSpace (QueryGet "job")) in
  let runParam := TrimSpace (QueryGet "run") in
  if decide (runParam = "") then ok query else
  match ParseInt64 runParam with
  | None => err (ErrNew "parse report query run parameter: %w" [runParam])
  | Some runNo => ok (MkReportQuery (Q_Pipeline query) (Some runNo) (Q_Stage query) (Q_Job query))
  end.

Definition handleReport (error_text : goerr -> string) (fault : store_call -> option goerr) (view : store_call -> db)
    (r : http_request unit) : http_response ReportPipeline :=
  if decide (Method r ≠ "GET") then WriteError 405 "method_not_allowed" (StatusText 405) else
  match parseReportQuery (QueryGet r) with
  | inr e => WriteError 400 "invalid_argument" (error_text e)
  | inl query =>
    match GetReport fault view query with
    | inr e => let '(status, code, message) := classifyError error_text e in WriteError status code message
    | inl report => WriteJSON 200 report
    end
  end.
(** ** What a report shows *)

Definition malformed (q : ReportQuery) : Prop :=
  TrimSpace (Q_Pipeline q) = "" \/
  (exists n, Q_Run q = Some n /\ (n <= 0)%Z) \/
  (Q_Stage q ≠ "" /\ Q_Run q = None) \/
  (Q_Job q ≠ "" /\ (Q_Run q = None \/ Q_Stage q = "")).

(** What the query names is in the tables. *)
Definition recorded (view : store_call -> db) (q : ReportQuery) : Prop :=
  let p := ci (Q_Pipeline q) in
  match Q_Run q with
  | None => exists k r, pipeline_runs (view CallRuns) !! k = Some r /\ ci (run_pipeline r) = p
  | Some n => is_Some (pipeline_runs (view CallRun) !! (p, n)) /\
      (Q_Stage q ≠ "" -> is_Some (stage_runs (view CallStages) !! (p, n, ci (Q_Stage q))) /\
        (Q_Job q ≠ "" -> is_Some (job_runs (view CallJobs) !! (p, n, ci (Q_Stage q), ci (Q_Job q)))))
  end.

(** The body of a stage report: the jobs of the stage, or the one asked for. *)
Record stage_reported (view : store_call -> db) (q : ReportQuery) (n : Z) (sr : ReportStage) : Prop := {
  sr_jobs : Q_Job q = "" -> RS_Job sr = [] /\ forall x, x ∈ RS_Jobs sr <->
    exists k j, job_runs (view CallJobs) !! k = Some j /\ k.1 = (ci (Q_Pipeline q), n, ci (Q_Stage q)) /\ x = mapJob j;
  sr_job : Q_Job q ≠ "" -> RS_Jobs sr = [] /\ forall x, x ∈ RS_Job sr <->
    exists j, job_runs (view CallJobs) !! (ci (Q_Pipeline q), n, ci (Q_Stage q), ci (Q_Job q)) = Some j /\ x = mapJob j;
}.

Definition reported (view : store_call -> db) (q : ReportQuery) (rep : ReportPipeline) : Prop :=
  match Q_Run q with
  | None => RP_Name rep = Q_Pipeline q /\ forall x, x ∈ RP_Runs rep <->
      exists k r, pipeline_runs (view CallRuns) !! k = Some r /\ k.1 = ci (Q_Pipeline q) /\ x = mapRun (scanRun r)
  | Some n => exists r, pipeline_runs (view CallRun) !! (ci (Q_Pipeline q), n) = Some r /\
      RP_Name rep = run_pipeline r /\ RP_RunNo rep = n /\ RP_Status rep = run_status r /\
      RP_TraceID rep = run_trace_id r /\ RP_Start rep = run_start_time r /\ RP_End rep = run_end_time r /\
      (Q_Stage q = "" -> RP_Stage rep = [] /\ forall x, x ∈ RP_Stages rep <->
        exists k st, stage_runs (view CallStages) !! k = Some st /\ k.1 = (ci (Q_Pipeline q), n) /\ x = mapStage st) /\
      (Q_Stage q ≠ "" -> RP_Stages rep = [] /\ exists st sr,
        stage_runs (view CallStages) !! (ci (Q_Pipeline q), n, ci (Q_Stage q)) = Some st /\ RP_Stage rep = [sr] /\
        RS_Name sr = Stage_Stage st /\ RS_Status sr = Stage_Status st /\
        RS_Start sr = Stage_StartTime st /\ RS_End sr = Stage_EndTime st /\ stage_reported view q n sr)
  end.

(** ** Lemmas: the rows the queries return *)

Lemma checkReportQuery_spec q :
  match checkReportQuery q with
  | Some e => malformed q /\ errors_Is e "invalid report query" = true
  | None => ~ malformed q
  end.
Proof.
  unfold checkReportQuery, malformed. case_decide; [by split; [left|]|].
  destruct (Q_Run q) as [n|].
  - case_bool_decide; [by split; [right; left; eauto|]|]. repeat case_decide; naive_solver.
  - repeat case_decide; naive_solver.
Qed.

Lemma GetRunsByPipeline_elem d p x : db_wf d ->
  x ∈ mapRuns (GetRunsByPipeline d p) <->
  exists k r, pipeline_runs d !! k = Some r /\ k.1 = ci p /\ x = mapRun (scanRun r).
Proof.
  intros Hwf. unfold mapRuns, GetRunsByPipeline. rewrite <- list_fmap_compose, list_elem_of_fmap.
  setoid_rewrite merge_sort_Permutation. setoid_rewrite list_elem_of_filter. setoid_rewrite elem_of_values. split.
  - intros (r & -> & Hp & k & Hk). destruct (wf_runs _ Hwf _ _ Hk) as [-> _]. eauto 6.
  - intros (k & r & Hk & Hp & ->). destruct (wf_runs _ Hwf _ _ Hk) as [-> _]. eauto 6.
Qed.

Lemma stage_rows_elem d p n flt st : db_wf d ->
  st ∈ GetStagesForRun d p n flt <->
  exists k, stage_runs d !! k = Some st /\ k.1 = (ci p, n) /\ (flt ≠ "" -> k.2 = ci flt).
Proof.
  intros Hwf. rewrite GetStagesForRun_elem. unfold filter_matches. split.
  - intros ((k & Hk) & Hp & Hn & Hf). rewrite (wf_stages _ Hwf _ _ Hk) in Hk. eexists. split; [exact Hk|].
    simpl. rewrite Hp, Hn. done.
  - intros (k & Hk & Hp & Hf). pose proof (wf_stages _ Hwf _ _ Hk) as ->. simpl in *. naive_solver.
Qed.

Lemma job_rows_elem d p n sf jf j : db_wf d ->
  j ∈ GetJobsForRun d p n sf jf <->
  exists k, job_runs d !! k = Some j /\ k.1.1 = (ci p, n) /\ (sf ≠ "" -> k.1.2 = ci sf) /\ (jf ≠ "" -> k.2 = ci jf).
Proof.
  intros Hwf. rewrite GetJobsForRun_elem. unfold filter_matches. split.
  - intros ((k & Hk) & Hp & Hn & Hs & Hf). rewrite (wf_jobs _ Hwf _ _ Hk) in Hk. eexists. split; [exact Hk|].
    simpl. rewrite Hp, Hn. done.
  - intros (k & Hk & Hp & Hs & Hf). pose proof (wf_jobs _ Hwf _ _ Hk) as ->. simpl in *. naive_solver.
Qed.

Lemma GetStagesForRun_one d p n flt st : db_wf d -> flt ≠ "" ->
  st ∈ GetStagesForRun d p n flt <-> stage_runs d !! (ci p, n, ci flt) = Some st.
Proof.
  intros Hwf Hne. rewrite stage_rows_elem by done. split; [|naive_solver].
  intros ([kp ks] & Hk & E & E2). simpl in *. rewrite E, E2 in Hk by done. done.
Qed.

Lemma GetJobsForRun_one d p n sf jf j : db_wf d -> sf ≠ "" -> jf ≠ "" ->
  j ∈ GetJobsForRun d p n sf jf <-> job_runs d !! (ci p, n, ci sf, ci jf) = Some j.
Proof.
  intros Hwf Hs Hj. rewrite job_rows_elem by done. split; [|naive_solver].
  intros ([[kp ks] kj] & Hk & E & E2 & E3). simpl in *. rewrite E, E2, E3 in Hk by done. done.
Qed.

(** A list whose elements are those of an option. *)
Lemma nil_or_elem {A} (l : list A) (o : option A) : (forall x, x ∈ l <-> o = Some x) ->
  (l = [] /\ o = None) \/ (exists x l', l = x :: l' /\ o = Some x).
Proof.
  intros H. destruct l as [|x l].
  - left. split; [done|]. destruct o as [x|]; [|done]. exfalso. by apply (elem_of_nil x), H.
  - right. exists x, l. split; [done|]. apply H. left.
Qed.

Lemma elem_of_mapped {A B} (f : A -> B) (l : list A) (P : A -> Prop) x : (forall a, a ∈ l <-> P a) ->
  x ∈ (f <$> l : list B) <-> exists a, P a /\ x = f a.
Proof. intros H. rewrite list_elem_of_fmap. setoid_rewrite H. naive_solver. Qed.

Definition driver_faults (fault : store_call -> option goerr) : Prop :=
  forall c e s, fault c = Some e -> s ∈ ["not found"; "invalid report query"; "report not found"] ->
  errors_Is e s = false.

(** What one call ends in: its error is the driver's, or its answer is the store's. *)
Lemma faulty_cases {A} fault c (answer : res A) :
  (exists e, fault c = Some e /\ faulty fault c answer = err e) \/ faulty fault c answer = answer.
Proof. unfold faulty. destruct (fault c) as [e|]; eauto. Qed.

(** The outcome of a query: its report, or an error and its class. *)
Definition outcome_ok (fault : store_call -> option goerr) (view : store_call -> db) (q : ReportQuery) (r : res ReportPipeline) : Prop :=
  match r with
  | inl rep => recorded view q /\ reported view q rep
  | inr e => errors_Is e "invalid report query" = false /\
      if errors_Is e "report not found" then ~ recorded view q else exists c, is_Some (fault c)
  end.

Lemma outcome_fault fault view q c e fmt : driver_faults fault -> fault c = Some e ->
  outcome_ok fault view q (err (ErrWrap fmt [] e)).
Proof.
  intros Hf E. simpl. rewrite !(Hf c e _ E) by set_solver. split; [done|]. exists c. by rewrite E.
Qed.

(** The stage part of [GetReport], given the stage's row. *)
Lemma stage_part_ok fault view q n r st :
  (forall c, db_wf (view c)) -> driver_faults fault -> Q_Run q = Some n -> Q_Stage q ≠ "" ->
  pipeline_runs (view CallRun) !! (ci (Q_Pipeline q), n) = Some r ->
  stage_runs (view CallStages) !! (ci (Q_Pipeline q), n, ci (Q_Stage q)) = Some st ->
  let resp stage := MkReportPipeline (run_pipeline r) [] (run_run_no r) (run_status r)
    (run_trace_id r) (run_start_time r) (run_end_time r) [] stage in
  outcome_ok fault view q
    (if decide (Q_Job q = "") then
      match faulty fault CallJobs (ok (GetJobsForRun (view CallJobs) (Q_Pipeline q) n (Q_Stage q) "")) with
      | inr e => err (ErrWrap "failed to read jobs: %w" [] e)
      | inl jobs => ok (resp [set_stage_jobs (mapStage st) (mapJobs jobs) []])
      end
    else
      match faulty fault CallJobs (ok (GetJobsForRun (view CallJobs) (Q_Pipeline q) n (Q_Stage q) (Q_Job q))) with
      | inr e => err (ErrWrap "failed to read job: %w" [] e)
      | inl [] => err (reportNotFound ["job %q not found in stage %q for pipeline %q run %d"; Q_Job q;
                                       Q_Stage q; Q_Pipeline q; Itoa n])
      | inl jobs => ok (resp [set_stage_jobs (mapStage st) [] (mapJobs jobs)])
      end).
Proof.
  intros Hwf Hf Hn Hs Hr Hst resp. destruct (wf_runs _ (Hwf CallRun) _ _ Hr) as ([= Hp Hnn] & _).
  assert (Hrep : forall sr, RS_Name sr = Stage_Stage st -> RS_Status sr = Stage_Status st ->
    RS_Start sr = Stage_StartTime st -> RS_End sr = Stage_EndTime st -> stage_reported view q n sr ->
    reported view q (resp [sr])).
  { intros sr ? ? ? ? ?. unfold reported. rewrite Hn. exists r. split_and!; try done. intros _. split; [done|]. eauto 10. }
  case_decide as Hj.
  - destruct (faulty_cases fault CallJobs (ok (GetJobsForRun (view CallJobs) (Q_Pipeline q) n (Q_Stage q) ""))) as [(e & E & ->)| ->];
      [by apply outcome_fault with CallJobs|].
    split; [unfold recorded; rewrite Hn; naive_solver|]. apply Hrep; try done. split; [intros _|done].
    split; [done|]. intros x. cbn. unfold mapJobs.
    rewrite (elem_of_mapped _ _ _ x (fun j => job_rows_elem (view CallJobs) (Q_Pipeline q) n (Q_Stage q) "" j (Hwf CallJobs))). split.
    + intros (j & ([[kp ks] kj] & Hk & E & E2 & _) & ->). simpl in *. rewrite E, E2 in Hk by done. eauto.
    + intros (k & j & Hk & E & ->). exists j. split; [|done]. exists k. rewrite E. done.
  - destruct (faulty_cases fault CallJobs (ok (GetJobsForRun (view CallJobs) (Q_Pipeline q) n (Q_Stage q) (Q_Job q))))
      as [(e & E & ->)| ->]; [by apply outcome_fault with CallJobs|].
    pose proof (fun j => GetJobsForRun_one (view CallJobs) (Q_Pipeline q) n (Q_Stage q) (Q_Job q) j (Hwf CallJobs) Hs Hj) as Hone.
    destruct (nil_or_elem _ _ Hone) as [[-> Hnone]|(j & l & El & Hk)].
    + split; [done|]. unfold recorded. rewrite Hn, Hnone. intros [_ H]. by destruct (H Hs) as [_ []].
    + simpl. rewrite El. split; [unfold recorded; rewrite Hn; naive_solver|]. apply Hrep; try done.
      split; [done|]. intros _. split; [done|]. intros x. cbn -[mapJobs]. unfold mapJobs. rewrite <- El.
      rewrite (elem_of_mapped _ _ _ x Hone). naive_solver.
Qed.

Lemma GetReport_outcome fault view q :
  (forall c, db_wf (view c)) -> driver_faults fault -> ~ malformed q -> outcome_ok fault view q (GetReport fault view q).
Proof.
  intros Hwf Hf Hm. unfold GetReport. pose proof (checkReportQuery_spec q) as Hc.
  destruct (checkReportQuery q) as [e|]; [naive_solver|]. destruct (Q_Run q) as [n|] eqn:Hn.
  - destruct (faulty_cases fault CallRun (GetRun (view CallRun) (Q_Pipeline q) n)) as [(e & E & ->)| ->].
    { simpl. rewrite (Hf _ e "not found" E) by set_solver. by apply outcome_fault with CallRun. }
    unfold GetRun. destruct (pipeline_runs (view CallRun) !! (ci (Q_Pipeline q), n)) as [r|] eqn:Hr.
    2:{ simpl. split; [done|]. unfold recorded. rewrite Hn, Hr. by intros [[] _]. }
    cbn [ok]. case_decide as Hs.
    + destruct (faulty_cases fault CallStages (ok (GetStagesForRun (view CallStages) (Q_Pipeline q) n ""))) as [(e & E & ->)| ->];
        [by apply outcome_fault with CallStages|].
      destruct (wf_runs _ (Hwf CallRun) _ _ Hr) as ([= Hp Hnn] & _).
      split; [unfold recorded; rewrite Hn, Hr; done|]. unfold reported. rewrite Hn. exists r. split_and!; try done.
      intros _. split; [done|]. intros x. cbn. unfold mapStages.
      rewrite (elem_of_mapped _ _ _ x (fun st => stage_rows_elem (view CallStages) (Q_Pipeline q) n "" st (Hwf CallStages))). naive_solver.
    + destruct (faulty_cases fault CallStages (ok (GetStagesForRun (view CallStages) (Q_Pipeline q) n (Q_Stage q))))
        as [(e & E & ->)| ->]; [by apply outcome_fault with CallStages|].
      destruct (nil_or_elem _ _ (fun st => GetStagesForRun_one (view CallStages) (Q_Pipeline q) n (Q_Stage q) st (Hwf CallStages) Hs))
        as [[-> Hnone]|(st & l & -> & Hst)]; [|by apply stage_part_ok].
      split; [done|]. unfold recorded. rewrite Hn, Hnone. intros [_ H]. by destruct (H Hs) as [[] _].
  - destruct (faulty_cases fault CallRuns (ok (GetRunsByPipeline (view CallRuns) (Q_Pipeline q)))) as [(e & E & ->)| ->];
      [by apply outcome_fault with CallRuns|]. cbn [ok].
    pose proof (fun x => GetRunsByPipeline_elem (view CallRuns) (Q_Pipeline q) x (Hwf CallRuns)) as Hall.
    destruct (GetRunsByPipeline (view CallRuns) (Q_Pipeline q)) as [|run runs].
    + split; [done|]. unfold recorded. rewrite Hn. intros (k & r & Hk & Hp).
      destruct (wf_runs _ (Hwf CallRuns) _ _ Hk) as [-> _]. apply (elem_of_nil (mapRun (scanRun r))), Hall. eauto.
    + split; [|by unfold reported; rewrite Hn]. unfold recorded. rewrite Hn.
      destruct (proj1 (Hall (mapRun run))) as (k & r & Hk & Hp & _); [by left|].
      exists k, r. split; [done|]. by destruct (wf_runs _ (Hwf CallRuns) _ _ Hk) as [-> _].
Qed.

(** C28: reports tell the state of the tables. A malformed query is refused with
    400; otherwise a query for something that is not recorded gets 404 and the
    answer for what is recorded shows exactly its rows, unless the store fails,
    which gives 500 without the store's message. A query without a run shows all
    runs of the pipeline; one with a run shows the run and its stages without their
    jobs; one with a stage, that stage and its jobs, or the job asked for. (The
    reporting sequence document says the most recent run, and all stages and jobs.)
    Each table is as it is when its query is made: there is no transaction around
    the up to three queries of a report. *)
Theorem GetReport_spec error_text fault view q :
  (forall c, db_wf (view c)) -> driver_faults fault ->
  match GetReport fault view q with
  | inl rep => ~ malformed q /\ recorded view q /\ reported view q rep
  | inr e =>
    (malformed q /\ classifyError error_text e = (400%Z, "invalid_argument", error_text e)) \/
    (~ malformed q /\ ~ recorded view q /\ classifyError error_text e = (404%Z, "report_not_found", error_text e)) \/
    (~ malformed q /\ (exists c, is_Some (fault c)) /\
       classifyError error_text e = (500%Z, "internal_error", "internal server error"))
  end.
Proof.
  intros Hwf Hf. pose proof (checkReportQuery_spec q) as Hc. destruct (checkReportQuery q) as [e|] eqn:Eq.
  - unfold GetReport. rewrite Eq. left. split; [by apply Hc|]. unfold classifyError. by rewrite (proj2 Hc).
  - pose proof (GetReport_outcome fault view q Hwf Hf Hc) as Ho. destruct (GetReport fault view q) as [rep|e]; [by split|].
    right. destruct Ho as [Hi Ho]. unfold classifyError. rewrite Hi. destruct (errors_Is e "report not found"); naive_solver.
Qed.
End reporting.

(** ** Witness *)

Definition report_db : db := foldl (apply_op (C := ascii_ci_collation)) empty_db
  [ OpCreateRun (MkCreateRun "demo" 1 "queued" "c0ffee" "main" "" "0af7" "k");
    OpCreateStage "demo" 1 "build" 2 "queued"; OpCreateStage "demo" 1 "test" 2 "queued";
    OpCreateJob "demo" 1 "build" "compile" 3 "queued" false; OpCreateJob "demo" 1 "test" "unit" 3 "queued" true;
    OpUpdateJob "demo" 1 "build" "compile" (Some 9%Z) "failed" ].
(** While a report is made, the run is reported as over: its row was read before. *)
Definition later_db : db := apply_op (C := ascii_ci_collation) report_db (OpUpdateRun "demo" 1 (Some 10%Z) "failed").
Definition report_view (c : store_call) : db := match c with CallRun => report_db | _ => later_db end.
Definition jobs_fault (c : store_call) : option goerr :=
  match c with CallJobs => Some (ErrNew "driver: bad connection" []) | _ => None end.

Lemma jobs_fault_driver : driver_faults jobs_fault.
Proof. intros [] e s; [done|done|done|]. by intros [= <-]. Qed.

Definition demo_report (fault : store_call -> option goerr) (q : ReportQuery) : res ReportPipeline :=
  GetReport (C := ascii_ci_collation) fault report_view q.

(** The report of one job, asked for in another letter case; a failing store;
    a stage that does not exist. *)
Lemma GetReport_spec_witness :
  (exists rep, demo_report (fun _ => None) (MkReportQuery "Demo" (Some 1%Z) "BUILD" "compile") = inl rep /\
     RP_Stage rep = [MkReportStage "build" "queued" 2 None [] [MkReportJob "compile" "failed" 3 (Some 9%Z) false]] /\
     reported (C := ascii_ci_collation) report_view (MkReportQuery "Demo" (Some 1%Z) "BUILD" "compile") rep) /\
  (exists e, demo_report jobs_fault (MkReportQuery "demo" (Some 1%Z) "build" "") = inr e /\
     classifyError (fun _ => "text") e = (500%Z, "internal_error", "internal server error")) /\
  (exists e, demo_report jobs_fault (MkReportQuery "demo" (Some 1%Z) "deploy" "") = inr e /\
     ~ recorded (C := ascii_ci_collation) report_view (MkReportQuery "demo" (Some 1%Z) "deploy" "")).
Proof.
  assert (Hwf : forall c, db_wf (C := ascii_ci_collation) (report_view c)).
  { assert (H : db_wf (C := ascii_ci_collation) report_db) by apply ops_wf, empty_db_wf.
    assert (H' : db_wf (C := ascii_ci_collation) later_db).
    { apply (ops_wf (C := ascii_ci_collation) report_db [OpUpdateRun "demo" 1 (Some 10%Z) "failed"]), H. }
    intros []; [exact H'|exact H|exact H'|exact H']. }
  assert (Hnone : driver_faults (fun _ => None)) by done.
  pose proof (GetReport_spec (C := ascii_ci_collation) (fun _ => "text") (fun _ => None) report_view
    (MkReportQuery "Demo" (Some 1%Z) "BUILD" "compile") Hwf Hnone) as H1.
  pose proof (GetReport_spec (C := ascii_ci_collation) (fun _ => "text") jobs_fault report_view
    (MkReportQuery "demo" (Some 1%Z) "build" "") Hwf jobs_fault_driver) as H2.
  pose proof (GetReport_spec (C := ascii_ci_collation) (fun _ => "text") jobs_fault report_view
    (MkReportQuery "demo" (Some 1%Z) "deploy" "") Hwf jobs_fault_driver) as H3.
  assert (E1 : exists rep, demo_report (fun _ => None) (MkReportQuery "Demo" (Some 1%Z) "BUILD" "compile") = inl rep /\
     RP_Stage rep = [MkReportStage "build" "queued" 2 None [] [MkReportJob "compile" "failed" 3 (Some 9%Z) false]])
    by (eexists; split; vm_compute; reflexivity).
  assert (E2 : exists e, demo_report jobs_fault (MkReportQuery "demo" (Some 1%Z) "build" "") = inr e /\
     classifyError (fun _ => "text") e = (500%Z, "internal_error", "internal server error"))
    by (eexists; split; vm_compute; reflexivity).
  assert (E3 : exists e, demo_report jobs_fault (MkReportQuery "demo" (Some 1%Z) "deploy" "") = inr e /\
     (classifyError (fun _ => "text") e).1.1 = 404%Z) by (eexists; split; vm_compute; reflexivity).
  destruct E1 as (rep & E1 & S1), E2 as (e2 & E2 & S2), E3 as (e3 & E3 & S3).
  unfold demo_report in *. rewrite E1 in H1. rewrite E2 in H2. rewrite E3 in H3. 
  split; [exists rep; split; [exact E1|]; split; [exact S1|apply H1]|].
  split; [exists e2; split; [exact E2|exact S2]|]. exists e3. split; [exact E3|].
  destruct H3 as [[_ H]|[(_ & H & _)|(_ & _ & H)]]; [by rewrite H in S3|exact H|by rewrite H in S3].
Defined.
