(* ===== verification/Observability.v ===== *)
(** * Telemetry (internal/observability)

    [setupOTel] opens a tracer, a meter and a logger provider, and [Bootstrap]
    hands the function that shuts them down to the entry points. Whether the
    resource or an exporter can be made, and what shutting a provider down
    answers, are arguments; what is done to the providers is a trace. The errors
    of [errors.Join] are their list, empty for nil. Theorem: the set-up either
    leaves all three providers running or none. Of logging and tracing, the
    names and attributes that the code computes are modelled. *)

From S2P Require Import Prelude GoStrings Models Store Http Reporting.

(** ** Providers (otel.go) *)

Inductive provider := Tracing | Metering | Logging.
#[export] Instance provider_eq_dec : EqDecision provider.
Proof. solve_decision. Defined.

(** [Global] makes a provider the process's own; [LogBridge] makes the logger
    provider the sink of [slog]. *)
Inductive otel_action :=
| Propagator
| Started (p : provider)
| Global (p : provider)
| Stopped (p : provider)
| LogBridge.
#[export] Instance otel_action_eq_dec : EqDecision otel_action.
Proof. solve_decision. Defined.

(** The providers that run after an action; [None] when it stops one that does not. *)
Definition provider_step (o : option (list provider)) (a : otel_action) : option (list provider) :=
  ps ← o;
  match a with
  | Started p => if decide (p ∈ ps) then None else Some (ps ++ [p])
  | Stopped p => if decide (p ∈ ps) then Some (filter (fun q => q ≠ p) ps) else None
  | _ => Some ps
  end.
Definition running (tr : list otel_action) : option (list provider) := foldl provider_step (Some []) tr.

Section otel.
(** The error of [resource.New], of making a provider's exporter, and of
    shutting a provider down. *)
Context (resource_error : option goerr) (exporter_error stop_error : provider -> option goerr).

(** [shutdown]: every function of [shutdownFuncs], which is then empty. *)
Definition shutdown (shutdownFuncs : list provider) : list otel_action * (list provider * list goerr) :=
  (Stopped <$> shutdownFuncs, ([], omap stop_error shutdownFuncs)).

Definition handleErr (inErr : goerr) (shutdownFuncs : list provider) : list otel_action * (list provider * list goerr) :=
  let '(tr, (funcs, errs)) := shutdown shutdownFuncs in (tr, (funcs, inErr :: errs)).

Definition new_provider (p : provider) : list otel_action * option goerr :=
  match exporter_error p with Some e => ([], Some e) | None => ([Started p], None) end.
Definition newTracerProvider := new_provider Tracing.
Definition newMeterProvider := new_provider Metering.
Definition newLoggerProvider := new_provider Logging.

(** What is done, [shutdownFuncs] as the returned closure sees it ([None] for a
    nil closure), and the error. *)
Definition setupOTel : list otel_action * (option (list provider) * list goerr) :=
  match resource_error with
  | Some e => ([], (None, [e]))
  | None =>
    let failed (done : list otel_action) (e : goerr) (funcs : list provider) :=
      let '(tr, (funcs, errs)) := handleErr e funcs in (done ++ tr, (Some funcs, errs)) in
    let done := [Propagator] in
    match newTracerProvider with
    | (_, Some e) => failed done e []
    | (tr, None) =>
      let done := done ++ tr ++ [Global Tracing] in
      match newMeterProvider with
      | (_, Some e) => failed done e [Tracing]
      | (tr, None) =>
        let done := done ++ tr ++ [Global Metering] in
        match newLoggerProvider with
        | (_, Some e) => failed done e [Tracing; Metering]
        | (tr, None) => (done ++ tr ++ [Global Logging; LogBridge], (Some [Tracing; Metering; Logging], []))
        end
      end
    end
  end.

(** [Bootstrap], over observability.go: the function to call at the end, or the error. *)
Definition Bootstrap : list otel_action * (list provider + list goerr) :=
  let '(tr, (funcs, errs)) := setupOTel in
  (tr, match errs, funcs with [], Some funcs => inl funcs | _, _ => inr errs end).

(** Setting telemetry up succeeds exactly when the resource and the three
    exporters can be made. Then the three providers run, [slog] writes to the
    third, and the function returned stops them all, the first time it is
    called. Otherwise nothing runs, [slog] still writes where it did, and the
    error comes first in what is reported. *)
Theorem Bootstrap_spec :
  let '(tr, r) := Bootstrap in
  match r with
  | inl funcs => resource_error = None /\ (forall p, exporter_error p = None) /\
      funcs = [Tracing; Metering; Logging] /\ running tr = Some funcs /\ last tr = Some LogBridge /\
      let '(stops, (rest, errs)) := shutdown funcs in
      running (tr ++ stops) = Some [] /\ errs = omap stop_error funcs /\ shutdown rest = ([], ([], []))
  | inr errs => (exists e rest, errs = e :: rest /\
        (resource_error = Some e \/ resource_error = None /\ exists p, exporter_error p = Some e)) /\
      running tr = Some [] /\ LogBridge ∉ tr
  end.
Proof.
  unfold Bootstrap, setupOTel, newTracerProvider, newMeterProvider, newLoggerProvider, new_provider.
  destruct resource_error as [e|]. { simpl. split; [naive_solver|]. by split; [|apply not_elem_of_nil]. }
  destruct (exporter_error Tracing) as [e|] eqn:Et; [|destruct (exporter_error Metering) as [e|] eqn:Em;
    [|destruct (exporter_error Logging) as [e|] eqn:El]]; simpl.
  all: try by (split; [naive_solver|]; split; [done|]; apply (bool_decide_unpack _); vm_compute).
  split; [done|]. split; [by intros []|]. done.
Qed.

End otel.

(** ** Names of tracers (tracer.go) *)

Definition instrumentationBaseScope : string := "github.com/xueyulinn/cicd-system".

Definition TrimPrefix (s p : string) : string :=
  if HasPrefix s p then String.substring (String.length p) (String.length s - String.length p) s else s.

Definition Tracer (scope : string) : string :=
  let normalized := TrimSpace scope in
  let normalized := TrimPrefix normalized "./" in
  let normalized := TrimPrefix normalized "/" in
  if decide (normalized = "") then instrumentationBaseScope
  else if HasPrefix normalized instrumentationBaseScope then normalized
  else instrumentationBaseScope +++ "/" +++ normalized.

(** Every tracer is one of the repository's. *)
Lemma Tracer_scoped scope : HasPrefix (Tracer scope) instrumentationBaseScope = true.
Proof.
  unfold Tracer. case_decide; [reflexivity|]. case_match; [done|]. apply (prefix_append instrumentationBaseScope).
Qed.

(** The package's own examples, and the other ways to write them. *)
Example Tracer_internal_mq :
  Tracer <$> ["internal/mq"; " ./internal/mq"; "/internal/mq "; instrumentationBaseScope +++ "/internal/mq"] =
  replicate 4 "github.com/xueyulinn/cicd-system/internal/mq".
Proof. reflexivity. Qed.

(** [serviceTracer]: the tracer of a service, which may be nil or lack its own. *)
Definition orchestratorTracerScope : string := "internal/services/orchestrator".
Definition workerTracerScope : string := "internal/services/worker".
Definition orchestrator_serviceTracer (s : option (option string)) : string :=
  match s with Some (Some tracer) => tracer | _ => Tracer orchestratorTracerScope end.
Definition worker_serviceTracer (s : option (option string)) : string :=
  match s with Some (Some tracer) => tracer | _ => Tracer workerTracerScope end.

(** ** Spans of HTTP requests (http.go) *)

(** The span name formatter of servers and clients. *)
Definition span_name (method path : string) : string :=
  let method := TrimSpace method in
  let path := TrimSpace path in
  let path := if decide (path = "") then "/" else path in
  if decide (method = "") then path else method +++ " " +++ path.

(** A client's requests: the name and the attributes of their spans, and the
    timeout in nanoseconds. *)
Record http_client := MkHttpClient { hc_span : string -> string -> string * list (string * string); hc_timeout : Z }.
Definition NewInstrumentedHTTPClient (downstream : string) (timeout : Z) : http_client :=
  MkHttpClient (fun method path => (span_name method path, [("http.downstream", downstream)])) timeout.

(** The filter of [TracingMiddleware]: probes get no span. *)
Definition traces_request (path : string) : bool :=
  negb (bool_decide (path = "/metrics") || bool_decide (path = "/health") || bool_decide (path = "/ready")).

(** The two middlewares around a service's handler: the span of a request, if it
    gets one, and what the handler answers. *)
Definition TracingMiddleware {A B} (next : http_request A -> B) (path : string) (r : http_request A) : list string * B :=
  (if traces_request path then [span_name (Method r) path] else [], next r).
Definition HTTPMetricsMiddleware {A B} (next : http_request A -> B) (r : http_request A) : B := next r.

(** ** Loggers (logger.go) *)

Inductive attr_value := AttrString (s : string) | AttrInt (n : Z).
(** A logger: the attributes it adds to each record. *)
Definition logger : Type := list (string * attr_value).
Definition With (l attrs : logger) : logger := l ++ attrs.

(** A context's values, of which one key is the logger's, and its span, if it is valid. *)
Record log_context := MkLogContext { lc_logger : option logger; lc_span : option (string * string) }.
Definition ContextWithLogger (ctx : log_context) (l : logger) : log_context := MkLogContext (Some l) (lc_span ctx).
Definition L (slog_Default : logger) (ctx : log_context) : logger := default slog_Default (lc_logger ctx).

Definition WithTraceContext (ctx : log_context) (l : logger) : logger :=
  match lc_span ctx with
  | None => l
  | Some (trace_id, span_id) => With l [("trace_id", AttrString trace_id); ("span_id", AttrString span_id)]
  end.
Definition WithPipelineContext (l : logger) (pipeline : string) (runNo : Z) : logger :=
  With l [("pipeline", AttrString pipeline); ("run_no", AttrInt runNo)].
Definition WithReportQueryContext (l : logger) (query : ReportQuery) : logger :=
  let l := With l [("pipeline", AttrString (Q_Pipeline query))] in
  let l := match Q_Run query with Some n => With l [("run_no", AttrInt n)] | None => l end in
  let l := if decide (Q_Stage query = "") then l else With l [("stage", AttrString (Q_Stage query))] in
  if decide (Q_Job query = "") then l else With l [("job", AttrString (Q_Job query))].

Inductive level := LevelDebug | LevelInfo | LevelWarn | LevelError.
Definition slogLevelFromEnv (env : string -> string) : level :=
  let v := env "LOG_LEVEL" in
  if decide (v = "DEBUG" \/ v = "debug") then LevelDebug
  else if decide (v = "WARN" \/ v = "warn") then LevelWarn
  else if decide (v = "ERROR" \/ v = "error") then LevelError
  else LevelInfo.

Lemma L_ContextWithLogger d ctx l : L d (ContextWithLogger ctx l) = l.
Proof. done. Qed.
