(* ===== verification/Gateway.v ===== *)
(** * The gateway (services/gateway)

    The gateway forwards each request to one service and copies the answer to
    its own client as it arrives. What the network and the service do with an
    outgoing request is a parameter: it fails before an answer, or answers with a
    response whose body may break off. The response writer keeps what was
    written: a status is sent once, a body in pieces. Theorem: when copying does
    not break off, the client sees the service's answer unchanged, or one of the
    gateway's own errors; when it does, an error is appended to the part that was
    already sent, if any, under the service's status. *)

From S2P Require Import Prelude GoStrings Url Store Http Reporting.

(** ** Outgoing requests and what becomes of them *)

(** [out_query] is the raw query. *)
Record outgoing (A : Type) := MkOutgoing { out_method : string; out_url : string; out_query : string; out_body : option A }.
Arguments MkOutgoing {A}. Arguments out_method {A}. Arguments out_url {A}. Arguments out_query {A}. Arguments out_body {A}.

(** How much of a body was copied when its reading broke off; a body is a JSON
    object, so that no beginning of it, the whole of it included, is still a JSON
    document when another object follows. *)
Inductive copied := Nothing | Beginning.

(** [copy_error] is the error that ends the reading of the body, if any. *)
Inductive exchange (B : Type) :=
| CallFailed (e : goerr)
| Answered (resp : http_response B) (copy_error : option (copied * goerr)).
Arguments CallFailed {B}. Arguments Answered {B}.

(** ** The response writer *)

Inductive chunk (B : Type) :=
| Whole (body : B + ErrorResponse)
| Part (body : B + ErrorResponse).
Arguments Whole {B}. Arguments Part {B}.

Record writer (B : Type) := MkWriter { wr_status : option Z; wr_body : list (chunk B) }.
Arguments MkWriter {B}. Arguments wr_status {B}. Arguments wr_body {B}.
Definition fresh_writer {B} : writer B := MkWriter None [].

(** Only the first status counts. *)
Definition WriteHeader {B} (status : Z) (w : writer B) : writer B :=
  MkWriter (match wr_status w with None => Some status | s => s end) (wr_body w).
Definition write_chunk {B} (c : chunk B) (w : writer B) : writer B := MkWriter (wr_status w) (wr_body w ++ [c]).
Definition write_response {B} (r : http_response B) (w : writer B) : writer B :=
  write_chunk (Whole (RespBody r)) (WriteHeader (StatusCode r) w).

(** What the client receives: a response that decodes, when the body is one whole
    value; [json.Unmarshal] takes no more than one. *)
Definition received {B} (w : writer B) : option (http_response B) :=
  match wr_status w, wr_body w with
  | Some status, [Whole body] => Some (MkHttpResponse status body)
  | _, _ => None
  end.

Section gateway.
Context (error_text : goerr -> string).
(** [net.Error] with [Timeout()], found anywhere in the chain of an error. *)
Context (net_timeout : goerr -> bool).
(** The error of [http.NewRequestWithContext] for a URL that does not parse. *)
Context (bad_url : string -> option goerr).

(** ** errors.go *)

Definition upstreamServiceTimeout (message : string) : goerr := ErrWrap "%w: %s" [message] (ErrIs "upstream timeout").

Definition classifyError (e : goerr) : Z * string * string :=
  if errors_Is e "upstream timeout" then (504%Z, "upstream_timeout", error_text e)
  else (502%Z, "upstream_unavailable", error_text e).

(** ** client.go *)

Record Client := MkClient { validationURL : string; orchestratorURL : string; reportURL : string }.

Definition NewClient (env : string -> string) : Client :=
  MkClient (GetEnvOrDefaultURL env "VALIDATION_URL" "http://localhost:8001")
    (GetEnvOrDefaultURL env "ORCHESTRATOR_URL" "http://localhost:8002")
    (GetEnvOrDefaultURL env "REPORTING_URL" "http://localhost:8004").

Definition isTimeoutError (e : goerr) : bool := errors_Is e "context deadline exceeded" || net_timeout e.

Definition wrapUpstreamCallError (serviceName : string) (e : goerr) : goerr :=
  if isTimeoutError e then upstreamServiceTimeout (serviceName +++ ": " +++ error_text e)
  else ErrWrap "failed to call %s: %w" [serviceName] e.

Definition doUpstreamRequest {B} (serviceName : string) (o : exchange B) : res (http_response B * option (copied * goerr)) :=
  match o with
  | CallFailed e => err (wrapUpstreamCallError serviceName e)
  | Answered resp copy_error => ok (resp, copy_error)
  end.

Definition proxyDownstreamResponse {B} (resp : http_response B) (copy_error : option (copied * goerr)) (w : writer B)
    : writer B * res unit :=
  let w := WriteHeader (StatusCode resp) w in
  match copy_error with
  | Some (how_much, e) =>
    (match how_much with Nothing => w | Beginning => write_chunk (Part (RespBody resp)) w end,
     err (ErrWrap "copy downstream response failed: %w" [] e))
  | None => (write_chunk (Whole (RespBody resp)) w, ok tt)
  end.

(** The common body of the forwarding methods. *)
Definition forward {A B} (serviceName : string) (req : outgoing A) (upstream : outgoing A -> exchange B) (w : writer B)
    : writer B * res unit :=
  match bad_url (out_url req) with
  | Some e => (w, err (ErrWrap "construct request failed: %w" [] e))
  | None =>
    match doUpstreamRequest serviceName (upstream req) with
    | inr e => (w, err e)
    | inl (resp, copy_error) => proxyDownstreamResponse resp copy_error w
    end
  end.

Definition forwardValidate {A B} (c : Client) (body : A) : (outgoing A -> exchange B) -> writer B -> writer B * res unit :=
  forward "validation service" (MkOutgoing "POST" (validationURL c +++ "/validate") "" (Some body)).
Definition forwardDryRun {A B} (c : Client) (body : A) : (outgoing A -> exchange B) -> writer B -> writer B * res unit :=
  forward "dryrun service" (MkOutgoing "POST" (validationURL c +++ "/dryrun") "" (Some body)).
Definition forwardRun {A B} (c : Client) (body : A) : (outgoing A -> exchange B) -> writer B -> writer B * res unit :=
  forward "orchestrator service" (MkOutgoing "POST" (orchestratorURL c +++ "/run") "" (Some body)).

(** The parameters of a report query, one entry per key. *)
Definition reportParams (query : ReportQuery) : Values :=
  [("pipeline", Q_Pipeline query)] ++
  (match Q_Run query with Some n => [("run", Itoa n)] | None => [] end) ++
  (if decide (Q_Stage query = "") then [] else [("stage", Q_Stage query)]) ++
  (if decide (Q_Job query = "") then [] else [("job", Q_Job query)]).

(** What the service reads of the query the gateway, or the CLI, writes. *)
Definition trimmed (q : ReportQuery) : ReportQuery :=
  MkReportQuery (TrimSpace (Q_Pipeline q)) (Q_Run q) (TrimSpace (Q_Stage q)) (TrimSpace (Q_Job q)).

Lemma trimmed_idempotent q : trimmed (trimmed q) = trimmed q.
Proof. unfold trimmed. simpl. by rewrite !TrimSpace_idempotent. Qed.

Lemma reportParams_keys q : NoDup (reportParams q).*1.
Proof. unfold reportParams. destruct (Q_Run q); repeat case_decide; simpl; by apply (bool_decide_unpack (NoDup _)). Qed.

Lemma reportParams_read q : let get := Get (ParseQuery (Encode (reportParams q))) in
  get "pipeline" = Q_Pipeline q /\ get "stage" = Q_Stage q /\ get "job" = Q_Job q /\
  get "run" = match Q_Run q with Some n => Itoa n | None => "" end.
Proof.
  simpl. rewrite !Get_Encode by apply reportParams_keys. unfold reportParams.
  destruct (Q_Run q); repeat case_decide; simpl; by rewrite ?Get_cons.
Qed.

Lemma parse_reportParams q : (forall n, Q_Run q = Some n -> (- 2 ^ 63 <= n < 2 ^ 63)%Z) ->
  parseReportQuery (Get (ParseQuery (Encode (reportParams q)))) = ok (trimmed q).
Proof.
  intros Hn. destruct (reportParams_read q) as (E1 & E2 & E3 & E4). unfold parseReportQuery. rewrite E1, E2, E3, E4.
  unfold trimmed. destruct (Q_Run q) as [n|] eqn:En; [|done].
  rewrite TrimSpace_Itoa, decide_False by apply Itoa_nonempty. by rewrite ParseInt64_Itoa by auto.
Qed.

Definition forwardReport {B} (c : Client) (query : ReportQuery)
    : (outgoing unit -> exchange B) -> writer B -> writer B * res unit :=
  forward "reporting service" (MkOutgoing "GET" (reportURL c +++ "/report") (Encode (reportParams query)) None).

(** ** handler.go *)

(** [api.WriteError(classifyError(err))] when forwarding failed. *)
Definition finish {B} (o : writer B * res unit) : writer B :=
  match o with
  | (w, inl _) => w
  | (w, inr e) => let '(status, code, message) := classifyError e in write_response (WriteError status code message) w
  end.

Definition handlePost {A B} (fwd : A -> (outgoing A -> exchange B) -> writer B -> writer B * res unit)
    (upstream : outgoing A -> exchange B) (method : string) (body : A) : writer B :=
  if decide (method ≠ "POST") then write_response (WriteError 405 "method_not_allowed" (StatusText 405)) fresh_writer
  else finish (fwd body upstream fresh_writer).

Definition handleValidate {A B} (c : Client) : (outgoing A -> exchange B) -> string -> A -> writer B := handlePost (forwardValidate c).
Definition handleDryRun {A B} (c : Client) : (outgoing A -> exchange B) -> string -> A -> writer B := handlePost (forwardDryRun c).
Definition handleRun {A B} (c : Client) : (outgoing A -> exchange B) -> string -> A -> writer B := handlePost (forwardRun c).

(** The gateway parses the query as the reporting service does; its message on
    a bad run differs. *)
Definition handleReport {B} (c : Client) (upstream : outgoing unit -> exchange B) (r : http_request unit) : writer B :=
  if decide (Method r ≠ "GET") then write_response (WriteError 405 "method_not_allowed" (StatusText 405)) fresh_writer else
  match parseReportQuery (QueryGet r) with
  | inr e => write_response (WriteError 400 "invalid_argument" ("run must be an integer: " +++ error_text e)) fresh_writer
  | inl query => finish (forwardReport c query upstream fresh_writer)
  end.

(** *** Readiness: a service's answer to [/ready], or no answer. *)

Definition checkReady (o : option Z) : string * bool :=
  match o with
  | None => ("not ready", false)
  | Some status => (if decide (status = 200%Z) then "ready" else "not ready", true)
  end.

Definition checkValidationReady := checkReady.
Definition checkReportReady := checkReady.
Definition checkOrchestratorReady := checkReady.

Record ReadyResponse := MkReady { Ready_Status : string; Ready_Services : gmap string string }.

(** The service's entry, when [checkReady] had no error. *)
Definition note_ready (name : string) (checked : string * bool) (services : gmap string string) : gmap string string :=
  let '(s, answered) := checked in if answered then <[name := s]> services else services.

Definition handleReady {A} (validation reporting orchestrator : option Z) (r : http_request A) : http_response ReadyResponse :=
  if decide (Method r ≠ "GET") then WriteError 405 "method_not_allowed" (StatusText 405) else
  let services := <["validation" := "unknown"]> (<["reporting" := "unknown"]> {["orchestrator" := "unknown"]}) in
  let services := note_ready "orchestrator" (checkOrchestratorReady orchestrator)
    (note_ready "reporting" (checkReportReady reporting) (note_ready "validation" (checkValidationReady validation) services)) in
  if bool_decide (Exists (fun kv => kv.2 ≠ "ready") (map_to_list services))
  then WriteJSON 503 (MkReady "not ready" services) else WriteJSON 200 (MkReady "ready" services).

(** *** The directory of services *)

Definition getGatewayPublicURL (env : string -> string) : string :=
  let url := TrimSpace (env "GATEWAY_PUBLIC_URL") in
  if decide (url = "") then "http://localhost:8000" else TrimRightSlash url.

Definition handleServices {A} (env : string -> string) (c : Client) (r : http_request A) : http_response (gmap string string) :=
  if decide (Method r ≠ "GET") then WriteError 405 "method_not_allowed" (StatusText 405) else
  WriteJSON 200 (<["validation" := validationURL c]> (<["orchestrator" := orchestratorURL c]>
    (<["reporting" := reportURL c]> {["gateway" := getGatewayPublicURL env]}))).

(** ** What the client of the gateway sees *)

(** The errors of the network and of the URL parser are not the gateway's own. *)
Definition foreign (e : goerr) : Prop := errors_Is e "upstream timeout" = false.

Lemma classify_foreign fmt args e : foreign e -> classifyError (ErrWrap fmt args e) = (502%Z, "upstream_unavailable", error_text (ErrWrap fmt args e)).
Proof. unfold classifyError, foreign. simpl. by intros ->. Qed.

Lemma finish_error {B} (e : goerr) : let '(status, code, message) := classifyError e in
  received (B := B) (finish (fresh_writer, err e)) = Some (WriteError status code message).
Proof. simpl. destruct (classifyError e) as [[status code] message]. reflexivity. Qed.

Lemma forward_received {A B} serviceName (req : outgoing A) (upstream : outgoing A -> exchange B) resp :
  bad_url (out_url req) = None -> upstream req = Answered resp None ->
  received (finish (forward serviceName req upstream fresh_writer)) = Some resp.
Proof. intros E1 E2. unfold forward. rewrite E1, E2. by destruct resp. Qed.

(** C38: the client of the gateway gets the service's answer as it is, or 504 when
    the call timed out, or 502 when it failed otherwise. When reading the body of
    the answer breaks off, the gateway's error follows what was already sent, under
    the status of the service: if nothing was sent, the client gets just that error
    with the service's status, 200 for instance; else what it gets does not
    decode. *)
Theorem forward_spec {A B} serviceName (req : outgoing A) (upstream : outgoing A -> exchange B) :
  (forall e, bad_url (out_url req) = Some e -> foreign e) ->
  (forall e, upstream req = CallFailed e -> foreign e) ->
  (forall resp how_much e, upstream req = Answered resp (Some (how_much, e)) -> foreign e) ->
  let w := finish (forward serviceName req upstream fresh_writer) in
  match bad_url (out_url req), upstream req with
  | Some _, _ => exists m, received w = Some (WriteError 502 "upstream_unavailable" m)
  | None, CallFailed e => exists m, received w =
      Some (if isTimeoutError e then WriteError 504 "upstream_timeout" m else WriteError 502 "upstream_unavailable" m)
  | None, Answered resp None => received w = Some resp
  | None, Answered resp (Some (Nothing, _)) =>
      exists m, received w = Some (MkHttpResponse (StatusCode resp) (inr (MkErrorResponse "upstream_unavailable" m)))
  | None, Answered resp (Some (Beginning, _)) => received w = None /\ wr_status w = Some (StatusCode resp) /\
      exists m, wr_body w = [Part (RespBody resp); Whole (inr (MkErrorResponse "upstream_unavailable" m))]
  end.
Proof.
  intros H1 H2 H3. unfold forward. destruct (bad_url (out_url req)) as [e|] eqn:Eu.
  { unfold finish, err. rewrite classify_foreign by auto. by eexists. }
  destruct (upstream req) as [e|resp [[[] e]|]] eqn:Ea; simpl.
  - unfold wrapUpstreamCallError. destruct (isTimeoutError e); [by eexists|].
    unfold finish, err. rewrite classify_foreign by auto. by eexists.
  - specialize (H3 resp _ e eq_refl). rewrite classify_foreign by done. by eexists.
  - specialize (H3 resp _ e eq_refl). rewrite classify_foreign by done. split; [done|]. split; [done|]. by eexists.
  - by destruct resp.
Qed.

(** What the readiness answer says of one service. *)
Definition ready_label (o : option Z) : string :=
  match o with None => "unknown" | Some s => if decide (s = 200%Z) then "ready" else "not ready" end.

Definition ready_services (validation reporting orchestrator : option Z) : gmap string string :=
  <["validation" := ready_label validation]> (<["reporting" := ready_label reporting]> {["orchestrator" := ready_label orchestrator]}).

Lemma noted_services v r o :
  note_ready "orchestrator" (checkOrchestratorReady o) (note_ready "reporting" (checkReportReady r) (note_ready "validation" (checkValidationReady v)
    (<["validation" := "unknown"]> (<["reporting" := "unknown"]> {["orchestrator" := "unknown"]})))) = ready_services v r o.
Proof. destruct v, r, o; reflexivity. Qed.

Lemma ready_label_200 o : ready_label o = "ready" <-> o = Some 200%Z.
Proof. destruct o as [s|]; simpl; [case_decide; naive_solver|done]. Qed.

Lemma some_service_unready v r o : Exists (fun kv => kv.2 ≠ "ready") (map_to_list (ready_services v r o)) <->
  ~ (v = Some 200%Z /\ r = Some 200%Z /\ o = Some 200%Z).
Proof.
  unfold ready_services. rewrite !map_to_list_insert, map_to_list_singleton by (by rewrite ?lookup_insert_ne, lookup_singleton_ne).
  rewrite !Exists_cons, Exists_nil, <- !ready_label_200. simpl.
  destruct (decide (ready_label v = "ready")), (decide (ready_label r = "ready")), (decide (ready_label o = "ready")); naive_solver.
Qed.

(** The gateway is ready exactly when each of its three services answered 200;
    a service that gave no answer is listed as "unknown". *)
Theorem handleReady_spec {A} (validation reporting orchestrator : option Z) (r : http_request A) :
  Method r = "GET" ->
  let resp := handleReady validation reporting orchestrator r in
  (StatusCode resp = 200%Z <-> validation = Some 200%Z /\ reporting = Some 200%Z /\ orchestrator = Some 200%Z) /\
  exists status, RespBody resp = inl (MkReady status (ready_services validation reporting orchestrator)) /\
    (status = "ready" <-> StatusCode resp = 200%Z).
Proof.
  intros Hm. unfold handleReady. rewrite Hm, decide_False, noted_services by naive_solver. simpl.
  pose proof (some_service_unready validation reporting orchestrator) as Hall.
  case_bool_decide as Hb; rewrite Hall in Hb; simpl.
  - split; [naive_solver|]. eexists. split; [done|]. naive_solver.
  - split; [|by eexists]. split; [intros _|done].
    destruct (decide (validation = Some 200%Z /\ reporting = Some 200%Z /\ orchestrator = Some 200%Z)); [done|naive_solver].
Qed.

End gateway.

(** ** Witnesses *)

(** An answer that breaks off while it is copied, and before. *)
Definition broken_answer (how_much : copied) (_ : outgoing unit) : exchange bool :=
  Answered (MkHttpResponse 200 (inl true)) (Some (how_much, ErrNew "unexpected EOF" [])).
Definition demo_forward (how_much : copied) : writer bool :=
  finish (fun _ => "unexpected EOF") (forward (fun _ => "unexpected EOF") (fun _ => false) (fun _ => None)
    "validation service" (MkOutgoing "POST" "http://localhost:8001/validate" "" (Some tt)) (broken_answer how_much) fresh_writer).

Lemma forward_spec_witness :
  (received (demo_forward Beginning) = None /\ wr_status (demo_forward Beginning) = Some 200%Z) /\
  exists m, received (demo_forward Nothing) = Some (MkHttpResponse 200 (inr (MkErrorResponse "upstream_unavailable" m))).
Proof.
  split.
  - destruct (forward_spec (fun _ => "unexpected EOF") (fun _ => false) (fun _ => None)
               "validation service" (MkOutgoing "POST" "http://localhost:8001/validate" "" (Some tt)) (broken_answer Beginning)) as (H1 & H2 & _).
    + done.
    + done.
    + intros resp how_much e [= <- <- <-]. reflexivity.
    + split; [exact H1|exact H2].
  - apply (forward_spec (fun _ => "unexpected EOF") (fun _ => false) (fun _ => None)
             "validation service" (MkOutgoing "POST" "http://localhost:8001/validate" "" (Some tt)) (broken_answer Nothing)).
    + done.
    + done.
    + intros resp how_much e [= <- <- <-]. reflexivity.
Defined.

Lemma handleReady_spec_witness :
  StatusCode (handleReady (Some 200%Z) None (Some 503%Z) (MkHttpRequest "GET" (fun _ => "") (BodyJSON tt))) ≠ 200%Z.
Proof.
  pose proof (handleReady_spec (Some 200%Z) None (Some 503%Z) (MkHttpRequest "GET" (fun _ => "") (BodyJSON tt)) eq_refl) as [H _].
  rewrite H. naive_solver.
Defined.
