(* ===== verification/Cli.v ===== *)
(** * The command line: the gateway's client and reports
    (internal/cli/gateway_client.go, report.go, root.go)

    What a command sends to the gateway and makes of the answer. An exchange with
    the gateway ends in no answer, in an answer whose body cannot be read, or in a
    status and a body, which is a JSON value or not JSON. Theorem: [cicd report]
    shows what the reporting service's [GetReport] answers for the query on the
    command line, through the client, the gateway and both query strings. *)

From Stdlib Require Import Ascii.
From S2P Require Import Prelude GoStrings Url Models Store Http Reporting Gateway.

(** ** Answers of the gateway *)

Inductive cli_body (B : Type) := JSONValue (v : B + ErrorResponse) | NotJSON (text : string).
Arguments JSONValue {B}. Arguments NotJSON {B}.

Inductive cli_exchange (B : Type) :=
| NoAnswer (e : goerr)
| Unread (e : goerr)
| Answer (status : Z) (body : cli_body B).
Arguments NoAnswer {B}. Arguments Unread {B}. Arguments Answer {B}.

(** How a type of bodies overlaps with [ErrorResponse] under [json.Unmarshal]:
    its "message" field, if it has one, and the value an error decodes to. *)
Class ResponseBody (B : Type) := { message_of : B -> string; of_error : ErrorResponse -> B; body_text : B + ErrorResponse -> string }.

Section client.
Context {B : Type} {RB : ResponseBody B}.

Definition parseGatewayError (statusCode : Z) (body : cli_body B) : goerr :=
  let message := match body with
                 | JSONValue (inr e) => TrimSpace (Err_Message e)
                 | JSONValue (inl v) => TrimSpace (message_of v)
                 | NotJSON _ => "" end in
  if decide (message ≠ "") then ErrNew "%s" [message]
  else ErrNew "gateway returned status %d: %s"
         [Itoa statusCode; match body with JSONValue v => body_text v | NotJSON text => text end].

Definition decodeJSONResponse (status : Z) (body : cli_body B) : res B :=
  if decide (status ≠ 200%Z) then err (parseGatewayError status body) else
  match body with
  | NotJSON _ => err (ErrNew "failed to unmarshal response: %w" [])
  | JSONValue (inl v) => ok v
  | JSONValue (inr e) => ok (of_error e)
  end.

(** [postJSON] and [doJSON], after the request was built. *)
Definition receive (o : cli_exchange B) : res B :=
  match o with
  | NoAnswer e => err (ErrWrap "failed to call gateway: %w" [] e)
  | Unread e => err (ErrWrap "failed to read response: %w" [] e)
  | Answer status body => decodeJSONResponse status body
  end.

(** What the client reads of a gateway's response. *)
Definition client_sees (w : writer B) : cli_exchange B :=
  match received w, wr_status w with
  | Some resp, _ => Answer (StatusCode resp) (JSONValue (RespBody resp))
  | None, Some status => Answer status (NotJSON "")
  | None, None => Answer 200 (NotJSON "")
  end.

End client.

(** [NewGatewayClient]: the variable is taken as it is. *)
Definition NewGatewayClient (env : string -> string) : string :=
  let gatewayURL := env "GATEWAY_URL" in if decide (gatewayURL = "") then "http://localhost:8000" else gatewayURL.

(** A POST, by a gateway that keeps a state [S]. *)
Definition postJSON {A B S} {RB : ResponseBody B} (baseURL path : string) (reqBody : A)
    (gateway : outgoing A -> S -> S * cli_exchange B) (s : S) : S * res B :=
  let '(s', o) := gateway (MkOutgoing "POST" (baseURL +++ path) "" (Some reqBody)) s in (s', receive o).

Definition Report {RB : ResponseBody ReportPipeline} (baseURL : string) (query : ReportQuery)
    (gateway : outgoing unit -> cli_exchange ReportPipeline) : res ReportPipeline :=
  let params := [("pipeline", Q_Pipeline query)] ++
    (match Q_Run query with Some n => [("run", Itoa n)] | None => [] end) ++
    (if decide (Q_Stage query = "") then [] else [("stage", Q_Stage query)]) ++
    (if decide (Q_Job query = "") then [] else [("job", Q_Job query)]) in
  receive (gateway (MkOutgoing "GET" (baseURL +++ "/report") (Encode params) None)).

(** ** cicd report *)

Record report_flags := MkReportFlags { reportRun : Z; reportStage : string; reportJob : string; reportFormat : string }.

Definition buildReportQuery (flags : report_flags) (pipeline : string) : res ReportQuery :=
  let stage := TrimSpace (reportStage flags) in
  let job := TrimSpace (reportJob flags) in
  if decide (pipeline = "") then err (ErrNew "pipeline name is required" []) else
  if decide (reportRun flags < 0)%Z then err (ErrNew "run must be a positive integer" []) else
  if decide (stage ≠ "" /\ reportRun flags = 0%Z) then err (ErrNew "run is required when stage is provided" []) else
  if decide (job ≠ "" /\ (reportRun flags = 0%Z \/ stage = ""))
  then err (ErrNew "run and stage are required when job is provided" [])
  else ok (MkReportQuery pipeline (if decide (0 < reportRun flags)%Z then Some (reportRun flags) else None) stage job).

(** [formatReport], over the two encoders of the formatter. *)
Definition formatReport {R} (yaml json : R -> res string) (report : R) (format : string) : res string :=
  if decide (format = "json") then json report else yaml report.

Definition runReport {RB : ResponseBody ReportPipeline} (yaml json : ReportPipeline -> res string) (baseURL : string)
    (gateway : outgoing unit -> cli_exchange ReportPipeline) (flags : report_flags) (pipeline : string) : res string :=
  query ← buildReportQuery flags pipeline;
  let format := ToLower (TrimSpace (reportFormat flags)) in
  if decide (format ≠ "yaml" /\ format ≠ "json") then err (ErrNew "invalid format %q (supported: yaml, json)" [format]) else
  report ← Report baseURL query gateway;
  formatReport yaml json report format.

(** ** From the command line to the tables and back *)

Lemma client_sees_received {B} {RB : ResponseBody B} (w : writer B) resp :
  received w = Some resp -> client_sees w = Answer (StatusCode resp) (JSONValue (RespBody resp)).
Proof. unfold client_sees. by intros ->. Qed.

Section report.
Context {CI : Collation} {RB : ResponseBody ReportPipeline}.
Context (error_text : goerr -> string) (net_timeout : goerr -> bool) (bad_url : string -> option goerr).
Context (fault : store_call -> option goerr) (view : store_call -> db).

(** A service at the other end of a request without a body. *)
Definition serve {A} (handler : http_request unit -> A) (req : outgoing unit) : A :=
  handler (MkHttpRequest (out_method req) (Get (ParseQuery (out_query req))) (BodyJSON tt)).

Definition report_service : outgoing unit -> exchange ReportPipeline :=
  serve (fun r => Answered (Reporting.handleReport error_text fault view r) None).
Definition report_gateway (c : Client) : outgoing unit -> cli_exchange ReportPipeline :=
  serve (fun r => client_sees (handleReport error_text net_timeout bad_url c report_service r)).

Definition report_answer (q : ReportQuery) : res ReportPipeline :=
  match GetReport fault view q with
  | inl report => ok report
  | inr e => let '(status, code, message) := Reporting.classifyError error_text e in
             err (parseGatewayError status (JSONValue (inr (MkErrorResponse code message))))
  end.

Lemma classifyError_status e : (Reporting.classifyError error_text e).1.1 ≠ 200%Z.
Proof. unfold Reporting.classifyError. by repeat case_match. Qed.

Lemma service_answer url q : (forall n, Q_Run q = Some n -> (- 2 ^ 63 <= n < 2 ^ 63)%Z) -> trimmed q = q ->
  exists resp, report_service (MkOutgoing "GET" url (Encode (reportParams q)) None) = Answered resp None /\
    decodeJSONResponse (StatusCode resp) (JSONValue (RespBody resp)) = report_answer q.
Proof.
  intros Hn Ht. unfold report_service, serve, Reporting.handleReport. simpl. rewrite parse_reportParams, Ht by done. simpl.
  unfold report_answer. destruct (GetReport fault view q) as [report|e]; [by eexists|].
  pose proof (classifyError_status e) as Hs. destruct (Reporting.classifyError error_text e) as [[status code] message].
  eexists. split; [done|]. unfold decodeJSONResponse. simpl. by rewrite decide_True.
Qed.

Lemma Report_through_gateway baseURL c q : (forall n, Q_Run q = Some n -> (- 2 ^ 63 <= n < 2 ^ 63)%Z) ->
  bad_url (reportURL c +++ "/report") = None -> Report baseURL q (report_gateway c) = report_answer (trimmed q).
Proof.
  intros Hn Hu. unfold Report. fold (reportParams q). unfold report_gateway, serve, handleReport. simpl.
  rewrite parse_reportParams by done. simpl.
  destruct (service_answer (reportURL c +++ "/report") (trimmed q)) as (resp & Er & Ed); [done|apply trimmed_idempotent|].
  rewrite (client_sees_received _ resp); [exact Ed|]. by apply forward_received.
Qed.

Lemma buildReportQuery_run flags pipeline q n :
  (reportRun flags < 2 ^ 63)%Z -> buildReportQuery flags pipeline = ok q -> Q_Run q = Some n -> (0 < n < 2 ^ 63)%Z.
Proof. unfold buildReportQuery. intros Hf. repeat case_decide; try done; intros [= <-]; simpl; [|done]. intros [= <-]. lia. Qed.

Lemma buildReportQuery_blank flags pipeline q :
  buildReportQuery flags pipeline = ok q -> malformed (trimmed q) <-> TrimSpace pipeline = "".
Proof.
  unfold buildReportQuery, malformed. intros Hq.
  assert (Ht : Q_Pipeline q = pipeline /\ TrimSpace (Q_Stage q) = Q_Stage q /\ TrimSpace (Q_Job q) = Q_Job q).
  { repeat case_decide; try done; injection Hq as <-; simpl; by rewrite !TrimSpace_idempotent. }
  destruct Ht as (Hp & Hs & Hj). unfold trimmed. simpl. rewrite Hp, Hs, Hj, TrimSpace_idempotent.
  repeat case_decide; try done; injection Hq as <-; simpl in *; naive_solver lia.
Qed.

(** C29: [cicd report], through the gateway and the reporting service and both
    query strings, shows what [GetReport] answers for the query on the command
    line without surrounding blanks: its report in the format asked for, or its
    error's message, which hides the store's. The command line's own checks let
    only a blank pipeline name reach the service as a malformed query. *)
Theorem runReport_spec yaml json baseURL c flags pipeline :
  (reportRun flags < 2 ^ 63)%Z -> bad_url (reportURL c +++ "/report") = None ->
  runReport yaml json baseURL (report_gateway c) flags pipeline =
    (query ← buildReportQuery flags pipeline;
     let format := ToLower (TrimSpace (reportFormat flags)) in
     if decide (format ≠ "yaml" /\ format ≠ "json") then err (ErrNew "invalid format %q (supported: yaml, json)" [format]) else
     report ← report_answer (trimmed query);
     formatReport yaml json report format) /\
  forall query, buildReportQuery flags pipeline = ok query -> malformed (trimmed query) <-> TrimSpace pipeline = "".
Proof.
  intros Hf Hu. split; [|apply buildReportQuery_blank]. unfold runReport.
  destruct (buildReportQuery flags pipeline) as [query|e] eqn:Eq; [|done]. simpl. case_decide; [done|].
  rewrite Report_through_gateway; [done| |done].
  intros n Hn. pose proof (buildReportQuery_run _ _ _ _ Hf Eq Hn). lia.
Qed.

End report.

(** Bodies of reports: a report has no "message" of its own. *)
Definition report_body : ResponseBody ReportPipeline := {|
  message_of := fun _ => ""; of_error := fun _ => MkReportPipeline "" [] 0 "" "" zeroTime None [] []; body_text := fun _ => "" |}.

(** One job of [report_view], asked for with blanks around its names; a job that
    the stage does not have. *)
Lemma runReport_spec_witness :
  let show := fun flags pipeline => runReport (RB := report_body) (fun r => ok (RP_Name r)) (fun r => ok (RP_Status r)) "http://localhost:8000"
    (report_gateway (CI := ascii_ci_collation) (fun e => match e with ErrNew _ _ => "new" | _ => "wrapped" end) (fun _ => false) (fun _ => None)
       (fun _ => None) report_view (MkClient "" "" "http://localhost:8004")) flags pipeline in
  show (MkReportFlags 1 " build " " compile" "JSON ") " demo" = ok "queued" /\
  show (MkReportFlags 1 "build" "absent" "yaml") "demo" = err (ErrNew "%s" ["wrapped"]).
Proof.
  split.
  - rewrite (proj1 (runReport_spec (CI := ascii_ci_collation) (RB := report_body) _ _ _ _ _ _ _ _ _ (MkReportFlags 1 " build " " compile" "JSON ") " demo" eq_refl eq_refl)).
    vm_compute. reflexivity.
  - rewrite (proj1 (runReport_spec (CI := ascii_ci_collation) (RB := report_body) _ _ _ _ _ _ _ _ _ (MkReportFlags 1 "build" "absent" "yaml") "demo" eq_refl eq_refl)).
    vm_compute. reflexivity.
Defined.

(** ** Suggestions for a mistyped command (root.go) *)

Definition quote : ascii := ascii_of_N 34.

Definition findTypedSubCmd (errMsg : string) : string :=
  if negb (HasPrefix errMsg "unknown command ") then "" else
  match Cut quote errMsg with
  | (_, None) => ""
  | (_, Some rest) => match Cut quote rest with (_, None) => "" | (typed, Some _) => typed end
  end.

Inductive command := MkCommand (name : string) (aliases : list string) (subcommands : list command).

Fixpoint findCommandByName (cmd : command) (cmdName : string) : option command :=
  match cmd with
  | MkCommand name aliases subs =>
    if decide (name = cmdName \/ cmdName ∈ aliases) then Some cmd else
    (fix search (l : list command) : option command :=
       match l with
       | [] => None
       | c :: l' => match findCommandByName c cmdName with Some found => Some found | None => search l' end
       end) subs
  end.

(** The command whose usage is shown after an error that names an unknown one;
    [SuggestionsFor] is cobra's. *)
Definition handleUnknownCommandError (SuggestionsFor : string -> list string) (rootCmd : command) (errMsg : string)
    : option command :=
  if negb (HasPrefix errMsg "unknown command ") then None else
  let typedSubCmd := findTypedSubCmd errMsg in
  if decide (typedSubCmd = "") then None else
  match SuggestionsFor typedSubCmd with
  | [] => None
  | suggestedName :: _ => findCommandByName rootCmd suggestedName
  end.

(** What a failed command leaves: the error it prints and the usage it shows. *)
Definition Execute (SuggestionsFor : string -> list string) (rootCmd : command) (failure : option string)
    : option (string * option command) :=
  (fun errMsg => ("Error: " +++ errMsg, handleUnknownCommandError SuggestionsFor rootCmd errMsg)) <$> failure.

(** The command itself and all below it, in the order of the search. *)
Fixpoint commands (cmd : command) : list command :=
  match cmd with MkCommand _ _ subs => cmd :: mjoin (commands <$> subs) end.
Definition answers_to (cmdName : string) (cmd : command) : Prop :=
  match cmd with MkCommand name aliases _ => name = cmdName \/ cmdName ∈ aliases end.
#[local] Instance answers_to_dec cmdName cmd : Decision (answers_to cmdName cmd).
Proof. destruct cmd. apply _. Defined.

(** The search finds the first command of the tree with the name or alias. *)
Lemma findCommandByName_first cmdName :
  forall cmd, findCommandByName cmd cmdName = head (filter (answers_to cmdName) (commands cmd)).
Proof.
  fix first_found 1. intros [name aliases subs]. change (commands (MkCommand name aliases subs)) with (MkCommand name aliases subs :: mjoin (commands <$> subs)).
  rewrite filter_cons. case_decide as Ha; simpl in Ha; cbn [findCommandByName]; [by rewrite decide_True|rewrite decide_False by done].
  induction subs as [|c subs IH]; [done|]. simpl. rewrite filter_app, first_found.
  destruct (filter _ (commands c)); simpl; [apply IH|done].
Qed.

Lemma findTypedSubCmd_quoted typed rest : quote ∉ chars typed ->
  findTypedSubCmd ("unknown command " +++ String quote (typed +++ String quote rest)) = typed.
Proof.
  intros H. unfold findTypedSubCmd, HasPrefix. rewrite prefix_append. simpl negb. cbn iota.
  rewrite Cut_append by (by apply (bool_decide_unpack _); vm_compute). by rewrite Cut_append.
Qed.

Example typed_subcommand :
  findTypedSubCmd ("unknown command " +++ String quote ("veriff" +++ String quote " for x")) = "veriff".
Proof. vm_compute. reflexivity. Qed.
Example verify_is_validate :
  findCommandByName (MkCommand "cicd" [] [MkCommand "report" [] []; MkCommand "validate" ["verify"] []]) "verify"
  = Some (MkCommand "validate" ["verify"] []).
Proof. reflexivity. Qed.
