(* ===== verification/Commands.v ===== *)
(** * The commands (internal/cli/validate.go, dryrun.go, run.go, repo_context.go)

    A command works on the repository, the files and the gateway, each given by
    what its calls answer; the gateway and what lies behind it keep a state. What
    a command does to the repository and prints is its trace. Theorems: which
    request a local run sends, and that the worktree it names stays behind;
    validating a directory stops at the first file that is not valid; files of
    the same name share one cached answer. *)

From stdpp Require Import sorting.
From S2P Require Import Prelude GoStrings Paths Pipelinepath Git Models Graph Parser Wellformed Store Http Validation Gateway Cli.

(** ** Actions, and a monad of state, trace and errors *)

Inductive cli_action :=
| Git (a : git_action)
| Print (line : string)
| Complain (line : string).

Definition io (S A : Type) : Type := S -> list cli_action * (S * res A).
#[export] Instance io_ret {S} : MRet (io S) := fun A a s => ([], (s, ok a)).
#[export] Instance io_bind {S} : MBind (io S) := fun A B f m s =>
  match m s with
  | (tr, (s', inr e)) => (tr, (s', err e))
  | (tr, (s', inl a)) => let '(tr', o) := f a s' in (tr ++ tr', o)
  end.

Definition lift {S A} (r : res A) : io S A := fun s => ([], (s, r)).
Definition emit {S} (a : cli_action) : io S unit := fun s => ([a], (s, ok tt)).
Definition git {S A} (o : list git_action * res A) : io S A := fun s => (Git <$> o.1, (s, o.2)).

Definition wrapped {A} (fmt : string) (args : list string) (r : res A) : res A :=
  match r with inr e => err (ErrWrap fmt args e) | inl a => ok a end.
Definition wrapping {S A} (fmt : string) (args : list string) (m : io S A) : io S A :=
  fun s => let '(tr, (s', r)) := m s in (tr, (s', wrapped fmt args r)).

(** ** What surrounds a command *)

(** One call of the callback of [filepath.WalkDir]. *)
Record walk_entry := MkWalkEntry { we_path : string; we_isDir : bool; we_error : option goerr }.

(** [ce_worktree path] answers for the worktree in which [path] is read, and
    [ce_workspace] for the one in which a run works; [ce_read] reads any file. *)
Record cli_env := MkCliEnv {
  ce_open : res Repository;
  ce_getwd : res string;
  ce_stat : string -> stat_answer;
  ce_walk : string -> list walk_entry;
  ce_readdir : string -> res (list (string * bool));
  ce_head : res reference;
  ce_worktree : string -> worktree_env;
  ce_workspace : worktree_env;
  ce_read : string -> res string;
}.

(** ** Reading pipeline files *)

(** What [openGitRepo] put in the context; cobra runs it before the command. *)
Definition openGitRepo (env : cli_env) : res Repository :=
  wrapped "validate, dryrun, run commands can only run within a git repo: %w" [] (ce_open env).
Definition repoFromCommandContext (cmd_repo : option Repository) : res Repository :=
  match cmd_repo with Some repo => ok repo | None => err (ErrNew "git repository context is missing" []) end.

Definition readAt (env : cli_env) (repo : Repository) (commit path : string) : list git_action * res string :=
  let '(tr, r) := ReadFileAtCommit repo (ce_getwd env) (ce_worktree env path) (ce_read env) commit path in
  (tr, wrapped "read pipeline file failed: %w" [] r).

Fixpoint collect (entries : list walk_entry) : res (list string) :=
  match entries with
  | [] => ok []
  | MkWalkEntry path isDir error :: rest =>
    match error with
    | Some e => err e
    | None =>
      files ← collect rest;
      let ext := ToLower (filepath_Ext path) in
      ok (if negb isDir && (bool_decide (ext = ".yaml") || bool_decide (ext = ".yml")) then path :: files else files)
    end
  end.
Definition collectYAMLFiles (env : cli_env) (dir : string) : res (list string) := collect (ce_walk env dir).

(** [TrimPrefix(msg, "content:")], of a message that starts with it. *)
Definition after_content (msg : string) : string := String.substring 8 (String.length msg - 8) msg.

Definition errorLine (pipelinePath errMsg : string) : string :=
  let msg := TrimSpace errMsg in
  if decide (msg = "") then pipelinePath +++ ": validation failed"
  else if HasPrefix msg "content:" then pipelinePath +++ ":" +++ after_content msg
  else if Contains msg pipelinePath then msg
  else pipelinePath +++ ": " +++ msg.

Fixpoint complain_all {S} (lines : list string) : io S unit :=
  match lines with [] => mret tt | l :: rest => emit (Complain l) ≫= fun _ => complain_all rest end.

Section commands.
Context {S : Type} {VB : ResponseBody ValidateResponse} {DB : ResponseBody DryRunResponse} {RB : ResponseBody RunResponse}.
Context (baseURL : string).
Context (gateway_validate : outgoing ValidateRequest -> S -> S * cli_exchange ValidateResponse).
Context (gateway_dryrun : outgoing ValidateRequest -> S -> S * cli_exchange DryRunResponse).
Context (gateway_run : outgoing RunRequest -> S -> S * cli_exchange RunResponse).

Definition Validate (req : ValidateRequest) : io S ValidateResponse :=
  fun s => ([], postJSON baseURL "/validate" req gateway_validate s).
Definition DryRun (req : ValidateRequest) : io S DryRunResponse :=
  fun s => ([], postJSON baseURL "/dryrun" req gateway_dryrun s).
Definition RunPipeline (req : RunRequest) : io S RunResponse :=
  fun s => ([], postJSON baseURL "/run" req gateway_run s).

(** ** cicd validate *)

Definition showValidation (pipelinePath : string) (response : ValidateResponse) : io S unit :=
  if VResp_Valid response then mret tt else
  match VResp_Errors response with
  | [] => _ ← emit (Complain (pipelinePath +++ ": validation failed (no error details returned)"));
          lift (err (ErrNew "validation failed with %d error(s)" [Itoa 1]))
  | errors => _ ← complain_all (errorLine pipelinePath <$> errors);
          lift (err (ErrNew "validation failed with %d error(s)" [Itoa (Z.of_nat (length errors))]))
  end.

(** The file's own name stands for its path. *)
Definition validateSinglePipeline (path commit pipelineData : string) : io S unit :=
  let pipelinePath := path_Base path in
  response ← wrapping "failed to verify %q: %w" [pipelinePath] (Validate (MkValidateRequest pipelineData commit pipelinePath));
  showValidation pipelinePath response.

Definition validateTarget (env : cli_env) (repo : Repository) (commit target : string) : io S unit :=
  pipelineData ← git (readAt env repo commit target);
  validateSinglePipeline target commit pipelineData.

Fixpoint validateTargets (env : cli_env) (repo : Repository) (commit : string) (targets : list string) : io S unit :=
  match targets with
  | [] => mret tt
  | target :: rest =>
    _ ← validateTarget env repo commit target;
    _ ← emit (Print (target +++ ": pipeline is valid"));
    validateTargets env repo commit rest
  end.

Definition validatePipelineDir (env : cli_env) (repo : Repository) (dir commit : string) : io S unit :=
  targets ← lift (wrapped "failed to enumerate directory %q: %w" [dir] (collectYAMLFiles env dir));
  if decide (targets = []) then lift (err (ErrNew "no YAML files found in directory: %s" [dir])) else
  validateTargets env repo commit (merge_sort String.le targets).

Definition runValidate (env : cli_env) (cmd_repo : option Repository) (arg : string) : io S unit :=
  repo ← lift (repoFromCommandContext cmd_repo);
  target ← lift (ResolveInputPath (ce_stat env) (ce_getwd env) (root repo) arg);
  commit ← lift (wrapped "get head commit failed: %w" [] (GetHeadCommit (ce_head env)));
  let '(completePath, isDir) := target in
  if (isDir : bool) then validatePipelineDir env repo completePath commit else
  _ ← validateTarget env repo commit completePath;
  emit (Print "pipeline is valid").

Lemma complain_all_state (lines : list string) (s : S) : (complain_all lines s).2 = (s, ok tt).
Proof. induction lines as [|l lines IH]; [done|]. simpl. unfold mbind, io_bind. simpl. by destruct (complain_all lines s). Qed.

(** Printing leaves the gateway alone. *)
Lemma showValidation_state pipelinePath response s : exists r, (showValidation pipelinePath response s).2 = (s, r) /\
  (r = ok tt <-> VResp_Valid response = true).
Proof.
  unfold showValidation. destruct (VResp_Valid response); [by eexists|].
  destruct (VResp_Errors response) as [|e errors]; [by eexists|]. unfold mbind, io_bind.
  pose proof (complain_all_state (errorLine pipelinePath <$> e :: errors) s) as H.
  destruct (complain_all (errorLine pipelinePath <$> e :: errors) s) as [tr o]. simpl in H. subst o. by eexists.
Qed.

Lemma validateSinglePipeline_answer path commit data s s' response :
  Validate (MkValidateRequest data commit (path_Base path)) s = ([], (s', ok response)) ->
  validateSinglePipeline path commit data s = showValidation (path_Base path) response s'.
Proof.
  intros E. unfold validateSinglePipeline, mbind, io_bind, wrapping. rewrite E. cbn [wrapped ok].
  by destruct (showValidation _ response s').
Qed.

(** ** cicd dryrun *)

Definition formatOutput (yaml json : option ExecutionPlan -> res string) (plan : option ExecutionPlan) (format : string) : res string :=
  let format := ToLower (TrimSpace format) in
  let format := if decide (format = "") then "yaml" else format in
  if decide (format = "yaml") then yaml plan
  else if decide (format = "json") then json plan
  else err (ErrNew "invalid format %q (supported: yaml, json)" [format]).

(** The first error that is not blank, in the message. *)
Fixpoint firstMessage (errors : list string) : option string :=
  match errors with
  | [] => None
  | errMsg :: rest => let msg := TrimSpace errMsg in if decide (msg = "") then firstMessage rest else Some msg
  end.

Definition runDryRun (yaml json : option ExecutionPlan -> res string) (env : cli_env) (cmd_repo : option Repository)
    (formatting arg : string) : io S unit :=
  repo ← lift (repoFromCommandContext cmd_repo);
  target ← lift (ResolveInputPath (ce_stat env) (ce_getwd env) (root repo) arg);
  commit ← lift (wrapped "get head commit failed: %w" [] (GetHeadCommit (ce_head env)));
  let completePath := target.1 in
  pipelineData ← git (readAt env repo commit completePath);
  response ← wrapping "dry run failed, error: %w" [] (DryRun (MkValidateRequest pipelineData commit (path_Base completePath)));
  if DResp_Valid response then
    output ← lift (formatOutput yaml json (DResp_ExecutionPlan response) formatting);
    emit (Print output)
  else
    _ ← complain_all (DResp_Errors response);
    let n := Itoa (Z.of_nat (length (DResp_Errors response))) in
    lift (match firstMessage (DResp_Errors response) with
          | Some msg => err (ErrNew "dry run failed with %d error(s): %s" [n; msg])
          | None => err (ErrNew "dry run failed with %d error(s)" [n])
          end).

(** [runValidateQuiet] is cobra's step before: what [runValidate] prints is lost. *)
Definition kept (a : cli_action) : bool := match a with Print _ => false | _ => true end.
Definition quiet {A} (m : io S A) : io S A := fun s => let '(tr, o) := m s in (filter (fun a => kept a = true) tr, o).
Definition runValidateQuiet (open_null : res unit) (env : cli_env) (cmd_repo : option Repository) (arg : string) : io S unit :=
  _ ← lift open_null;
  quiet (runValidate env cmd_repo arg).

(** ** cicd run *)

Record run_flags := MkRunFlags { runFile : string; runName : string; runBranch : string; runCommit : string; runRemote : string }.

Section remote.
Context (yaml_Unmarshal : string -> res yaml_node).
Context (NewHash : string -> string) (lookup : string -> res reference) (Log : string -> res git_log).
Context (getenv : string -> string) (endpoint_scheme : string -> res string)
  (load_key : string -> string -> string -> res AuthMethod) (remotes : string -> res (list string))
  (Fetch : string -> string -> option AuthMethod -> option goerr).

(** The first file in the directory that parses to a pipeline of that name. *)
Fixpoint findNamed (env : cli_env) (name pipelineDir : string) (files : list (string * bool)) : go (res string) :=
  match files with
  | [] => Ret (err (ErrNew "pipeline with name %s not found" [name]))
  | (file, isDir) :: rest =>
    if (isDir : bool) then findNamed env name pipelineDir rest else
    let filePath := filepath_Join pipelineDir file in
    parsed ← Parse yaml_Unmarshal (ce_read env) (NewParser filePath);
    match parsed with
    | inr _ => findNamed env name pipelineDir rest
    | inl (pipeline, _) =>
      if decide (Pipeline_Name pipeline = name) then
        Ret (ok (match ce_getwd env with
                 | inr _ => filePath
                 | inl cwd => match filepath_Rel cwd filePath with inr _ => filePath | inl rel => rel end
                 end))
      else findNamed env name pipelineDir rest
    end
  end.

Definition findPipelineByName (env : cli_env) (name root : string) : go (res string) :=
  let pipelineDir := filepath_Join root DefaultPipelineDir in
  match ce_readdir env pipelineDir with
  | inr e => Ret (err (ErrWrap "failed to read pipeline directory: %w" [] e))
  | inl files => findNamed env name pipelineDir files
  end.

(** Branch and commit of a local run; the fetches and the check of a remote one. *)
Definition resolveLocal (env : cli_env) (flags : run_flags) : res run_flags :=
  headBranch ← GetHeadBranch (ce_head env);
  let branch := if decide (runBranch flags = "") then headBranch else runBranch flags in
  headCommit ← GetHeadCommit (ce_head env);
  let commit := if decide (runCommit flags = "") then headCommit else runCommit flags in
  contains ← BranchContainsCommit NewHash lookup Log branch commit;
  if (contains : bool) then ok (MkRunFlags (runFile flags) (runName flags) branch commit (runRemote flags))
  else err (ErrNew "commit %q can not be found at branch %q" [commit; branch]).

Definition checkRemote (flags : run_flags) : list (option AuthMethod) * res run_flags :=
  let '(fetches, contains) := RemoteBranchContainsCommit NewHash lookup Log getenv endpoint_scheme load_key remotes Fetch
    (runRemote flags) (runBranch flags) (runCommit flags) None in
  (fetches, b ← contains;
     if (b : bool) then ok flags
     else err (ErrNew "commit %q can not be found at branch %q at remote %q" [runCommit flags; runBranch flags; runRemote flags])).

Definition trimFlags (f : run_flags) : run_flags :=
  MkRunFlags (TrimSpace (runFile f)) (TrimSpace (runName f)) (TrimSpace (runBranch f)) (TrimSpace (runCommit f)) (TrimSpace (runRemote f)).

(** The file of the run: the flag's, or the one found by name. *)
Definition chooseFile (env : cli_env) (repo : Repository) (flags : run_flags) : go (res string) :=
  if decide (runFile flags = "" /\ runName flags = "") then Ret (err (ErrNew "must provide at least one of --file or --name" [])) else
  if decide (runFile flags ≠ "" /\ runName flags ≠ "") then Ret (err (ErrNew "must provide exactly one --file or --name" [])) else
  if decide (runName flags ≠ "") then findPipelineByName env (runName flags) (root repo) else
  match ce_stat env (runFile flags) with
  | StatNotExist _ | StatError _ => Ret (err (ErrNew "invalid --file: %s" [runFile flags]))
  | StatDir | StatFile => Ret (ok (runFile flags))
  end.

(** The flags as [runRun] finds them, and the fetches made. *)
Definition runPreRunE (env : cli_env) (flags : run_flags) : go (list (option AuthMethod) * res run_flags) :=
  match ce_open env with
  | inr e => Ret ([], err e)
  | inl repo =>
    let flags := trimFlags flags in
    file ← chooseFile env repo flags;
    Ret (match file with
         | inr e => ([], err e)
         | inl f =>
           let flags := MkRunFlags f (runName flags) (runBranch flags) (runCommit flags) (runRemote flags) in
           if decide (runRemote flags = "") then ([], resolveLocal env flags) else checkRemote flags
         end)
  end.

(** The request of a run; the worktree of a local one stays. *)
Definition runRequest (env : cli_env) (repo : Repository) (flags : run_flags) : io S RunRequest :=
  if decide (runRemote flags = "") then
    worktree ← wrapping "failed to prepare workspace for commit %q: %w" [runCommit flags]
                 (git (CreateDetachedWorktree (ce_workspace env) (runCommit flags)));
    target ← lift (ResolveInputPath (ce_stat env) (ce_getwd env) (root repo) (runFile flags));
    pipelineData ← git (readAt env repo (runCommit flags) target.1);
    mret (MkRunRequest pipelineData (runBranch flags) (runCommit flags) "" worktree)
  else
    fileContent ← lift (wrapped "failed to read run file %q: %w" [runFile flags] (ce_read env (runFile flags)));
    remoteURL ← lift (GetRepoURL remotes (runRemote flags));
    mret (MkRunRequest fileContent (runBranch flags) (runCommit flags) remoteURL "").

Definition print_unless (blank : bool) (line : string) : io S unit := if blank then mret tt else emit (Print line).

(** The end of [runRun]: the run's number, name, status and message. *)
Definition showRun (response : RunResponse) : io S unit :=
  match RunResp_Errors response with
  | [] =>
    _ ← print_unless (bool_decide (RunResp_RunNo response = 0%Z)) ("Run number: " +++ Itoa (RunResp_RunNo response));
    _ ← print_unless (bool_decide (TrimSpace (RunResp_Pipeline response) = "")) ("Pipeline: " +++ RunResp_Pipeline response);
    _ ← print_unless (bool_decide (TrimSpace (RunResp_Status response) = "")) ("Status: " +++ RunResp_Status response);
    print_unless (bool_decide (TrimSpace (RunResp_Message response) = "")) (RunResp_Message response)
  | errors =>
    _ ← complain_all errors;
    lift (err (ErrNew "run failed %!w(<nil>)" []))
  end.

Definition runRun (env : cli_env) (cmd_repo : option Repository) (flags : run_flags) : io S unit :=
  repo ← lift (repoFromCommandContext cmd_repo);
  req ← runRequest env repo flags;
  response ← wrapping "run failed %w" [] (RunPipeline req);
  showRun response.

(** ** What a local run does *)

Lemma bind_inv {A B} (m : io S A) (f : A -> io S B) s tr s' b :
  (m ≫= f) s = (tr, (s', ok b)) -> exists tr1 s1 a tr2, m s = (tr1, (s1, ok a)) /\ f a s1 = (tr2, (s', ok b)) /\ tr = tr1 ++ tr2.
Proof.
  unfold mbind, io_bind. destruct (m s) as [tr1 [s1 [a|e]]]; [|by intros [= <- <-]].
  destruct (f a s1) as [tr2 o] eqn:Ef. intros [= <- ->]. by exists tr1, s1, a, tr2.
Qed.

(** Every action of a command, from those of its parts. *)
Definition quietly (P : cli_action -> Prop) {A} (m : io S A) : Prop := forall s, Forall P (m s).1.

Lemma quietly_ret P {A} (a : A) : quietly P (mret a : io S A).
Proof. intros s. constructor. Qed.
Lemma quietly_bind P {A B} (m : io S A) (f : A -> io S B) : quietly P m -> (forall a, quietly P (f a)) -> quietly P (m ≫= f).
Proof.
  intros Hm Hf s. unfold mbind, io_bind. specialize (Hm s). destruct (m s) as [tr [s' [a|e]]]; [|done].
  specialize (Hf a s'). destruct (f a s') as [tr' o]. by apply Forall_app.
Qed.
Lemma quietly_lift P {A} (r : res A) : quietly P (lift r : io S A).
Proof. intros s. constructor. Qed.
Lemma quietly_emit (P : cli_action -> Prop) a : P a -> quietly P (emit a : io S unit).
Proof. intros Ha s. by repeat constructor. Qed.
Lemma quietly_git P {A} (o : list git_action * res A) : Forall P (Git <$> o.1) -> quietly P (git o : io S A).
Proof. by intros H s. Qed.
Lemma quietly_wrapping P {A} fmt args (m : io S A) : quietly P m -> quietly P (wrapping fmt args m).
Proof. intros Hm s. specialize (Hm s). unfold wrapping. by destruct (m s) as [tr [s' r]]. Qed.
Lemma quietly_complain (P : cli_action -> Prop) lines : (forall l, P (Complain l)) -> quietly P (complain_all lines : io S unit).
Proof. intros H. induction lines; [apply quietly_ret|]. apply quietly_bind; [by apply quietly_emit|done]. Qed.
Lemma quietly_RunPipeline P req : quietly P (RunPipeline req).
Proof. intros s. constructor. Qed.

(** What removes the worktree at [dir]. *)
Definition leaves (dir : string) (a : cli_action) : Prop := a ≠ Git (WorktreeRemove dir) /\ a ≠ Git (RemoveAll dir).

Lemma readAt_leaves env repo commit path dir :
  we_mkdir (ce_worktree env path) ≠ ok dir -> Forall (leaves dir) (Git <$> (readAt env repo commit path).1).
Proof.
  intros Hd. apply Forall_fmap, Forall_forall. unfold readAt, ReadFileAtCommit, CreateDetachedWorktree. intros a.
  repeat (case_decide; [by intros ?%elem_of_nil|]). destruct (resolveRepoRelativePath _ _ _); [|by intros ?%elem_of_nil].
  destruct (we_mkdir _) as [d|e]; [|by intros ?%elem_of_nil]. assert (d ≠ dir) by (unfold ok in Hd; congruence).
  destruct (we_add _); simpl; set_unfold; unfold leaves; simpl; intros Ha; destruct_or?; subst; naive_solver.
Qed.

Lemma showRun_leaves dir response : quietly (leaves dir) (showRun response).
Proof.
  assert (Hp : forall b l, quietly (leaves dir) (print_unless b l)).
  { intros [] l; [apply quietly_ret|by apply quietly_emit]. }
  unfold showRun. destruct (RunResp_Errors response) as [|e errors].
  - repeat (apply quietly_bind; [apply Hp|intros _]). apply Hp.
  - apply quietly_bind; [by apply quietly_complain|intros _; apply quietly_lift].
Qed.

(** Printing leaves the gateway alone. *)
Lemma showRun_state response s : (showRun response s).2.1 = s.
Proof.
  unfold showRun. destruct (RunResp_Errors response) as [|e errors].
  - by repeat destruct (bool_decide _).
  - unfold mbind, io_bind. pose proof (complain_all_state (e :: errors) s) as H.
    destruct (complain_all (e :: errors) s) as [tr o]. simpl in H. by rewrite H.
Qed.

Lemma resolveLocal_ok env flags flags' : resolveLocal env flags = ok flags' ->
  runFile flags' = runFile flags /\ runRemote flags' = runRemote flags /\
  BranchContainsCommit NewHash lookup Log (runBranch flags') (runCommit flags') = ok true.
Proof.
  unfold resolveLocal. intros (hb & _ & (hc & _ & (c & Hc & H)%res_bind_ok)%res_bind_ok)%res_bind_ok.
  destruct c; [|done]. by injection H as <-.
Qed.

Lemma checkRemote_ok flags flags' : (checkRemote flags).2 = ok flags' -> flags' = flags.
Proof.
  unfold checkRemote. destruct (RemoteBranchContainsCommit _ _ _ _ _ _ _ _ _ _ _ _) as [fetches contains]. simpl.
  intros (b & _ & H)%res_bind_ok. destruct b; [by injection H|done].
Qed.

Lemma chooseFile_one env repo flags f : chooseFile env repo flags = Ret (ok f) -> (runFile flags = "" <-> runName flags ≠ "").
Proof.
  unfold chooseFile. case_decide as H1; [done|]. case_decide as H2; [done|]. intros _.
  destruct (decide (runFile flags = "")), (decide (runName flags = "")); tauto.
Qed.

Lemma runPreRunE_local env flags0 fetches flags :
  runPreRunE env flags0 = Ret (fetches, ok flags) -> runRemote flags = "" ->
  fetches = [] /\ (TrimSpace (runFile flags0) = "" <-> TrimSpace (runName flags0) ≠ "") /\
  BranchContainsCommit NewHash lookup Log (runBranch flags) (runCommit flags) = ok true.
Proof.
  unfold runPreRunE. destruct (ce_open env) as [repo|e]; [|done]. intros (file & Ef & H)%bind_Ret Hr.
  destruct file as [f|e]; [|done]. injection H as H.
  assert (Hone : TrimSpace (runFile flags0) = "" <-> TrimSpace (runName flags0) ≠ "").
  { by apply (chooseFile_one env repo (trimFlags flags0) f). }
  simpl in H. case_decide as Hrem.
  - injection H as <- H. apply resolveLocal_ok in H as (_ & _ & H). done.
  - assert (Hflags : (checkRemote (MkRunFlags f (TrimSpace (runName flags0)) (TrimSpace (runBranch flags0)) (TrimSpace (runCommit flags0))
        (TrimSpace (runRemote flags0)))).2 = ok flags) by (by rewrite H).
    apply checkRemote_ok in Hflags as ->. done.
Qed.

(** The parts of a local run's request. *)
Lemma runRequest_local env repo flags dir s :
  runRemote flags = "" -> ce_workspace env = MkWorktreeEnv (ok dir) None ->
  let '(tr, (s', r)) := runRequest env repo flags s in
  s' = s /\ Git (WorktreeAdd dir (runCommit flags)) ∈ tr /\
  ((forall path, we_mkdir (ce_worktree env path) ≠ ok dir) -> Forall (leaves dir) tr) /\
  forall req, r = ok req <-> exists path isDir content,
    ResolveInputPath (ce_stat env) (ce_getwd env) (root repo) (runFile flags) = ok (path, isDir) /\
    (readAt env repo (runCommit flags) path).2 = ok content /\
    req = MkRunRequest content (runBranch flags) (runCommit flags) "" dir.
Proof.
  intros Hr Hw. unfold runRequest. rewrite decide_True by done. unfold CreateDetachedWorktree. rewrite Hw.
  unfold mbind, io_bind, wrapping, git, lift, mret, io_ret. simpl.
  assert (Hl : leaves dir (Git (WorktreeAdd dir (runCommit flags)))) by done.
  destruct (ResolveInputPath _ _ _ _) as [[path isDir]|e] eqn:Ep; simpl.
  2:{ split_and!; [done|left|by repeat constructor|]. intros req. split; [done|]. by intros (? & ? & ? & ? & _). }
  pose proof (readAt_leaves env repo (runCommit flags) path dir) as Hread.
  destruct (readAt env repo (runCommit flags) path) as [tr [content|e]] eqn:Er; simpl.
  - split_and!; [done|left| |].
    + intros Hd. constructor; [done|]. rewrite app_nil_r. apply Hread, Hd.
    + intros req. split; [intros [= <-]; exists path, isDir, content; by rewrite Er|].
      intros (p0 & d0 & c0 & [= <- <-] & Hc & ->). rewrite Er in Hc. by injection Hc as ->.
  - split_and!; [done|left| |].
    + intros Hd. constructor; [done|]. apply Hread, Hd.
    + intros req. split; [done|]. intros (p0 & d0 & c0 & [= <- <-] & Hc & ->). by rewrite Er in Hc.
Qed.

(** C30: a local run, once its flags were resolved: it names one file, directly or
    by the pipeline's name; its branch contains its commit, and nothing was
    fetched. It adds a worktree at that commit, and no action of the command ever
    removes that worktree. The gateway is asked at most once, and a run that
    succeeds asked for the content that the file has at the commit. *)
Theorem local_run_spec env repo flags0 fetches flags dir s :
  runPreRunE env flags0 = Ret (fetches, ok flags) -> runRemote flags = "" ->
  ce_workspace env = MkWorktreeEnv (ok dir) None -> (forall path, we_mkdir (ce_worktree env path) ≠ ok dir) ->
  fetches = [] /\ (TrimSpace (runFile flags0) = "" <-> TrimSpace (runName flags0) ≠ "") /\
  BranchContainsCommit NewHash lookup Log (runBranch flags) (runCommit flags) = ok true /\
  let '(tr, (s', r)) := runRun env (Some repo) flags s in
  Git (WorktreeAdd dir (runCommit flags)) ∈ tr /\ Forall (leaves dir) tr /\
  (s' = s \/ exists req, s' = (postJSON baseURL "/run" req gateway_run s).1) /\
  (r = ok tt -> exists path isDir content,
     ResolveInputPath (ce_stat env) (ce_getwd env) (root repo) (runFile flags) = ok (path, isDir) /\
     (readAt env repo (runCommit flags) path).2 = ok content /\
     s' = (postJSON baseURL "/run" (MkRunRequest content (runBranch flags) (runCommit flags) "" dir) gateway_run s).1).
Proof.
  intros Hpre Hr Hw Hd. pose proof (runPreRunE_local _ _ _ _ Hpre Hr) as (H1 & H2 & H3).
  do 3 (split; [done|]). unfold runRun, repoFromCommandContext, lift, mbind, io_bind. cbn [ok].
  pose proof (runRequest_local env repo flags dir s Hr Hw) as Hreq.
  destruct (runRequest env repo flags s) as [tr [s1 [req|e]]]; destruct Hreq as (-> & Hadd & Hl & Hreq); specialize (Hl Hd).
  2:{ split_and!; [done|done|by left|done]. }
  unfold wrapping, RunPipeline, wrapped. destruct (postJSON baseURL "/run" req gateway_run s) as [s2 [response|e]] eqn:Ep.
  2:{ simpl. rewrite app_nil_r. split_and!; [done|done|right; exists req; by rewrite Ep|done]. }
  pose proof (showRun_leaves dir response s2) as Hshow. pose proof (showRun_state response s2) as Hst.
  destruct (showRun response s2) as [tr2 [s3 r]] eqn:Es. simpl in Hshow, Hst |- *. subst s3. rewrite Es. simpl.
  split_and!; [apply elem_of_app; by left|by apply Forall_app|right; exists req; by rewrite Ep|]. intros ->.
  destruct (proj1 (Hreq req) eq_refl) as (path & isDir & content & Ha & Hb & ->). exists path, isDir, content. by rewrite Ep.
Qed.

End remote.
(** ** Validating a directory *)

(** The files before the first that is not valid, with the gateway's state after them. *)
Inductive passes (env : cli_env) (repo : Repository) (commit : string) : S -> list string -> S -> Prop :=
| passes_nil s : passes env repo commit s [] s
| passes_cons s target tr s1 rest s2 :
    validateTarget env repo commit target s = (tr, (s1, ok tt)) -> passes env repo commit s1 rest s2 ->
    passes env repo commit s (target :: rest) s2.

Definition printed (tr : list cli_action) : list string := omap (fun a => match a with Print l => Some l | _ => None end) tr.

Lemma printed_app tr1 tr2 : printed (tr1 ++ tr2) = printed tr1 ++ printed tr2.
Proof. apply omap_app. Qed.

Lemma quiet_printed tr : Forall (fun a => kept a = true) tr -> printed tr = [].
Proof. induction 1 as [|[] tr Ha _ IH]; done. Qed.

Lemma validateTarget_quiet env repo commit target : quietly (fun a => kept a = true) (validateTarget env repo commit target).
Proof.
  unfold validateTarget, validateSinglePipeline. apply quietly_bind.
  { apply quietly_git, Forall_fmap, Forall_forall. done. }
  intros data. apply quietly_bind; [by apply quietly_wrapping; intros s|]. intros response. unfold showValidation.
  destruct (VResp_Valid response); [apply quietly_ret|].
  destruct (VResp_Errors response) as [|e errors].
  - apply quietly_bind; [by apply quietly_emit|intros _; apply quietly_lift].
  - apply quietly_bind; [by apply quietly_complain|intros _; apply quietly_lift].
Qed.

Lemma validateTargets_spec env repo commit targets s :
  let '(tr, (s', r)) := validateTargets env repo commit targets s in
  exists valid rest s1, targets = valid ++ rest /\ passes env repo commit s valid s1 /\
    printed tr = (fun t => t +++ ": pipeline is valid") <$> valid /\
    match rest with
    | [] => r = ok tt /\ s' = s1
    | t :: _ => exists e, r = err e /\ (validateTarget env repo commit t s1).2 = (s', err e)
    end.
Proof.
  revert s. induction targets as [|target targets IH]; intros s; [by exists [], [], s; repeat constructor|].
  simpl. unfold mbind, io_bind, emit. pose proof (validateTarget_quiet env repo commit target s) as Hq%quiet_printed.
  destruct (validateTarget env repo commit target s) as [tr [s1 [[]|e]]] eqn:Et; simpl in Hq.
  - specialize (IH s1). destruct (validateTargets env repo commit targets s1) as [tr' [s' r]].
    destruct IH as (valid & rest & s2 & -> & Hp & Hpr & Hr). exists (target :: valid), rest, s2.
    split_and!; [done|by econstructor| |done]. rewrite printed_app, Hq. simpl. by rewrite Hpr.
  - exists [], (target :: targets), s. split_and!; [done|constructor|done|]. exists e. by rewrite Et.
Qed.

(** Validating a directory takes its YAML files in the order of their names,
    prints each valid one and stops with the error of the first that is not; it
    succeeds exactly when all are valid. A directory without any is refused. *)
Theorem validatePipelineDir_spec env repo dir commit s :
  let '(tr, (s', r)) := validatePipelineDir env repo dir commit s in
  match collectYAMLFiles env dir with
  | inr e => r = err (ErrWrap "failed to enumerate directory %q: %w" [dir] e) /\ s' = s
  | inl [] => r = err (ErrNew "no YAML files found in directory: %s" [dir]) /\ s' = s
  | inl files => exists valid rest s1,
      valid ++ rest ≡ₚ files /\ StronglySorted String.le (valid ++ rest) /\ passes env repo commit s valid s1 /\
      printed tr = (fun t => t +++ ": pipeline is valid") <$> valid /\
      match rest with
      | [] => r = ok tt /\ s' = s1
      | t :: _ => exists e, r = err e /\ (validateTarget env repo commit t s1).2 = (s', err e)
      end
  end.
Proof.
  unfold validatePipelineDir, mbind, io_bind, lift. destruct (collectYAMLFiles env dir) as [files|e]; [|done].
  cbn [wrapped ok]. case_decide as Hne; [by subst|].
  pose proof (validateTargets_spec env repo commit (merge_sort String.le files) s) as Hv.
  destruct (validateTargets env repo commit (merge_sort String.le files) s) as [tr [s' r]].
  destruct Hv as (valid & rest & s1 & E & Hp & Hpr & Hr). destruct files as [|f files]; [done|].
  exists valid, rest, s1. rewrite <- E. split_and!; [apply merge_sort_Permutation|apply StronglySorted_merge_sort; apply _|done..].
Qed.

End commands.

(** ** The CLI, the gateway and the validation service with its cache *)

Section shared.
Context {C : Type} {CS : CacheStore C}.
Context (yaml_Unmarshal : string -> res yaml_node) (os_ReadFile : string -> res string).
Context (error_text : goerr -> string) (verify_order : graph -> list string) (cacheCfg : CacheConfig).
Context (net_timeout : goerr -> bool) (bad_url : string -> option goerr) (client : Client) (baseURL : string).
Context {VB : ResponseBody ValidateResponse}.

(** The service behind a POST; [net/http] ends the connection of a handler that panics. *)
Definition validation_service (req : outgoing ValidateRequest) (s : C) : C * exchange ValidateResponse :=
  match out_body req with
  | None => (s, CallFailed (ErrNew "EOF" []))
  | Some body =>
    match Validation.handleValidate yaml_Unmarshal os_ReadFile error_text verify_order cacheCfg (POST body) s with
    | Ret (s', resp) => (s', Answered resp None)
    | Panic => (s, CallFailed (ErrNew "EOF" []))
    end
  end.

(** The gateway in front of it. *)
Definition validation_gateway (req : outgoing ValidateRequest) (s : C) : C * cli_exchange ValidateResponse :=
  match out_body req with
  | None => (s, NoAnswer (ErrNew "EOF" []))
  | Some body =>
    ((validation_service (MkOutgoing "POST" (validationURL client +++ "/validate") "" (Some body)) s).1,
     client_sees (Gateway.handleValidate error_text net_timeout bad_url client (fun r => (validation_service r s).2) (out_method req) body))
  end.

Definition validate_file : string -> string -> string -> io C unit := validateSinglePipeline baseURL validation_gateway.

(** The service's answer as the CLI gets it. *)
Lemma Validate_answer req s s' resp :
  bad_url (validationURL client +++ "/validate") = None ->
  ValidateYAML yaml_Unmarshal os_ReadFile error_text verify_order cacheCfg req s = Ret (s', resp) ->
  Validate baseURL validation_gateway req s = ([], (s', ok resp)).
Proof.
  intros Hu Hv. unfold Validate, postJSON, validation_gateway, validation_service, Validation.handleValidate. cbn [out_body out_method].
  rewrite decodeBody_POST, Hv. cbn [mbind go_bind fst snd]. do 2 f_equal.
  rewrite (client_sees_received _ (WriteJSON 200 resp)); [reflexivity|]. apply forward_received; [exact Hu|]. cbn [out_body]. by rewrite decodeBody_POST, Hv.
Qed.

(** Files of one name share an answer. Of a file only its base name reaches the
    service, and name and commit are the key of its cache: with a cache that
    remembers, the command says of a second file of that name at that commit
    what it said of the first, whatever the second contains. *)
Theorem same_name_same_answer path1 path2 commit data1 data2 s s1 response :
  remembers s1 -> bad_url (validationURL client +++ "/validate") = None ->
  path_Base path1 = path_Base path2 ->
  Get (ValidateKey (KeyPrefix cacheCfg) (path_Base path1) commit) s = (s1, err ErrCacheMiss) ->
  computeValidate yaml_Unmarshal os_ReadFile error_text verify_order data1 = Ret response ->
  exists tr s2 r, validate_file path1 commit data1 s = (tr, (s2, r)) /\ validate_file path2 commit data2 s2 = (tr, (s2, r)) /\
    (r = ok tt <-> VResp_Valid response = true).
Proof.
  intros Hmem Hu Hbase Hmiss Hc. set (key := ValidateKey _ _ _) in Hmiss.
  pose proof (Hmem key (JValidate response) (ValidateTTL cacheCfg)) as Hget.
  set (s2 := (Put key (JValidate response) (ValidateTTL cacheCfg) s1).1) in Hget.
  assert (E1 : Validate baseURL validation_gateway (MkValidateRequest data1 commit (path_Base path1)) s = ([], (s2, ok response))).
  { apply Validate_answer; [done|]. unfold ValidateYAML. cbn [VReq_PipelinePath VReq_Commit VReq_YAMLContent]. fold key.
    rewrite Hmiss. cbn [err]. rewrite Hc. cbn [mbind go_bind]. unfold s2. by destruct (Put key _ _ s1) as [? ?]. }
  assert (E2 : Validate baseURL validation_gateway (MkValidateRequest data2 commit (path_Base path2)) s2 = ([], (s2, ok response))).
  { apply Validate_answer; [done|]. unfold ValidateYAML. cbn [VReq_PipelinePath VReq_Commit VReq_YAMLContent].
    rewrite <- Hbase. fold key. by rewrite Hget. }
  apply validateSinglePipeline_answer in E1, E2. rewrite <- Hbase in E2.
  destruct (showValidation_state (path_Base path1) response s2) as (r & Hst & Hr).
  destruct (showValidation (path_Base path1) response s2) as [tr o]. simpl in Hst. subst o. by exists tr, s2, r.
Qed.

End shared.

(** ** Witnesses *)

Definition validate_body : ResponseBody ValidateResponse := {|
  message_of := fun _ => ""; of_error := fun _ => MkValidateResponse false []; body_text := fun _ => "" |}.

(** A cyclic pipeline is called valid, for it has the name of a valid one. *)
Lemma same_name_same_answer_witness :
  let validate := validate_file (C := RedisStore (S := gmap string payload)) (VB := validate_body) demo_yaml no_file no_text keys_order demo_cfg
    (fun _ => false) (fun _ => None) (MkClient "http://localhost:8001" "" "") "http://localhost:8000" in
  exists tr s2, validate "/repo/.pipelines/a/ci.yaml" "abc" "good" (Some ∅) = (tr, (s2, ok tt)) /\
    validate "/repo/.pipelines/b/ci.yaml" "abc" "cyclic" s2 = (tr, (s2, ok tt)).
Proof.
  destruct (same_name_same_answer (C := RedisStore (S := gmap string payload)) (VB := validate_body) demo_yaml no_file no_text keys_order demo_cfg
    (fun _ => false) (fun _ => None) (MkClient "http://localhost:8001" "" "") "http://localhost:8000"
    "/repo/.pipelines/a/ci.yaml" "/repo/.pipelines/b/ci.yaml" "abc" "good" "cyclic" (Some ∅) (Some ∅) (MkValidateResponse true []))
    as (tr & s2 & r & H1 & H2 & H3).
  - intros k v ttl. simpl. by rewrite lookup_insert_eq.
  - reflexivity.
  - vm_compute. reflexivity.
  - vm_compute. reflexivity.
  - vm_compute. reflexivity.
  - destruct (proj2 H3 eq_refl). exists tr, s2. split; [exact H1|exact H2].
Defined.

Definition run_body : ResponseBody RunResponse := {|
  message_of := RunResp_Message; of_error := fun e => MkRunResponse "" 0 "" [] (Err_Message e); body_text := fun _ => "" |}.

(** A repository with one pipeline file; the gateway keeps the requests. *)
Definition demo_env : cli_env := MkCliEnv (ok demo_repo) (ok "/repo/src") demo_stat (fun _ => []) (fun _ => ok [("ci", true)])
  (ok (MkRef (Some "main") "c3")) (fun _ => MkWorktreeEnv (ok "/tmp/wt") None) (MkWorktreeEnv (ok "/tmp/ws") None) demo_read.
Definition demo_gateway_run (req : outgoing RunRequest) (s : list (option RunRequest)) : list (option RunRequest) * cli_exchange RunResponse :=
  (s ++ [out_body req], Answer 200 (JSONValue (inl (MkRunResponse "demo" 1 "queued" [] "")))).
Definition demo_pre (flags : run_flags) : go (list (option AuthMethod) * res run_flags) :=
  runPreRunE demo_yaml id demo_lookup demo_log (fun _ => "") (fun _ => ok "https") (fun _ _ _ => err (ErrNew "no key" []))
    (fun _ => ok []) (fun _ _ _ => None) demo_env flags.
Definition demo_flags : run_flags := MkRunFlags " /repo/.pipelines/ci/build.yaml" "" "" "c1" "".
Definition demo_resolved : run_flags := MkRunFlags "/repo/.pipelines/ci/build.yaml" "" "main" "c1" "".
Definition demo_run : io (list (option RunRequest)) unit :=
  runRun (RB := run_body) "http://localhost:8000" demo_gateway_run (fun _ => ok []) demo_env (Some demo_repo) demo_resolved.

Lemma local_run_spec_witness :
  demo_pre demo_flags = Ret ([], ok demo_resolved) /\ BranchContainsCommit id demo_lookup demo_log "main" "c1" = ok true /\
  let '(tr, (s', r)) := demo_run [] in
  r = ok tt /\ s' = [Some (MkRunRequest "stages: [build]" "main" "c1" "" "/tmp/ws")] /\
  Git (WorktreeAdd "/tmp/ws" "c1") ∈ tr /\ Forall (leaves "/tmp/ws") tr.
Proof.
  assert (E : demo_pre demo_flags = Ret ([], ok demo_resolved)) by (vm_compute; reflexivity).
  destruct (local_run_spec (RB := run_body) "http://localhost:8000" demo_gateway_run demo_yaml id demo_lookup demo_log (fun _ => "") (fun _ => ok "https")
    (fun _ _ _ => err (ErrNew "no key" [])) (fun _ => ok []) (fun _ _ _ => None) demo_env demo_repo demo_flags [] demo_resolved "/tmp/ws" [])
    as (_ & _ & Hb & H); [exact E|reflexivity|reflexivity|intros path; discriminate|].
  split; [exact E|]. split; [exact Hb|]. fold demo_run in H.
  assert (Er : (demo_run []).2 = ([Some (MkRunRequest "stages: [build]" "main" "c1" "" "/tmp/ws")], ok tt)) by (vm_compute; reflexivity).
  destruct (demo_run []) as [tr [s' r]]. injection Er as -> ->. destruct H as (H1 & H2 & _). split; [reflexivity|]. split; [reflexivity|]. split; [exact H1|exact H2].
Defined.

Example found_by_name :
  findPipelineByName demo_yaml (MkCliEnv (ok demo_repo) (ok "/repo/src") demo_stat (fun _ => [])
    (fun _ => ok [("ci", true); ("broken.yaml", false); ("build.yaml", false)])
    (ok (MkRef None "c3")) (fun _ => MkWorktreeEnv (ok "") None) (MkWorktreeEnv (ok "") None)
    (fun p => if decide (p = "/repo/.pipelines/build.yaml") then ok "good" else ok "broken")) (Pipeline_Name demo_pipeline) "/repo"
  = Ret (ok "../.pipelines/build.yaml").
Proof. vm_compute. reflexivity. Qed.
