(* ===== verification/Worker.v ===== *)
(** * The worker (internal/services/worker)

    Executing a job in a container ([ExecuteJob]: the steps in order, the
    deferred removal of the container and of the checkout), and handling one
    message of the queue ([handleJobMessage]: the started callback, the
    execution, the finished callback with its doubling retry delay). Docker, git
    and the file system are the environment: what each of their calls answers
    is an argument; the calls made are the trace. The archive of the workspace is in
    Archive, the service loop around [handleJobMessage] in Workerpool. *)

From Stdlib Require Import Ascii.
From S2P Require Import Prelude GoStrings Paths Archive Models Git Http.

(** ** Workspace paths *)

Fixpoint backslashes (s : string) : string :=
  match s with
  | EmptyString => EmptyString
  | String a s' => String (if decide (a = "\"%char) then "/"%char else a) (backslashes s')
  end.

Definition is_letter (a : Ascii.ascii) : bool :=
  let n := Ascii.N_of_ascii a in ((97 <=? n) && (n <=? 122))%N || ((65 <=? n) && (n <=? 90))%N.

Definition looksLikeWindowsPath (p : string) : bool :=
  if Contains p "\" then true else
  match p with String a (String b _) => bool_decide (b = ":"%char) && is_letter a | _ => false end.

Definition mapWindowsWorkspacePath (env : string -> string) (workspacePath : string) : string :=
  let h := TrimSpace (env "WORKSPACE_HOST_TEMP_DIR") in
  let hostTempDir := if decide (h = "") then "/host-temp" else h in
  let base := path_Base (backslashes (TrimSpace workspacePath)) in
  if decide (base = "." \/ base = "/" \/ base = "") then "" else filepath_Join hostTempDir base.

(** [stat p]: [os.Stat(p)] succeeds. *)
Definition resolveWorkspacePath (env : string -> string) (stat : string -> bool) (workspacePath : string) : string :=
  let w := TrimSpace workspacePath in
  if decide (w = "") then "" else
  if stat w then w else
  if negb (looksLikeWindowsPath w) then w else
  let mappedPath := mapWindowsWorkspacePath env w in
  if decide (mappedPath = "") then w else
  if stat mappedPath then mappedPath else w.

(** ** Container options *)

Definition DefaultImage : string := "alpine:latest".

Definition scriptToCmd (script : list string) : list string :=
  match script with
  | [] => ["sh"; "-c"; "true"]
  | _ =>
    let one := TrimSpace (Join script " && ") in
    if decide (one = "") then ["sh"; "-c"; "true"] else ["sh"; "-c"; one]
  end.

Record Resources := MkResources { NanoCPUs : Z; Memory : Z }.
Definition memoryMegabyteBytes : Z := (1024 * 1024)%Z.

(** Floating point is an argument: a type of values, [strconv.ParseFloat], the
    test [v <= 0], and [int64(math.Round(v * 1e9))]. *)
Class GoFloat := { float64 : Type; ParseFloat : string -> option float64;
                   nonpositive : float64 -> bool; round_nano : float64 -> Z }.

Section worker.
Context {F : GoFloat}.

Definition nano_cpus (nanoCPURaw cpuLimitRaw : string) : res Z :=
  n ← (if decide (nanoCPURaw = "") then ok 0%Z else
       match ParseInt64 nanoCPURaw with
       | Some n => if decide (n <= 0)%Z then err (ErrNew "%s must be a positive int64, got %q" [nanoCPURaw]) else ok n
       | None => err (ErrNew "%s must be a positive int64, got %q" [nanoCPURaw])
       end);
  if decide (cpuLimitRaw = "") then ok n else
  match ParseFloat cpuLimitRaw with
  | None => err (ErrNew "%s must be a positive number, got %q" [cpuLimitRaw])
  | Some v =>
    if nonpositive v then err (ErrNew "%s must be a positive number, got %q" [cpuLimitRaw]) else
    if decide (round_nano v <= 0)%Z then err (ErrNew "%s resolved to invalid NanoCPUs for value %q" [cpuLimitRaw])
    else ok (round_nano v)
  end.

Definition memory_bytes (memoryLimitRaw : string) : res Z :=
  if decide (memoryLimitRaw = "") then ok 0%Z else
  match ParseInt64 memoryLimitRaw with
  | Some mb => if decide (mb <= 0)%Z then err (ErrNew "%s must be a positive integer (MB), got %q" [memoryLimitRaw])
               else ok (wrap64 (mb * memoryMegabyteBytes))
  | None => err (ErrNew "%s must be a positive integer (MB), got %q" [memoryLimitRaw])
  end.

Definition containerResourcesFromEnv (env : string -> string) : res Resources :=
  let nanoCPURaw := TrimSpace (env "WORKER_JOB_NANO_CPUS") in
  let cpuLimitRaw := TrimSpace (env "WORKER_JOB_CPU_LIMIT") in
  let memoryLimitRaw := TrimSpace (env "WORKER_JOB_MEMORY_LIMIT_MB") in
  if decide (nanoCPURaw ≠ "" /\ cpuLimitRaw ≠ "") then err (ErrNew "%s and %s cannot both be set" []) else
  n ← nano_cpus nanoCPURaw cpuLimitRaw;
  m ← memory_bytes memoryLimitRaw;
  ok (MkResources n m).

Definition hasContainerResourceLimits (r : Resources) : bool :=
  bool_decide (0 < NanoCPUs r \/ 0 < Memory r)%Z.

(** ** Executing a job (execute.go) *)

(** [cloneAuth]: the credentials of a clone, if any. *)
Definition cloneAuth (env : string -> string) (repoURL : string) : option AuthMethod :=
  let username := TrimSpace (env "GIT_USERNAME") in
  if decide (username ≠ "") then Some (BasicAuth username (TrimSpace (env "GIT_PASSWORD"))) else
  if Contains (ToLower (TrimSpace repoURL)) "github.com" then
    let token := TrimSpace (env "GITHUB_TOKEN") in
    if decide (token ≠ "") then Some (BasicAuth "x-access-token" token) else None
  else None.

(** What the steps ask of Docker, git and the file system. *)
Inductive docker_action :=
| Pull (image : string)
| MkTemp (dir : string)
| RmTemp (dir : string)
| Create (id image : string) (cmd : list string) (workingDir : string) (limits : option Resources)
| Copy (id workspace : string)
| Start (id : string)
| Wait (id : string)
| Logs (id : string)
| Remove (id : string).

(** [ContainerWait]: an error (or a closed channel), the exit status, or the
    end of the context, whichever [select] takes. *)
Inductive wait_outcome := WaitError (e : option goerr) | WaitExit (status : Z) | WaitDone (e : goerr).

(** [d_files]: the directories; [d_copyTo]: the answer to [CopyToContainer]. *)
Record docker_env := MkDocker {
  d_pull : option goerr; d_mkdirTemp : res string; d_clone : option AuthMethod -> option goerr; d_worktree : option goerr;
  d_checkout : option goerr; d_create : res string; d_files : string -> tree; d_copyTo : list member -> option goerr; d_start : option goerr;
  d_wait : wait_outcome; d_logs : res (string * string) }.

Definition steps : Type -> Type := traced docker_action.
#[local] Instance steps_ret : MRet steps := traced_ret.
#[local] Instance steps_bind : MBind steps := traced_bind.
Definition step (acts : list docker_action) (fmt : string) (answer : option goerr) : steps unit :=
  (acts, match answer with Some e => err (ErrWrap fmt [] e) | None => ok tt end).
(** [if s != "" { m }] *)
Definition whenSet (s : string) (m : steps unit) : steps unit := if decide (s = "") then mret tt else m.
Definition lift {A} (r : res A) : steps A := ([], r).
Definition wrapErr {A} (fmt : string) (m : steps A) : steps A :=
  (m.1, match m.2 with inr e => err (ErrWrap fmt [] e) | r => r end).
(** [defer]: the actions run when the function returns. *)
Definition deferring {A} (acts : list docker_action) (m : steps A) : steps A := (m.1 ++ acts, m.2).

(** [materializeWorkspace]: the path, and the directory its cleanup removes. *)
Definition materializeWorkspace (d : docker_env) (env : string -> string) (stat : string -> bool)
    (repoURL commit workspacePath : string) : steps (string * list string) :=
  if decide (TrimSpace repoURL ≠ "" /\ TrimSpace commit ≠ "") then
    match d_mkdirTemp d with
    | inr e => lift (err e)
    | inl tmpDir =>
      match (match d_clone d (cloneAuth env repoURL) with Some e => Some e | None =>
             match d_worktree d with Some e => Some e | None => d_checkout d end end) with
      | Some e => ([MkTemp tmpDir; RmTemp tmpDir], err e)
      | None => ([MkTemp tmpDir], ok (tmpDir, [tmpDir]))
      end
    end
  else mret (resolveWorkspacePath env stat workspacePath, []).

Definition createContainer (d : docker_env) (env : string -> string) (image : string) (script : list string)
    (hasWorkspace : bool) : steps string :=
  resources ← lift (containerResourcesFromEnv env);
  match d_create d with
  | inr e => lift (err e)
  | inl id => ([Create id image (scriptToCmd script) (if hasWorkspace then "/workspace" else "")
                 (if hasContainerResourceLimits resources then Some resources else None)], ok id)
  end.

Definition waitContainer (d : docker_env) : option goerr :=
  match d_wait d with
  | WaitError e => e
  | WaitExit status => if decide (status ≠ 0%Z) then Some (ErrNew "container exited with status %s" [Itoa status]) else None
  | WaitDone e => Some e
  end.

Definition combineLogs (out errOut : string) : string :=
  if decide (errOut = "") then out else if decide (out = "") then errOut else out +++ String "010" errOut.

Definition getLogs (d : docker_env) : res string :=
  match d_logs d with inl (out, errOut) => ok (combineLogs out errOut) | inr e => err e end.

Definition copyWorkspaceToContainer (d : docker_env) (id workspacePath : string) : steps unit :=
  content ← lift (buildWorkspaceArchive workspacePath (d_files d workspacePath));
  ([Copy id workspacePath], match d_copyTo d content with Some e => err e | None => ok tt end).

(** From the start of the container: its logs, and the error of its wait. *)
Definition runContainer (d : docker_env) (id workspace : string) : steps (string * option goerr) :=
  _ ← whenSet workspace (wrapErr "copy workspace to container: %w" (copyWorkspaceToContainer d id workspace));
  _ ← step [Start id] "run container: %w" (d_start d);
  ([Wait id; Logs id],
   match getLogs d, waitContainer d with
   | inr e, Some w => err (ErrWrap "wait container: %w; get logs: %v" [] w)
   | inr e, None => err (ErrWrap "get logs: %w" [] e)
   | inl logs, Some w =>
     ok (logs, Some (if decide (TrimSpace logs = "") then ErrWrap "wait container: %w" [] w
                     else ErrWrap "wait container: %w\nlogs:\n%s" [logs] w))
   | inl logs, None => ok (logs, None)
   end).

(** The steps of [ExecuteJob] and its deferred calls. *)
Definition jobSteps (d : docker_env) (env : string -> string) (stat : string -> bool) (job : JobExecutionPlan)
    (repoURL commit workspacePath : string) : steps (string * option goerr) :=
  let image := if decide (JobPlan_Image job = "") then DefaultImage else JobPlan_Image job in
  _ ← whenSet (JobPlan_Image job) (step [Pull image] "pull image %q: %w" (d_pull d));
  wc ← wrapErr "prepare workspace: %w" (materializeWorkspace d env stat repoURL commit workspacePath);
  deferring (RmTemp <$> wc.2)
    (id ← wrapErr "create container: %w" (createContainer d env image (JobPlan_Script job) (bool_decide (wc.1 ≠ "")));
     deferring [Remove id] (runContainer d id wc.1)).

(** [ExecuteJob], for a client and a job that are not nil: its one caller
    checks the client and passes the address of a copy of the job. *)
Definition ExecuteJob (d : docker_env) (env : string -> string) (stat : string -> bool) (job : JobExecutionPlan)
    (repoURL commit workspacePath : string) : list docker_action * (string * option goerr) :=
  let '(tr, r) := jobSteps d env stat job repoURL commit workspacePath in
  (tr, match r with inl (logs, e) => (logs, e) | inr e => ("", Some e) end).

(** ** Callbacks (callbacks.go) *)

(** How posting a callback to the orchestrator ends. *)
Inductive post_outcome := PostError (e : goerr) | PostUnread (e : goerr) | PostStatus (status : Z).

Definition doJobCallbackRequest (o : post_outcome) : option goerr :=
  match o with
  | PostError e => Some (ErrWrap "send callback request: %w" [] e)
  | PostUnread e => Some (ErrWrap "read callback response: %w" [] e)
  | PostStatus status =>
    if decide (status ≠ 200%Z) then Some (ErrNew "callback returned status %d" [Itoa status]) else None
  end.

Definition startedRequest (msg : JobExecutionMessage) : JobStatusCallbackRequest :=
  MkCallback (Msg_PipelineName msg) (Msg_RunNo msg) (Msg_Stage msg) (JobPlan_Name (Msg_Job msg)) "started" "" "".
Definition finishedRequest (msg : JobExecutionMessage) (status logs errMsg : string) : JobStatusCallbackRequest :=
  MkCallback (Msg_PipelineName msg) (Msg_RunNo msg) (Msg_Stage msg) (JobPlan_Name (Msg_Job msg)) status logs errMsg.

(** ** One message (service.go) *)

Inductive worker_event :=
| JobStarted (req : JobStatusCallbackRequest)
| JobFinished (req : JobStatusCallbackRequest)
| Executed (actions : list docker_action)
| Sleep (delay : Z).

(** Durations are nanoseconds. *)
Definition finishedCallbackRetryDelay : Z := 1000000000.
Definition maxFinishedCallbackRetryDelay : Z := 30000000000.

Definition nextDelay (retryDelay : Z) : Z :=
  if decide (retryDelay < maxFinishedCallbackRetryDelay)%Z then
    if decide (maxFinishedCallbackRetryDelay < retryDelay * 2)%Z then maxFinishedCallbackRetryDelay else (retryDelay * 2)%Z
  else retryDelay.

(** One turn of the retry loop: how the post ends, and the error of the pause
    after it, when the context ends first. *)
Record attempt := MkFinish { f_post : post_outcome; f_wait : option goerr }.

(** The attempts made and the result; [None] while the loop still retries when
    the listed attempts are used up. *)
Fixpoint reportLoop (req : JobStatusCallbackRequest) (retryDelay : Z) (attempts : list attempt)
    : option (list worker_event * option goerr) :=
  match attempts with
  | [] => None
  | a :: rest =>
    match doJobCallbackRequest (f_post a) with
    | None => Some ([JobFinished req], None)
    | Some e =>
      match f_wait a with
      | Some _ => Some ([JobFinished req; Sleep retryDelay], Some (ErrWrap "retry callback job finished: %w" [] e))
      | None => '(tr, r) ← reportLoop req (nextDelay retryDelay) rest;
                Some (JobFinished req :: Sleep retryDelay :: tr, r)
      end
    end
  end.

Definition reportJobFinishedUntilSuccess (msg : JobExecutionMessage) (status logs errMsg : string)
    (attempts : list attempt) : option (list worker_event * option goerr) :=
  reportLoop (finishedRequest msg status logs errMsg) finishedCallbackRetryDelay attempts.

Definition handleJobMessage (error_text : goerr -> string) (d : docker_env) (env : string -> string)
    (stat : string -> bool) (started : post_outcome) (docker : bool) (attempts : list attempt)
    (msg : JobExecutionMessage) : option (list worker_event * option goerr) :=
  match doJobCallbackRequest started with
  | Some e => Some ([JobStarted (startedRequest msg)], Some (ErrWrap "callback job started: %w" [] e))
  | None =>
    if negb docker then Some ([JobStarted (startedRequest msg)], Some (ErrNew "docker client not available" [])) else
    let '(actions, (logs, execErr)) :=
      ExecuteJob d env stat (Msg_Job msg) (Msg_RepoURL msg) (Msg_Commit msg) (Msg_WorkspacePath msg) in
    let report := match execErr with
                  | Some e => reportJobFinishedUntilSuccess msg "failed" "" (error_text e) attempts
                  | None => reportJobFinishedUntilSuccess msg "success" logs "" attempts
                  end in
    let fmt := match execErr with
               | Some _ => "callback job finished (failed): %w" | None => "callback job finished: %w" end in
    '(tr, r) ← report;
    Some ([JobStarted (startedRequest msg); Executed actions] ++ tr,
          match r with Some e => Some (ErrWrap fmt [] e) | None => None end)
  end.

(** ** What is acquired, used and released *)

Inductive resource := RDir (dir : string) | RContainer (id : string).
#[global] Instance resource_eq_dec : EqDecision resource.
Proof. solve_decision. Defined.

(** The resources held after an action, the last acquired first; [None] when the
    action uses what is not held, or releases out of order. *)
Definition track (o : option (list resource)) (a : docker_action) : option (list resource) :=
  held ← o;
  let pop r := match held with x :: rest => if decide (x = r) then Some rest else None | [] => None end in
  let use r := if decide (r ∈ held) then Some held else None in
  match a with
  | Pull _ => Some held
  | MkTemp dir => Some (RDir dir :: held)
  | RmTemp dir => pop (RDir dir)
  | Create id _ _ _ _ => Some (RContainer id :: held)
  | Copy id _ | Start id | Wait id | Logs id => use (RContainer id)
  | Remove id => pop (RContainer id)
  end.
Definition tracked (held : list resource) (tr : list docker_action) : option (list resource) :=
  foldl track (Some held) tr.

(** [m] acquires [R a] when it returns [a], and nothing when it fails. *)
Definition acquires {A} (h : list resource) (m : steps A) (R : A -> list resource) : Prop :=
  tracked h m.1 = Some (match m.2 with inl a => R a ++ h | inr _ => h end).
Abbreviation keeps h m := (acquires h m (fun _ => [])).

Lemma tracked_actions_app h tr1 tr2 h' : tracked h tr1 = Some h' -> tracked h (tr1 ++ tr2) = tracked h' tr2.
Proof. unfold tracked. rewrite foldl_app. by intros ->. Qed.

Lemma keeps_bind {A B} h (m : steps A) (f : A -> steps B) (R : A -> list resource) :
  acquires h m R -> (forall a, tracked (R a ++ h) (f a).1 = Some h) -> keeps h (m ≫= f).
Proof.
  unfold acquires. intros Hm Hf. destruct m as [tr [a|e]]; simpl in *; [|done].
  specialize (Hf a). destruct (f a) as [tr' r]. simpl in *. rewrite (tracked_actions_app _ _ _ _ Hm), Hf. by destruct r.
Qed.

Lemma keeps_tracked {A} h (m : steps A) : keeps h m -> tracked h m.1 = Some h.
Proof. unfold acquires. by destruct m.2. Qed.

Lemma deferring_releases {A} h r acts (m : steps A) :
  keeps (r ++ h) m -> tracked (r ++ h) acts = Some h -> tracked (r ++ h) (deferring acts m).1 = Some h.
Proof. intros Hm%keeps_tracked Ha. unfold deferring. simpl. by rewrite (tracked_actions_app _ _ _ _ Hm). Qed.

Lemma acquires_wrapErr {A} h fmt (m : steps A) R : acquires h m R -> acquires h (wrapErr fmt m) R.
Proof. unfold acquires, wrapErr. by destruct m as [tr [a|e]]. Qed.

Lemma tracked_used h id acts :
  Forall (fun a => match a with Copy i _ | Start i | Wait i | Logs i => i = id | _ => False end) acts ->
  tracked (RContainer id :: h) acts = Some (RContainer id :: h).
Proof.
  intros H. induction H as [|a acts Ha _ IH]; [done|]. unfold tracked in *. simpl.
  destruct a; try done; subst; simpl; rewrite decide_True by left; apply IH.
Qed.

Lemma runContainer_keeps h d id w : keeps (RContainer id :: h) (runContainer d id w).
Proof.
  assert (H : tracked (RContainer id :: h) (runContainer d id w).1 = Some (RContainer id :: h)).
  { apply tracked_used. unfold runContainer, step, whenSet, copyWorkspaceToContainer, lift.
    case_decide; [|destruct (buildWorkspaceArchive w _) as [content|]; simpl; [destruct (d_copyTo d content)|]]; simpl;
      try destruct (d_start d); simpl; by repeat constructor. }
  unfold acquires. rewrite H. by destruct (_ : res _).
Qed.

Lemma materialize_acquires h d env stat repoURL commit w :
  acquires h (materializeWorkspace d env stat repoURL commit w) (fun wc => RDir <$> wc.2).
Proof.
  unfold acquires, materializeWorkspace, lift. case_decide; [|done]. destruct (d_mkdirTemp d) as [dir|e]; [|done].
  destruct (d_clone d (cloneAuth env repoURL)), (d_worktree d), (d_checkout d); cbn; by rewrite ?decide_True.
Qed.

Lemma create_acquires h d env image script b :
  acquires h (createContainer d env image script b) (fun id => [RContainer id]).
Proof.
  unfold acquires, createContainer, lift. destruct (containerResourcesFromEnv env); [|done]. by destruct (d_create d).
Qed.

Lemma removes_dirs h dirs : tracked ((RDir <$> dirs) ++ h) (RmTemp <$> dirs) = Some h.
Proof. induction dirs as [|d dirs IH]; [done|]. unfold tracked in *. simpl. by rewrite decide_True. Qed.

Lemma jobSteps_keeps d env stat job repoURL commit w : keeps [] (jobSteps d env stat job repoURL commit w).
Proof.
  apply (keeps_bind _ _ _ (fun _ => [])); [unfold acquires, whenSet; case_decide; [|destruct (d_pull d)]; done|].
  intros _. apply (keeps_tracked []). eapply keeps_bind; [apply acquires_wrapErr, materialize_acquires|].
  intros [w' dirs]. apply deferring_releases; [|apply removes_dirs].
  eapply keeps_bind; [apply acquires_wrapErr, create_acquires|].
  intros id. apply (deferring_releases _ [RContainer id]); [apply runContainer_keeps|].
  unfold tracked. simpl. by rewrite decide_True.
Qed.

(** ** When a job succeeds *)

Definition checked_out (d : docker_env) (env : string -> string) (repoURL : string) : Prop :=
  (exists dir, d_mkdirTemp d = ok dir) /\ d_clone d (cloneAuth env repoURL) = None /\ d_worktree d = None /\ d_checkout d = None.

(** The workspace a job runs in: a checkout, a resolved path, or none. *)
Definition workspace_of (d : docker_env) (env : string -> string) (stat : string -> bool)
    (repoURL commit workspacePath : string) : string :=
  if decide (TrimSpace repoURL ≠ "" /\ TrimSpace commit ≠ "")
  then match d_mkdirTemp d with inl dir => dir | inr _ => "" end
  else resolveWorkspacePath env stat workspacePath.

(** The workspace can be archived, and Docker takes the archive. *)
Definition archived (d : docker_env) (w : string) : Prop :=
  exists content, buildWorkspaceArchive w (d_files d w) = ok content /\ d_copyTo d content = None.

Record job_succeeds (d : docker_env) (env : string -> string) (stat : string -> bool) (job : JobExecutionPlan)
    (repoURL commit workspacePath : string) : Prop := {
  js_pull : JobPlan_Image job ≠ "" -> d_pull d = None;
  js_checkout : TrimSpace repoURL ≠ "" -> TrimSpace commit ≠ "" -> checked_out d env repoURL;
  js_resources : exists r, containerResourcesFromEnv env = ok r;
  js_create : exists id, d_create d = ok id;
  js_copy : let w := workspace_of d env stat repoURL commit workspacePath in w ≠ "" -> archived d w;
  js_start : d_start d = None;
  js_exit : d_wait d = WaitExit 0 \/ d_wait d = WaitError None;
  js_logs : exists out errOut, d_logs d = ok (out, errOut);
}.

Lemma steps_bind_ok {A B} (m : steps A) (f : A -> steps B) b :
  (m ≫= f).2 = ok b <-> exists a, m.2 = ok a /\ (f a).2 = ok b.
Proof.
  destruct m as [tr [a|e]]; simpl.
  - destruct (f a) as [tr' r] eqn:E. simpl. split; [intros ->; exists a; by rewrite E|].
    intros (a' & [= <-] & H). by rewrite E in H.
  - split; [done|]. by intros (a & ? & _).
Qed.

Lemma step_ok acts fmt answer u : (step acts fmt answer).2 = ok u <-> answer = None.
Proof. destruct answer, u; simpl; naive_solver. Qed.

Lemma whenSet_ok s m : (exists u, (whenSet s m).2 = ok u) <-> (s ≠ "" -> m.2 = ok tt).
Proof.
  unfold whenSet. case_decide; simpl; [naive_solver|]. split; [by intros [[] Hu]|]. intros Hm. exists tt. by apply Hm.
Qed.

Lemma wrapErr_ok {A} fmt (m : steps A) a : (wrapErr fmt m).2 = ok a <-> m.2 = ok a.
Proof. unfold wrapErr. destruct m as [tr [x|e]]; simpl; naive_solver. Qed.

Lemma copy_ok d id w : (copyWorkspaceToContainer d id w).2 = ok tt <-> archived d w.
Proof.
  unfold copyWorkspaceToContainer, archived. rewrite steps_bind_ok. simpl. split; intros (content & E & H); exists content; (split; [done|]);
    destruct (d_copyTo d content); naive_solver.
Qed.

Lemma waitContainer_None d : waitContainer d = None <-> d_wait d = WaitExit 0 \/ d_wait d = WaitError None.
Proof. unfold waitContainer. destruct (d_wait d) as [[]|status|e]; try case_decide; naive_solver. Qed.

Lemma runContainer_ok d id w logs :
  (runContainer d id w).2 = ok (logs, None) <->
  (w ≠ "" -> archived d w) /\ d_start d = None /\ waitContainer d = None /\ getLogs d = ok logs.
Proof.
  unfold runContainer. rewrite steps_bind_ok. setoid_rewrite steps_bind_ok. setoid_rewrite step_ok. simpl.
  pose proof (whenSet_ok w (wrapErr "copy workspace to container: %w" (copyWorkspaceToContainer d id w))) as Hc.
  rewrite wrapErr_ok, copy_ok in Hc.
  split.
  - intros (u & Hu & _ & Hs & Hl). split; [apply Hc; by exists u|]. split; [done|].
    destruct (getLogs d), (waitContainer d); naive_solver.
  - intros (Hw & Hs & Hwait & Hl). apply Hc in Hw as [u Hu]. exists u. split; [done|]. exists tt. split; [done|].
    by rewrite Hl, Hwait.
Qed.

Lemma materialize_ok d env stat repoURL commit w :
  (exists wc, (materializeWorkspace d env stat repoURL commit w).2 = ok wc) <->
  (TrimSpace repoURL ≠ "" -> TrimSpace commit ≠ "" -> checked_out d env repoURL).
Proof.
  unfold materializeWorkspace, checked_out, lift. case_decide; [|simpl; naive_solver].
  destruct (d_mkdirTemp d), (d_clone d (cloneAuth env repoURL)), (d_worktree d), (d_checkout d); simpl; naive_solver.
Qed.

Lemma materialize_workspace d env stat repoURL commit w wc :
  (materializeWorkspace d env stat repoURL commit w).2 = ok wc -> wc.1 = workspace_of d env stat repoURL commit w.
Proof.
  unfold materializeWorkspace, workspace_of, lift. case_decide; [|by intros [= <-]].
  destruct (d_mkdirTemp d), (d_clone d (cloneAuth env repoURL)), (d_worktree d), (d_checkout d); simpl; naive_solver.
Qed.

Lemma create_ok d env image script b id :
  (createContainer d env image script b).2 = ok id <->
  (exists r, containerResourcesFromEnv env = ok r) /\ d_create d = ok id.
Proof.
  unfold createContainer. rewrite steps_bind_ok. simpl. destruct (d_create d); simpl; naive_solver.
Qed.

Lemma jobSteps_ok d env stat job repoURL commit w logs :
  (jobSteps d env stat job repoURL commit w).2 = ok (logs, None) <->
  job_succeeds d env stat job repoURL commit w /\ getLogs d = ok logs.
Proof.
  unfold jobSteps. rewrite steps_bind_ok. setoid_rewrite steps_bind_ok. unfold deferring. cbn [snd].
  setoid_rewrite steps_bind_ok. setoid_rewrite wrapErr_ok. cbn [snd]. setoid_rewrite create_ok. setoid_rewrite runContainer_ok. setoid_rewrite waitContainer_None.
  pose proof (whenSet_ok (JobPlan_Image job) (step [Pull (if decide (JobPlan_Image job = "") then DefaultImage
    else JobPlan_Image job)] "pull image %q: %w" (d_pull d))) as Hp. rewrite step_ok in Hp.
  pose proof (materialize_ok d env stat repoURL commit w) as Hm.
  pose proof (materialize_workspace d env stat repoURL commit w) as Hw.
  split.
  - intros (u & Hu & wc & Hwc & id & (Hr & Hid) & Hcopy & Hs & Hx & Hl). split; [|done]. split; try done.
    + apply Hp. by exists u.
    + apply Hm. by exists wc.
    + by exists id.
    + by rewrite <- (Hw wc Hwc).
    + unfold getLogs in Hl. destruct (d_logs d) as [[]|]; naive_solver.
  - intros [[Hpull Hco Hr [id Hid] Hcopy Hs Hx Hl] Hg]. apply Hp in Hpull as [u Hu]. apply Hm in Hco as [wc Hwc].
    exists u. split; [done|]. exists wc. split; [done|]. exists id. rewrite (Hw wc Hwc). naive_solver.
Qed.

Lemma steps_bind_trace {A B} (m : steps A) (f : A -> steps B) b : (m ≫= f).2 = ok b ->
  exists a, m.2 = ok a /\ (f a).2 = ok b /\ (m ≫= f).1 = m.1 ++ (f a).1.
Proof.
  destruct m as [tr [a|e]]; simpl; [|done]. destruct (f a) as [tr' r] eqn:E. simpl. intros ->.
  exists a. by rewrite E.
Qed.

(** A job that ends ran its script in a container started with it. *)
Lemma jobSteps_trace d env stat job repoURL commit w r :
  (jobSteps d env stat job repoURL commit w).2 = ok r ->
  exists id wd limits, let tr := (jobSteps d env stat job repoURL commit w).1 in
    Create id (if decide (JobPlan_Image job = "") then DefaultImage else JobPlan_Image job)
      (scriptToCmd (JobPlan_Script job)) wd limits ∈ tr /\ Start id ∈ tr.
Proof.
  unfold jobSteps. intros (u & _ & H & ->)%steps_bind_trace. apply steps_bind_trace in H as (wc & _ & H & ->).
  unfold deferring in *. cbn [fst snd] in *. apply steps_bind_trace in H as (id & Hid & H & ->). cbn [fst snd] in *.
  rewrite wrapErr_ok in Hid. apply create_ok in Hid as [[rs Hr] Hc]. unfold runContainer in H |- *.
  apply steps_bind_trace in H as (u1 & _ & H & ->). apply steps_bind_trace in H as (u2 & _ & _ & ->).
  unfold createContainer. rewrite Hr, Hc. eexists id, _, _. cbn. rewrite !elem_of_app. split.
  - right. right. left.
  - right. right. right. rewrite !elem_of_app. left. left. right. left.
Qed.

(** ** The retry loop *)

Definition accepted_post (o : post_outcome) : Prop := o = PostStatus 200.

Lemma doJobCallbackRequest_None o : doJobCallbackRequest o = None <-> accepted_post o.
Proof. unfold accepted_post. destruct o as [| |status]; simpl; [done|done|]. case_decide; naive_solver. Qed.

(** The [k]-th pause: 1, 2, 4, ... seconds, and 30 from the sixth on. *)
Definition delay (k : nat) : Z := Z.min (2 ^ Z.of_nat k * finishedCallbackRetryDelay) maxFinishedCallbackRetryDelay.

Lemma nextDelay_delay k : nextDelay (delay k) = delay (S k).
Proof.
  unfold nextDelay, delay, finishedCallbackRetryDelay, maxFinishedCallbackRetryDelay.
  rewrite Nat2Z.inj_succ, Z.pow_succ_r by lia. repeat case_decide; lia.
Qed.

Definition retries (req : JobStatusCallbackRequest) (from n : nat) : list worker_event :=
  mjoin ((fun k => [JobFinished req; Sleep (delay k)]) <$> seq from n).

(** The attempts before the [n]-th failed, and the [n]-th was accepted. *)
Definition accepted_at (attempts : list attempt) (n : nat) : Prop :=
  (forall k a, k < n -> attempts !! k = Some a -> ~ accepted_post (f_post a) /\ f_wait a = None) /\
  exists a, attempts !! n = Some a /\ accepted_post (f_post a).

Lemma accepted_at_0 a rest : accepted_at (a :: rest) 0 <-> accepted_post (f_post a).
Proof. unfold accepted_at. split; [by intros [_ (a' & [= <-] & H)]|]. split; [lia|by exists a]. Qed.

Lemma accepted_at_S a rest n : accepted_at (a :: rest) (S n) <->
  (~ accepted_post (f_post a) /\ f_wait a = None) /\ accepted_at rest n.
Proof.
  unfold accepted_at. split.
  - intros [Hk Hn]. split; [by apply (Hk 0 a); [lia|]|]. split; [|done]. intros k b Hlt Hb. apply (Hk (S k)); [lia|done].
  - intros [Ha [Hk Hn]]. split; [|done]. intros [|k] b Hlt Hb; [by injection Hb as <-|]. apply (Hk k); [lia|done].
Qed.

Lemma retries_S req from n :
  retries req from (S n) = JobFinished req :: Sleep (delay from) :: retries req (S from) n.
Proof. reflexivity. Qed.

Lemma reportLoop_None req attempts : forall from tr,
  reportLoop req (delay from) attempts = Some (tr, None) <->
  exists n, accepted_at attempts n /\ tr = retries req from n ++ [JobFinished req].
Proof.
  induction attempts as [|a rest IH]; intros from tr; simpl.
  - split; [done|]. intros (n & [_ (a & Ha & _)] & _). by rewrite lookup_nil in Ha.
  - pose proof (doJobCallbackRequest_None (f_post a)) as Hd.
    destruct (doJobCallbackRequest (f_post a)) as [e|].
    + assert (Hna : ~ accepted_post (f_post a)) by naive_solver.
      transitivity (f_wait a = None /\ exists tr', reportLoop req (delay (S from)) rest = Some (tr', None) /\
        tr = JobFinished req :: Sleep (delay from) :: tr').
      { destruct (f_wait a); [naive_solver|]. rewrite nextDelay_delay.
        destruct (reportLoop req (delay (S from)) rest) as [[tr' r]|]; simpl; naive_solver. }
      setoid_rewrite IH. split.
      * intros (Hw & tr' & (n & Hn & ->) & ->). exists (S n). by rewrite accepted_at_S.
      * intros ([|n] & Hn & ->); [by apply accepted_at_0 in Hn|]. apply accepted_at_S in Hn as [[_ Hw] Hn].
        split; [done|]. eexists. split; [by exists n|]. by rewrite retries_S.
    + assert (Ha : accepted_post (f_post a)) by naive_solver. split.
      * intros [= <-]. exists 0. by rewrite accepted_at_0.
      * intros ([|n] & Hn & ->); [done|]. by apply accepted_at_S in Hn as [[? _] _].
Qed.

Lemma reported_None req attempts (acts : list worker_event) fmt tr :
  ('(tr', r) ← reportLoop req (delay 0) attempts;
   Some (acts ++ tr', match r with Some e => Some (ErrWrap fmt [] e) | None => None end)) = Some (tr, None) <->
  exists n, accepted_at attempts n /\ tr = acts ++ retries req 0 n ++ [JobFinished req].
Proof.
  transitivity (exists tr', reportLoop req (delay 0) attempts = Some (tr', None) /\ tr = acts ++ tr').
  - destruct (reportLoop req (delay 0) attempts) as [[tr' [r|]]|]; simpl; naive_solver.
  - setoid_rewrite reportLoop_None. naive_solver.
Qed.

(** The finished callback for a job that executed with result [r]. *)
Definition verdict_of (error_text : goerr -> string) (msg : JobExecutionMessage) (r : string * option goerr)
    : JobStatusCallbackRequest :=
  match r.2 with
  | Some e => finishedRequest msg "failed" "" (error_text e)
  | None => finishedRequest msg "success" r.1 ""
  end.

(** C23: a message is acknowledged exactly when its outcome was delivered:
    [handleJobMessage] returns nil iff the started callback was accepted, Docker
    is there, and some attempt to deliver the finished callback was accepted
    after failed ones that were waited out; it then ran the job once, between
    the callbacks, reported [success] exactly for an execution without error, and
    paused 1, 2, 4, ... up to 30 seconds between the attempts. *)
Theorem handleJobMessage_spec error_text d env stat started docker attempts msg tr :
  let exec := ExecuteJob d env stat (Msg_Job msg) (Msg_RepoURL msg) (Msg_Commit msg) (Msg_WorkspacePath msg) in
  let req := verdict_of error_text msg exec.2 in
  handleJobMessage error_text d env stat started docker attempts msg = Some (tr, None) <->
  accepted_post started /\ docker = true /\
  exists n, accepted_at attempts n /\
    tr = [JobStarted (startedRequest msg); Executed exec.1] ++ retries req 0 n ++ [JobFinished req].
Proof.
  intros exec req. unfold handleJobMessage. rewrite <- doJobCallbackRequest_None.
  destruct (doJobCallbackRequest started); [naive_solver|]. destruct docker; [|naive_solver].
  unfold req, verdict_of. fold exec. destruct exec as [actions [logs e]]. cbn [negb fst snd].
  unfold reportJobFinishedUntilSuccess. change finishedCallbackRetryDelay with (delay 0).
  destruct e as [e|]; rewrite reported_None; naive_solver.
Qed.

(** C24: executing a job leaks nothing and never touches a container it does not hold: the
    calls that remove the container and the checkout are made on every path after
    they were created, in reverse order (the code ignores what these calls answer;
    a container that was created although the call answered an error is not known to
    it). The job succeeds exactly when every step did and the container exited with
    0 (or its wait ended without an error); then a container that runs the
    job's script was created and started, and the logs are its output. *)
Theorem ExecuteJob_spec d env stat job repoURL commit workspacePath :
  let '(tr, (logs, e)) := ExecuteJob d env stat job repoURL commit workspacePath in
  tracked [] tr = Some [] /\
  (e = None <-> job_succeeds d env stat job repoURL commit workspacePath) /\
  (e = None -> getLogs d = ok logs /\ exists id wd limits,
     Create id (if decide (JobPlan_Image job = "") then DefaultImage else JobPlan_Image job)
       (scriptToCmd (JobPlan_Script job)) wd limits ∈ tr /\ Start id ∈ tr).
Proof.
  unfold ExecuteJob. pose proof (jobSteps_trace d env stat job repoURL commit workspacePath) as Htr. pose proof (jobSteps_keeps d env stat job repoURL commit workspacePath) as Hk.
  apply keeps_tracked in Hk. pose proof (jobSteps_ok d env stat job repoURL commit workspacePath) as Hok.
  destruct (jobSteps d env stat job repoURL commit workspacePath) as [tr r].
  cbn [fst snd] in Hok, Htr. destruct r as [[logs [e|]]|e]; (split; [exact Hk|]); clear Hk.
  - split; [|done]. split; [done|]. intros Hs. destruct (js_logs _ _ _ _ _ _ _ Hs) as (out & errOut & El).
    exfalso. specialize (Hok (combineLogs out errOut)). unfold getLogs in Hok. rewrite El in Hok. naive_solver.
  - specialize (Htr _ eq_refl). destruct (proj1 (Hok logs) eq_refl). naive_solver.
  - split; [|done]. split; [done|]. intros Hs. destruct (js_logs _ _ _ _ _ _ _ Hs) as (out & errOut & El).
    exfalso. specialize (Hok (combineLogs out errOut)). unfold getLogs in Hok. rewrite El in Hok. naive_solver.
Qed.
End worker.

(** ** The memory limit wraps around *)

#[local] Instance no_floats : GoFloat :=
  {| float64 := unit; ParseFloat _ := None; nonpositive _ := true; round_nano _ := 0%Z |}.

(** Mebibytes become bytes in 64-bit arithmetic: 2^44 MiB is 0 bytes, which
    counts as no limit at all. *)
Example memory_limit_wraps :
  let env k := if decide (k = "WORKER_JOB_MEMORY_LIMIT_MB") then "17592186044416" else "" in
  containerResourcesFromEnv env = ok (MkResources 0 0) /\
  hasContainerResourceLimits (MkResources 0 0) = false.
Proof. split; vm_compute; reflexivity. Qed.

Example script_runs_in_a_shell : scriptToCmd ["make build"; "make test"] = ["sh"; "-c"; "make build && make test"].
Proof. reflexivity. Qed.
Example windows_path : resolveWorkspacePath (fun _ => "") (String.eqb "/host-temp/repo-1") "C:\Temp\repo-1" = "/host-temp/repo-1".
Proof. vm_compute. reflexivity. Qed.
