(* ===== verification/Workerpool.v ===== *)
(** * The worker's service loop (services/worker/consumer.go, service.go, docker.go)

    [Start] makes sure of Docker and of the queue's consumers, retrying until
    they are there, runs the consumers concurrently, and starts over when the
    connection is lost. A turn of the retry loop and a round of the service loop
    are what their environment answers; a list of them is used up while the loop
    goes on ([None]). [consumeWorkers] is a step relation: its goroutines
    interleave, and a [select] takes any case that is ready. Theorems: what the
    service holds is exactly what it opened and did not close, on every path;
    it gives up only when its context ends, its configuration is wrong or a
    consumer fails for another reason than the connection; the goroutines are
    waited for, and an error they report may be lost. *)

From S2P Require Import Prelude GoStrings Models Mq Connections.

(** ** The service *)

Record Service := MkService { docker : bool; jobConsumers : list job_client; mqConn : option nat }.
Definition NewService : Service := MkService false [] None.

(** [NewDockerClient], with its ping. *)
Definition NewDockerClient (new ping : option goerr) : traced resource_action unit :=
  match new with
  | Some e => ([], err e)
  | None => match ping with
            | Some e => ([Opened RDocker; Closed RDocker], err e)
            | None => ([Opened RDocker], ok tt)
            end
  end.

Definition close_consumers (s : Service) : list resource_action :=
  match mqConn s with
  | Some c => (fun k => Closed (RClient c k)) <$> seq 0 (length (jobConsumers s))
  | None => []
  end.

(** [Service.Close] *)
Definition Close (s : Service) : list resource_action * Service :=
  (close_consumers s ++
   match mqConn s with Some c => [Closed (RConn c)] | None => [] end ++
   (if docker s then [Closed RDocker] else []), MkService false [] None).

(** [PingDocker] and [Ready]. *)
Definition PingDocker (docker : bool) (ping : option goerr) : res unit :=
  if negb docker then err (ErrNew "docker client not available" [])
  else match ping with Some e => err e | None => ok tt end.
Definition Ready (cfg : Config) (s : Service) (ping dial channel_error declare : option goerr) : traced resource_action unit :=
  match PingDocker (docker s) ping with
  | inr e => ([], err (ErrWrap "docker not ready: %w" [] e))
  | inl _ => let '(tr, r) := PingMQ cfg dial channel_error declare in
             (tr, match r with inr e => err (ErrWrap "rabbitmq not ready: %w" [] e) | inl _ => ok tt end)
  end.

(** ** Dependencies *)

(** One turn: the context before it, Docker, the connection and its clients, and
    the context's error during a pause. *)
Record turn := MkTurn {
  t_ctx : option goerr; t_docker_new : option goerr; t_docker_ping : option goerr;
  t_dial : res nat; t_client : nat -> attempt_env; t_wait : option goerr }.

(** How a turn ends: the loop goes on, or returns. *)
Abbreviation turn_end := (option (res unit)).

Definition pause (t : turn) : turn_end := match sleepWithContext (t_wait t) with inr e => Some (err e) | inl _ => None end.

Section service.
Context (cfg : Config) (getenv : string -> string).

Definition connect (t : turn) (s : Service) : list resource_action * (Service * turn_end) :=
  let old := match mqConn s with Some c => [Closed (RConn c)] | None => [] end in
  let s := MkService (docker s) (jobConsumers s) None in
  match t_dial t with
  | inr e => (old, (s, pause t))
  | inl conn =>
    match createJobConsumers cfg (t_client t) getenv conn with
    | (tr, inr e) => (old ++ [Opened (RConn conn)] ++ tr ++ [Closed (RConn conn)],
                      (s, if is_fatal e then Some (err e) else pause t))
    | (tr, inl consumers) => (old ++ [Opened (RConn conn)] ++ tr,
        (MkService (docker s) consumers (Some conn), if docker s && bool_decide (consumers ≠ []) then Some (ok tt) else None))
    end
  end.

Definition connect_unless (t : turn) (s : Service) : list resource_action * (Service * turn_end) :=
  if decide (jobConsumers s = []) then connect t s else ([], (s, if docker s then Some (ok tt) else None)).

Definition turn_step (t : turn) (s : Service) : list resource_action * (Service * turn_end) :=
  match t_ctx t with
  | Some e => ([], (s, Some (err e)))
  | None =>
    if docker s then connect_unless t s else
    match NewDockerClient (t_docker_new t) (t_docker_ping t) with
    | (tr, inr e) => (tr, (s, pause t))
    | (tr, inl _) => let '(tr', o) := connect_unless t (MkService true (jobConsumers s) (mqConn s)) in (tr ++ tr', o)
    end
  end.

Fixpoint ensure_loop (turns : list turn) (s : Service) : option (list resource_action * (Service * res unit)) :=
  match turns with
  | [] => None
  | t :: rest =>
    match turn_step t s with
    | (tr, (s', Some r)) => Some (tr, (s', r))
    | (tr, (s', None)) => '(tr', o) ← ensure_loop rest s'; Some (tr ++ tr', o)
    end
  end.

Definition ensureDependencies (turns : list turn) (s : Service) : option (list resource_action * (Service * res unit)) :=
  match Validate cfg with
  | inr e => Some ([], (s, err (ErrWrap "%w: %v" [] ErrFatal)))
  | inl _ => ensure_loop turns s
  end.

(** ** Start *)

(** A round: what [consumeWorkers] returns, the context after it, and the turns
    that follow a lost connection. *)
Record round := MkRound { rd_consume : res unit; rd_ctx : option goerr; rd_turns : list turn }.

(** Besides its result, whether the consumers ran: the service they ran for. *)
Definition consumeJobs (s : Service) (outcome : res unit) : list Service * res unit :=
  if negb (docker s) then ([], err (ErrNew "docker client not available" []))
  else if decide (jobConsumers s = []) then ([], err (ErrNew "job consumer not available" []))
  else ([s], outcome).

(** What was opened and closed, the services whose consumers ran, and the result. *)
Abbreviation started := (option (list resource_action * (list Service * (Service * res unit)))).

Fixpoint start_loop (rounds : list round) (s : Service) : started :=
  match rounds with
  | [] => None
  | rd :: rest =>
    let '(ran, result) := consumeJobs s (rd_consume rd) in
    match result, rd_ctx rd with
    | inl _, _ => Some ([], (ran, (s, ok tt)))
    | inr e, Some _ => Some ([], (ran, (s, err e)))
    | inr e, None =>
      if is_closed e then
        let '(closing, s1) := Close s in
        '(tr, (s2, r)) ← ensureDependencies (rd_turns rd) s1;
        match r with
        | inr e' => Some (closing ++ tr, (ran, (s2, err e')))
        | inl _ => '(tr', (ran', o)) ← start_loop rest s2; Some (closing ++ tr ++ tr', (ran ++ ran', o))
        end
      else Some ([], (ran, (s, err e)))
    end
  end.

Definition Start (turns : list turn) (rounds : list round) (s : Service) : started :=
  '(tr, (s1, r)) ← ensureDependencies turns s;
  match r with
  | inr e => Some (tr, ([], (s1, err e)))
  | inl _ => '(tr', o) ← start_loop rounds s1; Some (tr ++ tr', o)
  end.

(** ** What the service holds *)

Definition holds_docker (d : bool) : gset resource := if d then {[RDocker]} else ∅.
Definition holds (s : Service) : gset resource :=
  match mqConn s with
  | Some c => clients c (length (jobConsumers s)) ∪ ({[RConn c]} ∪ holds_docker (docker s))
  | None => holds_docker (docker s)
  end.

(** Consumers come with a connection, as many as configured, each usable. *)
Record service_ok (s : Service) : Prop := {
  so_conn : jobConsumers s ≠ [] -> is_Some (mqConn s);
  so_count : jobConsumers s ≠ [] -> length (jobConsumers s) = Z.to_nat (loadWorkerConcurrency getenv);
  so_usable : Forall (usable cfg) (jobConsumers s) }.
Definition service_ready (s : Service) : Prop := docker s = true /\ jobConsumers s ≠ [].
(** Docker and a connection are there, and as many clients as configured, at least
    one, each with an open channel and the job queue. *)
Definition equipped (s : Service) : Prop :=
  docker s = true /\ is_Some (mqConn s) /\ (1 <= length (jobConsumers s)) /\
  length (jobConsumers s) = Z.to_nat (loadWorkerConcurrency getenv) /\ Forall (usable cfg) (jobConsumers s).

Lemma ready_equipped s : service_ok s -> service_ready s -> equipped s.
Proof.
  intros [H1 H2 H3] [Hd Hj]. split_and!; [done|by apply H1| |by apply H2|done]. by destruct (jobConsumers s); [|simpl; lia].
Qed.

(** A part of the loop: its trace leads from what was held to what is held. *)
Definition accounts (s : Service) (tr : list resource_action) (s' : Service) : Prop :=
  tracked (holds s) tr = Some (holds s') /\ service_ok s'.

Lemma accounts_app s tr s1 tr' s' : accounts s tr s1 -> accounts s1 tr' s' -> accounts s (tr ++ tr') s'.
Proof. intros [H1 _] [H2 H3]. split; [|done]. by rewrite (tracked_app _ _ _ _ H1). Qed.
Lemma accounts_nil s : service_ok s -> accounts s [] s.
Proof. by split. Qed.

Lemma clients_0 c : clients c 0 = ∅.
Proof. done. Qed.

Lemma createJobConsumers_tracked t conn base : (forall k, RClient conn k ∉ base) ->
  let '(tr, o) := createJobConsumers cfg (t_client t) getenv conn in
  tracked base tr = Some (match o with inl l => clients conn (length l) ∪ base | inr _ => base end) /\
  forall l, o = ok l -> l ≠ [] /\ length l = Z.to_nat (loadWorkerConcurrency getenv) /\ Forall (usable cfg) l.
Proof.
  intros Hb. unfold createJobConsumers. pose proof (loadConcurrency_positive "WORKER_CONCURRENCY" 1 getenv ltac:(lia)) as Hn.
  change (loadConcurrency "WORKER_CONCURRENCY" 1 getenv) with (loadWorkerConcurrency getenv) in Hn. rewrite decide_False by lia.
  set (n := Z.to_nat (loadWorkerConcurrency getenv)) in *.
  pose proof (openClients_tracked "initialize worker %d/%d: %w" cfg (t_client t) conn n base Hb n 0 [] eq_refl (Forall_nil_2 _)) as Ho.
  destruct (openClients _ _ _ _ _ _ _ _) as [tr o]. destruct Ho as [Htr Hl]. rewrite clients_0, (left_id_L ∅ (∪)) in Htr.
  destruct o as [l|e]; [|by split]. destruct (Hl l eq_refl) as [El Hus]. simpl in El. rewrite El. split; [done|].
  intros ? [= <-]. split_and!; [|done|done]. intros ->. simpl in El. lia.
Qed.

Lemma connect_accounts t s : service_ok s -> jobConsumers s = [] ->
  let '(tr, (s', r)) := connect t s in
  accounts s tr s' /\ (r = Some (ok tt) -> service_ready s') /\ docker s' = docker s.
Proof.
  intros Hok Hnil. unfold connect. rewrite Hnil. set (base := holds_docker (docker s)).
  assert (Hdock : forall c, RConn c ∉ base) by (intros c; unfold base, holds_docker; destruct (docker s); set_solver).
  assert (Hcl : forall c k, RClient c k ∉ base) by (intros c k; unfold base, holds_docker; destruct (docker s); set_solver).
  set (old := match mqConn s with Some c => _ | None => _ end).
  assert (Hold : tracked (holds s) old = Some base).
  { unfold old, holds. destruct (mqConn s) as [c|]; [|done]. rewrite Hnil. simpl. rewrite clients_0, (left_id_L ∅ (∪)).
    fold base. rewrite tracked_close by set_solver. unfold tracked. simpl. f_equal. specialize (Hdock c). set_solver. }
  assert (Hempty : accounts s old (MkService (docker s) [] None)).
  { split; [exact Hold|]. split; [done|done|constructor]. }
  assert (Hpause : pause t = Some (ok tt) -> service_ready (MkService (docker s) [] None)).
  { unfold pause, sleepWithContext. by destruct (t_wait t). }
  destruct (t_dial t) as [conn|e]; [|done].
  assert (Hb : forall k, RClient conn k ∉ {[RConn conn]} ∪ base) by (intros k; specialize (Hcl conn k); set_solver).
  pose proof (createJobConsumers_tracked t conn _ Hb) as Hc.
  destruct (createJobConsumers cfg (t_client t) getenv conn) as [tr [l|e]]; destruct Hc as [Htr Hl].
  - destruct (Hl l eq_refl) as (Hne & Hlen & Hus). split_and!; [|by case_match eqn:E; [intros _; split; [by destruct (docker s)|done]|]|done].
    split; [|split; [by eexists|done|done]]. rewrite (tracked_app _ _ _ _ Hold). simpl. rewrite tracked_open by done. by rewrite Htr.
  - split_and!; [|by destruct (is_fatal e)|done]. split; [|apply Hempty].
    rewrite (tracked_app _ _ _ _ Hold). simpl. rewrite tracked_open by done. rewrite (tracked_app _ _ _ _ Htr), tracked_close by set_solver.
    unfold holds. simpl. fold base. unfold tracked. simpl. f_equal. specialize (Hdock conn). set_solver.
Qed.

Lemma connect_unless_accounts t s : service_ok s ->
  let '(tr, (s', r)) := connect_unless t s in
  accounts s tr s' /\ (r = Some (ok tt) -> service_ready s') /\ docker s' = docker s.
Proof.
  intros Hok. unfold connect_unless. case_decide as Hn; [by apply connect_accounts|].
  split; [by apply accounts_nil|]. split; [|done]. destruct (docker s) eqn:E; [|done]. intros _. by split.
Qed.

Lemma turn_step_accounts t s : service_ok s ->
  let '(tr, (s', r)) := turn_step t s in accounts s tr s' /\ (r = Some (ok tt) -> service_ready s').
Proof.
  intros Hok. unfold turn_step. destruct (t_ctx t); [by split; [apply accounts_nil|]|].
  destruct (docker s) eqn:Ed.
  { pose proof (connect_unless_accounts t s Hok) as Hc. destruct (connect_unless t s) as [tr [s' r]]. by destruct Hc as (? & ? & _). }
  unfold NewDockerClient. assert (Hd : RDocker ∉ holds s).
  { unfold holds, holds_docker. rewrite Ed. destruct (mqConn s) as [c|]; [|set_solver].
    rewrite elem_of_union, elem_of_clients. intros [(k & _ & ?)|?]; [done|set_solver]. }
  assert (Hp : pause t = Some (ok tt) -> service_ready s) by (unfold pause, sleepWithContext; by destruct (t_wait t)).
  destruct (t_docker_new t); [by split; [apply accounts_nil|]|]. destruct (t_docker_ping t).
  { split; [|done]. split; [by apply tracked_open_close|done]. }
  set (s1 := MkService true (jobConsumers s) (mqConn s)).
  assert (Hopen : accounts s [Opened RDocker] s1).
  { split; [|destruct Hok; by split]. rewrite tracked_open by done. unfold tracked, holds. simpl. f_equal.
    rewrite Ed. destruct (mqConn s); simpl; set_solver. }
  pose proof (connect_unless_accounts t s1 (proj2 Hopen)) as Hc. destruct (connect_unless t s1) as [tr [s' r]].
  destruct Hc as (Hc & Hr & _). split; [|done]. by eapply accounts_app.
Qed.

Lemma Close_accounts s : service_ok s -> accounts s (Close s).1 NewService.
Proof.
  intros Hok. split; [|by split]. unfold Close, close_consumers, holds. simpl.
  set (base := holds_docker (docker s)).
  assert (Hbase : tracked base (if docker s then [Closed RDocker] else []) = Some ∅).
  { unfold base, holds_docker. destruct (docker s); [|done]. rewrite tracked_close by set_solver. done. }
  destruct (mqConn s) as [c|]; [|done].
  assert (Hb : forall k, RClient c k ∉ {[RConn c]} ∪ base) by (intros k; unfold base, holds_docker; destruct (docker s); set_solver).
  assert (Hback : ({[RConn c]} ∪ base) ∖ {[RConn c]} = base) by (unfold base, holds_docker; destruct (docker s); set_solver).
  rewrite (tracked_app _ _ _ _ (tracked_close_clients c _ _ Hb)). simpl. rewrite tracked_close by set_solver. by rewrite Hback.
Qed.

(** Why the retry loop gives up. *)
Definition gives_up (turns : list turn) (e : goerr) : Prop :=
  is_fatal e = true \/ exists t, t ∈ turns /\ (t_ctx t = Some e \/ t_wait t = Some e).

Lemma turn_step_gives_up t s tr s' e : turn_step t s = (tr, (s', Some (err e))) -> gives_up [t] e.
Proof.
  assert (Hpause : pause t = Some (err e) -> gives_up [t] e).
  { unfold pause, sleepWithContext. destruct (t_wait t) eqn:E; [|done]. intros [= ->]. right. exists t. split; [left|by right]. }
  assert (Hcu : forall s tr s', connect_unless t s = (tr, (s', Some (err e))) -> gives_up [t] e).
  { intros s0 tr0 s0'. unfold connect_unless. case_decide; [|by destruct (docker s0)]. unfold connect.
    destruct (t_dial t); [|intros [= _ _ ?]; auto]. destruct (createJobConsumers cfg (t_client t) getenv n) as [tr1 [l|e1]].
    - intros [= _ _ Hr]. by case_match.
    - destruct (is_fatal e1) eqn:Ef; [|intros [= _ _ ?]; auto]. intros [= _ _ ->]. by left. }
  unfold turn_step. destruct (t_ctx t) as [e0|] eqn:Ec; [intros [= _ _ ->]; right; exists t; split; [left|by left]|].
  destruct (docker s); [apply Hcu|]. destruct (NewDockerClient _ _) as [tr1 [|e1]]; [|intros [= _ _ ?]; auto].
  destruct (connect_unless t _) as [tr2 o] eqn:Eu. intros [= _ ->]. by eapply Hcu.
Qed.

Lemma gives_up_mono turns turns' e : (forall t, t ∈ turns -> t ∈ turns') -> gives_up turns e -> gives_up turns' e.
Proof. intros H [?|(t & Ht & ?)]; [by left|]. right. exists t. auto. Qed.

Lemma ensure_loop_spec turns s tr s' r : service_ok s -> ensure_loop turns s = Some (tr, (s', r)) ->
  accounts s tr s' /\ match r with inl _ => service_ready s' | inr e => gives_up turns e end.
Proof.
  revert s tr. induction turns as [|t turns IH]; intros s tr Hok; simpl; [done|].
  pose proof (turn_step_accounts t s Hok) as Ht. pose proof (turn_step_gives_up t s) as Hg.
  destruct (turn_step t s) as [tr1 [s1 [r1|]]]; destruct Ht as [Hacc Hready].
  - intros [= <- <- <-]. split; [done|]. destruct r1 as [[]|e]; [by apply Hready|].
    eapply gives_up_mono; [|by eapply Hg]. intros t' ->%list_elem_of_singleton. left.
  - destruct (ensure_loop turns s1) as [[tr2 [s2 r2]]|] eqn:E; [|done]. intros [= <- <- <-].
    destruct (IH s1 tr2 (proj2 Hacc) E) as [Hacc2 Hr]. split; [by eapply accounts_app|].
    destruct r2; [done|]. eapply gives_up_mono; [|done]. intros t' ?. by right.
Qed.

Lemma ensureDependencies_spec turns s tr s' r : service_ok s -> ensureDependencies turns s = Some (tr, (s', r)) ->
  accounts s tr s' /\ match r with inl _ => service_ready s' | inr e => gives_up turns e end.
Proof.
  intros Hok. unfold ensureDependencies. destruct (Validate cfg); [by apply ensure_loop_spec|].
  intros [= <- <- <-]. split; [by apply accounts_nil|by left].
Qed.

(** Why the service stops. *)
Definition stops (turns : list turn) (rounds : list round) (r : res unit) : Prop :=
  match r with
  | inl _ => exists rd, rd ∈ rounds /\ rd_consume rd = ok tt
  | inr e => gives_up (turns ++ (rounds ≫= rd_turns)) e \/
      exists rd, rd ∈ rounds /\ rd_consume rd = err e /\ (is_Some (rd_ctx rd) \/ is_closed e = false)
  end.

Lemma stops_mono turns rounds turns' rounds' r : (forall t, t ∈ turns ++ (rounds ≫= rd_turns) -> t ∈ turns' ++ (rounds' ≫= rd_turns)) ->
  (forall rd, rd ∈ rounds -> rd ∈ rounds') -> stops turns rounds r -> stops turns' rounds' r.
Proof.
  intros Ht Hr. destruct r as [u|e]; [intros (rd & ? & ?); exists rd; auto|].
  intros [H|(rd & ? & ?)]; [left; by eapply gives_up_mono|right; exists rd; auto].
Qed.

Lemma start_loop_spec rounds s tr ran s' r : service_ok s -> service_ready s -> start_loop rounds s = Some (tr, (ran, (s', r))) ->
  accounts s tr s' /\ Forall equipped ran /\ stops [] rounds r.
Proof.
  revert s tr ran. induction rounds as [|rd rounds IH]; intros s tr ran Hok Hs; simpl; [done|].
  pose proof (ready_equipped s Hok Hs) as Hrun%(fun H => Forall_cons_2 _ _ _ H (Forall_nil_2 equipped)). destruct Hs as [Hd Hj].
  unfold consumeJobs. rewrite Hd. simpl. rewrite decide_False by done.
  destruct (rd_consume rd) as [[]|e] eqn:Er.
  { intros [= <- <- <- <-]. split; [by apply accounts_nil|]. split; [done|]. exists rd. split; [left|done]. }
  assert (Hstop : is_Some (rd_ctx rd) \/ is_closed e = false -> stops [] (rd :: rounds) (err e)).
  { intros H. right. exists rd. split_and!; [left|done|done]. }
  destruct (rd_ctx rd) as [e0|] eqn:Ec; [intros [= <- <- <- <-]; split_and!; [by apply accounts_nil|done|by apply Hstop; left]|].
  destruct (is_closed e) eqn:Ecl; [|intros [= <- <- <- <-]; split_and!; [by apply accounts_nil|done|by apply Hstop; right]].
  pose proof (Close_accounts s Hok) as Hclose. unfold Close in Hclose. cbn [fst] in Hclose. rewrite Hd in Hclose. cbn [Close].
  change (MkService false [] None) with NewService.
  destruct (ensureDependencies (rd_turns rd) NewService) as [[tr1 [s1 r1]]|] eqn:Ee; [|done]. cbn.
  destruct (ensureDependencies_spec _ _ _ _ _ (proj2 Hclose) Ee) as [Hacc Hr].
  destruct r1 as [[]|e1].
  - destruct (start_loop rounds s1) as [[tr2 [ran2 [s2 r2]]]|] eqn:Es; [|done]. intros [= <- <- <- <-].
    destruct (IH s1 tr2 ran2 (proj2 Hacc) Hr Es) as (Hacc2 & Hran & Hst). split; [eapply accounts_app; [exact Hclose|by eapply accounts_app]|].
    split; [by apply (Forall_app_2 _ [s])|].
    eapply stops_mono; [| |exact Hst]; [intros t Ht; simpl in *; apply elem_of_app; by right|by right].
  - intros [= <- <- <- <-]. split; [by eapply accounts_app|]. split; [done|]. left. eapply gives_up_mono; [|exact Hr].
    intros t Ht. simpl. apply elem_of_app. by left.
Qed.

Lemma Start_accounts turns rounds tr ran s r :
  Start turns rounds NewService = Some (tr, (ran, (s, r))) -> accounts NewService tr s /\ Forall equipped ran /\ stops turns rounds r.
Proof.
  assert (Hok : service_ok NewService) by by split. unfold Start.
  destruct (ensureDependencies turns NewService) as [[tr1 [s1 r1]]|] eqn:Ee; [|done]. cbn.
  destruct (ensureDependencies_spec _ _ _ _ _ Hok Ee) as [Hacc Hr].
  destruct r1 as [[]|e1].
  - destruct (start_loop rounds s1) as [[tr2 [ran2 [s2 r2]]]|] eqn:Es; [|done]. intros [= <- <- <- <-].
    destruct (start_loop_spec _ _ _ _ _ _ (proj2 Hacc) Hr Es) as (Hacc2 & Hran & Hst). split; [by eapply accounts_app|]. split; [done|].
    eapply stops_mono; [| |exact Hst]; [|done]. intros t Ht. simpl in Ht. apply elem_of_app. by right.
  - intros [= <- <- <- <-]. split; [done|]. split; [constructor|]. left. eapply gives_up_mono; [|exact Hr]. intros t Ht. apply elem_of_app. by left.
Qed.

Lemma accounts_closed tr s : accounts NewService tr s -> tracked ∅ (tr ++ (Close s).1) = Some ∅.
Proof. intros Ha. exact (proj1 (accounts_app _ _ _ _ _ Ha (Close_accounts s (proj2 Ha)))). Qed.

(** C25: whatever Docker, the broker and the consumers do, and however often the
    connection is lost, when [Start] returns, the worker holds exactly what it opened
    and did not close, so that closing the service leaves nothing open. Each time
    that its consumers ran, Docker and a connection were there, and as many clients
    as configured, at least one, each opened with a channel and the job queue. It
    stops only when consuming ended without an error, when a consumer failed for
    another reason than the connection or the context had ended, when the context
    ended while it waited, or for a fatal configuration. *)
Theorem Start_spec turns rounds tr ran s r :
  Start turns rounds NewService = Some (tr, (ran, (s, r))) ->
  tracked ∅ tr = Some (holds s) /\ tracked ∅ (tr ++ (Close s).1) = Some ∅ /\ Forall equipped ran /\ stops turns rounds r.
Proof.
  intros E. destruct (Start_accounts _ _ _ _ _ _ E) as (Ha & Hr & Hs). split; [apply Ha|]. split; [by apply accounts_closed|by split].
Qed.

(** ** The retry loop ends *)

Definition patient (t : turn) : Prop :=
  t_ctx t = None /\ t_wait t = None /\
  forall conn tr e, createJobConsumers cfg (t_client t) getenv conn = (tr, err e) -> is_fatal e = false.
Definition answers (a : attempt_env) : Prop :=
  a_closed a = false /\ a_channel a = None /\ a_confirm_mode a = None /\ a_declare a = None.
Definition everything_there (t : turn) : Prop :=
  t_docker_new t = None /\ t_docker_ping t = None /\ (exists conn, t_dial t = ok conn) /\ forall i, answers (t_client t i).

Lemma openClient_answers a r : Validate cfg = ok tt -> JobQueue cfg ≠ "" -> answers a ->
  openClient cfg a r = ([Opened r], ok (MkJobClient (MkRabbit true [ChannelOpened]) (JobQueue cfg))).
Proof.
  intros Hv Hq (H1 & H2 & H3 & H4). unfold openClient, NewRabbitClientWithConn, NewJobClient, reopenChannelLocked, ensureQueueLocked.
  rewrite Hv, H1, H2, H3. simpl. by rewrite decide_False, H4.
Qed.

Lemma openClients_answers fmt env conn total n i opened : Validate cfg = ok tt -> JobQueue cfg ≠ "" -> (forall i, answers (env i)) ->
  exists tr l, openClients fmt cfg env conn total n i opened = (tr, ok l).
Proof.
  intros Hv Hq Ha. revert i opened. induction n as [|n IH]; intros i opened; simpl; [by eexists _, _|].
  rewrite openClient_answers by done. cbn [ok]. destruct (IH (S i) (opened ++ [MkJobClient (MkRabbit true [ChannelOpened]) (JobQueue cfg)])) as (tr & l & ->). by eexists _, _.
Qed.

Lemma Validate_queue : Validate cfg = ok tt -> JobQueue cfg ≠ "".
Proof. unfold Validate. intros Hv E. rewrite E in Hv. by repeat case_decide. Qed.

Lemma createJobConsumers_answers t conn : Validate cfg = ok tt -> (forall i, answers (t_client t i)) ->
  exists tr l, createJobConsumers cfg (t_client t) getenv conn = (tr, ok l) /\ l ≠ [].
Proof.
  intros Hv Ha. pose proof (createJobConsumers_tracked t conn ∅ ltac:(set_solver)) as Hc.
  assert (Hex : exists tr l, createJobConsumers cfg (t_client t) getenv conn = (tr, ok l)).
  { unfold createJobConsumers. pose proof (loadConcurrency_positive "WORKER_CONCURRENCY" 1 getenv ltac:(lia)).
    rewrite decide_False by (unfold loadWorkerConcurrency; lia). apply openClients_answers; [done|by apply Validate_queue|exact Ha]. }
  destruct Hex as (tr & l & E). rewrite E in Hc. exists tr, l. split; [done|]. by apply Hc.
Qed.

Lemma turn_step_patient t s : patient t -> (turn_step t s).2.2 = None \/ (turn_step t s).2.2 = Some (ok tt).
Proof.
  intros (H1 & H2 & H3). assert (Hp : pause t = None) by (unfold pause, sleepWithContext; by rewrite H2).
  assert (Hc : forall s0, (connect_unless t s0).2.2 = None \/ (connect_unless t s0).2.2 = Some (ok tt)).
  { intros s0. unfold connect_unless, connect. rewrite Hp. case_decide; [|by destruct (docker s0); [right|left]].
    destruct (t_dial t) as [conn|]; [|by left]. specialize (H3 conn).
    destruct (createJobConsumers cfg (t_client t) getenv conn) as [tr [l|e]]; simpl; [case_match; [by right|by left]|].
    rewrite (H3 tr e eq_refl). by left. }
  unfold turn_step. rewrite H1, Hp. destruct (docker s); [apply Hc|]. destruct (NewDockerClient _ _) as [tr [|e]]; [|by left].
  specialize (Hc (MkService true (jobConsumers s) (mqConn s))). by destruct (connect_unless t _) as [tr' o].
Qed.

Lemma turn_step_there t s : Validate cfg = ok tt -> patient t -> everything_there t -> (turn_step t s).2.2 = Some (ok tt).
Proof.
  intros Hv (H1 & _ & _) (H2 & H3 & [conn H4] & H5).
  assert (Hc : forall s0, docker s0 = true -> (connect_unless t s0).2.2 = Some (ok tt)).
  { intros s0 Hd. unfold connect_unless, connect. case_decide; [|by rewrite Hd]. rewrite H4. cbn [ok].
    destruct (createJobConsumers_answers t conn Hv H5) as (tr & l & E & Hl). rewrite E. simpl. by rewrite Hd, bool_decide_eq_true_2. }
  unfold turn_step, NewDockerClient. rewrite H1, H2, H3. destruct (docker s) eqn:Ed; [by apply Hc|]. cbn [ok].
  specialize (Hc (MkService true (jobConsumers s) (mqConn s)) eq_refl). by destruct (connect_unless t _) as [tr' o].
Qed.

(** With a valid configuration, and unless the context ends or the broker
    answers with a fatal error, the worker keeps trying until Docker and the
    queue are there: it starts at the latest in the first turn in which
    everything answers. *)
Theorem ensureDependencies_eventually before t after s :
  Validate cfg = ok tt -> Forall patient (before ++ [t]) -> everything_there t ->
  exists tr s', ensureDependencies (before ++ t :: after) s = Some (tr, (s', ok tt)).
Proof.
  intros Hv Hp Ht. unfold ensureDependencies. rewrite Hv. cbn [ok]. revert s. induction before as [|t0 before IH]; intros s; simpl in *.
  - apply Forall_cons in Hp as [Hp _]. pose proof (turn_step_there t s Hv Hp Ht) as H.
    destruct (turn_step t s) as [tr [s' r]]. simpl in H. subst r. by eexists _, _.
  - apply Forall_cons in Hp as [Hp0 Hp]. pose proof (turn_step_patient t0 s Hp0) as H.
    destruct (turn_step t0 s) as [tr [s' r]]. simpl in H. destruct H as [-> | ->]; [|by eexists _, _].
    destruct (IH Hp s') as (tr' & s2 & E). rewrite E. by eexists _, _.
Qed.

End service.

(** ** consumeWorkers

    One goroutine per consumer, one that closes [done] when all have ended, and
    the caller's [select]. *)

Inductive goroutine := Running | Returned (r : res unit) | Exited (r : res unit).
Inductive caller := Selecting | Waiting (r : res unit) | Finished (r : res unit).

(** [ctx] is the error of the caller's context, [cancelled] whether [cancel] was
    called on the one derived from it. *)
Record pool := MkPool { consumers : list goroutine; errCh : list goerr; ctx : option goerr; cancelled : bool; done_closed : bool; main : caller }.
Definition pool_start (n : nat) : pool := MkPool (replicate n Running) [] None false false Selecting.
Definition consume_ctx_done (p : pool) : Prop := cancelled p = true \/ is_Some (ctx p).
Definition consumer_failed (i : nat) (e : goerr) : goerr := ErrWrap "job consumer %d failed: %w" [Itoa (Z.of_nat (S i))] e.
Definition has_exited (g : goroutine) : Prop := match g with Exited _ => True | _ => False end.

(** The channel [errCh] holds one error per consumer. *)
Inductive pool_step : pool -> pool -> Prop :=
| step_return cs es c k d m i r : cs !! i = Some Running ->
    pool_step (MkPool cs es c k d m) (MkPool (<[i := Returned r]> cs) es c k d m)
| step_send cs es c k d m i e : cs !! i = Some (Returned (err e)) -> ~ consume_ctx_done (MkPool cs es c k d m) -> length es < length cs ->
    pool_step (MkPool cs es c k d m) (MkPool (<[i := Exited (err e)]> cs) (es ++ [consumer_failed i e]) c k d m)
| step_exit cs es c k d m i r : cs !! i = Some (Returned r) -> r = ok tt \/ consume_ctx_done (MkPool cs es c k d m) ->
    pool_step (MkPool cs es c k d m) (MkPool (<[i := Exited r]> cs) es c k d m)
| step_close cs es c k m : Forall has_exited cs ->
    pool_step (MkPool cs es c k false m) (MkPool cs es c k true m)
| step_ctx cs es k d m e :
    pool_step (MkPool cs es None k d m) (MkPool cs es (Some e) k d m)
| step_select_error cs e es c k d :
    pool_step (MkPool cs (e :: es) c k d Selecting) (MkPool cs es c true d (Waiting (err e)))
| step_select_ctx cs es e k d :
    pool_step (MkPool cs es (Some e) k d Selecting) (MkPool cs es (Some e) true d (Waiting (err e)))
| step_select_done cs es c k :
    pool_step (MkPool cs es c k true Selecting) (MkPool cs es c k true (Finished (ok tt)))
| step_wait cs es c k r :
    pool_step (MkPool cs es c k true (Waiting r)) (MkPool cs es c k true (Finished r)).

(** An error that consumer [i] returned, as the caller gets it. *)
Definition reported (p : pool) (e : goerr) : Prop := exists i e0, consumers p !! i = Some (Exited (err e0)) /\ e = consumer_failed i e0.
#[export] Instance has_exited_dec g : Decision (has_exited g).
Proof. destruct g; apply _. Defined.
Definition live (cs : list goroutine) : nat := length (filter (fun g => ~ has_exited g) cs).

Record pool_ok (n : nat) (p : pool) : Prop := {
  po_count : length (consumers p) = n;
  po_room : length (errCh p) + live (consumers p) <= n;
  po_errors : Forall (reported p) (errCh p);
  po_done : done_closed p = true -> Forall has_exited (consumers p);
  po_caller : match main p with
    | Selecting => True
    | Waiting r => exists e, r = err e /\ (reported p e \/ ctx p = Some e)
    | Finished r => done_closed p = true /\ forall e, r = err e -> reported p e \/ ctx p = Some e
    end }.

Lemma live_insert cs i g g' : cs !! i = Some g ->
  live (<[i := g']> cs) + (if decide (has_exited g) then 0 else 1) = live cs + (if decide (has_exited g') then 0 else 1).
Proof.
  intros Hi. pose proof (lookup_lt_Some _ _ _ Hi) as Hlt.
  assert (E : live cs = live (take i cs ++ g :: drop (S i) cs)) by by rewrite take_drop_middle.
  rewrite E, insert_take_drop by done. unfold live. rewrite !filter_app, !length_app, !filter_cons.
  repeat case_decide; simpl; try tauto; lia.
Qed.

Lemma live_lookup cs i g : cs !! i = Some g -> ~ has_exited g -> 0 < live cs.
Proof.
  intros Hi Hg. pose proof (live_insert cs i g (Exited (ok tt)) Hi) as H. rewrite decide_False, decide_True in H by done. lia.
Qed.

Lemma reported_mono cs es c k d m i g g' es' c' k' d' m' e : cs !! i = Some g -> ~ has_exited g ->
  reported (MkPool cs es c k d m) e -> reported (MkPool (<[i := g']> cs) es' c' k' d' m') e.
Proof.
  intros Hi Hg (j & e0 & Hj & ->). exists j, e0. split; [|done]. simpl in *. rewrite list_lookup_insert_ne; [done|].
  intros ->. rewrite Hi in Hj. injection Hj as ->. by apply Hg.
Qed.

(** A consumer that moves on keeps what was reported. *)
Lemma pool_ok_move n cs es c k d m i g g' es' :
  cs !! i = Some g -> ~ has_exited g -> pool_ok n (MkPool cs es c k d m) ->
  length es' + (if decide (has_exited g') then 0 else 1) <= length es + 1 ->
  Forall (reported (MkPool (<[i := g']> cs) es' c k d m)) es' ->
  pool_ok n (MkPool (<[i := g']> cs) es' c k d m).
Proof.
  intros Hi Hg [H1 H2 H3 H4 H5] Hlen Hes. simpl in *.
  pose proof (live_insert cs i g g' Hi) as Hl. rewrite (decide_False _ _ Hg) in Hl.
  assert (Hd : d = true -> False).
  { intros E. specialize (H4 E). rewrite Forall_lookup in H4. by apply Hg, (H4 i). }
  split; simpl; [by rewrite length_insert|case_decide; lia|done|by intros ?%Hd|].
  destruct m as [|r|r]; [done| |by destruct H5 as [?%Hd _]].
  destruct H5 as (e & -> & [H|H]); exists e; (split; [done|]); [left; by eapply reported_mono|by right].
Qed.

Lemma pool_ok_start n : pool_ok n (pool_start n).
Proof.
  split; simpl; [apply length_replicate| |constructor|done|done].
  unfold live. etransitivity; [apply length_filter|]. by rewrite length_replicate.
Qed.

Lemma pool_ok_step n p p' : pool_step p p' -> pool_ok n p -> pool_ok n p'.
Proof.
  intros Hs Hok. destruct Hs as [cs es c k d m i r Hi|cs es c k d m i e Hi Hctx Hroom|cs es c k d m i r Hi Hr| | | | | |].
  - eapply pool_ok_move; [exact Hi|by intros []|done|simpl; lia|]. destruct Hok as [_ _ H _ _]. simpl in H.
    eapply Forall_impl; [exact H|]. intros e. by apply (reported_mono _ _ _ _ _ _ _ _ _ _ _ _ _ _ _ Hi); intros [].
  - eapply pool_ok_move; [exact Hi|by intros []|done|rewrite length_app; simpl; lia|]. destruct Hok as [_ _ H _ _]. simpl in H.
    apply Forall_app. split.
    + eapply Forall_impl; [exact H|]. intros e'. by apply (reported_mono _ _ _ _ _ _ _ _ _ _ _ _ _ _ _ Hi); intros [].
    + constructor; [|constructor]. exists i, e. split; [|done]. simpl. apply list_lookup_insert_eq. by eapply lookup_lt_Some.
  - eapply pool_ok_move; [exact Hi|by intros []|done|simpl; lia|]. destruct Hok as [_ _ H _ _]. simpl in H.
    eapply Forall_impl; [exact H|]. intros e. by apply (reported_mono _ _ _ _ _ _ _ _ _ _ _ _ _ _ _ Hi); intros [].
  - destruct Hok as [H1 H2 H3 H4 H5]. simpl in *. split; simpl; try done. destruct m as [|r|r]; try done. by destruct H5.
  - destruct Hok as [H1 H2 H3 H4 H5]. simpl in *. split; simpl; try done. destruct m as [|r|r]; [done| |].
    + destruct H5 as (e' & -> & [H|H]); [|done]. exists e'. split; [done|]. by left.
    + destruct H5 as [Hd H]. split; [done|]. intros e' He. destruct (H e' He) as [?|?]; [by left|done].
  - destruct Hok as [H1 H2 H3 H4 H5]. simpl in *. apply Forall_cons in H3 as [He H3]. split; simpl; try done; [lia|].
    exists e. split; [done|]. by left.
  - destruct Hok as [H1 H2 H3 H4 H5]. simpl in *. split; simpl; try done. exists e. split; [done|by right].
  - destruct Hok as [H1 H2 H3 H4 H5]. simpl in *. split; simpl; try done.
  - destruct Hok as [H1 H2 H3 H4 H5]. simpl in *. split; simpl; try done. split; [done|]. destruct H5 as (e & -> & H).
    by intros e' [= <-].
Qed.

Lemma pool_ok_reach n p : rtc pool_step (pool_start n) p -> pool_ok n p.
Proof.
  intros Hr. generalize (pool_ok_start n). induction Hr as [|p1 p2 p3 Hs _ IH]; [done|]. intros H. by eapply IH, pool_ok_step.
Qed.

(** C33: [consumeWorkers], whatever the interleaving: no goroutine ever blocks on
    reporting its error; when the caller returns, every consumer has ended, and
    an error it returns is one that a consumer reported, or the context's; and
    once all consumers have ended the caller can return. *)
Theorem consumeWorkers_spec n p : rtc pool_step (pool_start n) p ->
  (forall i r, consumers p !! i = Some (Returned r) ->
     exists p', pool_step p p' /\ consumers p' = <[i := Exited r]> (consumers p)) /\
  (forall r, main p = Finished r -> Forall has_exited (consumers p) /\ forall e, r = err e -> reported p e \/ ctx p = Some e) /\
  (Forall has_exited (consumers p) -> exists p' r, rtc pool_step p p' /\ main p' = Finished r).
Proof.
  intros [H1 H2 _ H4 H5]%pool_ok_reach. destruct p as [cs es c k d m]. simpl in *. split_and!.
  - intros i r Hi. assert (Hroom : length es < length cs).
    { assert (0 < live cs) by by eapply live_lookup; [done|intros []]. lia. }
    destruct r as [[]|e]; [eexists; split; [by apply step_exit; [|left]|done]|].
    destruct k; [eexists; split; [by apply step_exit; [|right; left]|done]|].
    destruct c as [e'|]; [eexists; split; [apply step_exit; [done|right; right; by eexists]|done]|].
    eexists; split; [apply step_send; [done| |done]|done]. intros [?|[? ?]]; done.
  - intros r ->. destruct H5 as [Hd H5]. split; [by apply H4|exact H5].
  - intros Hall. assert (Hclose : rtc pool_step (MkPool cs es c k d m) (MkPool cs es c k true m)).
    { destruct d; [done|]. by apply rtc_once, step_close. }
    destruct m as [|r|r].
    + eexists _, _. split; [eapply rtc_r; [exact Hclose|apply step_select_done]|done].
    + eexists _, _. split; [eapply rtc_r; [exact Hclose|apply step_wait]|done].
    + by eexists _, _.
Qed.

(** An error can be lost: when the last consumer has failed before the caller
    reaches its [select], both the error and the end of all consumers are ready,
    and a [select] may take the end; the worker then stops without an error,
    where it would have reconnected. *)
Theorem consumer_error_lost cfg e s : docker s = true -> jobConsumers s ≠ [] ->
  (exists p, rtc pool_step (pool_start 1) p /\ main p = Finished (ok tt) /\ ctx p = None /\ consumers p = [Exited (err e)]) /\
  forall getenv rounds, start_loop cfg getenv (MkRound (ok tt) None [] :: rounds) s = Some ([], ([s], (s, ok tt))).
Proof.
  intros Hd Hj. split.
  - exists (MkPool [Exited (err e)] [consumer_failed 0 e] None false true (Finished (ok tt))). split; [|done]. unfold pool_start.
    eapply rtc_l; [by apply (step_return _ _ _ _ _ _ 0 (err e))|].
    eapply rtc_l; [apply (step_send _ _ _ _ _ _ 0 e); [done|by intros [?|[? ?]]|simpl; lia]|].
    eapply rtc_l; [apply step_close; by repeat constructor|]. eapply rtc_l; [apply step_select_done|]. done.
  - intros getenv rounds. simpl. unfold consumeJobs. by rewrite Hd, decide_False.
Qed.

(** ** Witnesses *)

Definition demo_config : Config := LoadConfig (fun _ => "").
Definition good_turn (conn : nat) : turn := MkTurn None None None (ok conn) (fun _ => good_attempt) None.
Definition no_docker : turn := MkTurn None (Some (ErrNew "cannot connect to the Docker daemon" [])) None (ok 0) (fun _ => good_attempt) None.
Definition no_ping : turn := MkTurn None None (Some (ErrNew "ping" [])) (ok 0) (fun _ => good_attempt) None.
Definition lost : goerr := consumer_failed 0 (ErrWrap "consume jobs from queue %q: %w" [] ErrConnectionClosed).

(** Docker comes up in the third turn; the connection is lost once. *)
Definition demo_start : option (list resource_action * (list Service * (Service * res unit))) :=
  Start demo_config (fun _ => "") [no_docker; no_ping; good_turn 1]
    [MkRound (err lost) None [good_turn 2]; MkRound (ok tt) None []] NewService.

Lemma Start_spec_witness :
  exists tr ran s, demo_start = Some (tr, (ran, (s, ok tt))) /\ length tr = 11 /\ length ran = 2 /\
    tracked ∅ tr = Some (holds s) /\ tracked ∅ (tr ++ (Close s).1) = Some ∅ /\ Forall (equipped demo_config (fun _ => "")) ran.
Proof.
  assert (E : exists tr ran s, demo_start = Some (tr, (ran, (s, ok tt))) /\ length tr = 11 /\ length ran = 2)
    by (eexists _, _, _; split; vm_compute; [reflexivity|by split]).
  destruct E as (tr & ran & s & E & Hlen & Hran). exists tr, ran, s. split; [exact E|]. split; [exact Hlen|]. split; [exact Hran|].
  destruct (Start_spec _ _ _ _ _ _ _ _ E) as (H1 & H2 & H3 & _). split; [exact H1|]. split; [exact H2|exact H3].
Defined.

Lemma good_turn_patient conn : patient demo_config (fun _ => "") (good_turn conn).
Proof. split; [done|]. split; [done|]. intros c tr e. vm_compute. discriminate. Qed.

Lemma ensureDependencies_eventually_witness :
  exists tr s, ensureDependencies demo_config (fun _ => "") ([no_docker; no_ping] ++ good_turn 1 :: []) NewService = Some (tr, (s, ok tt)).
Proof.
  apply ensureDependencies_eventually.
  - reflexivity.
  - repeat constructor; apply (good_turn_patient 0).
  - split; [done|]. split; [done|]. split; [by exists 1|]. by repeat split.
Defined.

Lemma consumeWorkers_spec_witness :
  exists p, rtc pool_step (pool_start 1) p /\ main p = Finished (err (consumer_failed 0 ErrFatal)) /\ Forall has_exited (consumers p).
Proof.
  set (p := MkPool [Exited (err ErrFatal)] [] None true true (Finished (err (consumer_failed 0 ErrFatal)))).
  assert (Hr : rtc pool_step (pool_start 1) p).
  { eapply rtc_l; [apply (step_return _ _ _ _ _ _ 0 (err ErrFatal)); reflexivity|].
    eapply rtc_l; [apply (step_send _ _ _ _ _ _ 0 ErrFatal); [reflexivity|by intros [?|[? ?]]|simpl; lia]|].
    eapply rtc_l; [apply step_select_error|]. eapply rtc_l; [apply step_close; by repeat constructor|].
    eapply rtc_l; [apply step_wait|]. apply rtc_refl. }
  exists p. split; [exact Hr|]. split; [reflexivity|]. exact (proj1 (proj1 (proj2 (consumeWorkers_spec 1 p Hr)) _ eq_refl)).
Defined.

Lemma consumer_error_lost_witness :
  exists p, rtc pool_step (pool_start 1) p /\ main p = Finished (ok tt) /\ ctx p = None /\ consumers p = [Exited (err lost)].
Proof.
  apply (consumer_error_lost demo_config lost (MkService true [MkJobClient (MkRabbit true []) "q"] (Some 1))); [reflexivity|discriminate].
Defined.
