(* ===== verification/Wiring.v ===== *)
(** * Which service answers which request
    (services/*/handler.go RegisterRoutes, config/defaults.go, and the clients)

    Each service registers its routes with a [ServeMux] of its own and listens on
    its port; its clients write the URLs of the other services. None of the
    patterns has a wildcard or a trailing slash, so that the mux compares paths.
    A handler is named by its endpoint. Theorem: with nothing configured, each
    request of the CLI, the gateway, the orchestrator and the worker arrives at
    the service and the handler it is meant for. *)

From S2P Require Import Prelude GoStrings Url Models Store Http Reporting Validation Observability Gateway Cli Commands Worker.

(** ** Routes *)

Inductive service := ApiGateway | ValidationService | OrchestratorService | WorkerService | ReportingService.
#[export] Instance service_eq_dec : EqDecision service.
Proof. solve_decision. Defined.

Inductive endpoint := EHealth | EReady | EServices | EValidate | EDryRun | ERun | EReport | EJobStarted | EJobFinished.
#[export] Instance endpoint_eq_dec : EqDecision endpoint.
Proof. solve_decision. Defined.

(** The method without which the endpoint's handler answers 405. *)
Definition endpoint_method (e : endpoint) : string :=
  match e with EValidate | EDryRun | ERun | EJobStarted | EJobFinished => "POST" | _ => "GET" end.

Definition mux : Type := list (string * endpoint).

(** Registering a pattern twice panics. *)
Definition HandleFunc (pattern : string) (e : endpoint) (m : mux) : go mux :=
  if decide (pattern ∈ m.*1) then Panic else Ret (m ++ [(pattern, e)]).

Definition gateway_RegisterRoutes (m : mux) : go mux :=
  m ← HandleFunc "/health" EHealth m;
  m ← HandleFunc "/services" EServices m;
  m ← HandleFunc "/validate" EValidate m;
  m ← HandleFunc "/dryrun" EDryRun m;
  m ← HandleFunc "/run" ERun m;
  m ← HandleFunc "/report" EReport m;
  HandleFunc "/ready" EReady m.

Definition validation_RegisterRoutes (m : mux) : go mux :=
  m ← HandleFunc "/health" EHealth m;
  m ← HandleFunc "/validate" EValidate m;
  m ← HandleFunc "/dryrun" EDryRun m;
  HandleFunc "/ready" EReady m.

Definition orchestrator_RegisterRoutes (m : mux) : go mux :=
  m ← HandleFunc "/health" EHealth m;
  m ← HandleFunc "/run" ERun m;
  m ← HandleFunc "/ready" EReady m;
  m ← HandleFunc "/callbacks/job-started" EJobStarted m;
  HandleFunc "/callbacks/job-finished" EJobFinished m.

Definition worker_RegisterRoutes (m : mux) : go mux :=
  m ← HandleFunc "/health" EHealth m;
  HandleFunc "/ready" EReady m.

Definition reporting_RegisterRoutes (m : mux) : go mux :=
  m ← HandleFunc "/health" EHealth m;
  m ← HandleFunc "/report" EReport m;
  HandleFunc "/ready" EReady m.

Definition RegisterRoutes (s : service) : mux -> go mux :=
  match s with
  | ApiGateway => gateway_RegisterRoutes
  | ValidationService => validation_RegisterRoutes
  | OrchestratorService => orchestrator_RegisterRoutes
  | WorkerService => worker_RegisterRoutes
  | ReportingService => reporting_RegisterRoutes
  end.

(** The handler of a path, by a mux that came up. *)
Definition route (s : service) (path : string) : option endpoint :=
  match RegisterRoutes s [] with
  | Ret m => '(_, r) ← list_find (fun r => r.1 = path) m; Some r.2
  | Panic => None
  end.

Lemma routes_register s : exists m, RegisterRoutes s [] = Ret m /\ NoDup m.*1.
Proof. destruct s; eexists; (split; [reflexivity|]); apply (bool_decide_unpack _); vm_compute; done. Qed.

(** ** Addresses (config/defaults.go) *)

Definition DefaultPort (s : service) : string :=
  match s with
  | ApiGateway => "8000" | ValidationService => "8001" | OrchestratorService => "8002"
  | WorkerService => "8003" | ReportingService => "8004"
  end.

(** The address that a service listens on, and its URL on the same host. *)
Definition Addr (env : string -> string) (s : service) : string := ":" +++ GetEnvOrDefault env "PORT" (DefaultPort s).
Definition local_url (env : string -> string) (s : service) : string := "http://localhost" +++ Addr env s.

Definition services : list service := [ApiGateway; ValidationService; OrchestratorService; WorkerService; ReportingService].

(** Where a request arrives: the service that listens there, and its endpoint. *)
Definition arrives {A} (env : string -> string) (req : outgoing A) : option (service * endpoint) :=
  '(_, s) ← list_find (fun s => HasPrefix (out_url req) (local_url env s) = true) services;
  e ← route s (TrimPrefix (out_url req) (local_url env s));
  if decide (out_method req = endpoint_method e) then Some (s, e) else None.

(** ** Requests of the clients that do not go through the gateway's or the CLI's functions *)

(** [postJobCallback] of the worker. *)
Definition callbackRequest (env : string -> string) (path : string) (payload : JobStatusCallbackRequest)
    : outgoing JobStatusCallbackRequest :=
  MkOutgoing "POST" (GetEnvOrDefaultURL env "ORCHESTRATOR_URL" "http://localhost:8002" +++ path) "" (Some payload).
Definition callbackJobStarted (env : string -> string) (msg : JobExecutionMessage) : outgoing JobStatusCallbackRequest :=
  callbackRequest env "/callbacks/job-started" (startedRequest msg).
Definition callbackJobFinished (env : string -> string) (msg : JobExecutionMessage) (status logs errMsg : string)
    : outgoing JobStatusCallbackRequest :=
  callbackRequest env "/callbacks/job-finished" (finishedRequest msg status logs errMsg).

(** The request of [validatePipeline] of the orchestrator. *)
Definition validatePipelineRequest (env : string -> string) (yamlContent : string) : outgoing ValidateRequest :=
  MkOutgoing "POST" (GetEnvOrDefaultURL env "VALIDATION_URL" "http://localhost:8001" +++ "/validate") ""
    (Some (orchestratorRequest yamlContent)).

(** The gateway's probes. *)
Definition readyRequest (url : string) : outgoing unit := MkOutgoing "GET" (url +++ "/ready") "" None.

(** ** The network of one host *)

(** Services that answer the requests that arrive at them. *)
Definition network {A B} (env : string -> string) (answer : service -> endpoint -> outgoing A -> http_response B)
    (req : outgoing A) : exchange B :=
  match arrives env req with
  | Some (s, e) => Answered (answer s e req) None
  | None => CallFailed (ErrNew "not found" [])
  end.

Section wiring.
Context (env : string -> string).
Context (Henv : forall v, v ∈ ["PORT"; "VALIDATION_URL"; "ORCHESTRATOR_URL"; "REPORTING_URL"; "GATEWAY_URL"] -> env v = "").

Ltac listed := apply (bool_decide_unpack _); vm_compute; exact I.

Lemma env_default key fallback :
  key ∈ ["PORT"; "VALIDATION_URL"; "ORCHESTRATOR_URL"; "REPORTING_URL"; "GATEWAY_URL"] -> GetEnvOrDefault env key fallback = fallback.
Proof. intros H. unfold GetEnvOrDefault. by rewrite Henv. Qed.

Lemma local_url_default s : local_url env s = "http://localhost:" +++ DefaultPort s.
Proof. unfold local_url, Addr. by rewrite env_default by listed. Qed.

Lemma NewClient_default : NewClient env = MkClient "http://localhost:8001" "http://localhost:8002" "http://localhost:8004".
Proof. unfold NewClient, GetEnvOrDefaultURL. by rewrite !env_default by listed. Qed.

Lemma arrives_default {A} (req : outgoing A) : arrives env req = arrives (fun _ => "") req.
Proof.
  unfold arrives. assert (E : forall s, local_url env s = local_url (fun _ => "") s) by (intros s; by rewrite local_url_default; destruct s).
  rewrite (list_find_ext _ (fun s => HasPrefix (out_url req) (local_url (fun _ => "") s) = true)) by (intros s; by rewrite E).
  destruct (list_find _ services) as [[i s]|]; [|done]. simpl. by rewrite E.
Qed.

Lemma forward_arrives {A B} bad_url error_text net_timeout name (req : outgoing A) (answer : service -> endpoint -> outgoing A -> http_response B) s e w :
  bad_url (out_url req) = None -> arrives env req = Some (s, e) ->
  forward error_text net_timeout bad_url name req (network env answer) w = proxyDownstreamResponse (answer s e req) None w.
Proof. intros Hb Ha. unfold forward. rewrite Hb. unfold network. by rewrite Ha. Qed.

Lemma gateway_default : NewGatewayClient env = "http://localhost:8000".
Proof. unfold NewGatewayClient. by rewrite Henv by listed. Qed.

(** What the CLI is told when only the gateway's endpoint [e] answers it, with [gw]. *)
Definition only_at {A S R} (e : endpoint) (gw : outgoing A -> S -> S * cli_exchange R) (req : outgoing A) (s : S) : S * cli_exchange R :=
  match arrives env req with
  | Some (ApiGateway, e') => if decide (e = e') then gw req s else (s, NoAnswer (ErrNew "not found" []))
  | _ => (s, NoAnswer (ErrNew "connection refused" []))
  end.

(** With no address configured, every service finds the others: what the
    gateway forwards is answered by the handler of the service it is forwarded
    to, its probes reach the readiness endpoints, the commands of the CLI are
    answered by the gateway's endpoints, and the callbacks of the worker and the
    validation requests of the orchestrator arrive where they are handled. *)
Theorem default_wiring {A B} error_text net_timeout (body : A) (answer : forall X, service -> endpoint -> outgoing X -> http_response B) :
  let c := NewClient env in
  let forwards {X} (fwd : (outgoing X -> exchange B) -> writer B -> writer B * res unit) (s : service) (e : endpoint) :=
    exists req, forall w, fwd (network env (answer X)) w = proxyDownstreamResponse (answer X s e req) None w in
  forwards (forwardValidate error_text net_timeout (fun _ => None) c body) ValidationService EValidate /\
  forwards (forwardDryRun error_text net_timeout (fun _ => None) c body) ValidationService EDryRun /\
  forwards (forwardRun error_text net_timeout (fun _ => None) c body) OrchestratorService ERun /\
  (forall query, forwards (forwardReport error_text net_timeout (fun _ => None) c query) ReportingService EReport) /\
  arrives env (readyRequest (validationURL c)) = Some (ValidationService, EReady) /\
  arrives env (readyRequest (orchestratorURL c)) = Some (OrchestratorService, EReady) /\
  arrives env (readyRequest (reportURL c)) = Some (ReportingService, EReady) /\
  (forall S (VB : ResponseBody ValidateResponse) gw req (s : S), let at_url := Commands.Validate (NewGatewayClient env) in
    at_url (only_at EValidate gw) req s = at_url gw req s) /\
  (forall S (VB : ResponseBody DryRunResponse) gw req (s : S), let at_url := Commands.DryRun (NewGatewayClient env) in
    at_url (only_at EDryRun gw) req s = at_url gw req s) /\
  (forall S (VB : ResponseBody RunResponse) gw req (s : S), let at_url := RunPipeline (NewGatewayClient env) in
    at_url (only_at ERun gw) req s = at_url gw req s) /\
  (forall (VB : ResponseBody ReportPipeline) gw query, let at_url := Report (NewGatewayClient env) query in
    at_url (fun req => (only_at EReport (fun req s => (s, gw req)) req tt).2) = at_url gw) /\
  (forall msg, arrives env (callbackJobStarted env msg) = Some (OrchestratorService, EJobStarted)) /\
  (forall msg status logs errMsg, arrives env (callbackJobFinished env msg status logs errMsg) = Some (OrchestratorService, EJobFinished)) /\
  (forall yamlContent, arrives env (validatePipelineRequest env yamlContent) = Some (ValidationService, EValidate)).
Proof.
  cbv zeta. rewrite NewClient_default, gateway_default.
  assert (Hgw : forall X S R e gw (req : outgoing X) (s : S),
    arrives env req = Some (ApiGateway, e) -> only_at (R := R) e gw req s = gw req s).
  { intros X S R e gw req s Ha. unfold only_at. by rewrite Ha, decide_True. }
  split_and!; intros;
    try (eexists; intros w; apply forward_arrives; [done|rewrite arrives_default; reflexivity]);
    try (unfold callbackJobStarted, callbackJobFinished, validatePipelineRequest, callbackRequest, GetEnvOrDefaultURL;
         rewrite ?env_default by listed; rewrite arrives_default; reflexivity).
  1-3: unfold Commands.Validate, Commands.DryRun, RunPipeline, postJSON; rewrite Hgw by (rewrite arrives_default; reflexivity); reflexivity.
  unfold Report. rewrite Hgw by (rewrite arrives_default; reflexivity). reflexivity.
Qed.

End wiring.

(** Nothing is configured: the gateway's answer to a run request is the orchestrator's. *)
Lemma default_wiring_witness :
  exists req : outgoing nat, forall w,
    forwardRun (fun _ => "") (fun _ => false) (fun _ => None) (NewClient (fun _ => "")) 7
      (network (fun _ => "") (fun s e _ => WriteJSON 202 (s, e))) w =
    proxyDownstreamResponse (WriteJSON 202 (OrchestratorService, ERun)) None w.
Proof.
  assert (Henv : forall v, v ∈ ["PORT"; "VALIDATION_URL"; "ORCHESTRATOR_URL"; "REPORTING_URL"; "GATEWAY_URL"] -> (fun _ : string => "") v = "") by done.
  destruct (default_wiring (fun _ => "") Henv (fun _ => "") (fun _ => false) 7 (fun X s e _ => WriteJSON 202 (s, e))) as (_ & _ & H & _).
  destruct H as [req H]. exists req. exact H.
Defined.
