(* ===== verification/Endpoints.v ===== *)
(** * The orchestrator's HTTP endpoints (services/orchestrator/handler.go, service.go)

    Each endpoint decodes its request, calls the service and answers. The state
    of the orchestrator is the [world]; [/run] also talks to the validation
    service, whose state is a parameter. A callback endpoint answers 200 exactly
    when the handler behind it returned no error. *)

From S2P Require Import Prelude GoStrings Models Graph Wellformed Parser Verifier Planner Store StageState Mq Publisher Orchestrator Execution Http Validation.

Section endpoints.
Context {C : Collation} {Q : Type} {J : JobSink Q}.
Context (error_text : goerr -> string).

(** ** Readiness *)

(** [Ready] of a service that may be nil ([None]), with a store that may be nil
    ([Some None]) or answers a ping, and the broker's answer to [PingMQ]. *)
Definition Ready (service : option (option (res unit))) (PingMQ : res unit) : res unit :=
  match service with
  | None => err (ErrNew "orchestrator service is not initialized" [])
  | Some None => err (ErrNew "report store is not initialized" [])
  | Some (Some (inr e)) => err (ErrWrap "report store is not ready: %w" [] e)
  | Some (Some (inl _)) =>
    match PingMQ with
    | inr e => err (ErrWrap "mq is not ready: %w" [] e)
    | inl _ => ok tt
    end
  end.

Definition handleReady {A} (service : option (option (res unit))) (PingMQ : res unit) (r : http_request A)
    : http_response StatusResponse :=
  Http.handleReady error_text "orchestrator service" (Ready service PingMQ) r.

(** ** Callbacks *)

Definition decodeJobCallbackRequest (r : http_request JobStatusCallbackRequest)
    : JobStatusCallbackRequest + http_response StatusResponse :=
  decodeBody error_text r.

Definition handleJobCallback (fn : JobStatusCallbackRequest -> M unit) (r : http_request JobStatusCallbackRequest)
    (w : world Q) : world Q * http_response StatusResponse :=
  match decodeJobCallbackRequest r with
  | inr refused => (w, refused)
  | inl req =>
    match fn req w with
    | (w', inr e) => (w', WriteJSONError 500 (error_text e))
    | (w', inl _) => (w', WriteJSON 200 (MkStatusResponse "ok"))
    end
  end.

Definition handleJobStarted := handleJobCallback HandleJobStarted.
Definition handleJobFinished := handleJobCallback HandleJobFinished.

Lemma handleJobCallback_POST fn req w :
  handleJobCallback fn (POST req) w =
  match fn req w with
  | (w', inr e) => (w', WriteJSONError 500 (error_text e))
  | (w', inl _) => (w', WriteJSON 200 (MkStatusResponse "ok"))
  end.
Proof. reflexivity. Qed.

Lemma handleJobCallback_200 fn req w w' resp :
  handleJobCallback fn (POST req) w = (w', resp) -> StatusCode resp = 200%Z <-> fn req w = (w', ok tt).
Proof.
  rewrite handleJobCallback_POST. destruct (fn req w) as [w1 [[]|e]]; intros [= <- <-]; simpl; naive_solver.
Qed.

(** ** Runs *)

Section run.
Context {T : Type}.
Context (yaml_Unmarshal : string -> res yaml_node) (os_ReadFile : string -> res string).
Context (plan_orders : Pipeline -> nat -> list string) (run_orders : Pipeline -> nat -> list string).
Context (call : string -> T -> go (T * http_outcome ValidateResponse)).
Context (sha256_hex : string -> string) (c : ctx).

Definition Run (req : RunRequest) (t : T) (w : world Q) : go (T * (world Q * res RunResponse)) :=
  o ← prepareRun yaml_Unmarshal os_ReadFile plan_orders call (YAMLContent req) t;
  Ret (o.1, match o.2 with
            | inr e => (w, inr e)
            | inl (pipeline, plan) => runPlan sha256_hex c (run_orders pipeline) req (MkPipelinePlan pipeline plan) w
            end).

(** [None] when the handler writes no response of its own. *)
Definition handleExecution (r : http_request RunRequest) (t : T) (w : world Q)
    : go (T * (world Q * option (http_response RunResponse))) :=
  match decodeBody error_text r with
  | inr refused => Ret (t, (w, Some refused))
  | inl req =>
    o ← Run req t w;
    Ret (o.1, match o.2 with
              | (w', inr e) => (w', Some (WriteJSONError 500 (error_text e)))
              | (w', inl resp) => (w', if decide (RunResp_Errors resp = []) then Some (WriteJSON 200 resp) else None)
              end)
  end.

(** A run is answered with no validation errors: the handler always responds. *)
Lemma runPlan_no_errors orders req plan (w w' : world Q) resp :
  runPlan sha256_hex c orders req plan w = (w', inl resp) -> RunResp_Errors resp = [].
Proof.
  unfold runPlan, mbind, M_bind. destruct (initializePipelineRuntime _ _ _ _ _ _ w) as [w1 [[[n st]|p]|e]]; simpl; [by intros [= <- <-]| |done].
  unfold load. destruct (w_heap w1 !! p) as [rt|]; simpl; [by intros [= <- <-]|done].
Qed.

End run.

(** The whole path of a run request, over a validation service without a cache. *)
Section request.
Context (yaml_Unmarshal : string -> res yaml_node) (os_ReadFile : string -> res string).
Context (verify_order : graph -> list string) (plan_orders run_orders : Pipeline -> nat -> list string).
Context (cacheCfg : CacheConfig) (sha256_hex : string -> string) (c : ctx).
Context (Henv : environment_ok yaml_Unmarshal verify_order plan_orders).

Definition POST_run (req : RunRequest) (w : world Q) : go (NoopStore * (world Q * option (http_response RunResponse))) :=
  handleExecution yaml_Unmarshal os_ReadFile plan_orders run_orders
    (callValidation (S := NoopStore) yaml_Unmarshal os_ReadFile error_text verify_order cacheCfg) sha256_hex c
    (POST req) NewNoopStore w.

Definition asks (req : RunRequest) (p : Pipeline) : Prop :=
  TrimSpace (YAMLContent req) ≠ "" /\ describes yaml_Unmarshal os_ReadFile (YAMLContent req) p.

Lemma POST_run_answers req (w : world Q) :
  (exists e, POST_run req w = Ret (NewNoopStore, (w, Some (WriteJSONError 500 e))) /\ forall p, ~ asks req p) \/
  (exists p plan, asks req p /\ GenerateExecutionPlan (plan_orders p) p = Some plan /\
     let '(w', r) := runPlan sha256_hex c (run_orders p) req (MkPipelinePlan p plan) w in
     POST_run req w = Ret (NewNoopStore, (w', Some (match r with
       | inl resp => WriteJSON 200 resp | inr e => WriteJSONError 500 (error_text e) end)))).
Proof.
  unfold POST_run, handleExecution, Run. rewrite decodeBody_POST.
  destruct (decide (TrimSpace (YAMLContent req) = "")) as [Hb|Hb].
  { left. eexists. split; [|by intros p [? _]]. unfold prepareRun. rewrite decide_True by done. reflexivity. }
  destruct (prepareRun_decides yaml_Unmarshal os_ReadFile error_text verify_order plan_orders cacheCfg
    (YAMLContent req) Henv Hb) as (r & E & Hr). rewrite E. cbn [mbind go_bind fst snd].
  destruct r as [[p plan]|e].
  - destruct Hr as [Hd Hplan]. right. exists p, plan. split; [done|]. split; [done|].
    destruct (runPlan _ _ _ _ _ w) as [w' [resp|e]] eqn:Er; [|done].
    by rewrite (runPlan_no_errors _ _ _ _ _ _ _ _ Er).
  - left. eexists. split; [reflexivity|]. intros p [_ Hp]. by apply (Hr p).
Qed.

Lemma asks_unique req p p' : asks req p -> asks req p' -> p = p'.
Proof. intros (_ & n & E & _) (_ & n' & E' & _). rewrite E in E'. by injection E'. Qed.

Lemma run_request_started req (w : world Q) :
  exists w' resp, POST_run req w = Ret (NewNoopStore, (w', Some resp)) /\
  ((forall p, ~ asks req p) -> w' = w /\ StatusCode resp = 500%Z) /\
  forall p, let n := next_run_no (w_db w) (Pipeline_Name p) in
    asks req p -> ready_world p c req sha256_hex w -> identifiable p n -> legal_orders (run_orders p) p ->
    resp = WriteJSON 200 (MkRunResponse (Pipeline_Name p) n StatusQueued [] "") /\
    w_spawned w' = w_spawned w ++ [w_next w] /\
    exists w2 cur sent future, dispatchPipelineStartJobs (w_next w) w' = (w2, ok tt) /\
      running p n (newRunInfo req) (w_next w) (held (w_queue w)) w2 [] cur sent ∅ future.
Proof.
  destruct (POST_run_answers req w) as [(e & E & Hno)|(p & plan & Ha & Hplan & E)].
  { eexists _, _. split; [exact E|]. split; [done|]. intros p n Hp. by destruct (Hno p). }
  destruct (runPlan _ _ _ _ _ w) as [w' r] eqn:Er. eexists _, _. split; [exact E|].
  split; [by intros Hno; destruct (Hno p)|]. intros p' n Ha' Hready Hid Horders.
  pose proof (asks_unique _ _ _ Ha Ha'); subst p'.
  assert (Hv : valid_pipeline p) by (by destruct Ha as (_ & ? & _ & _ & _ & ?)).
  destruct (run_started p Hv c (run_orders p) (plan_orders p) plan req sha256_hex w Hready Hid)
    as (w1 & w2 & cur & sent & future & E1 & Es & _ & E2 & Hrun); [apply Henv|done|done|].
  rewrite Er in E1. injection E1 as -> ->. split; [done|]. split; [done|]. by exists w2, cur, sent, future.
Qed.

(** C27: the run endpoint, from the request to the first published jobs, over a
    validation service without a cache that the network reaches. It always answers;
    content that is not the text of a valid pipeline is answered 500 (the API
    document says 400) and leaves the orchestrator untouched; and for a valid
    pipeline whose names are not blank and told apart by the tables, over a store
    none of whose calls fails and a queue that confirms every publish, with no active
    run of the same request, in a traced request, the answer is 200 with the next
    run number, and the dispatch of the run starts it: the rows exist and the first
    stage's ready jobs are with the broker. *)
Theorem run_request_starts_run req (w : world Q) :
  exists w' resp, POST_run req w = Ret (NewNoopStore, (w', Some resp)) /\
  ((forall p, ~ asks req p) -> w' = w /\ StatusCode resp = 500%Z) /\
  forall p, let n := next_run_no (w_db w) (Pipeline_Name p) in
    asks req p -> ready_world p c req sha256_hex w -> identifiable p n -> legal_orders (run_orders p) p ->
    resp = WriteJSON 200 (MkRunResponse (Pipeline_Name p) n StatusQueued [] "") /\
    w_spawned w' = w_spawned w ++ [w_next w] /\
    exists w2 cur sent future, dispatchPipelineStartJobs (w_next w) w' = (w2, ok tt) /\
      running p n (newRunInfo req) (w_next w) (held (w_queue w)) w2 [] cur sent ∅ future.
Proof. apply run_request_started. Qed.

End request.

End endpoints.
