(* ===== verification/System.v ===== *)
(** * The system: orchestrator, queue and workers together

    Workers take the messages that the orchestrator published, each in any order
    and any number of them at once. A worker posts the started callback, executes
    the job, and posts the finished callback until it is accepted; then it
    acknowledges the message. A callback is a request to the orchestrator's
    endpoint, and its answer is what the worker's client sees. What Docker does
    for a job is arbitrary but fixed. Each callback is handled to its end before the
    next one (Race and Completion take them apart). Theorems, over a calm world: whatever the
    interleaving, no callback is refused, a run takes at most four steps per job,
    a job is executed after all it waits for, and when nothing is left to do the
    run is recorded as a success exactly if no job failed that may not. *)

From stdpp Require Import functions.
From S2P Require Import Prelude GoStrings Archive Models Graph Wellformed Planner Store StageState Mq Publisher Orchestrator Execution Http Worker Validation Parser Endpoints Callbacks.

(** How far the worker that holds a message is. *)
Inductive phase := Waiting | Delivered | Running | Reporting | Acknowledged.
#[global] Instance phase_eq_dec : EqDecision phase.
Proof. solve_decision. Defined.

Section system.
Context {C : Collation} {Q : Type} {J : JobSink Q} {F : GoFloat}.
Context (error_text : goerr -> string).
Context (env : string -> string) (stat : string -> bool) (docker : JobExecutionMessage -> docker_env).

(** ** Steps *)

Record system := MkSystem {
  sy_world : world Q;
  sy_phase : JobExecutionMessage -> phase;
  sy_events : list (JobExecutionMessage * worker_event);
  sy_executed : list JobExecutionMessage;
  sy_acked : list JobExecutionMessage;
}.

Definition execution (m : JobExecutionMessage) : list docker_action * (string * option goerr) :=
  ExecuteJob (docker m) env stat (Msg_Job m) (Msg_RepoURL m) (Msg_Commit m) (Msg_WorkspacePath m).
Definition verdict (m : JobExecutionMessage) : JobStatusCallbackRequest := verdict_of error_text m (execution m).2.

(** The answer of an endpoint, as the worker's client sees it. *)
Definition answer {A} (resp : http_response A) : post_outcome := PostStatus (StatusCode resp).

Definition move (m : JobExecutionMessage) (ph : phase) (events : list worker_event) (w : world Q) (s : system) : system :=
  MkSystem w (<[m := ph]> (sy_phase s)) (sy_events s ++ (pair m <$> events)) (sy_executed s) (sy_acked s).

Definition execute (m : JobExecutionMessage) (s : system) : system :=
  let s' := move m Reporting [Executed (execution m).1] (sy_world s) s in
  MkSystem (sy_world s') (sy_phase s') (sy_events s') (sy_executed s ++ [m]) (sy_acked s).

Definition acknowledge (m : JobExecutionMessage) (w : world Q) (s : system) : system :=
  let s' := move m Acknowledged [JobFinished (verdict m)] w s in
  MkSystem (sy_world s') (sy_phase s') (sy_events s') (sy_executed s) (sy_acked s ++ [m]).

Context (base : list JobExecutionMessage).

(** A refused started callback makes the worker return the message to the queue;
    a refused finished callback is sent again. *)
Inductive sys_step : system -> system -> Prop :=
| step_deliver s m :
    m ∈ published base (sy_world s) -> sy_phase s m = Waiting ->
    sys_step s (move m Delivered [] (sy_world s) s)
| step_started s m w' resp :
    sy_phase s m = Delivered ->
    handleJobStarted error_text (POST (startedRequest m)) (sy_world s) = (w', resp) ->
    sys_step s (move m (match doJobCallbackRequest (answer resp) with None => Running | Some _ => Waiting end)
                  [JobStarted (startedRequest m)] w' s)
| step_execute s m : sy_phase s m = Running -> sys_step s (execute m s)
| step_finished s m w' resp :
    sy_phase s m = Reporting ->
    handleJobFinished error_text (POST (verdict m)) (sy_world s) = (w', resp) ->
    sys_step s (match doJobCallbackRequest (answer resp) with
                | None => acknowledge m w' s
                | Some _ => move m Reporting [JobFinished (verdict m)] w' s
                end).

Definition initial (w : world Q) : system := MkSystem w (fun _ => Waiting) [] [] [].

(** What the worker of message [m] did. *)
Definition events_of (m : JobExecutionMessage) (s : system) : list worker_event :=
  (filter (fun x => x.1 = m) (sy_events s)).*2.

(** ** What a worker has done when it is in a phase *)

Definition phase_events (m : JobExecutionMessage) (ph : phase) : list worker_event :=
  take (match ph with Waiting | Delivered => 0 | Running => 1 | Reporting => 2 | Acknowledged => 3 end)
    [JobStarted (startedRequest m); Executed (execution m).1; JobFinished (verdict m)].

Definition weight (ph : phase) : nat :=
  match ph with Waiting => 0 | Delivered => 1 | Running => 2 | Reporting => 3 | Acknowledged => 4 end.

(** ** The orchestrator's side of a step *)

Section run.
Context (p : Pipeline) (n : Z) (ri : runInfo) (pt : ptr).
Context (Hvalid : valid_pipeline p) (Hid : identifiable p n).
Abbreviation pname := (Pipeline_Name p).
Abbreviation running := (running p n ri pt base).
Abbreviation published := (published base).
Abbreviation job_message := (job_message p n ri).

Lemma identity_of_message j req :
  j ∈ Pipeline_Jobs p -> Cb_Pipeline req = pname -> Cb_RunNo req = n -> Cb_Stage req = Job_Stage j ->
  Cb_Job req = Job_Name j -> missing_identity req = false.
Proof.
  intros Hj E1 E2 E3 E4. apply (report_identified p n Hid req (Job_Stage j) j (TrimSpace (Cb_Status req))).
  - by split.
  - by apply (vp_job_stage _ Hvalid).
  - done.
Qed.

(** A started callback changes one job's row, and the start times of the run. *)
Lemma wp_HandleJobStarted req (Φ : unit -> world Q -> Prop) w :
  w_faults w = [] -> missing_identity req = false ->
  (forall w' h, leads w w' (UpdateJob (w_db w) (Cb_Pipeline req) (Cb_RunNo req) (Cb_Stage req) (Cb_Job req) None StatusRunning).1
     (w_queue w) h (w_runtimes w) ->
   (forall q rt, w_heap w !! q = Some rt -> exists m, h !! q = Some (set_startTimes m rt)) -> Φ tt w') ->
  wp (HandleJobStarted req) Φ w.
Proof.
  intros Hf Hmi HΦ. unfold HandleJobStarted. rewrite Hmi. apply wp_bind.
  unfold markJobRunning, wp at 1, store_call. rewrite Hf. simpl.
  assert (Hsame : forall q rt, w_heap w !! q = Some rt -> exists m, w_heap w !! q = Some (set_startTimes m rt)).
  { intros q rt E. exists (rt_jobStartTimes rt). rewrite E. by destruct rt. }
  unfold noteJobStarted, wp, mbind, M_bind, getPipelineRuntime. simpl.
  destruct (w_runtimes w !! _) as [q|]; simpl; [destruct (w_heap w !! q) as [rt|] eqn:Eh; simpl|].
  - eapply HΦ; [by split|]. intros q' rt' E. cbn [w_heap with_heap]. destruct (decide (q' = q)) as [->|Hne].
    + rewrite lookup_alter_eq, E. by eexists.
    + rewrite lookup_alter_ne by done. by apply Hsame.
  - eapply HΦ; [by split|done].
  - eapply HΦ; [by split|done].
Qed.

Lemma rows_start_job d status fin open ended cur j :
  rows_ok p n d status fin open ended -> cur ∈ Stage_Name <$> Pipeline_Stages p -> j ∈ jobsForStage cur p ->
  (forall k, ended k -> Job_Stage k = cur -> Job_Name k ≠ Job_Name j) ->
  rows_ok p n (UpdateJob d pname n cur (Job_Name j) None StatusRunning).1 status fin open ended.
Proof.
  intros [R1 R2 R3 R4] Hcur [Hj Es]%jobsForStage_elem Hno. split; try done.
  intros k Hk. destruct (R4 k Hk) as (st0 & E0 & Hend). rewrite job_status_update. case_decide as Hc.
  - destruct Hc as [Hc1 Hc2]. rewrite E0. eexists. split; [done|]. intros Hke. exfalso.
    assert (Esk : Job_Stage k = cur) by (apply (id_ci_stage _ _ Hid); [by apply (vp_job_stage _ Hvalid)|done|done]).
    apply (Hno k Hke Esk). apply (id_ci_job _ _ Hid); [done|done|congruence|done].
  - by exists st0.
Qed.

Lemma started_running w past cur sent done future j :
  running w past cur sent done future -> j ∈ jobsForStage cur p -> Job_Name j ∉ done ->
  wp (HandleJobStarted (startedRequest (buildJobExecutionMessage n pname cur (jobPlan j) ri)))
     (fun _ w' => running w' past cur sent done future /\ w_queue w' = w_queue w) w.
Proof.
  intros [Hcalm Hh Hst Hpast Hmap (rt & Hheap & Hrt & (st & Hcur & Hlive) & Hfut) Hconf Hrows] Hj Hnd.
  pose proof (proj1 (jobsForStage_elem _ _ _) Hj) as [Hjp Es].
  assert (Hcin : cur ∈ Stage_Name <$> Pipeline_Stages p) by (rewrite <- Hst; set_solver).
  apply wp_HandleJobStarted; [done|by apply (identity_of_message j)|]. simpl. intros w' h [D1 D2 D3 D4 _ _ D7] Hheap'.
  split; [|done]. split; try rewrite D2; try rewrite D4; try done.
  - destruct (Hheap' pt rt Hheap) as [m Em]. rewrite D3. exists (set_startTimes m rt). split; [done|].
    split; [by destruct Hrt; split|]. split; [by exists st|done].
  - rewrite D1. apply rows_start_job; [done|done|done|]. intros k [Hk|[_ Hk]] Esk; [|by intros E; rewrite E in Hk].
    exfalso. pose proof (vp_stages_unique _ Hvalid) as Hu. rewrite <- Hst in Hu. rewrite Esk in Hk.
    apply NoDup_app in Hu as (_ & Hu & _). apply (Hu cur Hk). left.
Qed.

(** A run that failed: it stays failed and publishes nothing more. *)
Record doomed (w : world Q) : Prop := {
  dm_calm : w_faults w = [];
  dm_map : w_runtimes w !! runtimeKey pname n = None;
  dm_run : run_status_of (w_db w) pname n = Some StatusFailed;
}.

Lemma doomed_started w req :
  doomed w -> missing_identity req = false ->
  wp (HandleJobStarted req) (fun _ w' => doomed w' /\ w_queue w' = w_queue w) w.
Proof.
  intros [D1 D2 D3] Hmi. apply wp_HandleJobStarted; [done|done|]. intros w' h L _. split; [|apply L].
  split; [apply L| |by rewrite (ld_db _ _ _ _ _ _ L)]. by rewrite (ld_map _ _ _ _ _ _ L).
Qed.

Lemma doomed_finished w req :
  doomed w -> missing_identity req = false -> Cb_Pipeline req = pname -> Cb_RunNo req = n ->
  TrimSpace (Cb_Status req) = StatusSuccess \/ TrimSpace (Cb_Status req) = StatusFailed ->
  wp (HandleJobFinished req) (fun _ w' => doomed w' /\ w_queue w' = w_queue w) w.
Proof.
  intros [D1 D2 D3] Hmi Ep En Hst. unfold HandleJobFinished. rewrite Hmi, bool_decide_eq_false_2 by naive_solver.
  rewrite Ep, En. apply wp_bind, wp_finishJob; [done|]. intros w1 t L.
  unfold wp, mbind, M_bind, getPipelineRuntime. rewrite (ld_map _ _ _ _ _ _ L), D2. simpl.
  split; [|apply L]. split; [apply L| |by rewrite (ld_db _ _ _ _ _ _ L)]. by rewrite (ld_map _ _ _ _ _ _ L).
Qed.

(** *** What the run waits for *)

Abbreviation in_progress := (in_progress p n ri pt base).
Abbreviation over := (over p n ri base).

(** [j] is not started before [j'] has ended. *)
Definition waits_for (j j' : Job) : Prop :=
  Job_Name j' ∈ Job_Needs j \/
  exists before after, Stage_Name <$> Pipeline_Stages p = before ++ Job_Stage j :: after /\ Job_Stage j' ∈ before.

(** The job of message [m] ended well enough for the run to go on. *)
Definition passes (m : JobExecutionMessage) : Prop :=
  (execution m).2.2 = None \/ exists j, j ∈ Pipeline_Jobs p /\ m = job_message j /\ Job_Failures j = true.

Record publishes_ok (w : world Q) (acked : list JobExecutionMessage) : Prop := {
  po_jobs : forall m, m ∈ published w -> exists j, j ∈ Pipeline_Jobs p /\ m = job_message j;
  po_ready : forall j j', j ∈ Pipeline_Jobs p -> j' ∈ Pipeline_Jobs p -> job_message j ∈ published w ->
    waits_for j j' -> job_message j' ∈ acked;
}.

Lemma NoDup_split {A} (l1 l2 r1 r2 : list A) x y z :
  NoDup (l1 ++ x :: r1) -> l1 ++ x :: r1 = l2 ++ y :: r2 -> x ∈ l2 ++ [y] -> z ∈ l1 -> z ∈ l2.
Proof.
  revert l2. induction l1 as [|a l1 IH]; intros l2 Hnd E Hx Hz; [by apply elem_of_nil in Hz|].
  destruct l2 as [|b l2]; injection E as -> E.
  - apply list_elem_of_singleton in Hx as ->. simpl in Hnd. apply NoDup_cons in Hnd as [Hn _].
    exfalso. apply Hn. set_solver.
  - apply NoDup_cons in Hnd as [Hn Hnd]. apply elem_of_cons. apply elem_of_cons in Hz as [E'|Hz]; [by left|right].
    apply (IH l2 Hnd E); [|done]. apply elem_of_cons in Hx as [->|Hx]; [|done]. exfalso. apply Hn. set_solver.
Qed.

Lemma job_message_inj j j' :
  j ∈ Pipeline_Jobs p -> j' ∈ Pipeline_Jobs p -> job_message j = job_message j' -> j = j'.
Proof. intros Hj Hj' E. apply (NoDup_name_inj _ _ _ (vp_jobs_unique _ Hvalid) Hj Hj'). by injection E. Qed.

(** Needs stay within a stage. *)
Lemma needs_stage j j' :
  j ∈ Pipeline_Jobs p -> j' ∈ Pipeline_Jobs p -> Job_Name j' ∈ Job_Needs j -> Job_Stage j' = Job_Stage j.
Proof.
  intros Hj Hj' Hn. destruct (vp_needs_defined _ Hvalid _ _ Hj Hn) as (k & Hk & E & Es).
  by rewrite <- (NoDup_name_inj _ _ _ (vp_jobs_unique _ Hvalid) Hk Hj' E).
Qed.

Lemma running_ready w acked past cur sent done future j j' :
  running w past cur sent done future -> reported_ok p n ri acked past cur sent done ->
  j ∈ Pipeline_Jobs p -> j' ∈ Pipeline_Jobs p -> job_message j ∈ published w -> waits_for j j' ->
  job_message j' ∈ acked.
Proof.
  intros Hr Hrep Hj Hj' Hm Hwait. rewrite (running_published _ _ _ _ _ _ _ _ _ _ _ Hr) in Hm.
  pose proof (rn_stages _ _ _ _ _ _ _ _ _ _ _ Hr) as Hst.
  assert (Hpast : Job_Stage j' ∈ past.*1 -> job_message j' ∈ acked).
  { intros Hin. apply Hrep. left. apply whole_message; [|done|done]. apply (rn_past _ _ _ _ _ _ _ _ _ _ _ Hr). }
  pose proof (messages_stage _ _ _ _ _ Hm) as Hin. rewrite fmap_app in Hin. simpl in Hin.
  destruct Hwait as [Hneed|(before & after & E & Hb)].
  - pose proof (needs_stage j j' Hj Hj' Hneed) as Es.
    apply in_messages_snoc in Hm as [Hm|(job & Hjob & Em)].
    { apply Hpast. rewrite Es. apply messages_stage in Hm. done. }
    injection Em as Ec Ejob. rewrite Ec in Es, Hin.
    assert (Hjc : j ∈ jobsForStage cur p) by (by apply jobsForStage_elem).
    assert (Hjc' : j' ∈ jobsForStage cur p) by (by apply jobsForStage_elem).
    destruct (live_needs _ _ _ _ _ Hvalid _ _ _ _ _ _ j (Job_Name j') Hr Hjc) as [Hd Hs]; [|done|].
    { by rewrite Ejob. }
    apply Hrep. right. destruct (live_names _ _ _ _ _ Hvalid _ _ _ _ _ _ Hr) as (_ & _ & Hsent & _).
    apply list_elem_of_fmap in Hs as (job' & En & Hs). destruct (Hsent _ Hs) as (k & Hk & ->). simpl in En.
    rewrite <- (NoDup_name_inj _ _ _ (stage_unique cur p Hvalid) Hjc' Hk En) in Hs.
    exists (jobPlan j'). unfold Execution.job_message. rewrite Es. done.
  - apply Hpast. apply (NoDup_split before past.*1 after future (Job_Stage j) cur); [|by rewrite <- E|done|done].
    rewrite <- E. apply (vp_stages_unique _ Hvalid).
Qed.

Lemma live_publishes_ok w acked : in_progress w acked \/ over w acked -> publishes_ok w acked.
Proof.
  intros Hst. split.
  - intros m Hm. apply (published_jobs p n ri pt base Hvalid w acked m Hst), list_elem_of_fmap in Hm as (j & -> & Hj). eauto.
  - intros j j' Hj Hj' Hm Hwait. destruct Hst as [(past & c & st & done & f & Hr & Hrep)|(all & Hf & Hcover)].
    + exact (running_ready w acked past c st done f j j' Hr Hrep Hj Hj' Hm Hwait).
    + apply Hcover, whole_message; [apply (fi_whole _ _ _ _ _ _ Hf)|done|]. rewrite (fi_stages _ _ _ _ _ _ Hf).
      by apply (vp_job_stage _ Hvalid).
Qed.

(** *** One callback *)

Definition state_ok (w : world Q) (acked : list JobExecutionMessage) : Prop :=
  ((in_progress w acked \/ over w acked) /\ Forall passes acked) \/ (doomed w /\ Exists (fun m => ~ passes m) acked).

Lemma over_reported w acked m : over w acked -> m ∈ published w -> m ∈ acked.
Proof.
  intros (all & Hf & Hcover) Hm. apply Hcover. unfold Execution.published in Hm.
  by rewrite (fi_confirmed _ _ _ _ _ _ Hf), drop_app_length in Hm.
Qed.

Lemma publishes_same w w' acked acked' :
  w_queue w' = w_queue w -> (forall m, m ∈ acked -> m ∈ acked') -> publishes_ok w acked -> publishes_ok w' acked'.
Proof.
  intros E Ha [H1 H2]. unfold Execution.published in *. split; unfold Execution.published; rewrite E; [done|].
  intros j j' Hj Hj' Hm Hw. by apply Ha, (H2 j j').
Qed.

Lemma verdict_status m : TrimSpace (Cb_Status (verdict m)) = if execution m is (_, (_, None)) then StatusSuccess else StatusFailed.
Proof. unfold verdict, verdict_of. by destruct (execution m) as [? [? [e|]]]. Qed.

Lemma verdict_identity m : Cb_Pipeline (verdict m) = Msg_PipelineName m /\ Cb_RunNo (verdict m) = Msg_RunNo m /\
  Cb_Stage (verdict m) = Msg_Stage m /\ Cb_Job (verdict m) = JobPlan_Name (Msg_Job m).
Proof. unfold verdict, verdict_of. by destruct (execution m) as [? [? [e|]]]. Qed.

Lemma started_step w w' r acked m :
  state_ok w acked -> publishes_ok w acked -> m ∈ published w -> m ∉ acked ->
  HandleJobStarted (startedRequest m) w = (w', r) -> r = ok tt /\ state_ok w' acked /\ w_queue w' = w_queue w.
Proof.
  intros Hst Hpub Hm Hn Hh. destruct (po_jobs _ _ Hpub m Hm) as (j & Hj & Em).
  destruct Hst as [[[(past & c & st & done & f & Hr & Hrep)|Ho] Hp]|[Hd Hp]].
  - destruct (open_message _ _ _ _ _ Hvalid _ _ _ _ _ _ _ _ Hr Hrep Hm Hn) as (k & Hk & _ & Ek & Hnd).
    rewrite Ek in Hh. destruct (wp_run _ _ _ (started_running _ _ _ _ _ _ _ Hr Hk Hnd)) as (w1 & [] & E & Hr' & Hq).
    rewrite Hh in E. injection E as -> ->. split; [done|]. split; [|done]. left. split; [|done]. left.
    by exists past, c, st, done, f.
  - exfalso. by apply Hn, (over_reported w).
  - assert (Hmi : missing_identity (startedRequest m) = false) by (apply (identity_of_message j); by rewrite ?Em).
    destruct (wp_run _ _ _ (doomed_started _ _ Hd Hmi)) as (w1 & [] & E & Hd' & Hq).
    rewrite Hh in E. injection E as -> ->. split; [done|]. split; [by right|done].
Qed.

(** A verdict that the run cannot bear dooms it, and publishes nothing. *)
Lemma failing_step w w' r acked past cur sent done future m j :
  running w past cur sent done future -> reported_ok p n ri acked past cur sent done ->
  m ∈ published w -> m ∉ acked -> j ∈ Pipeline_Jobs p -> m = job_message j -> ~ passes m ->
  HandleJobFinished (verdict m) w = (w', r) ->
  r = ok tt /\ doomed w' /\ (forall x, x ∈ published w' <-> x ∈ published w).
Proof.
  intros Hr Hrep Hm Hn Hj Em Hbad Hh. destruct (verdict_identity m) as (I1 & I2 & I3 & I4).
  pose proof (verdict_status m) as Hs. unfold passes in Hbad.
  destruct (open_message _ _ _ _ _ Hvalid _ _ _ _ _ _ _ _ Hr Hrep Hm Hn) as (k & Hk & _ & Ek & Hnd).
  assert (k = j) as ->.
  { pose proof (proj1 (jobsForStage_elem _ _ _) Hk) as [Hkp Es]. apply job_message_inj; [done|done|].
    rewrite <- Em, Ek. unfold Execution.job_message. by rewrite Es. }
  assert (Hfail : Job_Failures j = false) by (destruct (Job_Failures j) eqn:?; [exfalso; apply Hbad; right; by exists j|done]).
  assert (Hrep' : report p n (verdict m) cur j StatusFailed).
  { split; rewrite ?I1, ?I2, ?I3, ?I4, ?Ek; try done. rewrite <- Ek, Hs.
    destruct (execution m) as [? [? [e|]]]; [done|]. exfalso. apply Hbad. by left. }
  destruct (wp_run _ _ _ (failed_report p n ri pt base Hvalid Hid _ _ _ _ _ _ _ _ Hr Hk Hrep' Hfail))
    as (w1 & [] & E & Hf & _).
  rewrite Hh in E. injection E as -> ->. split; [done|]. split; [split; apply Hf|]. intros x.
  rewrite (running_published _ _ _ _ _ _ _ _ _ _ _ Hr). unfold Execution.published.
  by rewrite (fa_confirmed _ _ _ _ _ _ _ _ Hf), drop_app_length.
Qed.

Lemma passes_dec m : passes m \/ ~ passes m.
Proof.
  unfold passes. destruct (execution m).2.2; [|by left; left].
  destruct (decide (Exists (fun j => m = job_message j /\ Job_Failures j = true) (Pipeline_Jobs p))) as [H|H].
  - apply Exists_exists in H as (j & ? & ? & ?). left. right. eauto.
  - right. intros [?|(j & ? & ? & ?)]; [done|]. apply H, Exists_exists. eauto.
Qed.

(** The verdict on a job that passes lets the run go on. *)
Lemma verdict_good m j : j ∈ Pipeline_Jobs p -> m = job_message j -> passes m -> good_report p (verdict m) m.
Proof.
  intros Hj Em Hp. destruct (verdict_identity m) as (I1 & I2 & I3 & I4). pose proof (verdict_status m) as Hs.
  split_and!; try done. exists j. rewrite I4. split; [done|]. split; [by rewrite Em|]. unfold tolerated. rewrite Hs.
  destruct (execution m) as [? [? [e|]]] eqn:Ex; [right|by left]. split; [done|].
  destruct Hp as [Hp|(k & Hk & Ek & Hf)]; [by rewrite Ex in Hp|]. rewrite Em in Ek.
  by rewrite (job_message_inj j k Hj Hk Ek).
Qed.

Lemma finished_step w w' r acked m :
  state_ok w acked -> publishes_ok w acked -> m ∈ published w -> m ∉ acked ->
  HandleJobFinished (verdict m) w = (w', r) ->
  r = ok tt /\ state_ok w' (acked ++ [m]) /\ publishes_ok w' (acked ++ [m]) /\
  (forall x, x ∈ published w -> x ∈ published w').
Proof.
  intros Hst Hpub Hm Hn Hh. destruct (po_jobs _ _ Hpub m Hm) as (j & Hj & Em).
  destruct Hst as [[[(past & c & st & done & f & Hr & Hrep)|Ho] Hp]|[Hd Hp]].
  - destruct (passes_dec m) as [Hpass|Hbad].
    + pose proof (verdict_good m j Hj Em Hpass) as Hgood.
      destruct (report_step _ _ _ _ _ Hvalid Hid _ _ _ _ _ _ _ _ _ _ _ Hr Hrep Hm Hn Hgood Hh) as (-> & Hmono & Hnext).
      split; [done|]. split; [|split; [by apply live_publishes_ok|done]]. left. split; [done|].
      apply Forall_app. by split; [|apply Forall_singleton].
    + destruct (failing_step w w' r acked past c st done f m j) as (-> & Hd & Eq); [done..|].
      split; [done|]. split; [|split; [|by intros x; apply Eq]].
      * right. split; [done|]. apply Exists_app. right. by apply Exists_cons_hd.
      * split; [intros x Hx%Eq; by apply Hpub|]. intros j1 j2 Hj1 Hj2 Hm1%Eq Hw. apply elem_of_app. left.
        by apply (po_ready _ _ Hpub j1 j2).
  - exfalso. by apply Hn, (over_reported w).
  - destruct (verdict_identity m) as (I1 & I2 & I3 & I4).
    assert (Hmi : missing_identity (verdict m) = false).
    { apply (identity_of_message j); [done|by rewrite ?I1, ?I2, ?I3, ?I4, Em..]. }
    destruct (wp_run _ _ _ (doomed_finished w (verdict m) Hd Hmi ltac:(by rewrite I1, Em) ltac:(by rewrite I2, Em)
      ltac:(rewrite verdict_status; destruct (execution m) as [? [? [e|]]]; auto))) as (w1 & [] & E & Hd' & Hq).
    rewrite Hh in E. injection E as -> ->. split; [done|]. split; [right; split; [done|]; apply Exists_app; by left|].
    split; [apply (publishes_same w w1 acked); [done|set_solver|done]|]. unfold Execution.published. by rewrite Hq.
Qed.

(** ** The invariant of the system *)

Definition well_ordered (l : list JobExecutionMessage) : Prop :=
  forall i j j', j ∈ Pipeline_Jobs p -> j' ∈ Pipeline_Jobs p -> l !! i = Some (job_message j) -> waits_for j j' ->
    exists i', i' < i /\ l !! i' = Some (job_message j').

Record sys_inv (s : system) : Prop := {
  in_state : state_ok (sy_world s) (sy_acked s);
  in_publishes : publishes_ok (sy_world s) (sy_acked s);
  in_phase : forall m, sy_phase s m ≠ Waiting -> m ∈ published (sy_world s);
  in_events : forall m, events_of m s = phase_events m (sy_phase s m);
  in_executed : forall m, m ∈ sy_executed s <-> sy_phase s m = Reporting \/ sy_phase s m = Acknowledged;
  in_acked : forall m, m ∈ sy_acked s <-> sy_phase s m = Acknowledged;
  in_once : NoDup (sy_executed s);
  in_ordered : well_ordered (sy_executed s);
}.

Definition progress_made (s : system) : nat :=
  sum_list ((fun m => weight (sy_phase s m)) <$> (job_message <$> Pipeline_Jobs p)).

Lemma sum_update (l : list JobExecutionMessage) (f : JobExecutionMessage -> phase) m ph :
  NoDup l -> m ∈ l ->
  sum_list ((fun x => weight (<[m := ph]> f x)) <$> l) + weight (f m) = sum_list ((fun x => weight (f x)) <$> l) + weight ph.
Proof.
  intros Hnd Hm. rewrite (sum_apart (fun x => weight (f x)) (fun x => weight (<[m := ph]> f x)) l m Hnd Hm).
  - by rewrite fn_lookup_insert.
  - intros y Hy. by rewrite fn_lookup_insert_ne.
Qed.

Lemma job_messages_unique : NoDup (job_message <$> Pipeline_Jobs p).
Proof.
  apply NoDup_fmap_2_strong; [|by apply (NoDup_fmap_1 Job_Name), vp_jobs_unique].
  intros j j' Hj Hj'. by apply job_message_inj.
Qed.

Lemma events_of_app m m' evs s s' :
  sy_events s' = sy_events s ++ (pair m <$> evs) ->
  events_of m' s' = events_of m' s ++ (if decide (m = m') then evs else []).
Proof.
  intros E. unfold events_of. rewrite E, filter_app, fmap_app. f_equal. clear E. case_decide as Hm.
  - subst. induction evs as [|e evs IH]; [done|]. rewrite fmap_cons, filter_cons_True, fmap_cons, IH by done. done.
  - induction evs as [|e evs IH]; [done|]. by rewrite fmap_cons, filter_cons_False.
Qed.

(** The part of the invariant that every step preserves alike. *)
Lemma moves s s' m ph evs :
  sys_inv s -> m ∈ published (sy_world s) -> (forall x, x ∈ published (sy_world s) -> x ∈ published (sy_world s')) ->
  sy_phase s' = <[m := ph]> (sy_phase s) -> sy_events s' = sy_events s ++ (pair m <$> evs) ->
  phase_events m ph = phase_events m (sy_phase s m) ++ evs -> weight ph = S (weight (sy_phase s m)) ->
  (forall x, sy_phase s' x ≠ Waiting -> x ∈ published (sy_world s')) /\
  (forall x, events_of x s' = phase_events x (sy_phase s' x)) /\
  progress_made s' = S (progress_made s).
Proof.
  intros Hinv Hm Hmono Eph Eev Hev Hw. split_and!.
  - intros x. rewrite Eph. destruct (decide (m = x)) as [<-|Hne]; [by auto|].
    rewrite fn_lookup_insert_ne by done. intros Hx. by apply Hmono, (in_phase _ Hinv).
  - intros x. rewrite (events_of_app m x evs s s' Eev), (in_events _ Hinv), Eph. case_decide as Hx.
    + subst x. by rewrite fn_lookup_insert, Hev.
    + by rewrite fn_lookup_insert_ne, app_nil_r.
  - unfold progress_made. rewrite Eph. destruct (po_jobs _ _ (in_publishes _ Hinv) m Hm) as (j & Hj & Em).
    pose proof (sum_update (job_message <$> Pipeline_Jobs p) (sy_phase s) m ph job_messages_unique) as H.
    rewrite Em in *. specialize (H (list_elem_of_fmap_2 job_message _ _ Hj)). lia.
Qed.

Lemma well_ordered_snoc l m j :
  well_ordered l -> j ∈ Pipeline_Jobs p -> m = job_message j ->
  (forall j', j' ∈ Pipeline_Jobs p -> waits_for j j' -> job_message j' ∈ l) -> well_ordered (l ++ [m]).
Proof.
  intros Hl Hj -> Hw i j1 j2 Hj1 Hj2 Hi Hwait. apply lookup_app_Some in Hi as [Hi|[Hlen Hi]].
  - destruct (Hl i j1 j2 Hj1 Hj2 Hi Hwait) as (i' & ? & Hi'). exists i'. split; [done|]. by apply lookup_app_l_Some.
  - apply list_lookup_singleton_Some in Hi as [_ Hi]. apply job_message_inj in Hi as <-; [|done..].
    destruct (proj1 (list_elem_of_lookup _ _) (Hw j2 Hj2 Hwait)) as [i' Hi']. exists i'.
    split; [|by apply lookup_app_l_Some]. apply lookup_lt_Some in Hi'. lia.
Qed.

Lemma not_acked s m ph : sys_inv s -> sy_phase s m = ph -> ph ≠ Acknowledged -> m ∉ sy_acked s.
Proof. intros Hinv <- Hne Hin. by apply (in_acked _ Hinv) in Hin. Qed.

Ltac same_phase Hinv m Ephase :=
  intros x; simpl; rewrite ?(in_executed _ Hinv), ?(in_acked _ Hinv);
  destruct (decide (m = x)) as [<-|?];
  [rewrite fn_lookup_insert, Ephase; naive_solver|by rewrite fn_lookup_insert_ne].

Lemma deliver_inv s m :
  sys_inv s -> m ∈ published (sy_world s) -> sy_phase s m = Waiting ->
  sys_inv (move m Delivered [] (sy_world s) s) /\
  progress_made (move m Delivered [] (sy_world s) s) = S (progress_made s).
Proof.
  intros Hinv Hm Eph.
  destruct (moves s (move m Delivered [] (sy_world s) s) m Delivered []) as (H1 & H2 & H3); try done; [by rewrite Eph..|].
  split; [|done]. split; try done; try apply Hinv; same_phase Hinv m Eph.
Qed.

Lemma execute_inv s m :
  sys_inv s -> sy_phase s m = Running -> sys_inv (execute m s) /\ progress_made (execute m s) = S (progress_made s).
Proof.
  intros Hinv Eph. assert (Hm : m ∈ published (sy_world s)) by (apply (in_phase _ Hinv); by rewrite Eph).
  destruct (moves s (execute m s) m Reporting [Executed (execution m).1]) as (H1 & H2 & H3); try done; [by rewrite Eph..|].
  split; [|done]. split; try done; try apply Hinv.
  - intros x. simpl. rewrite elem_of_app, list_elem_of_singleton, (in_executed _ Hinv).
    destruct (decide (m = x)) as [<-|?]; [rewrite fn_lookup_insert; naive_solver|].
    rewrite fn_lookup_insert_ne by done. naive_solver.
  - same_phase Hinv m Eph.
  - apply NoDup_snoc; [apply Hinv|]. rewrite (in_executed _ Hinv), Eph. naive_solver.
  - destruct (po_jobs _ _ (in_publishes _ Hinv) m Hm) as (j & Hj & Em). apply (well_ordered_snoc _ m j); [apply Hinv|done|done|].
    intros j' Hj' Hw. apply (in_executed _ Hinv). right. apply (in_acked _ Hinv).
    apply (po_ready _ _ (in_publishes _ Hinv) j j'); [done|done|by rewrite <- Em|done].
Qed.

Lemma started_inv s m w' resp :
  sys_inv s -> sy_phase s m = Delivered ->
  handleJobStarted error_text (POST (startedRequest m)) (sy_world s) = (w', resp) ->
  StatusCode resp = 200%Z /\
  let s' := move m Running [JobStarted (startedRequest m)] w' s in
  sys_inv s' /\ progress_made s' = S (progress_made s).
Proof.
  intros Hinv Eph Hh. assert (Hm : m ∈ published (sy_world s)) by (apply (in_phase _ Hinv); by rewrite Eph).
  destruct (HandleJobStarted (startedRequest m) (sy_world s)) as [w1 r] eqn:E1.
  destruct (started_step _ _ _ _ _ (in_state _ Hinv) (in_publishes _ Hinv) Hm (not_acked _ _ _ Hinv Eph ltac:(done)) E1)
    as (-> & Hst & Hq).
  unfold handleJobStarted in Hh. rewrite handleJobCallback_POST, E1 in Hh. injection Hh as <- <-. split; [done|].
  intros s'. assert (Hpub : forall x, x ∈ published (sy_world s) -> x ∈ published w1)
    by (intros x; unfold Execution.published; by rewrite Hq).
  destruct (moves s s' m Running [JobStarted (startedRequest m)]) as (H1 & H2 & H3); try done; [by rewrite Eph..|].
  split; [|done]. split; try done; try apply Hinv.
  - by apply (publishes_same (sy_world s) w1 (sy_acked s)), Hinv.
  - same_phase Hinv m Eph.
  - same_phase Hinv m Eph.
Qed.

Lemma finished_inv s m w' resp :
  sys_inv s -> sy_phase s m = Reporting ->
  handleJobFinished error_text (POST (verdict m)) (sy_world s) = (w', resp) ->
  StatusCode resp = 200%Z /\ sys_inv (acknowledge m w' s) /\ progress_made (acknowledge m w' s) = S (progress_made s).
Proof.
  intros Hinv Eph Hh. assert (Hm : m ∈ published (sy_world s)) by (apply (in_phase _ Hinv); by rewrite Eph).
  destruct (HandleJobFinished (verdict m) (sy_world s)) as [w1 r] eqn:E1.
  destruct (finished_step _ _ _ _ _ (in_state _ Hinv) (in_publishes _ Hinv) Hm (not_acked _ _ _ Hinv Eph ltac:(done)) E1)
    as (-> & Hst & Hpub & Hmono).
  unfold handleJobFinished in Hh. rewrite handleJobCallback_POST, E1 in Hh. injection Hh as <- <-. split; [done|].
  destruct (moves s (acknowledge m w1 s) m Acknowledged [JobFinished (verdict m)]) as (H1 & H2 & H3); try done; [by rewrite Eph..|].
  split; [|done]. split; try done; try apply Hinv.
  - same_phase Hinv m Eph.
  - intros x. simpl. rewrite elem_of_app, list_elem_of_singleton, (in_acked _ Hinv).
    destruct (decide (m = x)) as [<-|?]; [rewrite fn_lookup_insert; naive_solver|].
    rewrite fn_lookup_insert_ne by done. naive_solver.
Qed.

Lemma sys_step_inv s s' : sys_inv s -> sys_step s s' -> sys_inv s' /\ progress_made s' = S (progress_made s).
Proof.
  intros Hinv Hstep. destruct Hstep as [s m Hm Eph|s m w' resp Eph Hh|s m Eph|s m w' resp Eph Hh].
  - by apply deliver_inv.
  - destruct (started_inv s m w' resp Hinv Eph Hh) as [Hs H]. unfold answer. simpl. by rewrite Hs.
  - by apply execute_inv.
  - destruct (finished_inv s m w' resp Hinv Eph Hh) as [Hs H]. unfold answer. simpl. by rewrite Hs.
Qed.

(** ** From the dispatch on *)

Section executions.
Context (w0 : world Q) (cur : string) (sent : list JobExecutionPlan) (future : list string).
Context (Hstart : running w0 [] cur sent ∅ future).

Lemma initial_inv : sys_inv (initial w0).
Proof.
  assert (Hrep : reported_ok p n ri [] [] cur sent ∅).
  { intros m. split; [by intros ?%elem_of_nil|]. intros [Hx|(? & ? & ? & ?)]; [by apply elem_of_nil in Hx|set_solver]. }
  assert (Hprog : in_progress w0 []) by (by exists [], cur, sent, ∅, future).
  split; simpl; try done.
  - left. by split; [left|constructor].
  - apply live_publishes_ok. by left.
  - intros m. rewrite elem_of_nil. naive_solver.
  - intros m. rewrite elem_of_nil. naive_solver.
  - constructor.
Qed.

Lemma executions_inv k s : nsteps sys_step k (initial w0) s -> sys_inv s /\ progress_made s = k.
Proof.
  remember (initial w0) as s0 eqn:E0. intros Hk. revert E0.
  assert (H : sys_inv s0 -> sys_inv s /\ progress_made s = k + progress_made s0).
  { induction Hk as [s1|k s1 s2 s3 Hstep _ IH]; intros H1; [done|].
    destruct (sys_step_inv _ _ H1 Hstep) as [H2 Hp]. destruct (IH H2) as [H3 Hp3]. split; [done|]. lia. }
  intros ->. destruct (H initial_inv) as [Hs Hp]. split; [done|]. rewrite Hp.
  assert (progress_made (initial w0) = 0) as ->; [|lia]. unfold progress_made. simpl.
  by induction (job_message <$> Pipeline_Jobs p).
Qed.

Lemma progress_bound s : progress_made s <= 4 * length (Pipeline_Jobs p).
Proof.
  unfold progress_made. rewrite <- (length_fmap job_message (Pipeline_Jobs p)).
  induction (job_message <$> Pipeline_Jobs p) as [|m l IH]; [done|]. rewrite fmap_cons. cbn [sum_list_with length].
  unfold id at 1. assert (weight (sy_phase s m) <= 4) by (destruct (sy_phase s m); simpl; lia). lia.
Qed.

(** A message that is not acknowledged can move on. *)
Lemma can_step s m : m ∈ published (sy_world s) -> sy_phase s m ≠ Acknowledged -> exists s', sys_step s s'.
Proof.
  intros Hm Hne. destruct (sy_phase s m) eqn:Eph; [| | | |done].
  - eexists. by apply (step_deliver s m).
  - destruct (handleJobStarted error_text (POST (startedRequest m)) (sy_world s)) as [w' resp] eqn:E.
    eexists. by apply (step_started s m w' resp).
  - eexists. by apply (step_execute s m).
  - destruct (handleJobFinished error_text (POST (verdict m)) (sy_world s)) as [w' resp] eqn:E.
    eexists. by apply (step_finished s m w' resp).
Qed.

Definition stuck (s : system) : Prop := forall s', ~ sys_step s s'.

Lemma stuck_acked s m : sys_inv s -> stuck s -> m ∈ published (sy_world s) -> sy_phase s m = Acknowledged.
Proof.
  intros Hinv Hstuck Hm. destruct (decide (sy_phase s m = Acknowledged)) as [|Hne]; [done|].
  destruct (can_step s m Hm Hne) as [s' Hs]. by destruct (Hstuck s').
Qed.

(** How a run ends: as a success in which every job was executed once and has a
    terminal row, or as a failure that some job caused. *)
Definition succeeded (s : system) : Prop :=
  Forall passes (sy_executed s) /\ sy_executed s ≡ₚ job_message <$> Pipeline_Jobs p /\
  exists all, finished p n ri base (sy_world s) all.
Definition has_failed (s : system) : Prop :=
  Exists (fun m => ~ passes m) (sy_executed s) /\ doomed (sy_world s).

Lemma stuck_verdict s : sys_inv s -> stuck s -> succeeded s \/ has_failed s.
Proof.
  intros Hinv Hstuck.
  assert (Hexec : forall m, m ∈ sy_executed s <-> m ∈ sy_acked s).
  { intros m. rewrite (in_executed _ Hinv), (in_acked _ Hinv). split; [|by right]. intros [Hm|]; [|done].
    apply (stuck_acked s m Hinv Hstuck), (in_phase _ Hinv). by rewrite Hm. }
  assert (Hall : forall m, m ∈ published (sy_world s) -> m ∈ sy_acked s).
  { intros m Hm. by apply (in_acked _ Hinv), stuck_acked. }
  destruct (in_state _ Hinv) as [[[Hprog|(all & Hf & Hcover)] Hp]|[Hd Hp]].
  - exfalso. destruct (in_progress_open _ _ _ _ _ Hvalid _ _ Hprog) as (m & Hm & Hn). by apply Hn, Hall.
  - left. split; [|split; [|by exists all]].
    + apply Forall_forall. intros m Hm%Hexec. by apply (Forall_forall passes (sy_acked s)).
    + apply NoDup_Permutation; [apply Hinv|apply job_messages_unique|]. intros m. rewrite Hexec, Hcover. split.
      * apply (messages_jobs _ _). intros x Hx job. apply whole_in. by apply (fi_whole _ _ _ _ _ _ Hf).
      * intros (j & -> & Hj)%list_elem_of_fmap. apply whole_message; [apply (fi_whole _ _ _ _ _ _ Hf)|done|].
        rewrite (fi_stages _ _ _ _ _ _ Hf). by apply (vp_job_stage _ Hvalid).
  - right. split; [|done]. apply Exists_exists in Hp as (m & Hm & Hb). apply Exists_exists. exists m. by rewrite Hexec.
Qed.

(** C2: progress and termination of the system when each callback is handled to its
    end before the next one, no call of the store fails, every publish is confirmed
    and the names of the pipeline are told apart by the tables and not blank: an
    execution of a dispatched run takes at most four steps per job (each message is
    delivered, its two callbacks are answered 200 and its job is executed, once
    each); and it can go on as long as some published message is not
    acknowledged. *)
Theorem system_terminates k s :
  nsteps sys_step k (initial w0) s ->
  k <= 4 * length (Pipeline_Jobs p) /\
  (stuck s <-> forall m, m ∈ published (sy_world s) -> m ∈ sy_acked s).
Proof.
  intros Hk. destruct (executions_inv k s Hk) as [Hinv <-]. split; [apply progress_bound|]. split.
  - intros Hstuck m Hm. by apply (in_acked _ Hinv), stuck_acked.
  - intros Hall s' Hstep.
    assert (Hno : forall m ph, sy_phase s m = ph -> m ∈ published (sy_world s) -> ph = Acknowledged).
    { intros m ph <- Hm. by apply (in_acked _ Hinv), Hall. }
    assert (Hno' : forall m ph, sy_phase s m = ph -> ph ≠ Waiting -> ph = Acknowledged).
    { intros m ph Eph Hne. apply (Hno m ph Eph), (in_phase _ Hinv). by rewrite Eph. }
    destruct Hstep as [s m Hm Eph|s m w' resp Eph Hh|s m Eph|s m w' resp Eph Hh];
      [by apply Hno in Eph|by apply Hno' in Eph..].
Qed.

(** The order of execution: whatever the interleaving, no job is executed
    twice, and before a job is executed every job of an earlier stage and every
    job that it needs was executed. *)
Theorem system_order k s :
  nsteps sys_step k (initial w0) s ->
  NoDup (sy_executed s) /\ well_ordered (sy_executed s) /\
  (forall m, m ∈ sy_executed s -> exists j, j ∈ Pipeline_Jobs p /\ m = job_message j).
Proof.
  intros Hk. destruct (executions_inv k s Hk) as [Hinv _]. split; [apply Hinv|]. split; [apply Hinv|].
  intros m Hm%(in_executed _ Hinv). apply (po_jobs _ _ (in_publishes _ Hinv)), (in_phase _ Hinv).
  by destruct Hm as [-> | ->].
Qed.

(** C3: under the same conditions (callbacks handled one at a time, no failing call of
    the store, every publish confirmed, names told apart and not blank), what the
    worker of a message does in the system is what [handleJobMessage] does when both
    callbacks are answered 200 at once: its events are a prefix of that trace, and
    the whole of it exactly when the message is acknowledged. *)
Theorem system_workers k s m :
  nsteps sys_step k (initial w0) s ->
  exists tr, handleJobMessage error_text (docker m) env stat (PostStatus 200) true [MkFinish (PostStatus 200) None] m
      = Some (tr, None) /\
    (exists i, events_of m s = take i tr) /\ (m ∈ sy_acked s <-> events_of m s = tr).
Proof.
  intros Hk. destruct (executions_inv k s Hk) as [Hinv _].
  exists [JobStarted (startedRequest m); Executed (execution m).1; JobFinished (verdict m)]. split_and!.
  - unfold handleJobMessage, verdict, verdict_of, execution. simpl.
    by destruct (ExecuteJob _ _ _ _ _ _ _) as [acts [logs [e|]]].
  - rewrite (in_events _ Hinv). by eexists.
  - rewrite (in_acked _ Hinv), (in_events _ Hinv). by destruct (sy_phase s m).
Qed.

End executions.

End run.

(** ** Scheduling *)

(** The next step of the worker of [m], if it has one. *)
Definition step_of (m : JobExecutionMessage) (s : system) : option system :=
  match sy_phase s m with
  | Waiting => if decide (m ∈ published base (sy_world s)) then Some (move m Delivered [] (sy_world s) s) else None
  | Delivered =>
    let '(w', resp) := handleJobStarted error_text (POST (startedRequest m)) (sy_world s) in
    Some (move m (match doJobCallbackRequest (answer resp) with None => Running | Some _ => Waiting end)
            [JobStarted (startedRequest m)] w' s)
  | Running => Some (execute m s)
  | Reporting =>
    let '(w', resp) := handleJobFinished error_text (POST (verdict m)) (sy_world s) in
    Some (match doJobCallbackRequest (answer resp) with
          | None => acknowledge m w' s | Some _ => move m Reporting [JobFinished (verdict m)] w' s end)
  | Acknowledged => None
  end.

Fixpoint drive (ms : list JobExecutionMessage) (s : system) : option system :=
  match ms with [] => Some s | m :: ms' => s' ← step_of m s; drive ms' s' end.

Lemma step_of_step m s s' : step_of m s = Some s' -> sys_step s s'.
Proof.
  unfold step_of. destruct (sy_phase s m) eqn:E.
  - case_decide; [|done]. intros [= <-]. by apply step_deliver.
  - destruct (handleJobStarted _ _ _) as [w' resp] eqn:Eh. intros [= <-]. by apply (step_started s m w' resp).
  - intros [= <-]. by apply step_execute.
  - destruct (handleJobFinished _ _ _) as [w' resp] eqn:Eh. intros [= <-]. by apply (step_finished s m w' resp).
  - done.
Qed.

Lemma drive_steps ms s s' : drive ms s = Some s' -> nsteps sys_step (length ms) s s'.
Proof.
  revert s. induction ms as [|m ms IH]; intros s; simpl; [intros [= <-]; constructor|].
  intros (s1 & E & H)%bind_Some. econstructor; [by eapply step_of_step|by apply IH].
Qed.

End system.

(** ** From the request to the verdict *)

Section request.
Context {C : Collation} {Q : Type} {J : JobSink Q} {F : GoFloat}.
Context (error_text : goerr -> string).
Context (env : string -> string) (stat : string -> bool) (docker : JobExecutionMessage -> docker_env).
Context (yaml_Unmarshal : string -> res yaml_node) (os_ReadFile : string -> res string).
Context (verify_order : graph -> list string) (plan_orders run_orders : Pipeline -> nat -> list string).
Context (cacheCfg : CacheConfig) (sha256_hex : string -> string) (c : ctx).
Context (Henv : environment_ok yaml_Unmarshal verify_order plan_orders).

(** C1: from a run request to its verdict, when each callback is handled to its end
    before the next one (Race shows what can happen otherwise), no call of the store
    fails, every publish to the queue is confirmed, the validation service runs
    without a cache, and the names of the pipeline are told apart by the tables and
    not blank. With no active run of the same request, posting the text of a valid
    pipeline to [/run] is answered 200 and starts the run; from its dispatch, in
    whatever order the workers take and report the jobs, there are at most four steps
    per job, and when nothing is left to do either every job was executed exactly
    once, no job failed that may not, and the run, its stages and its jobs are
    recorded as ended with success; or some job failed that may not and the run is
    recorded as failed. In both cases the orchestrator has forgotten the run. *)
Theorem request_to_verdict req p (w : world Q) :
  let n := next_run_no (w_db w) (Pipeline_Name p) in
  let ri := newRunInfo req in
  let base := held (w_queue w) in
  asks yaml_Unmarshal os_ReadFile req p -> ready_world p c req sha256_hex w -> identifiable p n ->
  legal_orders (run_orders p) p ->
  exists w1 w2,
    POST_run error_text yaml_Unmarshal os_ReadFile verify_order plan_orders run_orders cacheCfg sha256_hex c req w
      = Ret (NewNoopStore, (w1, Some (WriteJSON 200 (MkRunResponse (Pipeline_Name p) n StatusQueued [] "")))) /\
    dispatchPipelineStartJobs (w_next w) w1 = (w2, ok tt) /\
    forall k s, nsteps (sys_step error_text env stat docker base) k (initial w2) s ->
      k <= 4 * length (Pipeline_Jobs p) /\
      (stuck error_text env stat docker base s ->
       w_runtimes (sy_world s) !! runtimeKey (Pipeline_Name p) n = None /\
       (succeeded env stat docker base p n ri s \/ has_failed env stat docker p n ri s)).
Proof.
  intros n ri base Ha Hready Hid Horders.
  destruct (run_request_started error_text yaml_Unmarshal os_ReadFile verify_order plan_orders run_orders cacheCfg
    sha256_hex c Henv req w) as (w1 & resp & E & _ & H).
  destruct (H p Ha Hready Hid Horders) as (-> & _ & w2 & cur & sent & future & Ed & Hrun).
  assert (Hv : valid_pipeline p) by (by destruct Ha as (_ & ? & _ & _ & _ & ?)).
  exists w1, w2. split; [exact E|]. split; [exact Ed|]. intros k s Hk.
  destruct (executions_inv error_text env stat docker base p n ri (w_next w) Hv Hid w2 cur sent future Hrun k s Hk) as [Hinv <-].
  split; [apply progress_bound|]. intros Hstuck.
  pose proof (stuck_verdict error_text env stat docker base p n ri (w_next w) Hv s Hinv Hstuck) as Hend.
  split; [|done]. destruct Hend as [(_ & _ & all & Hf)|[_ Hd]]; [apply Hf|apply Hd].
Qed.

End request.

(** ** The demo pipeline, end to end

    The linter fails, which it may; jobs overlap. *)

#[local] Existing Instance binary_collation.
#[local] Existing Instance no_floats.

Definition demo_env (_ : string) : string := "".
Definition demo_stat (_ : string) : bool := false.
Definition demo_docker (m : JobExecutionMessage) : docker_env :=
  MkDocker None (ok "/tmp/job") (fun _ => None) None None (ok "c1") (fun _ => Directory demo_names) (fun _ => None) None
    (WaitExit (if decide (JobPlan_Name (Msg_Job m) = "lint") then 1 else 0)) (ok ("done", "")).
Definition demo_message (i : nat) : JobExecutionMessage :=
  job_message demo_pipeline 1 (newRunInfo demo_request) (default zeroJob (Pipeline_Jobs demo_pipeline !! i)).

(** fetch; then the linter and the compiler at once; then the package; then the tests. *)
Definition demo_schedule : list JobExecutionMessage :=
  demo_message <$> [3; 3; 3; 3; 2; 1; 1; 2; 1; 2; 2; 1; 0; 0; 0; 0; 4; 4; 4; 4].

Definition demo_drive (k : nat) : option system :=
  drive no_text demo_env demo_stat demo_docker [] (take k demo_schedule) (initial demo_w0).
Definition demo_state (k : nat) : system := default (initial demo_w0) (demo_drive k).
Abbreviation demo_step := (sys_step no_text demo_env demo_stat demo_docker []).

Lemma demo_driven k : is_Some (demo_drive k) -> nsteps demo_step (length (take k demo_schedule)) (initial demo_w0) (demo_state k).
Proof.
  intros [s E]. unfold demo_state. rewrite E. apply drive_steps, E.
Qed.

Lemma demo_steps k : bool_decide (is_Some (demo_drive k)) = true ->
  nsteps demo_step (length (take k demo_schedule)) (initial demo_w0) (demo_state k).
Proof. intros H%bool_decide_eq_true. by apply demo_driven. Qed.

Lemma system_terminates_witness :
  nsteps demo_step 20 (initial demo_w0) (demo_state 20) /\ 20 <= 20 /\
  stuck no_text demo_env demo_stat demo_docker [] (demo_state 20).
Proof.
  assert (Hk : nsteps demo_step 20 (initial demo_w0) (demo_state 20)) by (apply (demo_steps 20); vm_compute; reflexivity).
  destruct (system_terminates no_text demo_env demo_stat demo_docker [] demo_pipeline 1 (newRunInfo demo_request) 0
    demo_valid demo_identifiable demo_w0 "build" [MkJobPlan "fetch" "alpine" ["make deps"]] ["test"] demo_running
    20 (demo_state 20) Hk) as [Hle Hstuck].
  split; [exact Hk|]. split; [exact Hle|]. apply Hstuck. apply Forall_forall. by_decide.
Defined.

Lemma system_order_witness :
  NoDup (sy_executed (demo_state 13)) /\ well_ordered demo_pipeline 1 (newRunInfo demo_request) (sy_executed (demo_state 13)) /\
  (forall m, m ∈ sy_executed (demo_state 13) -> exists j, j ∈ Pipeline_Jobs demo_pipeline /\
     m = job_message demo_pipeline 1 (newRunInfo demo_request) j).
Proof.
  apply (system_order no_text demo_env demo_stat demo_docker [] demo_pipeline 1 (newRunInfo demo_request) 0
    demo_valid demo_identifiable demo_w0 "build" [MkJobPlan "fetch" "alpine" ["make deps"]] ["test"] demo_running 13).
  apply (demo_steps 13). vm_compute. reflexivity.
Defined.

Lemma system_workers_witness :
  exists tr, handleJobMessage no_text (demo_docker (demo_message 2)) demo_env demo_stat (PostStatus 200) true
      [MkFinish (PostStatus 200) None] (demo_message 2) = Some (tr, None) /\
    (exists i, events_of (demo_message 2) (demo_state 10) = take i tr) /\
    (demo_message 2 ∈ sy_acked (demo_state 10) <-> events_of (demo_message 2) (demo_state 10) = tr).
Proof.
  apply (system_workers no_text demo_env demo_stat demo_docker [] demo_pipeline 1 (newRunInfo demo_request) 0
    demo_valid demo_identifiable demo_w0 "build" [MkJobPlan "fetch" "alpine" ["make deps"]] ["test"] demo_running
    10 (demo_state 10)).
  apply (demo_steps 10). vm_compute. reflexivity.
Defined.

Definition demo_post : RunRequest := MkRunRequest "good" "main" "abc" "https://x/y.git" "".

Lemma demo_asks : asks demo_yaml no_file demo_post demo_pipeline.
Proof.
  split; [discriminate|]. exists (render demo_pipeline). split; [vm_compute; reflexivity|].
  split; [vm_compute; reflexivity|]. split; [|apply demo_valid]. eexists. split; vm_compute; reflexivity.
Qed.

Lemma demo_post_ready : ready_world demo_pipeline (Some "0af7") demo_post demo_sha (demo_world []).
Proof. split; [split; first [done|apply empty_db_wf]|apply demo_sink_healthy]. Qed.

Definition demo_run_orders (_ : Pipeline) : nat -> list string := demo_orders.
Abbreviation demo_POST_run :=
  (POST_run no_text demo_yaml no_file keys_order keys_orders demo_run_orders demo_cfg demo_sha (Some "0af7")).

Lemma run_request_starts_run_witness :
  exists w' resp, demo_POST_run demo_post (demo_world []) = Ret (NewNoopStore, (w', Some resp)) /\
    resp = WriteJSON 200 (MkRunResponse "demo" 1 StatusQueued [] "").
Proof.
  destruct (run_request_starts_run no_text demo_yaml no_file keys_order keys_orders demo_run_orders demo_cfg demo_sha
    (Some "0af7") demo_environment demo_post (demo_world [])) as (w' & resp & E & _ & H).
  exists w', resp. split; [exact E|].
  destruct (H demo_pipeline demo_asks demo_post_ready demo_identifiable demo_orders_legal) as [Er _]. exact Er.
Defined.

Lemma request_to_verdict_witness :
  exists w1 w2, demo_POST_run demo_post (demo_world []) =
      Ret (NewNoopStore, (w1, Some (WriteJSON 200 (MkRunResponse "demo" 1 StatusQueued [] "")))) /\
    dispatchPipelineStartJobs 0 w1 = (w2, ok tt) /\
    forall k s, nsteps demo_step k (initial w2) s -> k <= 20 /\
      (stuck no_text demo_env demo_stat demo_docker [] s ->
       w_runtimes (sy_world s) !! runtimeKey "demo" 1 = None /\
       (succeeded demo_env demo_stat demo_docker [] demo_pipeline 1 (newRunInfo demo_post) s \/
        has_failed demo_env demo_stat demo_docker demo_pipeline 1 (newRunInfo demo_post) s)).
Proof.
  apply (request_to_verdict no_text demo_env demo_stat demo_docker demo_yaml no_file keys_order keys_orders
    demo_run_orders demo_cfg demo_sha (Some "0af7") demo_environment demo_post demo_pipeline (demo_world [])
    demo_asks demo_post_ready demo_identifiable demo_orders_legal).
Defined.

(** The failed run of the same schedule, when the compiler fails. *)
Definition broken_docker (m : JobExecutionMessage) : docker_env :=
  MkDocker None (ok "/tmp/job") (fun _ => None) None None (ok "c1") (fun _ => Directory demo_names) (fun _ => None) None
    (WaitExit (if decide (JobPlan_Name (Msg_Job m) = "compile") then 2 else 0)) (ok ("", "error")).
Example broken_run :
  let s := default (initial demo_w0) (drive no_text demo_env demo_stat broken_docker [] (take 12 demo_schedule) (initial demo_w0)) in
  (run_status_of (w_db (sy_world s)) "demo" 1, length (sy_executed s), size (w_runtimes (sy_world s)))
  = (Some StatusFailed, 3, 0).
Proof. vm_compute. reflexivity. Qed.
