(* ===== verification/Concurrent.v ===== *)
(** * Handlers that interleave

    The same system as in System, but with the handlers of the orchestrator and
    the goroutine that dispatches the first jobs taken apart into the steps of
    Steps: a scheduler picks who makes the next step. Nothing is assumed of the
    environment: any call of the store and any publish may fail, and a worker may be
    lost, so that its message is delivered again while the handler of its report
    goes on alone. An acknowledgement lost after the report was accepted is a worker
    lost at the last step of that handler. A job that is executed again may end
    otherwise than before. A publish that is not confirmed may have put its message
    into the queue, and is tried again: the broker may hold copies of a message, each
    of which is delivered and handled beside the others. Theorem: whatever the schedule
    and the environment, no message is asked to be published twice, no job is executed
    before all it waits for have been, and none is executed again but after a lost
    report or from a copy of its message. *)

From stdpp Require Import functions.
From S2P Require Import Prelude GoStrings Archive Models Graph Wellformed Planner Store StageState Mq Publisher Orchestrator Execution Http Worker Validation Parser Endpoints Callbacks System Steps.

(** ** What a stage's methods do to what it handed out *)

Section runtime.
Context {C : Collation} (p : Pipeline) (n : Z) (ri : runInfo).
Context (Hvalid : valid_pipeline p) (Hid : identifiable p n).
Abbreviation pname := (Pipeline_Name p).
Abbreviation stage_names := (fmap (M:=list) Stage_Name (Pipeline_Stages p)).
Abbreviation job_message := (job_message p n ri).
Abbreviation message s job := (buildJobExecutionMessage n pname s job ri).

(** The jobs of [s] that were handed out. *)
Definition handed_jobs (s : string) (st : stageState) : list JobExecutionPlan :=
  jobPlan <$> filter (fun j => Job_Name j ∈ queued st) (jobsForStage s p).

Definition stage_ok (s : string) (st : stageState) : Prop :=
  exists sp done, plan_of_stage s p sp /\ stage_inv s p sp st (handed_jobs s st) done [].

Lemma stage_inv_perm s sp st l l' done todo :
  l ≡ₚ l' -> stage_inv s p sp st l done todo -> stage_inv s p sp st l' done todo.
Proof.
  intros E [H1 H2 H3 H4 H5 H6 H7]. split; try done.
  - intros m. by rewrite <- E.
  - by rewrite <- E.
  - intros pl. rewrite <- E. apply H6.
Qed.

Lemma handed_jobs_perm s sp st sent done todo : stage_inv s p sp st sent done todo -> handed_jobs s st ≡ₚ sent.
Proof.
  intros Hinv. apply NoDup_Permutation.
  - apply (NoDup_fmap_1 JobPlan_Name). unfold handed_jobs. rewrite <- list_fmap_compose.
    apply (NoDup_fmap_2_strong (JobPlan_Name ∘ jobPlan)); [|by eapply NoDup_filter, NoDup_fmap_1, stage_unique].
    intros j j' [_ Hj]%list_elem_of_filter [_ Hj']%list_elem_of_filter E.
    apply (NoDup_name_inj _ _ _ (stage_unique s p Hvalid) Hj Hj' E).
  - eapply NoDup_fmap_1, (si_nodup _ _ _ _ _ _ _ Hinv).
  - intros pl. unfold handed_jobs. rewrite list_elem_of_fmap. split.
    + intros (j & -> & [Hq Hj]%list_elem_of_filter). apply (si_queued _ _ _ _ _ _ _ Hinv) in Hq as (pl & E & Hpl)%list_elem_of_fmap.
      destruct (si_sent _ _ _ _ _ _ _ Hinv pl Hpl) as (k & Hk & -> & _). simpl in E.
      by rewrite (NoDup_name_inj _ _ _ (stage_unique s p Hvalid) Hj Hk E).
    + intros Hpl. destruct (si_sent _ _ _ _ _ _ _ Hinv pl Hpl) as (j & Hj & -> & _). exists j. split; [done|].
      apply list_elem_of_filter. split; [|done]. apply (si_queued _ _ _ _ _ _ _ Hinv).
      by apply (list_elem_of_fmap_2 JobPlan_Name) in Hpl.
Qed.

(** From [st] to [st'] the jobs [ready] were handed out and the names [X] completed. *)
Record handing (s : string) (st st' : stageState) (ready : list JobExecutionPlan) (X : gset string) : Prop := {
  hg_ok : stage_ok s st';
  hg_handed : handed_jobs s st' ≡ₚ handed_jobs s st ++ ready;
  hg_completed : completed st' = X ∪ completed st;
}.

Lemma handing_intro s sp st st' ready X done done' :
  plan_of_stage s p sp -> stage_inv s p sp st (handed_jobs s st) done [] ->
  stage_inv s p sp st' (handed_jobs s st ++ ready) done' [] -> completed st' = X ∪ completed st -> handing s st st' ready X.
Proof.
  intros Hsp H H' Hc. pose proof (handed_jobs_perm _ _ _ _ _ _ H') as Hp. split; [|done..].
  exists sp, done'. split; [done|]. by eapply stage_inv_perm.
Qed.

Lemma getReadyJobs_handing s st : stage_ok s st -> let '(st', ready) := getReadyJobs st in handing s st st' ready ∅.
Proof.
  intros (sp & done & Hsp & H). pose proof (getReadyJobs_inv s p sp Hvalid Hsp _ _ _ H) as H'.
  destruct (getReadyJobs st) as [st' ready]. destruct H' as (H1 & H2 & _). eapply handing_intro; [done..|]. set_solver.
Qed.

Lemma markJobSucceeded_handing s st name :
  stage_ok s st -> let '(st', ready) := markJobSucceeded st name in handing s st st' ready {[name]}.
Proof.
  intros (sp & done & Hsp & H). destruct (decide (name ∈ completed st)) as [Hn|Hn].
  - unfold markJobSucceeded. rewrite decide_True by done. eapply handing_intro; [done..| |set_solver]. by rewrite app_nil_r.
  - pose proof (markJobSucceeded_inv s p sp Hvalid Hsp _ _ _ _ H Hn) as H'.
    destruct (markJobSucceeded st name) as [st' ready]. destruct H' as (H1 & H2 & _). by eapply handing_intro.
Qed.

Lemma markJobTerminal_handing s st name : stage_ok s st -> handing s st (markJobTerminal st name) [] {[name]}.
Proof.
  intros (sp & done & Hsp & H). eapply handing_intro; [done..| |done]. rewrite app_nil_r. by apply markJobTerminal_inv.
Qed.

(** A job is handed out after its needs have completed. *)
Lemma handed_needs s st j x :
  stage_ok s st -> j ∈ jobsForStage s p -> Job_Name j ∈ queued st -> x ∈ Job_Needs j -> x ∈ completed st.
Proof.
  intros (sp & done & Hsp & H) Hj Hq Hx. apply (si_done _ _ _ _ _ _ _ H).
  assert (Hin : jobPlan j ∈ handed_jobs s st) by (apply list_elem_of_fmap_2, list_elem_of_filter; done).
  destruct (si_sent _ _ _ _ _ _ _ H _ Hin) as (k & Hk & E & Hneeds). apply Hneeds.
  assert (Job_Name j = Job_Name k) as En by (by injection E).
  by rewrite <- (NoDup_name_inj _ _ _ (stage_unique s p Hvalid) Hj Hk En).
Qed.

(** ** The runtime *)

Definition handed_out (rt : pipelineRuntime) (j : Job) : Prop :=
  Job_Name j ∈ default ∅ (queued <$> rt_stageStates rt !! Job_Stage j).

Definition earlier (s' s : string) : Prop :=
  exists before after, stage_names = before ++ s :: after /\ s' ∈ before.

(** [executed] holds the jobs that completed, and of stages before one in
    which a job was handed out all jobs. *)
Record runtime_safe (rt : pipelineRuntime) (executed : list JobExecutionMessage) : Prop := {
  rs_ok : runtime_ok p n ri rt;
  rs_stages : forall s, s ∈ stage_names -> exists st, rt_stageStates rt !! s = Some st /\ stage_ok s st;
  rs_completed : forall s st x, s ∈ stage_names -> rt_stageStates rt !! s = Some st -> x ∈ completed st ->
    exists j, j ∈ jobsForStage s p /\ Job_Name j = x /\ job_message j ∈ executed;
  rs_earlier : forall j j', j ∈ Pipeline_Jobs p -> j' ∈ Pipeline_Jobs p -> handed_out rt j ->
    earlier (Job_Stage j') (Job_Stage j) -> job_message j' ∈ executed;
}.

(** From [rt] to [rt'] the jobs of the messages [new] were handed out. *)
Record hands_out (rt rt' : pipelineRuntime) (new : list JobExecutionMessage) : Prop := {
  ho_once : NoDup new;
  ho_new : forall m, m ∈ new -> exists j, j ∈ Pipeline_Jobs p /\ m = job_message j /\ ~ handed_out rt j;
  ho_handed : forall j, j ∈ Pipeline_Jobs p -> handed_out rt' j <-> handed_out rt j \/ job_message j ∈ new;
}.

Lemma hands_out_same rt rt' : rt_stageStates rt' = rt_stageStates rt -> hands_out rt rt' [].
Proof.
  intros E. split; [constructor|by intros m ?%elem_of_nil|]. intros j Hj. unfold handed_out. rewrite E, elem_of_nil. naive_solver.
Qed.

Lemma handed_out_at rt s st j :
  rt_stageStates rt !! s = Some st -> Job_Stage j = s -> handed_out rt j <-> Job_Name j ∈ queued st.
Proof. intros E <-. unfold handed_out. by rewrite E. Qed.

Lemma elem_of_handed_jobs s st j : j ∈ jobsForStage s p -> jobPlan j ∈ handed_jobs s st <-> Job_Name j ∈ queued st.
Proof.
  intros Hj. unfold handed_jobs. rewrite list_elem_of_fmap. split.
  - intros (k & E & [Hq Hk]%list_elem_of_filter). assert (Job_Name j = Job_Name k) as En by (by injection E). by rewrite En.
  - intros Hq. exists j. split; [done|]. by apply list_elem_of_filter.
Qed.

Lemma handing_hands_out rt s st st' ready X :
  rt_stageStates rt !! s = Some st -> handing s st st' ready X ->
  hands_out rt (set_stage s st' rt) ((fun job => message s job) <$> ready).
Proof.
  intros Hs [Hok Hh _]. destruct Hok as (sp & done & Hsp & Hinv).
  pose proof (si_nodup _ _ _ _ _ _ _ Hinv) as Hnd. rewrite Hh, fmap_app in Hnd. apply NoDup_app in Hnd as (_ & Hnew & Hnd).
  assert (Hjob : forall job, job ∈ ready -> exists j, j ∈ jobsForStage s p /\ job = jobPlan j).
  { intros job Hjob. destruct (si_sent _ _ _ _ _ _ _ Hinv job) as (j & ? & ? & _); [|eauto]. rewrite Hh. set_solver. }
  assert (Hmsg : forall j, j ∈ jobsForStage s p -> message s (jobPlan j) = job_message j).
  { intros j [_ <-]%jobsForStage_elem. done. }
  assert (Hq : forall j, j ∈ jobsForStage s p -> Job_Name j ∈ queued st' <-> Job_Name j ∈ queued st \/ jobPlan j ∈ ready).
  { intros j Hj. rewrite <- !(elem_of_handed_jobs s) by done. by rewrite Hh, elem_of_app. }
  split.
  - apply NoDup_fmap_2_strong; [|by eapply NoDup_fmap_1]. intros a b Ha Hb E. by injection E.
  - intros m (job & -> & Hin)%list_elem_of_fmap. destruct (Hjob job Hin) as (j & Hj & ->). exists j.
    pose proof (proj1 (jobsForStage_elem _ _ _) Hj) as [Hjp Es]. split; [done|]. split; [by apply Hmsg|].
    rewrite (handed_out_at rt s st j Hs Es), <- (elem_of_handed_jobs s) by done. intros Hold.
    apply (Hnew (Job_Name j)); [by apply (list_elem_of_fmap_2 JobPlan_Name) in Hold|by apply (list_elem_of_fmap_2 JobPlan_Name) in Hin].
  - intros j Hj. destruct (decide (Job_Stage j = s)) as [Es|Hne].
    + assert (Hjs : j ∈ jobsForStage s p) by (by apply jobsForStage_elem).
      rewrite (handed_out_at rt s st j Hs Es), (handed_out_at (set_stage s st' rt) s st' j) by (done || apply lookup_insert_eq).
      rewrite Hq by done. f_equiv. rewrite <- Hmsg by done. split; [apply (list_elem_of_fmap_2 (fun job => message s job))|].
      intros (job & E & Hin)%list_elem_of_fmap. destruct (Hjob job Hin) as (k & Hk & ->). injection E as En _ _.
      by rewrite (NoDup_name_inj _ _ _ (stage_unique s p Hvalid) Hjs Hk En).
    + unfold handed_out. simpl. rewrite lookup_insert_ne by done. split; [by left|]. intros [?|(job & E & _)%list_elem_of_fmap]; [done|].
      by injection E.
Qed.

(** A change of one stage keeps the runtime safe. *)
Lemma runtime_safe_stage rt executed s st st' ready X :
  runtime_safe rt executed -> s ∈ stage_names -> rt_stageStates rt !! s = Some st -> handing s st st' ready X ->
  (forall x, x ∈ X -> exists j, j ∈ jobsForStage s p /\ Job_Name j = x /\ job_message j ∈ executed) ->
  (forall j', j' ∈ Pipeline_Jobs p -> earlier (Job_Stage j') s -> ready = [] \/ job_message j' ∈ executed) ->
  runtime_safe (set_stage s st' rt) executed.
Proof.
  intros [R1 R2 R3 R4] Hs Hst Hg HX He. pose proof (handing_hands_out _ _ _ _ _ _ Hst Hg) as [_ _ H3]. split.
  - by destruct R1; split.
  - intros s' Hs'. simpl. destruct (decide (s = s')) as [<-|Hne].
    + exists st'. split; [apply lookup_insert_eq|apply Hg].
    + rewrite lookup_insert_ne by done. by apply R2.
  - intros s' st1 x Hs'. simpl. destruct (decide (s = s')) as [<-|Hne].
    + rewrite lookup_insert_eq. intros [= <-]. rewrite (hg_completed _ _ _ _ _ Hg), elem_of_union.
      intros [Hx|Hx]; [by apply HX|by apply (R3 s st x)].
    + rewrite lookup_insert_ne by done. by apply R3.
  - intros j j' Hj Hj' [Hh|Hn]%H3 Hb; [by apply (R4 j j')| |done].
    apply list_elem_of_fmap in Hn as (job & E & Hin). injection E as Es _. rewrite Es in Hb.
    destruct (He j' Hj' Hb) as [->|]; [by apply elem_of_nil in Hin|done].
Qed.

Lemma runtime_safe_executed rt executed m : runtime_safe rt executed -> runtime_safe rt (executed ++ [m]).
Proof.
  intros [R1 R2 R3 R4]. split; try done.
  - intros s st x Hs Hst Hx. destruct (R3 s st x Hs Hst Hx) as (j & ? & ? & ?). exists j. set_solver.
  - intros j j' Hj Hj' Hh Hb. pose proof (R4 j j' Hj Hj' Hh Hb). set_solver.
Qed.

Lemma runtime_safe_times rt executed t : runtime_safe rt executed -> runtime_safe (set_startTimes t rt) executed.
Proof. intros [R1 R2 R3 R4]. split; try done. by destruct R1; split. Qed.

Lemma next_split s next :
  s ∈ stage_names -> nextStageName stage_names s = Some next ->
  exists past future, stage_names = past ++ s :: next :: future.
Proof.
  intros (past & future & E)%list_elem_of_split Hn. rewrite (next_stage p n Hvalid Hid past s future (eq_sym E)) in Hn.
  destruct future as [|x future]; [done|]. injection Hn as ->. by exists past, future.
Qed.

Lemma earlier_next s next s' :
  s ∈ stage_names -> nextStageName stage_names s = Some next -> earlier s' next -> s' = s \/ earlier s' s.
Proof.
  intros Hs Hn (before & after & E & Hb). destruct (next_split s next Hs Hn) as (past & future & E').
  destruct (decide (s' = s)) as [|Hne]; [by left|right]. exists past, (next :: future). split; [done|].
  pose proof (vp_stages_unique _ Hvalid) as Hu. rewrite E in Hu.
  assert (Hb' : s' ∈ past ++ [s]).
  { eapply (NoDup_split p n Hvalid Hid before (past ++ [s]) after future next next s'); [done| |set_solver|done].
    rewrite <- E, E', <- app_assoc. done. }
  set_solver.
Qed.

End runtime.

(** How far the worker of a message is, and the handler of its callback; the job
    was executed [k] times before the execution that is reported. *)
Inductive activity :=
| Idle
| Starting (at_ : start_point)
| Executing
| Finishing (k : nat) (at_ : point)
| Reported.

(** [WorkerLost]: the worker of a message ends while it runs the job, because its
    own context ends (its report is then not sent, and [handleJobMessage] answers
    an error) or because the broker lost it; [ReportLost]: it ends while one of its
    callbacks is handled. The message goes back to the queue; the handler of the
    lost report, the [i]th, goes on without it. *)
(** The broker may hold further copies of a message; each is delivered to a worker
    of its own ([TakesCopy]), which does with it what a worker does ([CopyOf], the [i]th),
    and may be lost in the same ways. *)
Inductive actor :=
| Dispatcher
| WorkerOf (m : JobExecutionMessage)
| WorkerLost (m : JobExecutionMessage)
| ReportLost (m : JobExecutionMessage)
| Orphan (i : nat)
| TakesCopy (m : JobExecutionMessage)
| CopyOf (i : nat)
| CopyLost (i : nat)
| CopyReportLost (i : nat).

Definition is_loss (a : actor) : bool :=
  match a with WorkerLost _ | ReportLost _ | CopyLost _ | CopyReportLost _ => true | _ => false end.
(** How many workers a schedule loses. *)
Definition losses (s : list actor) : nat := length (filter (fun a => is_loss a = true) s).

Section concurrent.
Context {C : Collation} {Q : Type} {J : JobSink Q} {F : GoFloat}.
Context (error_text : goerr -> string).
Context (env : string -> string) (stat : string -> bool) (docker : JobExecutionMessage -> nat -> docker_env).
Context (p : Pipeline) (n : Z) (pt : ptr).
Abbreviation pname := (Pipeline_Name p).

(** What Docker and git do may differ from one execution of a job to the next. *)
Definition attempt (k : nat) (m : JobExecutionMessage) : docker_env := docker m k.
Abbreviation verdict k := (verdict error_text env stat (attempt k)).

(** The messages of the run that the broker was given, every copy of them; and those
    that the orchestrator asked to publish. *)
Definition own_message (m : JobExecutionMessage) : Prop := Msg_PipelineName m = pname /\ Msg_RunNo m = n.
#[global] Instance own_message_dec m : Decision (own_message m).
Proof. unfold own_message. apply _. Defined.
Definition sent_messages (w : world Q) : list JobExecutionMessage := filter own_message (held (w_queue w)).
Definition requested_messages (w : world Q) : list JobExecutionMessage := filter own_message (requested (w_queue w)).

Record config := MkConfig {
  cf_world : world Q;
  cf_dispatch : dispatch_point;
  cf_act : JobExecutionMessage -> activity;
  cf_executed : list JobExecutionMessage;
  cf_orphans : list (JobExecutionMessage * activity);
  cf_copies : list (JobExecutionMessage * activity);
}.

(** A refused started callback returns the message to the queue; a refused
    finished callback is posted again. *)
Definition after_start (r : res start_point) : activity :=
  match r with inl Started => Executing | inl at_ => Starting at_ | inr _ => Idle end.
Definition after_finish (k : nat) (r : res point) : activity :=
  match r with inl Returned => Reported | inl at_ => Finishing k at_ | inr _ => Finishing k FinishJob end.
(** Nobody posts the report of a lost worker again. *)
Definition after_orphan (a : activity) : activity := match a with Starting _ | Finishing _ _ => a | _ => Idle end.
Definition after_orphan_start (r : res start_point) : activity := after_orphan (after_start r).
Definition after_orphan_finish (k : nat) (r : res point) : activity :=
  match r with inl _ => after_finish k r | inr _ => Idle end.
Definition after_dispatch (r : res dispatch_point) : dispatch_point :=
  match r with inl at_ => at_ | inr e => Dispatched (err e) end.

Definition acts (m : JobExecutionMessage) (a : activity) (w : world Q) (c : config) : config :=
  MkConfig w (cf_dispatch c) (<[m := a]> (cf_act c)) (cf_executed c) (cf_orphans c) (cf_copies c).
Definition orphan_acts (i : nat) (m : JobExecutionMessage) (a : activity) (w : world Q) (c : config) : config :=
  MkConfig w (cf_dispatch c) (cf_act c) (cf_executed c) (<[i := (m, a)]> (cf_orphans c)) (cf_copies c).
Definition copy_acts (i : nat) (m : JobExecutionMessage) (a : activity) (w : world Q) (executed : list JobExecutionMessage)
    (left_behind : list (JobExecutionMessage * activity)) (c : config) : config :=
  MkConfig w (cf_dispatch c) (cf_act c) executed (cf_orphans c ++ left_behind) (<[i := (m, a)]> (cf_copies c)).

(** How many copies of [m] there are in a list of messages. *)
Definition copies_in (m : JobExecutionMessage) (l : list JobExecutionMessage) : nat := length (filter (fun m' => m' = m) l).

(** How often the job of [m] was executed. *)
Definition executions (m : JobExecutionMessage) (c : config) : nat := copies_in m (cf_executed c).

(** The next step of an actor, if it has one. *)
Definition step (a : actor) (c : config) : option config :=
  match a with
  | Dispatcher =>
    match dispatch_done (cf_dispatch c) with
    | Some _ => None
    | None => let '(w', r) := dispatch_step pt (cf_dispatch c) (cf_world c) in
              Some (MkConfig w' (after_dispatch r) (cf_act c) (cf_executed c) (cf_orphans c) (cf_copies c))
    end
  | WorkerOf m =>
    match cf_act c m with
    | Idle => if decide (m ∈ sent_messages (cf_world c)) then Some (acts m (Starting MarkRunning) (cf_world c) c) else None
    | Starting at_ =>
      let '(w', r) := start_step (startedRequest m) at_ (cf_world c) in Some (acts m (after_start r) w' c)
    | Executing =>
      Some (MkConfig (cf_world c) (cf_dispatch c) (<[m := Finishing (executions m c) FinishJob]> (cf_act c)) (cf_executed c ++ [m]) (cf_orphans c) (cf_copies c))
    | Finishing k at_ =>
      let '(w', r) := finish_step (verdict k m) at_ (cf_world c) in Some (acts m (after_finish k r) w' c)
    | Reported => None
    end
  | WorkerLost m =>
    match cf_act c m with Executing => Some (acts m Idle (cf_world c) c) | _ => None end
  | ReportLost m =>
    match cf_act c m with
    | Starting _ | Finishing _ _ =>
      Some (MkConfig (cf_world c) (cf_dispatch c) (<[m := Idle]> (cf_act c)) (cf_executed c) (cf_orphans c ++ [(m, cf_act c m)]) (cf_copies c))
    | _ => None
    end
  | Orphan i =>
    '(m, a) ← cf_orphans c !! i;
    match a with
    | Starting at_ =>
      let '(w', r) := start_step (startedRequest m) at_ (cf_world c) in Some (orphan_acts i m (after_orphan_start r) w' c)
    | Finishing k at_ =>
      let '(w', r) := finish_step (verdict k m) at_ (cf_world c) in Some (orphan_acts i m (after_orphan_finish k r) w' c)
    | _ => None
    end
  | TakesCopy m =>
    if decide (S (copies_in m (cf_copies c).*1) < copies_in m (sent_messages (cf_world c)))
    then Some (MkConfig (cf_world c) (cf_dispatch c) (cf_act c) (cf_executed c) (cf_orphans c) (cf_copies c ++ [(m, Starting MarkRunning)]))
    else None
  | CopyOf i =>
    '(m, a) ← cf_copies c !! i;
    match a with
    | Idle => Some (copy_acts i m (Starting MarkRunning) (cf_world c) (cf_executed c) [] c)
    | Starting at_ =>
      let '(w', r) := start_step (startedRequest m) at_ (cf_world c) in Some (copy_acts i m (after_start r) w' (cf_executed c) [] c)
    | Executing => Some (copy_acts i m (Finishing (executions m c) FinishJob) (cf_world c) (cf_executed c ++ [m]) [] c)
    | Finishing k at_ =>
      let '(w', r) := finish_step (verdict k m) at_ (cf_world c) in Some (copy_acts i m (after_finish k r) w' (cf_executed c) [] c)
    | Reported => None
    end
  | CopyLost i =>
    '(m, a) ← cf_copies c !! i;
    match a with Executing => Some (copy_acts i m Idle (cf_world c) (cf_executed c) [] c) | _ => None end
  | CopyReportLost i =>
    '(m, a) ← cf_copies c !! i;
    match a with
    | Starting _ | Finishing _ _ => Some (copy_acts i m Idle (cf_world c) (cf_executed c) [(m, a)] c)
    | _ => None
    end
  end.

Fixpoint schedule (s : list actor) (c : config) : option config :=
  match s with [] => Some c | a :: s' => c' ← step a c; schedule s' c' end.

(** From the world that [Run] leaves, before the dispatch. *)
Definition concurrent_start (w : world Q) (stages : list StageExecutionPlan) : config :=
  MkConfig w (Scan stages) (fun _ => Idle) [] [] [].

Section safety.
Context (ri : runInfo) (Hvalid : valid_pipeline p) (Hid : identifiable p n).
Abbreviation stage_names := (fmap (M:=list) Stage_Name (Pipeline_Stages p)).
Abbreviation job_message := (job_message p n ri).
Abbreviation message s job := (buildJobExecutionMessage n pname s job ri).
Abbreviation stage_ok := (stage_ok p).
Abbreviation handing := (handing p).
Abbreviation handed_jobs := (handed_jobs p).
Abbreviation earlier := (earlier p).
Abbreviation runtime_safe := (runtime_safe p n ri).
Abbreviation hands_out := (hands_out p n ri).

(** ** What one step does *)

Abbreviation key := (runtimeKey pname n).

(** The world of the run: its runtime is [rt], and is registered or forgotten. *)
Record world_safe (w : world Q) (rt : pipelineRuntime) (executed : list JobExecutionMessage) : Prop := {
  ws_heap : w_heap w !! pt = Some rt;
  ws_runtime : runtime_safe rt executed;
  ws_map : w_runtimes w !! key = Some pt \/ w_runtimes w !! key = None;
}.

(** Nothing fails. *)
Definition calm (w : world Q) : Prop := w_faults w = [] /\ healthy (w_queue w).
(** The broker holds one copy of each message that the run asked to publish. *)
Definition undoubled (w : world Q) : Prop := sent_messages w = requested_messages w.

(** Whoever makes the step has yet to publish [todo] before and [todo'] after
    it; and if nothing fails, no message gets lost, and there are at most [k] steps to
    make before and [k'] after it, apart from those for the jobs that it hands out. *)
Record effect (executed : list JobExecutionMessage) (w w' : world Q) (rt : pipelineRuntime) (todo todo' : list JobExecutionMessage)
    (k k' : nat) (rt' : pipelineRuntime) (new extra copies : list JobExecutionMessage) : Prop := {
  ef_world : world_safe w' rt' executed;
  ef_new : hands_out rt rt' new;
  ef_extra : requested (w_queue w') = requested (w_queue w) ++ extra;
  ef_copies : held (w_queue w') = held (w_queue w) ++ copies;
  ef_copied : forall m, m ∈ copies -> m ∈ extra;
  ef_own : Forall own_message extra;
  ef_todo : extra ++ todo' ⊆+ todo ++ new;
  ef_calm : calm w -> calm w' /\ copies = extra /\ extra ++ todo' ≡ₚ todo ++ new /\ k' < k + length new;
}.
Definition has_effect executed w w' rt todo todo' k k' : Prop :=
  exists rt' new extra copies, effect executed w w' rt todo todo' k k' rt' new extra copies.

Lemma effect_same executed w w' rt rt' todo todo' k k' :
  world_safe w rt executed -> w_heap w' !! pt = Some rt' -> rt' = rt \/ (exists t, rt' = set_startTimes t rt) ->
  w_queue w' = w_queue w -> w_runtimes w' !! key = w_runtimes w !! key \/ w_runtimes w' !! key = None -> todo' ⊆+ todo ->
  (calm w -> w_faults w' = [] /\ todo' = todo /\ k' < k) -> has_effect executed w w' rt todo todo' k k'.
Proof.
  intros [W1 W2 W3] Hh Hrt Hq Hm Ht Hc. exists rt', [], [], []. split.
  - split; [done| |destruct Hm as [-> | ->]; auto]. destruct Hrt as [->|[t ->]]; [done|by apply runtime_safe_times].
  - apply hands_out_same. by destruct Hrt as [->|[t ->]].
  - by rewrite Hq, app_nil_r.
  - by rewrite Hq, app_nil_r.
  - done.
  - done.
  - by rewrite app_nil_r.
  - intros Hcalm. destruct (Hc Hcalm) as (Hf & -> & Hk). rewrite app_nil_r. simpl. split_and!; [|done|done|lia].
    split; [done|]. rewrite Hq. apply Hcalm.
Qed.

Lemma effect_quiet executed w w' rt todo todo' k k' :
  world_safe w rt executed -> quiet w w' -> todo' ⊆+ todo -> (calm w -> todo' = todo /\ k' < k) ->
  has_effect executed w w' rt todo todo' k k'.
Proof.
  intros W [Q1 Q2 Q3 Q4] Ht Hc. apply (effect_same _ _ _ _ rt); [done| |by left|done|left; by rewrite Q3|done|].
  - rewrite Q1. apply W.
  - intros Hcalm. split; [apply Q4, Hcalm|by apply Hc].
Qed.

Lemma effect_stay executed w rt k k' : world_safe w rt executed -> k' < k -> has_effect executed w w rt [] [] k k'.
Proof. intros W Hk. by apply effect_quiet; [|split| |]. Qed.

Lemma effect_idle executed w rt todo : world_safe w rt executed -> has_effect executed w w rt todo todo 1 0.
Proof. intros W. apply effect_quiet; [done|by split|done|intros _; split; [done|lia]]. Qed.

Lemma has_effect_weaken executed w w' rt todo todo' k k' k'' :
  k'' <= k' -> has_effect executed w w' rt todo todo' k k' -> has_effect executed w w' rt todo todo' k k''.
Proof.
  intros Hk (rt' & new & sent & copies & [E1 E2 E3 E7 E8 E6 E4 E5]). exists rt', new, sent, copies. split; try done.
  intros Hc. destruct (E5 Hc) as (? & ? & ? & ?). split_and!; [done|done|done|lia].
Qed.

Lemma has_effect_shift d executed w w' rt todo todo' k k' :
  has_effect executed w w' rt todo todo' k k' -> has_effect executed w w' rt todo todo' (d + k) (d + k').
Proof.
  intros (rt' & new & sent & copies & [E1 E2 E3 E7 E8 E6 E4 E5]). exists rt', new, sent, copies. split; try done.
  intros Hc. destruct (E5 Hc) as (? & ? & ? & ?). split_and!; [done|done|done|lia].
Qed.

Lemma effect_enqueue executed w w' rt m todo todo' k k' r :
  world_safe w rt executed -> own_message m -> enqueue m w = (w', r) ->
  todo' = match r with inl _ => todo | inr _ => [] end -> (r = ok tt -> k' < k) ->
  has_effect executed w w' rt (m :: todo) todo' k k'.
Proof.
  intros [W1 W2 W3] Hown He -> Hk. destruct (heap_enqueue _ _ _ _ He) as [Hh Hm].
  unfold enqueue in He. destruct (enqueueJob m (w_queue w)) as [q r0] eqn:E. injection He as <- <-. simpl in *.
  destruct (enqueueJob_held _ _ _ _ E) as (x & _ & Hx & _).
  exists rt, [], [m], (replicate x m). split; simpl.
  - by split; rewrite ?Hh, ?Hm.
  - by apply hands_out_same.
  - by eapply enqueueJob_requested.
  - done.
  - intros m' [-> _]%elem_of_replicate. left.
  - by apply Forall_singleton.
  - rewrite app_nil_r. destruct r0; [done|]. apply submseteq_skip, submseteq_nil_l.
  - intros [Hf Hh']. destruct (enqueueJob_healthy m _ Hh') as (q' & E' & Hq & Hheld). rewrite E in E'.
    injection E' as <- ->. rewrite app_nil_r. simpl. rewrite Hheld in Hx. apply app_inv_head in Hx.
    split_and!; [done|by rewrite <- Hx|done|]. specialize (Hk eq_refl). lia.
Qed.

(** A stage of the runtime is changed through the pointer. *)
Lemma effect_stage executed w w' rt s st st' ready X k k' :
  world_safe w rt executed -> w' = (update_runtime pt (set_stage s st') w).1 ->
  s ∈ stage_names -> rt_stageStates rt !! s = Some st -> handing s st st' ready X ->
  (forall x, x ∈ X -> exists j, j ∈ jobsForStage s p /\ Job_Name j = x /\ job_message j ∈ executed) ->
  (forall j', j' ∈ Pipeline_Jobs p -> earlier (Job_Stage j') s -> ready = [] \/ job_message j' ∈ executed) ->
  k' < k + length ready -> has_effect executed w w' rt [] ((fun job => message s job) <$> ready) k k'.
Proof.
  intros [W1 W2 W3] -> Hs Hst Hg HX He Hk. exists (set_stage s st' rt), ((fun job => message s job) <$> ready), [], []. split.
  - split; simpl; [by rewrite lookup_alter_eq, W1| |done]. by eapply runtime_safe_stage.
  - by eapply handing_hands_out.
  - by rewrite app_nil_r.
  - by rewrite app_nil_r.
  - done.
  - done.
  - done.
  - intros Hc. by rewrite length_fmap.
Qed.

(** *** How far somebody is *)

Definition start_weight (at_ : start_point) : nat := match at_ with MarkRunning => 15 | NoteStarted => 14 | Started => 13 end.
Definition point_weight (at_ : point) : nat :=
  match at_ with
  | FinishJob => 11 | GetRuntime => 10 | MarkSucceeded _ | MarkTerminal _ => 9 | PublishReady _ jobs => 8 + length jobs
  | CheckStage _ => 7 | FinishStage _ => 6 | PollNext _ => 5 | PublishNext _ _ jobs => 4 + length jobs | FailStage => 4
  | CheckNext _ _ | FinishRun | FailRun => 3 | FinishNext _ | DeleteRun => 2 | Returned => 1
  end.
Definition act_weight (a : activity) : nat :=
  match a with Idle => 16 | Starting at_ => start_weight at_ | Executing => 12 | Finishing _ at_ => point_weight at_ | Reported => 0 end.
Definition dispatch_weight (d : dispatch_point) : nat :=
  match d with
  | Scan _ | AbortRun _ => 2 | PublishFirst _ jobs => 1 + length jobs | FinishEmpty _ _ | AbortDelete _ => 1 | Dispatched _ => 0
  end.

(** *** The started callback *)

Lemma start_effect executed w w' rt req at_ r :
  world_safe w rt executed -> Cb_Pipeline req = pname -> Cb_RunNo req = n -> missing_identity req = false ->
  start_step req at_ w = (w', r) -> has_effect executed w w' rt [] [] (start_weight at_) (act_weight (after_start r)).
Proof.
  intros W Ep En Hmi. destruct at_; simpl.
  - rewrite Hmi. unfold markJobRunning, mbind, M_bind. destruct (store_call _ w) as [w1 r1] eqn:E. intros Hs.
    assert (w1 = w' /\ r = match r1 with inl _ => ok NoteStarted | inr e => err e end) as [-> ->]
      by (by destruct r1 as [[]|]; injection Hs as <- <-).
    apply effect_quiet; [done|by eapply quiet_store|done|]. intros [Hf _]. split; [done|].
    unfold store_call in E. rewrite Hf in E. injection E as _ <-. simpl. lia.
  - rewrite Ep, En. unfold noteJobStarted, mbind, M_bind, getPipelineRuntime. simpl. destruct (ws_map _ _ _ W) as [E|E]; rewrite E; simpl.
    2:{ intros [= <- <-]. apply effect_stay; [done|simpl; lia]. }
    rewrite (ws_heap _ _ _ W). simpl. intros [= <- <-].
    eapply effect_same; [done| |right; by eexists|done|by left|done|intros [Hf _]; simpl; split_and!; [done|done|lia]].
    simpl. by rewrite lookup_alter_eq, (ws_heap _ _ _ W).
  - intros [= <- <-]. apply effect_stay; [done|simpl; lia].
Qed.

(** *** The finished callback *)

Definition all_executed (s : string) (executed : list JobExecutionMessage) : Prop :=
  forall j, j ∈ jobsForStage s p -> job_message j ∈ executed.

Definition point_ok (executed : list JobExecutionMessage) (m : JobExecutionMessage) (at_ : point) : Prop :=
  match at_ with
  | MarkSucceeded q | PublishReady q _ | CheckStage q | MarkTerminal q => q = pt
  | FinishStage q | PollNext q => q = pt /\ all_executed (Msg_Stage m) executed
  | PublishNext q next _ | CheckNext q next => q = pt /\ next ∈ stage_names
  | _ => True
  end.

Definition todo_at (m : JobExecutionMessage) (at_ : point) : list JobExecutionMessage :=
  match at_ with
  | PublishReady _ jobs => (fun job => message (Msg_Stage m) job) <$> jobs
  | PublishNext _ next jobs => (fun job => message next job) <$> jobs
  | _ => []
  end.

(** Where the handler goes on; a refused callback starts again. *)
Definition resume (r : res point) : point := match r with inl at_ => at_ | inr _ => FinishJob end.
Lemma resume_after k r : after_finish k r = Reported /\ resume r = Returned \/ after_finish k r = Finishing k (resume r).
Proof. destruct r as [[]|e]; auto. Qed.

Lemma then_inv {A} (m : M (Q := Q) A) (next : point) (w w' : world Q) r :
  (m;; mret next) w = (w', r) -> exists r0, m w = (w', r0) /\ r = match r0 with inl _ => inl next | inr e => inr e end.
Proof. unfold mbind, M_bind. destruct (m w) as [w1 [a|e]]; intros [= <- <-]; eauto. Qed.

Lemma with_stage_inv {A} q rt st s (none : A) (k : pipelineRuntime -> stageState -> M (Q := Q) A) (w w' : world Q) r :
  w_heap w !! q = Some rt -> rt_stageStates rt !! s = Some st -> with_stage q s none k w = (w', r) -> k rt st w = (w', r).
Proof. intros Hq Hs. by rewrite (with_stage_ok q s none k w rt st Hq Hs). Qed.

Lemma load_inv {A} q rt (k : pipelineRuntime -> M (Q := Q) A) (w w' : world Q) r :
  w_heap w !! q = Some rt -> (rt ← load q; k rt) w = (w', r) -> k rt w = (w', r).
Proof. intros Hq. unfold mbind, M_bind. by rewrite (load_ok q rt w Hq). Qed.

(** A stage is complete when all its jobs have completed. *)
Lemma stage_complete_iff rt executed s st :
  runtime_safe rt executed -> s ∈ stage_names -> rt_stageStates rt !! s = Some st ->
  isStageComplete st = true <-> forall j, j ∈ jobsForStage s p -> Job_Name j ∈ completed st.
Proof.
  intros R Hs Hst. destruct (rs_stages _ _ _ _ _ R s Hs) as (st0 & E & sp & done & Hsp & Hinv).
  rewrite Hst in E. injection E as <-. apply (complete_iff s p sp Hsp _ _ _ Hinv).
  intros x (k & Hk & <- & _)%(rs_completed _ _ _ _ _ R s st x Hs Hst). apply elem_of_list_to_set. by apply list_elem_of_fmap_2.
Qed.

Lemma complete_executed rt executed s st :
  runtime_safe rt executed -> s ∈ stage_names -> rt_stageStates rt !! s = Some st -> isStageComplete st = true ->
  all_executed s executed.
Proof.
  intros R Hs Hst Hc j Hj. pose proof (proj1 (stage_complete_iff _ _ _ _ R Hs Hst) Hc j Hj) as Hin.
  destruct (rs_completed _ _ _ _ _ R s st _ Hs Hst Hin) as (k & Hk & E & Hex).
  by rewrite (NoDup_name_inj _ _ _ (stage_unique s p Hvalid) Hk Hj E) in Hex.
Qed.

Section callback.
Context (executed : list JobExecutionMessage) (w : world Q) (rt : pipelineRuntime) (j : Job) (k : nat).
Context (W : world_safe w rt executed) (Hj : j ∈ Pipeline_Jobs p).
Context (Hexecuted : job_message j ∈ executed) (Hhanded : handed_out rt j).
Abbreviation m := (job_message j).

(** What a step of the handler of [m]'s callback leads to. *)
Definition finish_ok (at_ : point) (w' : world Q) (r : res point) : Prop :=
  has_effect executed w w' rt (todo_at m at_) (todo_at m (resume r)) (point_weight at_) (act_weight (after_finish k r)) /\
  point_ok executed m (resume r).

Lemma after_weight r : act_weight (after_finish k r) <= point_weight (resume r).
Proof. destruct (resume_after k r) as [[-> ->]| ->]; simpl; lia. Qed.

Lemma stage_in : Job_Stage j ∈ stage_names.
Proof. by apply (vp_job_stage _ Hvalid). Qed.

Lemma stage_found : exists st, rt_stageStates rt !! Job_Stage j = Some st /\ stage_ok (Job_Stage j) st.
Proof. apply (rs_stages _ _ _ _ _ (ws_runtime _ _ _ W)), stage_in. Qed.

Lemma verdict_fields : Cb_Pipeline (verdict k m) = pname /\ Cb_RunNo (verdict k m) = n /\ Cb_Stage (verdict k m) = Job_Stage j /\
  Cb_Job (verdict k m) = Job_Name j.
Proof. destruct (verdict_identity error_text env stat (attempt k) m) as (-> & -> & -> & ->). done. Qed.

Lemma own_job : forall x, x ∈ ({[Job_Name j]} : gset string) ->
  exists k, k ∈ jobsForStage (Job_Stage j) p /\ Job_Name k = x /\ job_message k ∈ executed.
Proof. intros x ->%elem_of_singleton. exists j. split_and!; [by apply jobsForStage_elem|done|done]. Qed.

Lemma own_earlier (ready : list JobExecutionPlan) : forall j', j' ∈ Pipeline_Jobs p -> earlier (Job_Stage j') (Job_Stage j) ->
  ready = [] \/ job_message j' ∈ executed.
Proof. intros j' Hj' He. right. by apply (rs_earlier _ _ _ _ _ (ws_runtime _ _ _ W) j j'). Qed.

(** A step that is one quiet call. *)
Lemma quiet_ok at_ next (c : M (Q := Q) unit) w' r :
  (c;; mret next) w = (w', r) -> (forall w1 r1, c w = (w1, r1) -> quiet w w1 /\ (w_faults w = [] -> r1 = ok tt)) ->
  todo_at m at_ = [] -> todo_at m next = [] -> point_ok executed m next -> act_weight (after_finish k (ok next)) < point_weight at_ ->
  finish_ok at_ w' r.
Proof.
  intros Hs Hq Ht0 Ht Hp Hk. apply then_inv in Hs as (r0 & Hc & ->). destruct (Hq _ _ Hc) as [Hqu Hok]. split; [|by destruct r0].
  assert (E : todo_at m (resume match r0 with inl _ => inl next | inr e => inr e end) = []) by (by destruct r0).
  rewrite Ht0, E. apply effect_quiet; [done|done|done|]. intros [Hf _]. split; [done|]. by rewrite (Hok Hf).
Qed.

(** A step that only looks. *)
Lemma look_ok at_ w' r :
  w' = w -> todo_at m at_ = [] -> todo_at m (resume r) = [] -> point_ok executed m (resume r) ->
  act_weight (after_finish k r) < point_weight at_ -> finish_ok at_ w' r.
Proof. intros -> Ht0 Ht Hp Hk. split; [|done]. rewrite Ht0, Ht. by apply effect_stay. Qed.

Lemma forget_ok at_ w' r :
  w_heap w' = w_heap w -> w_queue w' = w_queue w -> w_faults w' = w_faults w -> w_runtimes w' !! key = None ->
  todo_at m at_ = [] -> 0 < point_weight at_ -> r = ok Returned -> finish_ok at_ w' r.
Proof.
  intros E1 E2 E3 E4 Ht Hk ->. split; [|done]. rewrite Ht.
  apply (effect_same _ _ _ _ rt); [done|by rewrite E1; apply W|by left|done|by right|done|].
  intros [Hf _]. split_and!; [by rewrite E3|done|done].
Qed.

(** A stage changes, and the jobs that it releases are to be published. *)
Lemma release_ok at_ next s st st' ready X w' r :
  todo_at m at_ = [] -> (update_runtime pt (set_stage s st');; mret next) w = (w', r) ->
  s ∈ stage_names -> rt_stageStates rt !! s = Some st -> handing s st st' ready X ->
  (forall x, x ∈ X -> exists k, k ∈ jobsForStage s p /\ Job_Name k = x /\ job_message k ∈ executed) ->
  (forall j', j' ∈ Pipeline_Jobs p -> earlier (Job_Stage j') s -> ready = [] \/ job_message j' ∈ executed) ->
  todo_at m next = (fun job => message s job) <$> ready -> point_ok executed m next ->
  point_weight next < point_weight at_ + length ready -> finish_ok at_ w' r.
Proof.
  intros Ht [= <- <-] Hs Hst Hg HX He Hn Hp Hk. unfold finish_ok. simpl. rewrite Ht, Hn. split; [|done].
  eapply effect_stage; try done. by eapply Nat.le_lt_trans; [apply (after_weight (ok next))|].
Qed.

(** One message is published. *)
Lemma publish_ok at_ next s job rest w' r :
  todo_at m at_ = message s job :: rest -> (enqueue (message s job);; mret next) w = (w', r) ->
  todo_at m next = rest -> point_ok executed m next -> point_weight next < point_weight at_ -> finish_ok at_ w' r.
Proof.
  intros Ht Hs Hn Hp Hk. apply then_inv in Hs as (r0 & He & ->). unfold finish_ok. rewrite Ht. split; [|by destruct r0].
  eapply effect_enqueue; [done|done|exact He|by destruct r0|]. intros ->. by eapply Nat.le_lt_trans; [apply after_weight|].
Qed.

#[local] Ltac at_step H :=
  let E1 := fresh in let E2 := fresh in let E3 := fresh in let E4 := fresh in
  destruct verdict_fields as (E1 & E2 & E3 & E4); cbv beta iota zeta delta [finish_step] in H; rewrite ?E1, ?E2, ?E3, ?E4 in H.
#[local] Ltac quiet_step H :=
  at_step H; eapply (quiet_ok _ _ _ _ _ H);
    [intros ? ? ?; split;
      [first [by eapply quiet_finishStage|by eapply quiet_finishRun]
      |intros ?; first [by eapply ok_finishStage|by eapply ok_finishRun; [..|eassumption]; auto]]
    |done|done|first [done|by split]|simpl; lia].

Lemma verdict_accepted : missing_identity (verdict k m) = false /\
  bool_decide (TrimSpace (Cb_Status (verdict k m)) ≠ StatusSuccess /\ TrimSpace (Cb_Status (verdict k m)) ≠ StatusFailed) = false.
Proof.
  destruct verdict_fields as (E1 & E2 & E3 & E4). split; [by apply (identity_of_message p n Hvalid Hid j)|].
  apply bool_decide_eq_false. rewrite verdict_status. destruct (execution _ _ _ _) as [? [? [e|]]]; naive_solver.
Qed.

(** The handler until it has marked its job. *)
Lemma mark_ok at_ w' r :
  match at_ with FinishJob | GetRuntime | MarkSucceeded _ | MarkTerminal _ => True | _ => False end ->
  point_ok executed m at_ -> finish_step (verdict k m) at_ w = (w', r) -> finish_ok at_ w' r.
Proof.
  intros Hat Hp Hs. destruct stage_found as (st & Hst & Hok). pose proof stage_in as Hin.
  destruct at_; try done; simpl in Hp; subst.
  - destruct verdict_accepted as [Ea Eb]. cbv beta iota zeta delta [finish_step] in Hs. rewrite Ea, Eb in Hs.
    eapply (quiet_ok _ _ _ _ _ Hs); [|done|done|done|simpl; lia].
    intros w1 r1 Hc. split; [by eapply quiet_finishJob|intros Hf; by eapply ok_finishJob].
  - at_step Hs. unfold mbind at 1, M_bind at 1, getPipelineRuntime in Hs. simpl in Hs.
    destruct (ws_map _ _ _ W) as [E|E]; rewrite E in Hs; simpl in Hs; [|injection Hs as <- <-; apply look_ok; by simpl; try lia].
    rewrite (ws_heap _ _ _ W) in Hs. simpl in Hs. rewrite Hst in Hs. injection Hs as <- <-.
    apply look_ok; repeat case_match; by simpl; try lia.
  - at_step Hs. apply (with_stage_inv _ rt st) in Hs; [|apply W|done].
    pose proof (markJobSucceeded_handing p n Hvalid Hid _ st (Job_Name j) Hok) as Hg. destruct (markJobSucceeded st (Job_Name j)) as [st' ready].
    eapply (release_ok _ (PublishReady pt ready)); [done|exact Hs|exact Hin|exact Hst|exact Hg|exact own_job|apply own_earlier|done|done|simpl; lia].
  - at_step Hs. apply (with_stage_inv _ rt st) in Hs; [|apply W|done].
    eapply (release_ok _ FailStage); [done|exact Hs|exact Hin|exact Hst|by apply markJobTerminal_handing|exact own_job|apply own_earlier|done|done|simpl; lia].
Qed.

(** The handler's own stage: publishing, and what follows when it is complete. *)
Lemma own_stage_ok at_ w' r :
  match at_ with PublishReady _ _ | CheckStage _ | FinishStage _ | FailStage | FailRun | FinishRun | DeleteRun | Returned => True
  | _ => False end ->
  point_ok executed m at_ -> finish_step (verdict k m) at_ w = (w', r) -> finish_ok at_ w' r.
Proof.
  intros Hat Hp Hs. destruct stage_found as (st & Hst & Hok). pose proof stage_in as Hin. pose proof (ws_runtime _ _ _ W) as R.
  destruct at_ as [| | |q jobs|q|q| | | | | | | | | |]; try done; simpl in Hp; subst.
  - destruct jobs as [|job jobs]; [injection Hs as <- <-; apply look_ok; by simpl; try lia|]. at_step Hs.
    apply (load_inv _ rt) in Hs; [|apply W]. rewrite (ro_info _ _ _ _ (rs_ok _ _ _ _ _ R)) in Hs.
    eapply (publish_ok _ _ (Job_Stage j)); [done|exact Hs|done|done|simpl; lia].
  - at_step Hs. apply (with_stage_inv _ rt st) in Hs; [|apply W|done]. injection Hs as <- <-.
    destruct (isStageComplete st) eqn:Hc; apply look_ok; try done; try (simpl; lia). split; [done|]. by apply (complete_executed rt executed _ st).
  - destruct Hp as [-> Hall]. quiet_step Hs.
  - quiet_step Hs.
  - quiet_step Hs.
  - quiet_step Hs.
  - at_step Hs. injection Hs as <- <-. apply forget_ok; try done; [|simpl; lia]. simpl. apply lookup_delete_eq.
  - injection Hs as <- <-. apply look_ok; by simpl; try lia.
Qed.

(** The next stage. *)
Lemma next_stage_ok at_ w' r :
  match at_ with PollNext _ | PublishNext _ _ _ | CheckNext _ _ | FinishNext _ => True | _ => False end ->
  point_ok executed m at_ -> finish_step (verdict k m) at_ w = (w', r) -> finish_ok at_ w' r.
Proof.
  intros Hat Hp Hs. pose proof (ws_runtime _ _ _ W) as R. pose proof stage_in as Hin.
  destruct at_ as [| | | | | |q|q next jobs|q next|next| | | | | |]; try done; simpl in Hp.
  - destruct Hp as [-> Hall]. at_step Hs. apply (load_inv _ rt) in Hs; [|apply W].
    rewrite (ro_order _ _ _ _ (rs_ok _ _ _ _ _ R)) in Hs. destruct (nextStageName stage_names (Job_Stage j)) as [next|] eqn:En.
    2:{ injection Hs as <- <-. apply look_ok; by simpl; try lia. }
    assert (Hnin : next ∈ stage_names) by (destruct (next_split p n Hvalid Hid _ _ Hin En) as (? & ? & ->); set_solver).
    destruct (rs_stages _ _ _ _ _ R next Hnin) as (stn & Hstn & Hok). apply (with_stage_inv _ rt stn) in Hs; [|apply W|done].
    pose proof (getReadyJobs_handing p n Hvalid Hid _ stn Hok) as Hg. destruct (getReadyJobs stn) as [stn' ready].
    eapply (release_ok _ (PublishNext pt next ready)); [done|exact Hs|exact Hnin|exact Hstn|exact Hg|set_solver| |done|done|simpl; lia].
    intros j' Hj' He. right. destruct (earlier_next p n Hvalid Hid _ _ _ Hin En He) as [E|He'].
    + apply Hall. by apply jobsForStage_elem.
    + by apply (rs_earlier _ _ _ _ _ R j j').
  - destruct Hp as [-> Hn]. destruct jobs as [|job jobs]; [injection Hs as <- <-; apply look_ok; by simpl; try lia|].
    at_step Hs. apply (load_inv _ rt) in Hs; [|apply W]. rewrite (ro_info _ _ _ _ (rs_ok _ _ _ _ _ R)) in Hs.
    eapply (publish_ok _ _ next); [done|exact Hs|done|done|simpl; lia].
  - destruct Hp as [-> Hn]. destruct (rs_stages _ _ _ _ _ R next Hn) as (stn & Hstn & Hok).
    at_step Hs. apply (with_stage_inv _ rt stn) in Hs; [|apply W|done]. injection Hs as <- <-.
    destruct (isStageComplete stn); apply look_ok; by simpl; try lia.
  - quiet_step Hs.
Qed.

Lemma finish_step_ok at_ w' r :
  point_ok executed m at_ -> finish_step (verdict k m) at_ w = (w', r) -> finish_ok at_ w' r.
Proof. intros Hp Hs. destruct at_; first [by apply mark_ok|by apply own_stage_ok|by apply next_stage_ok]. Qed.
End callback.

(** *** The dispatch *)

Definition untouched (rt : pipelineRuntime) : Prop :=
  forall s, s ∈ stage_names -> exists st, rt_stageStates rt !! s = Some st /\ stage_fresh p s st.

(** After the first scan. *)
Definition dispatched_ok (d : dispatch_point) : Prop :=
  match d with Scan _ | FinishEmpty _ _ => False | PublishFirst s _ => s ∈ stage_names | _ => True end.
Definition dispatch_ok (rt : pipelineRuntime) (d : dispatch_point) : Prop :=
  match d with Scan l => StageExec_Name <$> l = stage_names /\ untouched rt | _ => dispatched_ok d end.

Definition dispatch_todo (d : dispatch_point) : list JobExecutionMessage :=
  match d with PublishFirst s jobs => (fun job => message s job) <$> jobs | _ => [] end.

Lemma fresh_ok s st : stage_fresh p s st -> stage_ok s st.
Proof.
  intros [(sp & Hsp & E1 & E2) (E3 & E4 & _)]. exists sp, ∅. split; [done|].
  assert (Eh : handed_jobs s st = []).
  { unfold handed_jobs. rewrite E3. by induction (jobsForStage s p) as [|x l IH]; [|rewrite filter_cons_False by set_solver]. }
  rewrite Eh. eapply stage_inv_ext; [| | | |by apply (stage_inv_initial s p sp Hvalid)]; done.
Qed.

Lemma nothing_earlier s rest s' : stage_names = s :: rest -> ~ earlier s' s.
Proof.
  intros E (before & after & E' & Hb). pose proof (vp_stages_unique _ Hvalid) as Hu. rewrite E' in Hu.
  apply NoDup_app in Hu as (_ & Hu & _). destruct before as [|x before]; [by apply elem_of_nil in Hb|].
  rewrite E in E'. injection E' as -> _. apply (Hu x); left.
Qed.

(** The first stage has jobs that need nothing. *)
Lemma first_ready s st st' ready : s ∈ stage_names -> stage_fresh p s st -> getReadyJobs st = (st', ready) -> ready ≠ [].
Proof.
  intros Hs Hf E ->. pose proof (fresh_poll p n Hvalid Hid s st Hs Hf) as H. rewrite E in H.
  destruct H as ((sp & Hsp & Hl) & _ & Hnc). destruct (live_incomplete _ p sp Hvalid Hsp _ _ _ Hl Hnc) as (pl & Hpl & _).
  by apply elem_of_nil in Hpl.
Qed.

Lemma scan_ok executed w w' rt l r :
  world_safe w rt executed -> dispatch_ok rt (Scan l) -> dispatch_step pt (Scan l) w = (w', r) ->
  has_effect executed w w' rt [] (dispatch_todo (after_dispatch r)) 2 (dispatch_weight (after_dispatch r)) /\
  dispatched_ok (after_dispatch r).
Proof.
  intros W [El Hu] Hs. apply (load_inv _ rt) in Hs; [|apply W]. destruct l as [|x l].
  { exfalso. destruct (vp_some_stage _ Hvalid). by destruct (Pipeline_Stages p). }
  assert (Hin : StageExec_Name x ∈ stage_names) by (rewrite <- El; left).
  destruct (Hu _ Hin) as (st & Hst & Hf). rewrite Hst in Hs.
  pose proof (getReadyJobs_handing p n Hvalid Hid _ st (fresh_ok _ _ Hf)) as Hg. destruct (getReadyJobs st) as [st' ready] eqn:Ep.
  pose proof (first_ready _ _ _ _ Hin Hf Ep) as Hne. destruct ready as [|job ready]; [done|]. injection Hs as <- <-. split; [|done].
  apply (effect_stage _ _ _ _ _ st st' (job :: ready) ∅); [done|done|done|done|done|set_solver| |simpl; lia].
  intros j' _ He. by destruct (nothing_earlier _ _ _ (eq_sym El) He).
Qed.

Lemma dispatch_step_ok executed w w' rt d r :
  world_safe w rt executed -> dispatch_ok rt d -> dispatch_done d = None -> dispatch_step pt d w = (w', r) ->
  has_effect executed w w' rt (dispatch_todo d) (dispatch_todo (after_dispatch r)) (dispatch_weight d)
    (dispatch_weight (after_dispatch r)) /\
  dispatched_ok (after_dispatch r).
Proof.
  intros W Hd Hnd Hs. destruct d as [l| |s jobs|e|e|res]; [by eapply scan_ok|done| | | |done]; simpl in Hd;
    apply (load_inv _ rt) in Hs; try apply W; simpl in Hs; destruct (rs_ok _ _ _ _ _ (ws_runtime _ _ _ W)) as [E1 E2 E3 E4];
    rewrite ?E1, ?E2, ?E4 in Hs.
  - destruct jobs as [|job jobs]; [injection Hs as <- <-; split; [apply effect_stay; [done|simpl; lia]|done]|].
    unfold or_abort, catch, mbind, M_bind in Hs. destruct (enqueue _ w) as [w1 [[]|e]] eqn:E; injection Hs as <- <-; (split; [|done]);
      (eapply effect_enqueue; [done|done|exact E|done|]); [simpl; lia|done].
  - unfold mbind, M_bind in Hs. destruct (ignore _ w) as [w1 r1] eqn:E.
    assert (r1 = ok tt) as -> by (unfold ignore, catch in E; destruct (finishPipelineRunWithMetrics _ _ _ w) as [? [[]|]]; by injection E).
    injection Hs as <- <-. split; [|done]. apply effect_quiet; [done| |done|intros _; simpl; split; [done|lia]].
    eapply quiet_ignore; [apply quiet_finishRun|exact E].
  - injection Hs as <- <-. split; [|done]. eapply effect_same; [done|apply W|by left|done| |done|].
    + right. apply lookup_delete_eq.
    + intros [Hf _]. simpl. split_and!; [done|done|lia].
Qed.

(** ** The invariant *)

Definition act_todo (m : JobExecutionMessage) (a : activity) : list JobExecutionMessage :=
  match a with Finishing _ at_ => todo_at m at_ | _ => [] end.
Definition past_execution (a : activity) : Prop := match a with Finishing _ _ | Reported => True | _ => False end.

Abbreviation act_todos act := ((fmap (M:=list) job_message (Pipeline_Jobs p)) ≫= fun m => act_todo m (act m)).
Abbreviation orphan_todos l := (l ≫= fun o : JobExecutionMessage * activity => act_todo o.1 o.2).

(** What somebody is about to publish. *)
Definition pending (c : config) : list JobExecutionMessage :=
  act_todos (cf_act c) ++ orphan_todos (cf_orphans c) ++ orphan_todos (cf_copies c) ++ dispatch_todo (cf_dispatch c).
(** The publishes that were asked for, and the copies at the broker. *)
Abbreviation published c := (requested_messages (cf_world c)).
Abbreviation delivered c := (sent_messages (cf_world c)).

(** Of the handler of a report. *)
Definition handler_ok (executed : list JobExecutionMessage) (m : JobExecutionMessage) (a : activity) : Prop :=
  forall k at_, a = Finishing k at_ -> point_ok executed m at_ /\ m ∈ executed.

Record safe_at (c : config) (rt : pipelineRuntime) : Prop := {
  sf_world : world_safe (cf_world c) rt (cf_executed c);
  sf_once : NoDup (published c ++ pending c);
  sf_handed : forall m, m ∈ published c ++ pending c -> exists j, j ∈ Pipeline_Jobs p /\ m = job_message j /\ handed_out rt j;
  sf_act : forall m, cf_act c m ≠ Idle -> m ∈ delivered c;
  sf_orphan : forall m a, (m, a) ∈ cf_orphans c -> m ∈ delivered c;
  sf_handlers : forall m, handler_ok (cf_executed c) m (cf_act c m);
  sf_orphan_handlers : forall m a, (m, a) ∈ cf_orphans c -> handler_ok (cf_executed c) m a;
  sf_past : forall m, past_execution (cf_act c m) -> m ∈ cf_executed c;
  sf_executed : forall m, m ∈ cf_executed c -> past_execution (cf_act c m) \/ m ∈ (cf_orphans c).*1 \/ m ∈ (cf_copies c).*1;
  sf_executed_once : cf_orphans c = [] -> cf_copies c = [] -> NoDup (cf_executed c);
  sf_ordered : well_ordered p n ri (cf_executed c);
  sf_dispatch : dispatch_ok rt (cf_dispatch c);
  sf_held : forall m, m ∈ delivered c -> m ∈ published c;
  sf_single : NoDup (delivered c) -> cf_copies c = [];
  sf_copy : forall m a, (m, a) ∈ cf_copies c -> m ∈ delivered c;
  sf_copy_handlers : forall m a, (m, a) ∈ cf_copies c -> handler_ok (cf_executed c) m a;
  sf_copy_past : forall m a, (m, a) ∈ cf_copies c -> past_execution a -> m ∈ cf_executed c;
}.

Lemma handler_mono executed executed' m a :
  (forall x, x ∈ executed -> x ∈ executed') -> handler_ok executed m a -> handler_ok executed' m a.
Proof.
  intros Hsub H k at_ E. destruct (H k at_ E) as [H1 H2]. split; [|by apply Hsub].
  destruct at_; simpl in *; try done; (destruct H1 as [-> H1]; split; [done|]; intros i Hi; by apply Hsub, H1).
Qed.

(** The job of a message at the broker. *)
Lemma published_job c rt m : safe_at c rt -> m ∈ delivered c -> exists j, j ∈ Pipeline_Jobs p /\ m = job_message j /\ handed_out rt j.
Proof. intros S Hm. apply (sf_handed _ _ S), elem_of_app. left. by apply (sf_held _ _ S). Qed.

(** What is handed out was preceded by all it waits for. *)
Lemma ready_executed rt executed j j' :
  runtime_safe rt executed -> j ∈ Pipeline_Jobs p -> j' ∈ Pipeline_Jobs p -> handed_out rt j -> waits_for p j j' ->
  job_message j' ∈ executed.
Proof.
  intros R Hj Hj' Hh [Hneed|Hearlier]; [|by apply (rs_earlier _ _ _ _ _ R j j')].
  assert (Hs : Job_Stage j ∈ stage_names) by (by apply (vp_job_stage _ Hvalid)).
  destruct (rs_stages _ _ _ _ _ R _ Hs) as (st & Hst & Hok).
  apply (handed_out_at rt _ st j Hst eq_refl) in Hh.
  assert (Hjs : j ∈ jobsForStage (Job_Stage j) p) by (by apply jobsForStage_elem).
  destruct (rs_completed _ _ _ _ _ R _ st _ Hs Hst (handed_needs p Hvalid _ st j _ Hok Hjs Hh Hneed)) as (k & Hk & E & Hex).
  apply jobsForStage_elem in Hk as [Hk _].
  by rewrite <- (NoDup_name_inj _ _ _ (vp_jobs_unique _ Hvalid) Hk Hj' E).
Qed.

(** Nothing that was handed out got lost. *)
Definition accounted (c : config) (rt : pipelineRuntime) : Prop :=
  forall j, j ∈ Pipeline_Jobs p -> handed_out rt j -> job_message j ∈ published c ++ pending c.

#[global] Instance handed_out_dec rt j : Decision (handed_out rt j).
Proof. unfold handed_out. apply _. Defined.

(** The jobs that were not handed out. *)
Definition unsent (rt : pipelineRuntime) : nat := length (filter (fun j => ~ handed_out rt j) (Pipeline_Jobs p)).

Abbreviation act_weights act := (sum_list ((fun m => act_weight (act m)) <$> (fmap (M:=list) job_message (Pipeline_Jobs p)))).
(** Nobody acts again on the report of a lost worker, once it is handled. *)
Definition orphan_weight (a : activity) : nat := match a with Starting _ | Finishing _ _ => act_weight a | _ => 0 end.
Abbreviation orphan_weights l := (sum_list ((fun o : JobExecutionMessage * activity => orphan_weight o.2) <$> l)).
(** The steps to make for what was handed out. *)
Definition work (c : config) : nat := act_weights (cf_act c) + orphan_weights (cf_orphans c) + dispatch_weight (cf_dispatch c).
Definition measure (c : config) (rt : pipelineRuntime) : nat := work c + unsent rt.

Lemma unsent_less rt rt' new : hands_out rt rt' new -> unsent rt' + length new <= unsent rt.
Proof.
  intros [H1 H2 H3]. unfold unsent. rewrite <- !(length_fmap job_message (filter _ _)), <- length_app.
  apply submseteq_length, NoDup_submseteq.
  - apply NoDup_app. split_and!; [| |done].
    + apply NoDup_fmap_2_strong; [|by apply NoDup_filter, (NoDup_fmap_1 Job_Name), vp_jobs_unique].
      intros a b [_ Ha]%list_elem_of_filter [_ Hb]%list_elem_of_filter. by apply job_message_inj.
    + intros m (j & -> & [Hn Hj]%list_elem_of_filter)%list_elem_of_fmap Hin. apply Hn, H3; [done|by right].
  - intros m [(j & -> & [Hn Hj]%list_elem_of_filter)%list_elem_of_fmap|Hin]%elem_of_app.
    + apply list_elem_of_fmap_2, list_elem_of_filter. split; [|done]. intros Hh. apply Hn, H3; [done|by left].
    + destruct (H2 m Hin) as (j & Hj & -> & Hn). by apply list_elem_of_fmap_2, list_elem_of_filter.
Qed.

(** One step of the system; the steps that are left are one less, or at most
    [extra] minus one more. *)
Record advances (extra : nat) (c : config) (rt : pipelineRuntime) (c' : config) (rt' : pipelineRuntime) : Prop := {
  av_safe : safe_at c' rt';
  av_calm : calm (cf_world c) ->
    calm (cf_world c') /\
    (undoubled (cf_world c) -> undoubled (cf_world c') /\ measure c' rt' < measure c rt + extra /\ (accounted c rt -> accounted c' rt'));
}.

(** A undoubled run has no further copies. *)
Lemma undoubled_single c rt : safe_at c rt -> undoubled (cf_world c) -> NoDup (delivered c) /\ cf_copies c = [].
Proof.
  intros S E. assert (H : NoDup (delivered c)) by (rewrite E; apply (NoDup_app (published c) (pending c)), (sf_once _ _ S)).
  split; [done|by apply S].
Qed.

(** The account of the messages and of the work after an effect. *)
Lemma account extra c rt c' todo todo' rest executed k k' rt' new sent copies :
  safe_at c rt -> effect executed (cf_world c) (cf_world c') rt todo todo' k k' rt' new sent copies ->
  pending c ≡ₚ todo ++ rest -> pending c' ≡ₚ todo' ++ rest -> (undoubled (cf_world c) -> work c' + k <= work c + k' + extra) ->
  ((forall m, m ∈ delivered c -> m ∈ delivered c') /\ (forall m, m ∈ delivered c' -> m ∈ published c') /\
   (NoDup (delivered c') -> NoDup (delivered c))) /\
  NoDup (published c' ++ pending c') /\
  (forall m, m ∈ published c' ++ pending c' -> exists j, j ∈ Pipeline_Jobs p /\ m = job_message j /\ handed_out rt' j) /\
  (calm (cf_world c) ->
    calm (cf_world c') /\
    (undoubled (cf_world c) -> undoubled (cf_world c') /\ measure c' rt' < measure c rt + extra /\ (accounted c rt -> accounted c' rt'))).
Proof.
  intros S [_ N Hx Hcop Hin Hown Ht Hcalm] Hp Hp' Hw. pose proof N as [N1 N2 N3].
  assert (Epub : published c' = published c ++ sent).
  { unfold requested_messages at 1. rewrite Hx, filter_app. f_equal. by apply list_filter_all. }
  assert (Edel : delivered c' = delivered c ++ copies).
  { unfold sent_messages at 1. rewrite Hcop, filter_app. f_equal. apply list_filter_all, Forall_forall. intros m Hm.
    rewrite Forall_forall in Hown. by apply Hown, Hin. }
  assert (Hsub : published c' ++ pending c' ⊆+ (published c ++ pending c) ++ new).
  { rewrite Epub, Hp, Hp', <- !app_assoc. apply submseteq_skips_l.
    rewrite (Permutation_app_comm rest new), !app_assoc. by apply submseteq_skips_r. }
  assert (Hnew : forall m, m ∈ published c ++ pending c -> m ∉ new).
  { intros m Hm Hn. destruct (sf_handed _ _ S m Hm) as (j & Hj & -> & Hh). destruct (N2 _ Hn) as (i & Hi & E & Hnot).
    by rewrite (job_message_inj p n ri Hvalid j i Hj Hi E) in Hh. }
  split.
  { split_and!; [rewrite Edel; set_solver| |rewrite Edel; by intros [? _]%NoDup_app].
    intros m. rewrite Edel, Epub, !elem_of_app. intros [Hm|Hm]; [left; by apply (sf_held _ _ S)|right; by apply Hin]. }
  split_and!.
  - apply (NoDup_sub _ _ Hsub), NoDup_app. split_and!; [apply (sf_once _ _ S)|done|done].
  - intros m Hm%(elem_of_sub _ _ _ Hsub). apply elem_of_app in Hm as [Hm|Hm].
    + destruct (sf_handed _ _ S m Hm) as (j & Hj & -> & Hh). exists j. split_and!; [done|done|]. apply N3; [done|by left].
    + destruct (N2 _ Hm) as (j & Hj & -> & _). exists j. split_and!; [done|done|]. apply N3; [done|by right].
  - intros Hc. destruct (Hcalm Hc) as (Hc' & -> & Hperm & Hk). pose proof (unsent_less _ _ _ N) as Hu. unfold measure.
    split; [done|]. intros Hset. specialize (Hw Hset). split; [unfold undoubled; by rewrite Edel, Epub, Hset|]. split; [lia|]. intros Ha j Hj Hh.
    assert (E : published c' ++ pending c' ≡ₚ (published c ++ pending c) ++ new).
    { rewrite Epub, Hp, Hp', <- !app_assoc, (app_assoc sent), Hperm, <- app_assoc. f_equiv. f_equiv. apply Permutation_app_comm. }
    rewrite E, elem_of_app. apply N3 in Hh as [Hh|Hh]; [|by right|done]. left. by apply Ha.
Qed.

(** The goroutine has scanned once something is published. *)
Lemma scanned c rt rt' m : safe_at c rt -> m ∈ delivered c -> dispatch_ok rt' (cf_dispatch c).
Proof.
  intros S Hm. destruct (published_job c rt m S Hm) as (j & Hj & _ & Hh).
  pose proof (sf_dispatch _ _ S) as Hd. destruct (cf_dispatch c); try done. destruct Hd as [_ Hu].
  exfalso. destruct (Hu (Job_Stage j)) as (st & Hst & _ & Hq & _); [by apply (vp_job_stage _ Hvalid)|].
  apply (handed_out_at rt _ st j Hst eq_refl) in Hh. rewrite Hq in Hh. set_solver.
Qed.

(** One more step of the worker of [m], which may leave an orphan behind. *)
Lemma worker_safe extra c rt m a' w' before executed' left_behind :
  safe_at c rt -> m ∈ delivered c ->
  before + orphan_weights left_behind <= act_weight (cf_act c m) + extra ->
  has_effect executed' (cf_world c) w' rt (act_todo m (cf_act c m)) (act_todo m a' ++ orphan_todos left_behind) before (act_weight a') ->
  (forall m' a, (m', a) ∈ left_behind -> m' = m /\ handler_ok executed' m a) -> handler_ok executed' m a' ->
  (past_execution a' -> m ∈ executed') -> (executed' = cf_executed c \/ executed' = cf_executed c ++ [m] /\ ~ past_execution (cf_act c m) /\ past_execution a') ->
  (past_execution (cf_act c m) -> past_execution a' \/ left_behind ≠ []) -> well_ordered p n ri executed' ->
  exists rt', advances extra c rt
    (MkConfig w' (cf_dispatch c) (<[m := a']> (cf_act c)) executed' (cf_orphans c ++ left_behind) (cf_copies c)) rt'.
Proof.
  intros S Hm Hle (rt' & new & sent & copies & He) Hleft Hok Hpa Hex Hpast Hord.
  destruct (published_job c rt m S Hm) as (j & Hj & Em & Hh).
  assert (Hin : m ∈ job_message <$> Pipeline_Jobs p) by (rewrite Em; by apply list_elem_of_fmap_2).
  destruct (bind_apart (fun m => act_todo m (cf_act c m)) (fun x => act_todo x (<[m := a']> (cf_act c) x)) _ m
    (job_messages_unique p n ri Hvalid) Hin) as (rest & E1 & E2).
  { intros y Hy. by rewrite fn_lookup_insert_ne. }
  rewrite fn_lookup_insert in E2.
  pose proof (sum_apart (fun x => act_weight (cf_act c x)) (fun x => act_weight (<[m := a']> (cf_act c) x)) _ m
    (job_messages_unique p n ri Hvalid) Hin ltac:(intros y Hy; cbv beta; by rewrite fn_lookup_insert_ne)) as Hs.
  cbv beta in Hs. rewrite fn_lookup_insert in Hs.
  set (c' := MkConfig w' (cf_dispatch c) (<[m := a']> (cf_act c)) executed' (cf_orphans c ++ left_behind) (cf_copies c)).
  destruct (account extra c rt c' _ _ (rest ++ orphan_todos (cf_orphans c) ++ orphan_todos (cf_copies c) ++ dispatch_todo (cf_dispatch c)) executed'
    _ _ rt' new sent copies S He) as ((A2 & A2' & A2'') & A3 & A4 & A5).
  { unfold pending. by rewrite E1, <- !app_assoc. }
  { unfold pending. simpl. rewrite E2, bind_app, <- !app_assoc. f_equiv.
    by rewrite (app_assoc rest), (app_assoc (rest ++ _)), (Permutation_app_comm (rest ++ _)), <- !app_assoc. }
  { intros _. unfold work. simpl. rewrite fmap_app, sum_list_with_app. lia. }
  assert (Hsub : forall x, x ∈ cf_executed c -> x ∈ executed') by (destruct Hex as [->|[-> _]]; set_solver).
  exists rt'. split; [|done]. split; simpl; try done.
  - apply He.
  - intros x. destruct (decide (x = m)) as [->|Hne]; [by intros _; apply A2|].
    rewrite fn_lookup_insert_ne by done. intros Hx. by apply A2, (sf_act _ _ S).
  - intros x a [Hx|Hx]%elem_of_app; apply A2; [by apply (sf_orphan _ _ S x a)|by destruct (Hleft x a Hx) as [-> _]].
  - intros x. destruct (decide (x = m)) as [->|Hne]; [by rewrite fn_lookup_insert|].
    rewrite fn_lookup_insert_ne by done. apply (handler_mono _ _ _ _ Hsub), S.
  - intros x a [Hx|Hx]%elem_of_app; [by eapply handler_mono, (sf_orphan_handlers _ _ S)|by destruct (Hleft x a Hx) as [-> ?]].
  - intros x. destruct (decide (x = m)) as [->|Hne]; [by rewrite fn_lookup_insert|].
    rewrite fn_lookup_insert_ne by done. intros Hx. by apply Hsub, (sf_past _ _ S).
  - intros x Hx. rewrite fmap_app. destruct (decide (x = m)) as [->|Hne].
    + rewrite fn_lookup_insert. destruct Hex as [->|(-> & _ & Hp)]; [|by left].
      destruct (sf_executed _ _ S m Hx) as [Hp|[Ho|Ho]]; [|right; left; apply elem_of_app; by left|by right; right].
      destruct (Hpast Hp) as [|Hne]; [by left|]. right; left. apply elem_of_app. right.
      destruct left_behind as [|[m' a] l]; [done|]. destruct (Hleft m' a) as [-> _]; left.
    + rewrite fn_lookup_insert_ne by done. assert (Hx' : x ∈ cf_executed c) by (destruct Hex as [->|[-> _]]; set_solver).
      destruct (sf_executed _ _ S x Hx') as [|[Ho|Ho]]; [by left|right; left; apply elem_of_app; by left|by right; right].
  - intros [Eo ->]%app_nil Ec. destruct Hex as [->|(-> & Hn & _)]; [by apply S|]. apply NoDup_snoc; [by apply S|].
    intros Hx. apply (sf_executed _ _ S) in Hx as [|[Hx|Hx]]; [done| |]; rewrite ?Eo, ?Ec in Hx; by apply elem_of_nil in Hx.
  - by eapply scanned.
  - intros Hd. by apply (sf_single _ _ S), A2''.
  - intros x a Hx. by eapply A2, (sf_copy _ _ S).
  - intros x a Hx. by eapply handler_mono, (sf_copy_handlers _ _ S).
  - intros x a Hx Hpx. by eapply Hsub, (sf_copy_past _ _ S).
Qed.

(** A step of a worker that is not lost. *)
Lemma worker_moves c rt m a' w' executed' :
  safe_at c rt -> m ∈ delivered c ->
  has_effect executed' (cf_world c) w' rt (act_todo m (cf_act c m)) (act_todo m a') (act_weight (cf_act c m)) (act_weight a') ->
  handler_ok executed' m a' ->
  (past_execution a' -> m ∈ executed') -> (executed' = cf_executed c \/ executed' = cf_executed c ++ [m] /\ ~ past_execution (cf_act c m) /\ past_execution a') ->
  (past_execution (cf_act c m) -> past_execution a') -> well_ordered p n ri executed' ->
  exists rt', advances 0 c rt (MkConfig w' (cf_dispatch c) (<[m := a']> (cf_act c)) executed' (cf_orphans c) (cf_copies c)) rt'.
Proof.
  intros S Hm He Hok Hpa Hex Hpast Hord.
  destruct (worker_safe 0 c rt m a' w' (act_weight (cf_act c m)) executed' []) as [rt' A]; try done.
  - by rewrite app_nil_r.
  - by intros m' a ?%elem_of_nil.
  - intros Hp. left. by apply Hpast.
  - exists rt'. by rewrite app_nil_r in A.
Qed.

Lemma execute_safe c rt m :
  safe_at c rt -> cf_act c m = Executing -> m ∈ delivered c ->
  exists rt', advances 0 c rt
    (MkConfig (cf_world c) (cf_dispatch c) (<[m := Finishing (executions m c) FinishJob]> (cf_act c)) (cf_executed c ++ [m]) (cf_orphans c) (cf_copies c)) rt'.
Proof.
  intros S Ea Hm. destruct (published_job c rt m S Hm) as (j & Hj & Em & Hh).
  assert (W : world_safe (cf_world c) rt (cf_executed c ++ [m])).
  { destruct (sf_world _ _ S) as [W1 W2 W3]. split; [done|by apply runtime_safe_executed|done]. }
  apply worker_moves; try done.
  - rewrite Ea. apply effect_stay; [done|simpl; lia].
  - intros k at_ [= _ <-]. split; [done|set_solver].
  - set_solver.
  - right. rewrite Ea. split_and!; [done|by intros []|done].
  - apply (well_ordered_snoc p n ri Hvalid _ m j); [apply S|done|done|].
    intros j' Hj' Hw. eapply ready_executed; [apply (ws_runtime _ _ _ (sf_world _ _ S))|exact Hj|exact Hj'|done|done].
Qed.

(** What the steps of a handler do, whoever waits for its answer. *)
Lemma start_handler c rt m at_ w' r :
  safe_at c rt -> m ∈ delivered c -> start_step (startedRequest m) at_ (cf_world c) = (w', r) ->
  has_effect (cf_executed c) (cf_world c) w' rt [] [] (start_weight at_) (act_weight (after_start r)).
Proof.
  intros S Hm E. destruct (published_job c rt m S Hm) as (j & Hj & Em & Hh).
  eapply start_effect; [apply S| | | |exact E]; try by rewrite Em. apply (identity_of_message p n Hvalid Hid j); by rewrite ?Em.
Qed.

Lemma finish_handler c rt m k at_ w' r :
  safe_at c rt -> m ∈ delivered c -> handler_ok (cf_executed c) m (Finishing k at_) ->
  finish_step (verdict k m) at_ (cf_world c) = (w', r) ->
  has_effect (cf_executed c) (cf_world c) w' rt (todo_at m at_) (todo_at m (resume r)) (point_weight at_) (act_weight (after_finish k r)) /\
  handler_ok (cf_executed c) m (Finishing k (resume r)).
Proof.
  intros S Hm Hok E. destruct (Hok k at_ eq_refl) as [Hp Hx]. destruct (published_job c rt m S Hm) as (j & Hj & -> & Hh).
  destruct (finish_step_ok (cf_executed c) (cf_world c) rt j k (sf_world _ _ S) Hj Hx Hh at_ w' r Hp E) as [He Hp'].
  split; [done|]. by intros k1 at1 [= _ <-].
Qed.

Lemma worker_step_safe c c' rt m : safe_at c rt -> step (WorkerOf m) c = Some c' -> exists rt', advances 0 c rt c' rt'.
Proof.
  intros S. pose proof (sf_handlers _ _ S m) as Hok. unfold step. destruct (cf_act c m) as [|at_| |k at_|] eqn:Ea; [| | | |done].
  - case_decide as Hm; [|done]. intros [= <-]. apply worker_moves; try done; rewrite ?Ea; try by left.
    + apply effect_stay; [apply S|simpl; lia].
    + by intros [].
    + apply S.
  - assert (Hm : m ∈ delivered c) by (apply (sf_act _ _ S); by rewrite Ea).
    destruct (start_step _ _ _) as [w' r] eqn:E. intros [= <-]. apply worker_moves; try done; rewrite ?Ea; try by left.
    + assert (act_todo m (after_start r) = []) as -> by (by destruct r as [[]|]). by eapply start_handler.
    + by destruct r as [[]|].
    + destruct r as [[]|]; by intros [].
    + by intros [].
    + apply S.
  - intros [= <-]. apply execute_safe; [done|done|]. apply (sf_act _ _ S). by rewrite Ea.
  - assert (Hm : m ∈ delivered c) by (apply (sf_act _ _ S); by rewrite Ea).
    destruct (finish_step _ _ _) as [w' r] eqn:E. intros [= <-]. destruct (finish_handler c rt m k at_ w' r S Hm Hok E) as [He Hr].
    apply worker_moves; try done; rewrite ?Ea; try (by left); [| | |intros _; by destruct r as [[]|]|apply S].
    + assert (act_todo m (after_finish k r) = todo_at m (resume r)) as -> by (by destruct r as [[]|]). exact He.
    + by destruct (resume_after k r) as [[-> _]| ->].
    + intros _. by apply (Hr _ _ eq_refl).
Qed.

(** A lost worker leaves the steps for its job to make again. *)
Definition loss : nat := 17.

Lemma worker_lost_safe c c' rt m : safe_at c rt -> step (WorkerLost m) c = Some c' -> exists rt', advances loss c rt c' rt'.
Proof.
  intros S. unfold step. destruct (cf_act c m) eqn:Ea; try done. intros [= <-].
  assert (Hm : m ∈ delivered c) by (apply (sf_act _ _ S); by rewrite Ea).
  destruct (worker_safe loss c rt m Idle (cf_world c) 17 (cf_executed c) []) as [rt' A]; rewrite ?Ea; try done; try by left.
  - unfold loss. simpl. lia.
  - apply effect_stay; [apply S|simpl; lia].
  - by intros m' a ?%elem_of_nil.
  - apply S.
  - exists rt'. unfold acts. by rewrite app_nil_r in A.
Qed.

Lemma report_lost_safe c c' rt m : safe_at c rt -> step (ReportLost m) c = Some c' -> exists rt', advances loss c rt c' rt'.
Proof.
  intros S. pose proof (sf_handlers _ _ S m) as Hok. unfold step.
  assert (H : cf_act c m ≠ Idle -> exists rt', advances loss c rt
    (MkConfig (cf_world c) (cf_dispatch c) (<[m := Idle]> (cf_act c)) (cf_executed c) (cf_orphans c ++ [(m, cf_act c m)]) (cf_copies c)) rt').
  { intros Hne. pose proof (sf_act _ _ S m Hne) as Hm. apply (worker_safe loss _ _ _ _ _ (1 + act_weight Idle)); try done; try by left.
    - assert (orphan_weight (cf_act c m) <= act_weight (cf_act c m)) by (destruct (cf_act c m); simpl; lia). unfold loss. simpl. lia.
    - simpl. rewrite app_nil_r. apply (has_effect_shift 16 _ _ _ _ _ _ 1 0), effect_idle, S.
    - by intros m' a [= -> ->]%list_elem_of_singleton.
    - intros _. by right.
    - apply S. }
  destruct (cf_act c m) eqn:Ea; try done; intros [= <-]; by apply H.
Qed.

(** The handler of a lost report. *)
Lemma orphan_safe c rt i m a a' w' :
  safe_at c rt -> cf_orphans c !! i = Some (m, a) ->
  has_effect (cf_executed c) (cf_world c) w' rt (act_todo m a) (act_todo m a') (orphan_weight a) (orphan_weight a') ->
  handler_ok (cf_executed c) m a' -> exists rt', advances 0 c rt (orphan_acts i m a' w' c) rt'.
Proof.
  intros S Hi (rt' & new & sent & copies & He) Hok.
  assert (Hm : m ∈ delivered c) by (eapply (sf_orphan _ _ S), list_elem_of_lookup_2, Hi).
  destruct (insert_apart _ i (m, a) (m, a') Hi) as (l1 & l2 & E1 & E2).
  destruct (account 0 c rt (orphan_acts i m a' w' c) _ _ (act_todos (cf_act c) ++ orphan_todos (l1 ++ l2) ++ orphan_todos (cf_copies c) ++ dispatch_todo (cf_dispatch c))
    _ _ _ rt' new sent copies S He) as ((A2 & A2' & A2'') & A3 & A4 & A5).
  { unfold pending. rewrite E1, !bind_app, bind_cons. simpl. solve_Permutation. }
  { unfold pending. simpl. rewrite E2, !bind_app, bind_cons. simpl. solve_Permutation. }
  { intros _. unfold work. simpl. rewrite E2, E1, !fmap_app, !fmap_cons, !sum_list_with_app. simpl. lia. }
  assert (Hin : forall x b, (x, b) ∈ <[i := (m, a')]> (cf_orphans c) -> (x, b) = (m, a') \/ (x, b) ∈ cf_orphans c).
  { intros x b. rewrite E2, E1. set_solver. }
  assert (E3 : (<[i := (m, a')]> (cf_orphans c)).*1 = (cf_orphans c).*1) by (by rewrite E2, E1, !fmap_app).
  exists rt'. split; [|done]. split; simpl; try done; try apply S.
  - apply He.
  - intros x Hx. by apply A2, (sf_act _ _ S).
  - intros x b [[= -> ->]|Hx]%Hin; apply A2; [done|by eapply (sf_orphan _ _ S)].
  - intros x b [[= -> ->]|Hx]%Hin; [done|by apply (sf_orphan_handlers _ _ S)].
  - rewrite E3. apply S.
  - rewrite E2. by destruct l1.
  - by eapply scanned.
  - intros Hd. by apply (sf_single _ _ S), A2''.
  - intros x b Hx. by eapply A2, (sf_copy _ _ S).
Qed.

(** *** The workers of further copies *)

(** A change of one of them, which may leave an orphan behind. *)
Lemma copy_safe c rt i m a a' w' executed' left_behind k k' :
  safe_at c rt -> cf_copies c !! i = Some (m, a) ->
  has_effect executed' (cf_world c) w' rt (act_todo m a) (act_todo m a' ++ orphan_todos left_behind) k k' ->
  (forall x b, (x, b) ∈ left_behind -> x = m /\ handler_ok executed' m b) -> handler_ok executed' m a' ->
  (past_execution a' -> m ∈ executed') -> (executed' = cf_executed c \/ executed' = cf_executed c ++ [m]) ->
  well_ordered p n ri executed' -> exists rt', advances 0 c rt (copy_acts i m a' w' executed' left_behind c) rt'.
Proof.
  intros S Hi (rt' & new & sent & copies & He) Hleft Hok Hpa Hex Hord. pose proof (list_elem_of_lookup_2 _ _ _ Hi) as Hin.
  pose proof (sf_copy _ _ S m a Hin) as Hm. destruct (insert_apart _ i (m, a) (m, a') Hi) as (l1 & l2 & E1 & E2).
  assert (Hnot : ~ NoDup (delivered c)) by (intros Hd; apply (sf_single _ _ S) in Hd; by rewrite Hd in Hi).
  destruct (account 0 c rt (copy_acts i m a' w' executed' left_behind c) _ _
    (act_todos (cf_act c) ++ orphan_todos (cf_orphans c) ++ orphan_todos (l1 ++ l2) ++ dispatch_todo (cf_dispatch c)) executed'
    _ _ rt' new sent copies S He) as ((A2 & A2' & A2'') & A3 & A4 & A5).
  { unfold pending. rewrite E1, !bind_app, bind_cons. simpl. solve_Permutation. }
  { unfold pending. simpl. rewrite E2, !bind_app, bind_cons. simpl. solve_Permutation. }
  { intros Hset. by destruct (undoubled_single c rt S Hset). }
  assert (Hsub : forall x, x ∈ cf_executed c -> x ∈ executed') by (destruct Hex as [->| ->]; set_solver).
  assert (Hcop : forall x b, (x, b) ∈ <[i := (m, a')]> (cf_copies c) -> (x, b) = (m, a') \/ (x, b) ∈ cf_copies c).
  { intros x b. rewrite E2, E1. set_solver. }
  assert (E3 : (<[i := (m, a')]> (cf_copies c)).*1 = (cf_copies c).*1) by (by rewrite E2, E1, !fmap_app).
  exists rt'. split; [|done]. split; simpl; try done.
  - apply He.
  - intros x Hx. by apply A2, (sf_act _ _ S).
  - intros x b [Hx|Hx]%elem_of_app; apply A2; [by eapply (sf_orphan _ _ S)|by destruct (Hleft x b Hx) as [-> _]].
  - intros x. apply (handler_mono _ _ _ _ Hsub), S.
  - intros x b [Hx|Hx]%elem_of_app; [by eapply handler_mono, (sf_orphan_handlers _ _ S)|by destruct (Hleft x b Hx) as [-> ?]].
  - intros x Hx. by apply Hsub, (sf_past _ _ S).
  - intros x Hx. rewrite E3, fmap_app. assert (Hx' : x ∈ cf_executed c \/ x = m) by (destruct Hex as [->| ->]; set_solver).
    destruct Hx' as [Hx'| ->]; [|right; right; by apply (list_elem_of_fmap_2 fst) in Hin].
    destruct (sf_executed _ _ S x Hx') as [|[Ho|Ho]]; [by left|right; left; apply elem_of_app; by left|by right; right].
  - intros _ Ec. rewrite E2 in Ec. by destruct l1.
  - by eapply scanned.
  - intros Hd. by destruct Hnot; apply A2''.
  - intros x b [[= -> ->]|Hx]%Hcop; apply A2; [done|by eapply (sf_copy _ _ S)].
  - intros x b [[= -> ->]|Hx]%Hcop; [done|by eapply handler_mono, (sf_copy_handlers _ _ S)].
  - intros x b [[= -> ->]|Hx]%Hcop Hp; [by apply Hpa|by eapply Hsub, (sf_copy_past _ _ S)].
Qed.

Lemma takes_copy_safe c c' rt m : safe_at c rt -> step (TakesCopy m) c = Some c' -> exists rt', advances 0 c rt c' rt'.
Proof.
  intros S. unfold step. case_decide as Hc; [|done]. intros [= <-]. unfold copies_in in Hc.
  assert (Hm : m ∈ delivered c).
  { destruct (filter (fun m' => m' = m) (delivered c)) as [|x l] eqn:E; [simpl in Hc; lia|].
    assert (Hx : x ∈ x :: l) by left. rewrite <- E in Hx. by apply list_elem_of_filter in Hx as [-> ?]. }
  assert (Hnot : ~ NoDup (delivered c)).
  { intros Hd. assert (H : filter (fun m' => m' = m) (delivered c) ⊆+ [m]); [|apply submseteq_length in H; simpl in H; lia].
    apply NoDup_submseteq; [by apply NoDup_filter|]. intros x [-> _]%list_elem_of_filter. left. }
  exists rt. split; [split; simpl; try apply S|].
  - unfold pending. simpl. rewrite bind_app. simpl. rewrite app_nil_r. apply (sf_once _ _ S).
  - unfold pending. simpl. rewrite bind_app. simpl. rewrite app_nil_r. apply (sf_handed _ _ S).
  - intros x Hx. destruct (sf_executed _ _ S x Hx) as [|[?|?]]; [by left|by right; left|right; right]. rewrite fmap_app. set_solver.
  - intros _ Ec. by destruct (cf_copies c).
  - intros Hd. by destruct (Hnot Hd).
  - intros x a [Hx|[= -> ->]%list_elem_of_singleton]%elem_of_app; [by eapply (sf_copy _ _ S)|done].
  - intros x a [Hx|[= -> ->]%list_elem_of_singleton]%elem_of_app; [by eapply (sf_copy_handlers _ _ S)|by intros ? ?].
  - intros x a [Hx|[= -> ->]%list_elem_of_singleton]%elem_of_app; [by eapply (sf_copy_past _ _ S)|done].
  - intros Hcalm. split; [done|]. intros Hset. by destruct Hnot, (undoubled_single c rt S Hset).
Qed.

Lemma orphan_step_safe c c' rt i : safe_at c rt -> step (Orphan i) c = Some c' -> exists rt', advances 0 c rt c' rt'.
Proof.
  intros S. unfold step. intros ([m a] & Hi & Hs)%bind_Some. pose proof (list_elem_of_lookup_2 _ _ _ Hi) as Hin.
  pose proof (sf_orphan _ _ S m a Hin) as Hm. pose proof (sf_orphan_handlers _ _ S m a Hin) as Hok.
  destruct a as [|at_| |k at_|]; try done.
  - destruct (start_step _ _ _) as [w' r] eqn:E. injection Hs as <-. pose proof (start_handler c rt m at_ w' r S Hm E) as He.
    eapply orphan_safe; [done|exact Hi| |].
    + eapply has_effect_weaken; [|destruct r as [[]|]; exact He]. destruct r as [[]|]; simpl; lia.
    + by destruct r as [[]|].
  - destruct (finish_step _ _ _) as [w' r] eqn:E. injection Hs as <-. destruct (finish_handler c rt m k at_ w' r S Hm Hok E) as [He Hr].
    eapply orphan_safe; [done|exact Hi| |].
    + eapply has_effect_weaken; [|destruct r as [[]|]; exact He]. destruct r as [[]|]; simpl; lia.
    + destruct r as [[]|]; try done; intros k1 at1 [= _ <-]; by eapply Hr.
Qed.

Lemma copy_step_safe c c' rt i : safe_at c rt -> step (CopyOf i) c = Some c' -> exists rt', advances 0 c rt c' rt'.
Proof.
  intros S. unfold step. intros ([m a] & Hi & Hs)%bind_Some. pose proof (list_elem_of_lookup_2 _ _ _ Hi) as Hin.
  pose proof (sf_copy _ _ S m a Hin) as Hm. pose proof (sf_copy_handlers _ _ S m a Hin) as Hok.
  assert (Hnone : forall x b, (x, b) ∈ [] -> x = m /\ handler_ok (cf_executed c) m b) by (by intros ?? ?%elem_of_nil).
  destruct a as [|at_| |k at_|]; try done.
  - injection Hs as <-. eapply copy_safe; [done|exact Hi| |exact Hnone|by intros ? ?|done|by left|apply S].
    apply (effect_stay _ _ _ 1 0); [apply S|lia].
  - destruct (start_step _ _ _) as [w' r] eqn:E. injection Hs as <-. pose proof (start_handler c rt m at_ w' r S Hm E) as He.
    eapply copy_safe; [done|exact Hi| |exact Hnone|by destruct r as [[]|]|by destruct r as [[]|]|by left|apply S].
    destruct r as [[]|]; exact He.
  - injection Hs as <-. destruct (published_job c rt m S Hm) as (j & Hj & Em & Hh).
    eapply copy_safe; [done|exact Hi| |by intros ?? ?%elem_of_nil| |set_solver|by right|].
    + apply (effect_stay _ _ _ 1 0); [|lia]. destruct (sf_world _ _ S) as [W1 W2 W3]. split; [done|by apply runtime_safe_executed|done].
    + intros k at_ [= _ <-]. split; [done|set_solver].
    + apply (well_ordered_snoc p n ri Hvalid _ m j); [apply S|done|done|].
      intros j' Hj' Hw. eapply ready_executed; [apply (ws_runtime _ _ _ (sf_world _ _ S))|exact Hj|exact Hj'|done|done].
  - destruct (finish_step _ _ _) as [w' r] eqn:E. injection Hs as <-. destruct (finish_handler c rt m k at_ w' r S Hm Hok E) as [He Hr].
    eapply copy_safe; [done|exact Hi| |exact Hnone| | |by left|apply S].
    + rewrite app_nil_r. assert (act_todo m (after_finish k r) = todo_at m (resume r)) as -> by (by destruct r as [[]|]). exact He.
    + by destruct (resume_after k r) as [[-> _]| ->].
    + intros _. by apply (Hr _ _ eq_refl).
Qed.

Lemma copy_lost_safe c c' rt i : safe_at c rt -> step (CopyLost i) c = Some c' \/ step (CopyReportLost i) c = Some c' ->
  exists rt', advances 0 c rt c' rt'.
Proof.
  intros S Hs.
  assert (H : exists m a left_behind, cf_copies c !! i = Some (m, a) /\ (left_behind = [] /\ act_todo m a = [] \/ left_behind = [(m, a)]) /\
    c' = copy_acts i m Idle (cf_world c) (cf_executed c) left_behind c).
  { unfold step in Hs. destruct Hs as [Hs|Hs]; apply bind_Some in Hs as ([m a] & Hi & Hs); exists m, a; destruct a; try done;
      injection Hs as <-; eexists; (split; [done|]); (split; [|done]); first [by left|by right]. }
  destruct H as (m & a & left_behind & Hi & Hl & ->). pose proof (list_elem_of_lookup_2 _ _ _ Hi) as Hin.
  eapply (copy_safe c rt i m a Idle); [done|exact Hi| | |by intros ? ?|done|by left|apply S].
  - assert (act_todo m Idle ++ orphan_todos left_behind = act_todo m a) as ->.
    { destruct Hl as [[-> ->]| ->]; [done|]. simpl. by rewrite app_nil_r. }
    apply effect_idle, S.
  - intros x b Hx. destruct Hl as [[-> _]| ->]; [by apply elem_of_nil in Hx|]. apply list_elem_of_singleton in Hx as [= -> ->].
    split; [done|]. by apply (sf_copy_handlers _ _ S).
Qed.

(** Without further copies nobody takes one. *)
Lemma undoubled_actor a c c' rt : safe_at c rt -> undoubled (cf_world c) -> step a c = Some c' ->
  match a with TakesCopy _ | CopyOf _ | CopyLost _ | CopyReportLost _ => False | _ => True end.
Proof.
  intros S Hset Hs. destruct (undoubled_single c rt S Hset) as [Hd Hc].
  destruct a as [| | | | |m|i|i|i]; try done; unfold step in Hs; rewrite ?Hc in Hs; try done.
  case_decide as Hlt; [|done]. unfold copies_in in Hlt.
  assert (H : filter (fun m' => m' = m) (delivered c) ⊆+ [m]); [|apply submseteq_length in H; simpl in *; lia].
  apply NoDup_submseteq; [by apply NoDup_filter|]. intros x [-> _]%list_elem_of_filter. left.
Qed.

Lemma dispatcher_step_safe c c' rt : safe_at c rt -> step Dispatcher c = Some c' -> exists rt', advances 0 c rt c' rt'.
Proof.
  intros S. unfold step. destruct (dispatch_done (cf_dispatch c)) eqn:Ed; [done|].
  destruct (dispatch_step _ _ _) as [w' r] eqn:E. intros [= <-].
  destruct (dispatch_step_ok _ _ _ _ _ _ (sf_world _ _ S) (sf_dispatch _ _ S) Ed E) as [(rt' & new & sent & copies & He) Hd].
  destruct (account 0 c rt (MkConfig w' (after_dispatch r) (cf_act c) (cf_executed c) (cf_orphans c) (cf_copies c)) _ _
    (act_todos (cf_act c) ++ orphan_todos (cf_orphans c) ++ orphan_todos (cf_copies c)) _ _ _ rt' new sent copies S He)
    as ((A2 & A2' & A2'') & A3 & A4 & A5).
  { unfold pending. solve_Permutation. } { unfold pending. simpl. solve_Permutation. }
  { intros _. unfold work. simpl. lia. }
  exists rt'. split; [|done]. split; simpl; try done; try apply S.
  - apply He.
  - intros m Hm. by apply A2, (sf_act _ _ S).
  - intros m a Ha. by eapply A2, (sf_orphan _ _ S).
  - by destruct (after_dispatch r).
  - intros Hdel. by apply (sf_single _ _ S), A2''.
  - intros x a Hx. by eapply A2, (sf_copy _ _ S).
Qed.

Lemma step_advances a c c' rt : safe_at c rt -> step a c = Some c' ->
  exists rt', advances (if is_loss a then loss else 0) c rt c' rt'.
Proof.
  intros S Hs. destruct a; [by apply dispatcher_step_safe|by apply (worker_step_safe c c' rt m)|by apply (worker_lost_safe c c' rt m)
    |by apply (report_lost_safe c c' rt m)|by apply (orphan_step_safe c c' rt i)|by apply (takes_copy_safe c c' rt m)
    |by apply (copy_step_safe c c' rt i)|..].
  all: destruct (copy_lost_safe c c' rt i S) as [rt' [A1 A2]]; [auto|]; exists rt'; split; [done|]; intros Hc;
    destruct (A2 Hc) as [Hc' H]; split; [done|]; intros Hset; destruct (H Hset) as (? & ? & ?); split_and!; [done|unfold loss; simpl; lia|done].
Qed.

Lemma schedule_safe s c c' rt : safe_at c rt -> schedule s c = Some c' -> exists rt', safe_at c' rt'.
Proof.
  revert c rt. induction s as [|a s IH]; intros c rt S; simpl; [intros [= <-]; by exists rt|].
  intros (c1 & E & Hs)%bind_Some. destruct (step_advances _ _ _ _ S E) as [rt1 A]. eapply IH; [apply A|done].
Qed.

(** Without failures a schedule is as long as the measure at most, and the
    steps that lost workers made in vain. *)
Lemma schedule_length s c c' rt :
  safe_at c rt -> calm (cf_world c) -> undoubled (cf_world c) -> schedule s c = Some c' ->
  exists rt', safe_at c' rt' /\ calm (cf_world c') /\ undoubled (cf_world c') /\ length s + measure c' rt' <= measure c rt + loss * losses s.
Proof.
  revert c rt. induction s as [|a s IH]; intros c rt S Hc Hset; simpl; [intros [= <-]; exists rt; split_and!; [done|done|done|lia]|].
  intros (c1 & E & Hs)%bind_Some. destruct (step_advances _ _ _ _ S E) as [rt1 A].
  destruct (av_calm _ _ _ _ _ A Hc) as (Hc1 & Hm). destruct (Hm Hset) as (Hset1 & Hm1 & _).
  destruct (IH c1 rt1 (av_safe _ _ _ _ _ A) Hc1 Hset1 Hs) as (rt' & S' & Hc' & Hset' & Hl).
  exists rt'. split_and!; [done|done|done|]. unfold losses in *. rewrite filter_cons.
  destruct (is_loss a); [rewrite decide_True by done|rewrite decide_False by done]; unfold loss in *; simpl in *; lia.
Qed.

(** Workers of further copies stay, and only a worker lost during a report leaves
    an orphan. *)
Lemma copies_stay a c c' : step a c = Some c' -> length (cf_copies c) <= length (cf_copies c').
Proof.
  destruct a as [|m|m|m|i|m|i|i|i]; unfold step.
  - destruct (dispatch_done _); [done|]. destruct (dispatch_step _ _ _). by intros [= <-].
  - destruct (cf_act c m); [case_decide; [|done]|destruct (start_step _ _ _)| |destruct (finish_step _ _ _)|done]; by intros [= <-].
  - destruct (cf_act c m); try done. by intros [= <-].
  - destruct (cf_act c m); try done; by intros [= <-].
  - intros ([m a] & _ & Hs)%bind_Some. destruct a; try done; [destruct (start_step _ _ _)|destruct (finish_step _ _ _)]; by injection Hs as <-.
  - case_decide; [|done]. intros [= <-]. simpl. rewrite length_app. lia.
  - intros ([m a] & _ & Hs)%bind_Some. destruct a; try done; [|destruct (start_step _ _ _)| |destruct (finish_step _ _ _)];
      injection Hs as <-; simpl; by rewrite length_insert.
  - intros ([m a] & _ & Hs)%bind_Some. destruct a; try done; injection Hs as <-; simpl; by rewrite length_insert.
  - intros ([m a] & _ & Hs)%bind_Some. destruct a; try done; injection Hs as <-; simpl; by rewrite length_insert.
Qed.

Lemma no_copies a c c' : step a c = Some c' -> cf_copies c' = [] -> cf_copies c = [].
Proof. intros E%copies_stay H. rewrite H in E. by destruct (cf_copies c); [|simpl in E; lia]. Qed.

Lemma no_orphan a c c' : (forall m, a ≠ ReportLost m) -> cf_copies c = [] -> cf_orphans c = [] -> step a c = Some c' -> cf_orphans c' = [].
Proof.
  intros Ha Hc Ho. destruct a as [|m|m|m|i|m|i|i|i]; unfold step.
  - destruct (dispatch_done _); [done|]. destruct (dispatch_step _ _ _). by intros [= <-].
  - destruct (cf_act c m); [case_decide; [|done]|destruct (start_step _ _ _)| |destruct (finish_step _ _ _)|done]; by intros [= <-].
  - destruct (cf_act c m); try done. by intros [= <-].
  - by destruct (Ha m).
  - by rewrite Ho.
  - case_decide; [|done]. by intros [= <-].
  - by rewrite Hc.
  - by rewrite Hc.
  - by rewrite Hc.
Qed.

Lemma no_orphans s c c' : (forall m, ReportLost m ∉ s) -> cf_orphans c = [] -> schedule s c = Some c' -> cf_copies c' = [] ->
  cf_copies c = [] /\ cf_orphans c' = [].
Proof.
  revert c. induction s as [|a s IH]; intros c Hno Ho; simpl; [by intros [= <-]|].
  intros (c1 & E & Hs)%bind_Some Hc'.
  assert (Hc1 : cf_copies c1 = []).
  { clear -Hs Hc'. revert c1 Hs. induction s as [|b s IH]; intros c1; simpl; [by intros [= <-]|].
    intros (c2 & E & Hs)%bind_Some. eapply no_copies; [exact E|]. by apply IH. }
  pose proof (no_copies a c c1 E Hc1) as Hc. split; [done|].
  apply (IH c1); [intros m Hm; apply (Hno m); by right| |done|done].
  apply (no_orphan a c); [|done|done|done]. intros m ->. apply (Hno m). left.
Qed.

(** What the goroutine finds when it starts: the runtime of [Run], untouched. *)
Record launched (w : world Q) (rt : pipelineRuntime) (stages : list StageExecutionPlan) : Prop := {
  la_heap : w_heap w !! pt = Some rt;
  la_runtime : runtime_ok p n ri rt;
  la_map : w_runtimes w !! key = Some pt;
  la_stages : StageExec_Name <$> stages = stage_names;
  la_fresh : untouched rt;
  la_unsent : sent_messages w = [];
  la_unasked : requested_messages w = [];
}.

Lemma launched_undoubled w rt stages : launched w rt stages -> undoubled w.
Proof. intros L. unfold undoubled. by rewrite (la_unsent _ _ _ L), (la_unasked _ _ _ L). Qed.

Lemma start_safe w rt stages : launched w rt stages -> safe_at (concurrent_start w stages) rt.
Proof.
  intros [L1 L2 L3 L4 L5 L6 L7].
  assert (Ep : published (concurrent_start w stages) = []) by done.
  assert (Enil : published (concurrent_start w stages) ++ pending (concurrent_start w stages) = []).
  { rewrite Ep. unfold pending. simpl. rewrite app_nil_r. by induction (job_message <$> Pipeline_Jobs p). }
  assert (Hno : forall j, j ∈ Pipeline_Jobs p -> ~ handed_out rt j).
  { intros j Hj Hh. destruct (L5 (Job_Stage j)) as (st & Hst & _ & Hq & _); [by apply (vp_job_stage _ Hvalid)|].
    apply (handed_out_at rt _ st j Hst eq_refl) in Hh. rewrite Hq in Hh. set_solver. }
  split; rewrite ?Enil; try done; try by constructor.
  - split; [done| |by left]. split; [done| | |].
    + intros s Hs. destruct (L5 s Hs) as (st & Hst & Hf). exists st. split; [done|by apply fresh_ok].
    + intros s st x Hs Hst Hx. destruct (L5 s Hs) as (st1 & Hst1 & _ & _ & Hc & _). rewrite Hst in Hst1. injection Hst1 as <-.
      rewrite Hc in Hx. set_solver.
    + intros j j' Hj _ Hh. by destruct (Hno j Hj).
  - by intros m ?%elem_of_nil.
  - by intros m a ?%elem_of_nil.
  - by intros m a ?%elem_of_nil.
  - by intros m ?%elem_of_nil.
  - intros m Hm. change (m ∈ sent_messages w) in Hm. rewrite L6 in Hm. by apply elem_of_nil in Hm.
  - by intros m a ?%elem_of_nil.
  - by intros m a ?%elem_of_nil.
  - by intros m a ?%elem_of_nil.
Qed.

Lemma safe_facts c rt : safe_at c rt ->
  NoDup (published c) /\ well_ordered p n ri (cf_executed c) /\
  (forall m, m ∈ cf_executed c -> m ∈ delivered c) /\ (forall m, m ∈ delivered c -> m ∈ published c) /\
  (forall m, m ∈ published c -> exists j, j ∈ Pipeline_Jobs p /\ m = job_message j /\
     forall j', j' ∈ Pipeline_Jobs p -> waits_for p j j' -> job_message j' ∈ cf_executed c).
Proof.
  intros S. split_and!; [|apply S| |apply S|].
  - apply (NoDup_app (published c) (pending c)), (sf_once _ _ S).
  - intros m [Hm|[([x a] & -> & Hx)%list_elem_of_fmap|([x a] & -> & Hx)%list_elem_of_fmap]]%(sf_executed _ _ S);
      [|by apply (sf_orphan _ _ S x a)|by apply (sf_copy _ _ S x a)].
    apply (sf_act _ _ S). by destruct (cf_act c m).
  - intros m Hm. destruct (sf_handed _ _ S m) as (j & Hj & -> & Hh); [apply elem_of_app; by left|]. exists j. split_and!; [done|done|].
    intros j' Hj' Hw. eapply ready_executed; [apply (ws_runtime _ _ _ (sf_world _ _ S))|exact Hj|done|done|done].
Qed.

(** Whatever the scheduler does and whatever fails (any call of the store,
    any publish, with or without a trace at the broker, any worker while it runs its
    job or reports), from the dispatch of a run on: the orchestrator asks for each job
    at most once to be published; what the broker holds was asked for, and is of jobs of
    the pipeline; only jobs of which the broker held a message are executed, and before a job
    is executed, every job of an earlier stage and every job that it needs was
    executed, although the handlers interleave step by step, and although a message
    that is delivered again has its job executed and reported again; and no job is
    executed twice unless a worker was lost while it reported or the broker holds two
    copies of a message. *)
Theorem concurrent_safe w rt stages s c :
  launched w rt stages -> schedule s (concurrent_start w stages) = Some c ->
  NoDup (published c) /\ well_ordered p n ri (cf_executed c) /\
  (forall m, m ∈ cf_executed c -> m ∈ delivered c) /\ (forall m, m ∈ delivered c -> m ∈ published c) /\
  (forall m, m ∈ published c -> exists j, j ∈ Pipeline_Jobs p /\ m = job_message j /\
     forall j', j' ∈ Pipeline_Jobs p -> waits_for p j j' -> job_message j' ∈ cf_executed c) /\
  ((forall m, ReportLost m ∉ s) -> NoDup (delivered c) -> NoDup (cf_executed c)).
Proof.
  intros L Hs. destruct (schedule_safe _ _ _ _ (start_safe _ _ _ L) Hs) as [rt' S].
  destruct (safe_facts _ _ S) as (H1 & H2 & H3 & H4 & H5). split_and!; [done..|].
  intros Hno Hd. pose proof (sf_single _ _ S Hd) as Hc. apply (sf_executed_once _ _ S); [|done].
  by apply (no_orphans s (concurrent_start w stages)).
Qed.
End safety.
End concurrent.
