(* ===== verification/Lively.v ===== *)
(** * When every job of a run passes

    The invariant of a run that nothing fails and whose jobs all pass, and its
    preservation by each step of a handler or of the dispatching goroutine. A job
    may have several handlers at a time: that of its worker's report, and those of
    reports whose worker was lost. What each has done is read off where it is; a
    complete stage has a handler that goes on with what follows, until it followed.
    Completion draws the conclusions for whole executions. *)

From stdpp Require Import functions.
From S2P Require Import Prelude GoStrings Archive Models Graph Wellformed Planner Store StageState Mq Publisher Orchestrator Execution Http Worker Validation Parser Endpoints Callbacks System Steps Concurrent.

Section lively.
Context {C : Collation} {Q : Type} {J : JobSink Q} {F : GoFloat}.
Context (error_text : goerr -> string).
Context (env : string -> string) (stat : string -> bool) (docker : JobExecutionMessage -> nat -> docker_env).
Context (p : Pipeline) (n : Z) (pt : ptr) (ri : runInfo) (Hvalid : valid_pipeline p) (Hid : identifiable p n).

Abbreviation verdict k := (verdict error_text env stat (attempt docker k)).
Abbreviation pname := (Pipeline_Name p).
Abbreviation stage_names := (fmap (M:=list) Stage_Name (Pipeline_Stages p)).
Abbreviation job_message := (job_message p n ri).
Abbreviation key := (runtimeKey pname n).

(** ** When every job passes *)

(** A stage whose jobs all pass: untouched, or polled and never stuck. *)
Definition alive (s : string) (st : stageState) : Prop :=
  configs_ok p s st /\
  (stage_fresh p s st \/
   exists sp, plan_of_stage s p sp /\ live_inv s p sp st (handed_jobs p s st) (completed st) /\ queued st ≠ ∅).

Lemma live_perm s sp st l l' done : l ≡ₚ l' -> live_inv s p sp st l done -> live_inv s p sp st l' done.
Proof.
  intros E [H1 H2 H3 H4]. split; [by eapply stage_inv_perm|done|done|]. intros x. rewrite <- E. apply H4.
Qed.

Lemma live_handed s sp st sent done : live_inv s p sp st sent done -> completed st = done ->
  live_inv s p sp st (handed_jobs p s st) (completed st).
Proof.
  intros Hl ->. eapply live_perm; [|done]. symmetry. eapply (handed_jobs_perm p Hvalid), (li_inv _ _ _ _ _ _ Hl).
Qed.

Lemma configs_static s st st' : jobConfigs st' = jobConfigs st -> configs_ok p s st -> configs_ok p s st'.
Proof. intros E H j Hj. rewrite E. by apply H. Qed.

(** Polling hands out something the first time, and completes nothing. *)
Lemma poll_alive s st st' ready :
  s ∈ stage_names -> alive s st -> getReadyJobs st = (st', ready) ->
  alive s st' /\ completed st' = completed st /\ queued st' ≠ ∅ /\ isStageComplete st' = isStageComplete st.
Proof.
  intros Hs [Hcfg Hst] E. pose proof (readyLoop_static (StagePlan_Jobs (plan st)) st) as [E1 E2]. unfold getReadyJobs in E.
  rewrite E in E1, E2. simpl in E1, E2.
  assert (Hcomp : completed st' = completed st -> isStageComplete st' = isStageComplete st).
  { intros Ec. unfold isStageComplete. by rewrite E1, Ec. }
  assert (Hcfg' : configs_ok p s st') by (by eapply configs_static).
  destruct Hst as [Hf|(sp & Hsp & Hl & Hq)].
  - pose proof (fresh_poll p n Hvalid Hid s st Hs Hf) as H. unfold getReadyJobs in H. rewrite E in H.
    destruct H as ((sp & Hsp & Hl) & _ & Hnc). destruct Hf as (_ & Hq & Ec & _).
    pose proof (li_done _ _ _ _ _ _ Hl) as Ed. destruct (live_incomplete _ p sp Hvalid Hsp _ _ _ Hl Hnc) as (pl & Hpl & _).
    assert (Hne : queued st' ≠ ∅).
    { intros Hemp. apply (list_elem_of_fmap_2 JobPlan_Name) in Hpl. apply (si_queued _ _ _ _ _ _ _ (li_inv _ _ _ _ _ _ Hl)) in Hpl.
      rewrite Hemp in Hpl. set_solver. }
    assert (Ecs : completed st' = completed st) by congruence. split_and!; [|done|done|by apply Hcomp].
    split; [done|]. right. exists sp. split; [done|]. split; [|done]. by eapply live_handed.
  - pose proof (getReadyJobs_inv s p sp Hvalid Hsp _ _ _ (li_inv _ _ _ _ _ _ Hl)) as H. unfold getReadyJobs in H. rewrite E in H.
    destruct H as (H1 & H2 & H3). assert (Hne : queued st' ≠ ∅).
    { destruct (set_choose_L _ Hq) as [x Hx]. apply (si_queued _ _ _ _ _ _ _ (li_inv _ _ _ _ _ _ Hl)) in Hx.
      intros Hemp. assert (Hin : x ∈ queued st') by (apply (si_queued _ _ _ _ _ _ _ H1); set_solver). rewrite Hemp in Hin. set_solver. }
    split_and!; [|done|done|by apply Hcomp]. split; [done|]. right. exists sp. split; [done|]. split; [|done].
    eapply live_handed; [split; [exact H1|exact H3|exact H2|]|done].
    intros x Hx. rewrite fmap_app. apply elem_of_app. left. by apply (li_sent _ _ _ _ _ _ Hl).
Qed.

(** A handed-out job that passes completes. *)
Lemma mark_alive s st st' ready x :
  alive s st -> x ∈ queued st -> x ∉ completed st -> markJobSucceeded st x = (st', ready) ->
  alive s st' /\ completed st' = {[x]} ∪ completed st /\ queued st' ≠ ∅.
Proof.
  intros [Hcfg Hst] Hx Hn E. destruct Hst as [(_ & Hq & _)|(sp & Hsp & Hl & Hq)]; [rewrite Hq in Hx; set_solver|].
  pose proof (markJobSucceeded_static st x) as [_ E2]. rewrite E in E2. simpl in E2.
  apply (si_queued _ _ _ _ _ _ _ (li_inv _ _ _ _ _ _ Hl)) in Hx as Hin.
  pose proof (live_success s p sp Hvalid Hsp st _ x Hl Hn Hin) as H. rewrite E in H. destruct H as [H1 H2].
  assert (Hne : queued st' ≠ ∅).
  { intros Hemp. assert (Hin' : x ∈ queued st') by (apply (si_queued _ _ _ _ _ _ _ (li_inv _ _ _ _ _ _ H1)); set_solver).
    rewrite Hemp in Hin'. set_solver. }
  split_and!; [|done|done]. split; [by eapply configs_static|]. right. exists sp. split; [done|]. split; [|done].
  by eapply live_handed.
Qed.

Context (Hpass : forall j k, j ∈ Pipeline_Jobs p -> passes env stat (attempt docker k) p n ri (job_message j)).
(** No worker was lost before its started callback reached the row of its job. *)
Context (prompt : Prop).
Abbreviation earlier := (earlier p).
Abbreviation runtime_safe := (runtime_safe p n ri).
Abbreviation hands_out := (hands_out p n ri).

Definition run_row (w : world Q) : option string := run_status_of (w_db w) pname n.
Definition stage_row (w : world Q) (s : string) : option string := stage_status_of (w_db w) pname n s.
Definition job_row (w : world Q) (j : Job) : option string := job_status_of (w_db w) pname n (Job_Stage j) (Job_Name j).

Definition has_completed (rt : pipelineRuntime) (j : Job) : Prop :=
  Job_Name j ∈ default ∅ (completed <$> rt_stageStates rt !! Job_Stage j).
#[local] Instance has_completed_dec rt j : Decision (has_completed rt j).
Proof. unfold has_completed. apply _. Defined.
Definition complete_in (rt : pipelineRuntime) (s : string) : Prop := forall j, j ∈ jobsForStage s p -> has_completed rt j.
Definition polled (rt : pipelineRuntime) (s : string) : Prop := exists j, j ∈ jobsForStage s p /\ handed_out rt j.

(** The handler has marked its job as completed in the runtime. *)
Definition marked (a : activity) : Prop :=
  match a with
  | Reported => True
  | Finishing _ at_ => match at_ with FinishJob | GetRuntime | MarkSucceeded _ | MarkTerminal _ => False | _ => True end
  | _ => False
  end.
(** It has ended the row of its job. *)
Definition row_reported (a : activity) : Prop :=
  match a with Reported => True | Finishing _ at_ => at_ ≠ FinishJob | _ => False end.
(** If its stage is complete, it goes on with what follows. *)
Definition carries (a : activity) : Prop :=
  match a with
  | Finishing _ at_ => match at_ with PublishReady _ _ | CheckStage _ | FinishStage _ | PollNext _ | FinishRun | DeleteRun => True | _ => False end
  | _ => False
  end.

Definition point_live (w : world Q) (rt : pipelineRuntime) (s : string) (at_ : point) : Prop :=
  match at_ with
  | MarkTerminal _ | FailStage | FailRun => False
  | FinishStage _ => complete_in rt s
  | PollNext _ => complete_in rt s /\ stage_row w s = Some StatusSuccess
  | FinishRun => complete_in rt s /\ stage_row w s = Some StatusSuccess /\ nextStageName stage_names s = None
  | DeleteRun => complete_in rt s /\ stage_row w s = Some StatusSuccess /\ nextStageName stage_names s = None /\
                 run_row w = Some StatusSuccess
  | _ => True
  end.

(** What follows a complete stage has happened. *)
Definition followed (w : world Q) (rt : pipelineRuntime) (s : string) : Prop :=
  stage_row w s = Some StatusSuccess /\
  match nextStageName stage_names s with
  | Some next => polled rt next
  | None => run_row w = Some StatusSuccess /\ w_runtimes w !! key = None
  end.

Definition first_polled (rt : pipelineRuntime) : Prop := forall s rest, stage_names = s :: rest -> polled rt s.
Definition dispatch_live (rt : pipelineRuntime) (d : dispatch_point) : Prop :=
  match d with Scan _ => True | PublishFirst _ _ | Dispatched _ => first_polled rt | _ => False end.

(** The row of a job, whose worker does [a]. *)
Definition row_live (w : world Q) (a : activity) (j : Job) : Prop :=
  exists st, job_row w j = Some st /\ (prompt -> row_reported a -> st = StatusSuccess \/ st = StatusFailed).

(** [doing j a]: some handler of [j] is at [a]; [worker j]: that of its worker. *)
Record lively (w : world Q) (rt : pipelineRuntime) (doing : Job -> activity -> Prop) (worker : Job -> activity)
    (d : dispatch_point) : Prop := {
  ly_alive : forall s st, s ∈ stage_names -> rt_stageStates rt !! s = Some st -> alive s st;
  ly_marked : forall j a, j ∈ Pipeline_Jobs p -> doing j a -> marked a -> has_completed rt j;
  ly_order : forall j j', j ∈ Pipeline_Jobs p -> j' ∈ Pipeline_Jobs p -> handed_out rt j -> earlier (Job_Stage j') (Job_Stage j) ->
    has_completed rt j';
  ly_points : forall j k at_, j ∈ Pipeline_Jobs p -> doing j (Finishing k at_) -> point_live w rt (Job_Stage j) at_;
  ly_next : forall s, s ∈ stage_names -> complete_in rt s ->
    (exists j a, j ∈ jobsForStage s p /\ doing j a /\ carries a) \/ followed w rt s;
  ly_map : w_runtimes w !! key = Some pt \/
    (forall j, j ∈ Pipeline_Jobs p -> has_completed rt j) /\ run_row w = Some StatusSuccess;
  ly_run : is_Some (run_row w);
  ly_stages : forall s, s ∈ stage_names -> is_Some (stage_row w s);
  ly_jobs : forall j, j ∈ Pipeline_Jobs p -> row_live w (worker j) j;
  ly_dispatch : dispatch_live rt d;
}.

(** What a step does to the run; [new] are the jobs that it may complete. *)
Record live_step (w w' : world Q) (rt rt' : pipelineRuntime) (new : Job -> Prop) : Prop := {
  st_alive : forall s st, s ∈ stage_names -> rt_stageStates rt' !! s = Some st -> alive s st;
  st_handed : forall j, j ∈ Pipeline_Jobs p -> handed_out rt j -> handed_out rt' j;
  st_ordered : forall j j', j ∈ Pipeline_Jobs p -> j' ∈ Pipeline_Jobs p -> handed_out rt' j -> earlier (Job_Stage j') (Job_Stage j) ->
    handed_out rt j \/ has_completed rt j';
  st_completed : forall j, j ∈ Pipeline_Jobs p -> has_completed rt j -> has_completed rt' j;
  st_newly : forall j, j ∈ Pipeline_Jobs p -> has_completed rt' j -> has_completed rt j \/ new j;
  st_run : run_row w' = run_row w \/ run_row w' = Some StatusSuccess;
  st_stages : forall s, s ∈ stage_names -> stage_row w' s = stage_row w s \/ stage_row w' s = Some StatusSuccess;
  st_map : w_runtimes w' !! key = w_runtimes w !! key \/
    w_runtimes w' !! key = None /\ (forall j, j ∈ Pipeline_Jobs p -> has_completed rt j) /\ run_row w' = Some StatusSuccess;
}.

(** What a handler of [j] that comes to [a] may rely on. *)
Definition settled (w : world Q) (rt : pipelineRuntime) (j : Job) (a : activity) : Prop :=
  (marked a -> has_completed rt j) /\ forall k at_, a = Finishing k at_ -> point_live w rt (Job_Stage j) at_.

Lemma success_stays (x y : option string) : y = x \/ y = Some StatusSuccess -> (x = Some StatusSuccess -> y = Some StatusSuccess).
Proof. intros [->|]; done. Qed.
Lemma some_stays (x y : option string) : y = x \/ y = Some StatusSuccess -> is_Some x -> is_Some y.
Proof. intros [->| ->]; [done|by eexists]. Qed.

Section preserved.
Context (w w' : world Q) (rt rt' : pipelineRuntime) (new : Job -> Prop) (S : live_step w w' rt rt' new).

Lemma complete_stays s : complete_in rt s -> complete_in rt' s.
Proof. intros Hc j Hj. apply (st_completed _ _ _ _ _ S); [by apply jobsForStage_elem in Hj as [? _]|by apply Hc]. Qed.
Lemma polled_stays s : polled rt s -> polled rt' s.
Proof.
  intros (j & Hj & Hh). exists j. split; [done|]. apply (st_handed _ _ _ _ _ S); [by apply jobsForStage_elem in Hj as [? _]|done].
Qed.
Lemma dispatch_stays d : dispatch_live rt d -> dispatch_live rt' d.
Proof. destruct d; try done; intros Hf s rest E; by eapply polled_stays, Hf. Qed.

Lemma point_live_stays s at_ : s ∈ stage_names -> point_live w rt s at_ -> point_live w' rt' s at_.
Proof.
  intros Hs. pose proof (success_stays _ _ (st_run _ _ _ _ _ S)) as Hr. pose proof (success_stays _ _ (st_stages _ _ _ _ _ S s Hs)) as Hst.
  pose proof (complete_stays s) as Hc. destruct at_; naive_solver.
Qed.

Lemma followed_stays s : s ∈ stage_names -> followed w rt s -> followed w' rt' s.
Proof.
  intros Hs [H1 H2]. split; [by eapply success_stays; [apply S|]|]. destruct (nextStageName stage_names s); [by apply polled_stays|].
  destruct H2 as [H2 H3]. split; [by eapply success_stays; [apply S|]|]. by destruct (st_map _ _ _ _ _ S) as [->|[-> _]].
Qed.

Lemma lively_preserved doing doing' worker worker' d d' :
  lively w rt doing worker d ->
  (forall j a, j ∈ Pipeline_Jobs p -> doing' j a -> doing j a \/ settled w' rt' j a) ->
  (forall j a, j ∈ Pipeline_Jobs p -> doing j a -> carries a -> complete_in rt (Job_Stage j) ->
     (exists a', doing' j a' /\ carries a') \/ followed w' rt' (Job_Stage j)) ->
  (forall j, j ∈ Pipeline_Jobs p -> new j -> exists a, doing' j a /\ carries a) ->
  (forall j, j ∈ Pipeline_Jobs p -> row_live w' (worker' j) j) ->
  dispatch_live rt' d' -> lively w' rt' doing' worker' d'.
Proof.
  intros L Hdo Hcar Hnew Hrows Hd. split; [apply S| | | | | | | |done|done].
  - intros j a Hj Ha Hm. destruct (Hdo j a Hj Ha) as [Ho|[H _]]; [|by apply H].
    apply (st_completed _ _ _ _ _ S); [done|]. by eapply (ly_marked _ _ _ _ _ L).
  - intros j j' Hj Hj' Hh He. apply (st_completed _ _ _ _ _ S); [done|].
    destruct (st_ordered _ _ _ _ _ S j j' Hj Hj' Hh He); [|done]. by apply (ly_order _ _ _ _ _ L j j').
  - intros j k at_ Hj Ha. destruct (Hdo j _ Hj Ha) as [Ho|[_ H]]; [|by eapply H].
    apply point_live_stays; [by apply (vp_job_stage _ Hvalid)|]. by eapply (ly_points _ _ _ _ _ L).
  - intros s Hs Hc. destruct (decide (Exists (fun j => ~ has_completed rt j) (jobsForStage s p))) as [H|H].
    { apply Exists_exists in H as (j & Hj & Hn). pose proof (proj1 (jobsForStage_elem _ _ _) Hj) as [Hjp _]. left.
      destruct (st_newly _ _ _ _ _ S j Hjp (Hc j Hj)) as [|Hnj]; [done|]. destruct (Hnew j Hjp Hnj) as (a & ? & ?). by exists j, a. }
    assert (Hold : complete_in rt s).
    { intros j Hj. destruct (decide (has_completed rt j)) as [|Hn]; [done|]. destruct H. apply Exists_exists. by exists j. }
    destruct (ly_next _ _ _ _ _ L s Hs Hold) as [(j & a & Hj & Ha & Hca)|Hf]; [|right; by apply followed_stays].
    pose proof (proj1 (jobsForStage_elem _ _ _) Hj) as [Hjp Es].
    destruct (Hcar j a Hjp Ha Hca) as [(a' & ? & ?)|Hf]; rewrite ?Es; [done|left; by exists j, a'|right; by rewrite Es in Hf].
  - destruct (st_map _ _ _ _ _ S) as [->|(_ & Hc & Hr)].
    + destruct (ly_map _ _ _ _ _ L) as [|[Hc Hr]]; [by left|right]. split; [|by eapply success_stays; [apply S|]].
      intros j Hj. by apply (st_completed _ _ _ _ _ S), Hc.
    + right. split; [|done]. intros j Hj. by apply (st_completed _ _ _ _ _ S), Hc.
  - eapply some_stays; [apply S|apply L].
  - intros s Hs. eapply some_stays; [by apply S|by apply L].
Qed.
End preserved.

(** *** One step of a handler *)

Section handler.
Context (executed : list JobExecutionMessage) (w : world Q) (rt : pipelineRuntime).
Context (doing : Job -> activity -> Prop) (worker : Job -> activity) (d : dispatch_point).
Context (L : lively w rt doing worker d) (W : world_safe p n pt ri w rt executed) (Hcalm : calm w).
Context (j : Job) (a : activity) (own : bool) (Hj : j ∈ Pipeline_Jobs p) (Hh : handed_out rt j) (Hdo : doing j a).
(** The handler is that of the worker, or one whose worker was lost. *)
Context (Hown : if own then worker j = a else prompt -> a ≠ Starting MarkRunning).
Abbreviation m := (job_message j).
Abbreviation s := (Job_Stage j).

(** What the worker of [j] does when the handler comes to [a']. *)
Definition worker_after (a' : activity) : activity := if own then a' else worker j.

(** What a step may change in the tables. *)
Record rows_move (w' : world Q) (a' : activity) : Prop := {
  rm_run : run_row w' = run_row w \/ run_row w' = Some StatusSuccess;
  rm_stages : forall s, s ∈ stage_names -> stage_row w' s = stage_row w s \/ stage_row w' s = Some StatusSuccess;
  rm_jobs : forall k, k ∈ Pipeline_Jobs p -> k ≠ j -> job_row w' k = job_row w k;
  rm_own : row_live w' (worker_after a') j;
}.

Lemma row_same w' a' : job_row w' j = job_row w j -> (row_reported a' -> row_reported a) -> row_live w' (worker_after a') j.
Proof.
  intros E Ha. destruct (ly_jobs _ _ _ _ _ L j Hj) as (st & Est & Hst). exists st. split; [by rewrite E|]. intros Hp Hr.
  apply (Hst Hp). unfold worker_after in Hr. destruct own; [rewrite Hown; by apply Ha|done].
Qed.

Lemma rows_same w' a' : w_db w' = w_db w -> (row_reported a' -> row_reported a) -> rows_move w' a'.
Proof.
  intros E Ha. split; [| | |by apply row_same; [unfold job_row; rewrite E|]]; unfold run_row, stage_row, job_row; rewrite E; auto.
Qed.

Lemma rows_job w' a' t st :
  w_db w' = (UpdateJob (w_db w) pname n s (Job_Name j) t st).1 ->
  (prompt -> row_reported (worker_after a') -> st = StatusSuccess \/ st = StatusFailed) -> rows_move w' a'.
Proof.
  intros E Ha. split; unfold row_live, run_row, stage_row, job_row; rewrite E; [by left|by left| |].
  - intros k Hk Hne. rewrite job_status_update. case_decide as Hc; [|done]. exfalso. apply Hne.
    assert (Es : Job_Stage k = s) by (apply (id_ci_stage _ _ Hid); [by apply (vp_job_stage _ Hvalid)..|apply Hc]).
    apply (NoDup_name_inj _ _ _ (vp_jobs_unique _ Hvalid) Hk Hj). by apply (id_ci_job _ _ Hid); [..|apply Hc].
  - rewrite job_status_update, decide_True by done. destruct (ly_jobs _ _ _ _ _ L j Hj) as (st0 & Est & _).
    unfold job_row in Est. rewrite Est. by exists st.
Qed.

Lemma rows_stage w' a' x t :
  w_db w' = (UpdateStage (w_db w) pname n x t StatusSuccess).1 -> (row_reported a' -> row_reported a) ->
  rows_move w' a' /\ (x ∈ stage_names -> stage_row w' x = Some StatusSuccess).
Proof.
  intros E Ha. split; [split|]; [| | |apply row_same; [unfold job_row; by rewrite E|done]|];
    unfold run_row, stage_row, job_row; rewrite E; [by left| |done|].
  - intros y Hy. rewrite stage_status_update. case_decide; [right|by left].
    destruct (ly_stages _ _ _ _ _ L y Hy) as [st Est]. unfold stage_row in Est. by rewrite Est.
  - intros Hx. rewrite stage_status_update, decide_True by done. destruct (ly_stages _ _ _ _ _ L x Hx) as [st Est].
    unfold stage_row in Est. by rewrite Est.
Qed.

Lemma rows_run w' a' t :
  w_db w' = set_runs (w_db w) (alter (update_run_row (Some t) StatusSuccess) (ci pname, n) (pipeline_runs (w_db w))) ->
  (row_reported a' -> row_reported a) -> rows_move w' a' /\ run_row w' = Some StatusSuccess.
Proof.
  intros E Ha. assert (Hr : run_row w' = Some StatusSuccess).
  { unfold run_row. rewrite E, run_status_finish. destruct (ly_run _ _ _ _ _ L) as [st Est]. unfold run_row in Est. by rewrite Est. }
  split; [|done]. split; [by right| | |apply row_same; [unfold job_row; by rewrite E|done]]; unfold stage_row, job_row; rewrite E; [by left|done].
Qed.

(** The handler comes to [a'], and the world to [w']. *)
Definition goes (a' : activity) (w' : world Q) : Prop :=
  exists rt', w_heap w' !! pt = Some rt' /\ live_step w w' rt rt' (fun k => k = j /\ carries a') /\ settled w' rt' j a' /\
    (carries a -> complete_in rt s -> carries a' \/ followed w' rt' s) /\
    (forall k, k ∈ Pipeline_Jobs p -> k ≠ j -> job_row w' k = job_row w k) /\ row_live w' (worker_after a') j.

(** The stages of the runtime stay as they are. *)
Lemma goes_still a' w' rt' :
  w_heap w' !! pt = Some rt' -> rt' = rt \/ (exists t, rt' = set_startTimes t rt) -> w_runtimes w' = w_runtimes w -> rows_move w' a' ->
  (marked a' -> has_completed rt j) -> (forall k at_, a' = Finishing k at_ -> point_live w' rt s at_) ->
  (carries a -> complete_in rt s -> carries a' \/ followed w' rt s) -> goes a' w'.
Proof.
  intros Hw Hrt Hm [R1 R2 R3 R4] Hmark Hpt Hcar. exists rt'. split; [done|].
  assert (H : live_step w w' rt rt (fun k => k = j /\ carries a')).
  { split; try done; [apply L|by left|by left|]. left. by rewrite Hm. }
  destruct Hrt as [->|[t ->]]; [done|]. split; [by destruct H|done].
Qed.

Lemma has_completed_at rt0 x st k : rt_stageStates rt0 !! x = Some st -> Job_Stage k = x -> has_completed rt0 k <-> Job_Name k ∈ completed st.
Proof. intros E <-. unfold has_completed. by rewrite E. Qed.

Lemma set_stage_completed x st st' ready X k :
  rt_stageStates rt !! x = Some st -> handing p x st st' ready X ->
  has_completed (set_stage x st' rt) k <-> has_completed rt k \/ Job_Stage k = x /\ Job_Name k ∈ X.
Proof.
  intros Hst Hg. destruct (decide (Job_Stage k = x)) as [E|Hne].
  - rewrite (has_completed_at (set_stage x st' rt) x st' k) by (done || apply lookup_insert_eq).
    rewrite (has_completed_at rt x st k Hst E), (hg_completed _ _ _ _ _ _ Hg), elem_of_union. tauto.
  - unfold has_completed at 1. simpl. rewrite lookup_insert_ne by done. naive_solver.
Qed.

(** A stage of the runtime changes. *)
Lemma goes_stage a' w' x st st' ready X :
  w' = (update_runtime pt (set_stage x st') w).1 -> x ∈ stage_names -> rt_stageStates rt !! x = Some st ->
  handing p x st st' ready X -> alive x st' ->
  (forall k, k ∈ Pipeline_Jobs p -> Job_Stage k = x -> Job_Name k ∈ X -> k = j /\ carries a') ->
  (marked a' -> has_completed (set_stage x st' rt) j) ->
  (forall k, k ∈ Pipeline_Jobs p -> earlier (Job_Stage k) x -> has_completed rt k) ->
  (row_reported a' -> row_reported a) -> (forall k at_, a' = Finishing k at_ -> point_live w' (set_stage x st' rt) s at_) ->
  (carries a -> complete_in rt s -> carries a' \/ followed w' (set_stage x st' rt) s) -> goes a' w'.
Proof.
  intros -> Hx Hst Hg Hal HX Hmark Hord Hrow Hpt Hcar. exists (set_stage x st' rt).
  split; [simpl; by rewrite lookup_alter_eq, (ws_heap _ _ _ _ _ _ _ W)|].
  pose proof (rows_same (update_runtime pt (set_stage x st') w).1 a' eq_refl Hrow) as [R1 R2 R3 R4].
  pose proof (handing_hands_out p n ri Hvalid Hid _ _ _ _ _ _ Hst Hg) as [_ _ Hhand].
  pose proof (fun k => set_stage_completed x st st' ready X k Hst Hg) as Hcomp.
  split; [|done]. split; try done.
  - intros y sty Hy. simpl. destruct (decide (x = y)) as [<-|Hne].
    + rewrite lookup_insert_eq. by intros [= <-].
    + rewrite lookup_insert_ne by done. by apply (ly_alive _ _ _ _ _ L).
  - intros k Hk Hkh. apply Hhand; [done|by left].
  - intros k k' Hk Hk' Hkh He. apply Hhand in Hkh as [|Hin]; [by left| |done]. right. apply Hord; [done|].
    apply list_elem_of_fmap in Hin as (job & E & _). injection E as <- _. done.
  - intros k Hk Hc. apply Hcomp. by left.
  - intros k Hk [Hc|[E Hin]]%Hcomp; [by left|right]. by apply HX.
  - by left.
Qed.

(** The runtime is forgotten. *)
Lemma goes_forget a' w' :
  w' = (deleteRuntime pname n w).1 -> (forall k, k ∈ Pipeline_Jobs p -> has_completed rt k) -> run_row w = Some StatusSuccess ->
  (row_reported a' -> row_reported a) -> (forall k at_, a' ≠ Finishing k at_) ->
  followed w' rt s -> goes a' w'.
Proof.
  intros -> Hall Hrun Hrow Hpt Hf. exists rt. split; [apply W|].
  pose proof (rows_same (deleteRuntime pname n w).1 a' eq_refl Hrow) as [R1 R2 R3 R4]. split; [split; try done|].
  - apply L.
  - by left.
  - by left.
  - right. split_and!; [|done|done]. simpl. apply lookup_delete_eq.
  - split_and!; [split|by right|done|done]; [intros _; by apply Hall|]. intros k at_ E. by destruct (Hpt k at_).
Qed.

Context (i : nat).

Lemma live_point at_ : a = Finishing i at_ -> point_live w rt s at_.
Proof. intros E. rewrite E in Hdo. by eapply (ly_points _ _ _ _ _ L). Qed.

Lemma marked_completed : marked a -> has_completed rt j.
Proof. by apply (ly_marked _ _ _ _ _ L). Qed.

(** The job of a handler that is past marking it has completed. *)
#[local] Ltac completed_by Ea :=
  let H := fresh "Hmarked" in pose proof marked_completed as H; rewrite Ea in H; specialize (H I).

Lemma own_stage : s ∈ stage_names.
Proof. by apply (vp_job_stage _ Hvalid). Qed.

Lemma own_state : exists st, rt_stageStates rt !! s = Some st /\ stage_ok p s st /\ alive s st.
Proof.
  destruct (rs_stages _ _ _ _ _ (ws_runtime _ _ _ _ _ _ _ W) _ own_stage) as (st & E & H).
  exists st. split_and!; [done|done|]. by apply (ly_alive _ _ _ _ _ L), E; first apply own_stage.
Qed.

Lemma complete_in_iff x st :
  x ∈ stage_names -> rt_stageStates rt !! x = Some st -> isStageComplete st = true <-> complete_in rt x.
Proof.
  intros Hx Hst. rewrite (stage_complete_iff p n ri rt executed x st (ws_runtime _ _ _ _ _ _ _ W) Hx Hst).
  split; intros H k Hk; pose proof (proj1 (jobsForStage_elem _ _ _) Hk) as [_ E].
  - apply (has_completed_at rt x st k Hst E). by apply H.
  - apply (has_completed_at rt x st k Hst E). by apply H.
Qed.

Lemma wp_with_stage {A} x st (none : A) (k : pipelineRuntime -> stageState -> M (Q := Q) A) Φ :
  rt_stageStates rt !! x = Some st -> wp (k rt st) Φ w -> wp (with_stage pt x none k) Φ w.
Proof. intros Hst. unfold wp. by rewrite (with_stage_ok pt x none k w rt st (ws_heap _ _ _ _ _ _ _ W) Hst). Qed.

Lemma wp_publish job x next Φ :
  (forall w', w_heap w' = w_heap w -> w_db w' = w_db w -> w_runtimes w' = w_runtimes w -> Φ next w') ->
  wp (rt ← load pt; enqueue (buildJobExecutionMessage n pname x job (rt_runInfo rt));; mret (next : point)) Φ w.
Proof.
  intros HΦ. apply wp_bind, (wp_load _ rt); [apply W|]. apply wp_bind. unfold wp at 1, enqueue.
  destruct (enqueueJob_healthy (buildJobExecutionMessage n pname x job (rt_runInfo rt)) _ (proj2 Hcalm)) as (q & E & _ & _).
  rewrite E. apply wp_ret. by apply HΦ.
Qed.

(** A step that touches neither the tables nor the runtimes. *)
Lemma goes_on a' w' :
  w_heap w' = w_heap w -> w_db w' = w_db w -> w_runtimes w' = w_runtimes w -> (row_reported a' -> row_reported a) ->
  (marked a' -> has_completed rt j) -> (forall k at_, a' = Finishing k at_ -> point_live w' rt s at_) ->
  (carries a -> complete_in rt s -> carries a' \/ followed w' rt s) -> goes a' w'.
Proof.
  intros E1 E2 E3 Hr Hm Hp Hc. apply (goes_still _ _ rt); [rewrite E1; apply W|by left|done|by apply rows_same|done|done|done].
Qed.

(** *** Before the job is marked *)

Lemma live_FinishJob : a = Finishing i FinishJob ->
  wp (finish_step (verdict i m) FinishJob) (fun at' w' => goes (after_finish i (ok at')) w') w.
Proof.
  intros Ea. destruct (verdict_fields error_text env stat docker p n ri j i) as (E1 & E2 & E3 & E4).
  destruct (verdict_accepted error_text env stat docker p n ri Hvalid Hid j i Hj) as [V1 V2].
  cbv beta iota zeta delta [finish_step]. rewrite V1, V2, E1, E2, E3, E4.
  apply wp_bind, wp_finishJob; [apply Hcalm|]. intros w' t Lw. apply wp_ret.
  apply (goes_still _ _ rt); [rewrite (ld_heap _ _ _ _ _ _ Lw); apply W|by left|apply (ld_map _ _ _ _ _ _ Lw)| | | |].
  - eapply rows_job; [apply (ld_db _ _ _ _ _ _ Lw)|]. intros _ _. rewrite verdict_status.
    destruct (execution _ _ _ _) as [? [? [e|]]]; auto.
  - done.
  - by intros ? at_ [= _ <-].
  - by rewrite Ea.
Qed.

(** A handler that finds the runtime marks its job as succeeded. *)
Lemma get_live : w_runtimes w !! key = Some pt -> a = Finishing i GetRuntime ->
  wp (finish_step (verdict i m) GetRuntime) (fun at' w' => goes (after_finish i (ok at')) w') w.
Proof.
  intros Hmap Ea. destruct (verdict_fields error_text env stat docker p n ri j i) as (E1 & E2 & E3 & E4).
  cbv beta iota zeta delta [finish_step]. rewrite E1, E2, E3, E4.
  apply wp_bind, (wp_getRuntime _ _ pt rt); [done|apply W|]. destruct own_state as (st & Hst & _ & [Hcfg _]). rewrite Hst.
  apply wp_ret. destruct (Hcfg j) as (cfg & Ecfg & Eallow); [by apply jobsForStage_elem|]. rewrite Ecfg. simpl.
  assert (Hat : (if decide (TrimSpace (Cb_Status (verdict i m)) = StatusFailed) then if allowFailures cfg then MarkSucceeded pt
    else MarkTerminal pt else MarkSucceeded pt) = MarkSucceeded pt).
  { case_decide as Hf; [|done]. rewrite verdict_status in Hf. rewrite Eallow.
    destruct (Hpass j i Hj) as [Hok|(k & Hk & Ek & Hfail)].
    - destruct (execution env stat (attempt docker i) m) as [? [? [e|]]]; [done|]. by unfold StatusSuccess, StatusFailed in Hf.
    - by rewrite (job_message_inj p n ri Hvalid j k Hj Hk Ek), Hfail. }
  rewrite Hat. apply goes_on; rewrite ?Ea; try done. by intros ? at_ [= _ <-].
Qed.

(** When the runtime is forgotten, every job has completed. *)
Lemma live_GetRuntime : a = Finishing i GetRuntime ->
  wp (finish_step (verdict i m) GetRuntime) (fun at' w' => goes (after_finish i (ok at')) w') w.
Proof.
  intros Ea. destruct (ws_map _ _ _ _ _ _ _ W) as [Hmap|Hmap]; [by apply get_live|].
  destruct (ly_map _ _ _ _ _ L) as [E|[Hall _]]; [by rewrite Hmap in E|].
  destruct (verdict_fields error_text env stat docker p n ri j i) as (E1 & E2 & E3 & E4).
  cbv beta iota zeta delta [finish_step]. rewrite E1, E2. apply wp_bind. unfold wp at 1, getPipelineRuntime. rewrite Hmap. simpl.
  apply wp_ret. apply goes_on; rewrite ?Ea; try done. intros _. by apply Hall.
Qed.

(** Marking a job a second time changes nothing. *)
Lemma live_MarkSucceeded : a = Finishing i (MarkSucceeded pt) ->
  wp (finish_step (verdict i m) (MarkSucceeded pt)) (fun at' w' => goes (after_finish i (ok at')) w') w.
Proof.
  intros Ea. destruct (verdict_fields error_text env stat docker p n ri j i) as (E1 & E2 & E3 & E4).
  cbv beta iota zeta delta [finish_step]. rewrite E3, E4. destruct own_state as (st & Hst & Hok & Hal).
  eapply wp_with_stage; [exact Hst|]. pose proof (markJobSucceeded_handing p n Hvalid Hid _ st (Job_Name j) Hok) as Hg.
  destruct (markJobSucceeded st (Job_Name j)) as [st' ready] eqn:Em. assert (Hal' : alive s st').
  { destruct (decide (Job_Name j ∈ completed st)) as [Hin|Hnot].
    - unfold markJobSucceeded in Em. rewrite decide_True in Em by done. by injection Em as <- _.
    - by destruct (mark_alive s st st' ready (Job_Name j) Hal) as (? & _ & _); [apply (handed_out_at rt s st j Hst)|..]. }
  apply wp_bind. unfold wp at 1, update_runtime. apply wp_ret.
  eapply (goes_stage _ _ s st st' ready {[Job_Name j]}); [done|apply own_stage|done|done|done| | | | | |]; rewrite ?Ea; try done.
  - intros k Hk _ Hin%elem_of_singleton. split; [|done].
    by apply (NoDup_name_inj _ _ _ (vp_jobs_unique _ Hvalid) Hk Hj).
  - intros _. apply (set_stage_completed s st st' ready {[Job_Name j]} j Hst Hg). right. set_solver.
  - intros k Hk He. by apply (ly_order _ _ _ _ _ L j k).
  - by intros ? at_ [= _ <-].
Qed.

(** *** After the job is marked: its own stage *)

Lemma live_PublishReady jobs : a = Finishing i (PublishReady pt jobs) ->
  wp (finish_step (verdict i m) (PublishReady pt jobs)) (fun at' w' => goes (after_finish i (ok at')) w') w.
Proof.
  intros Ea. completed_by Ea. destruct (verdict_fields error_text env stat docker p n ri j i) as (E1 & E2 & E3 & E4).
  cbv beta iota zeta delta [finish_step]. rewrite E1, E2, E3. destruct jobs as [|job jobs].
  - apply wp_ret. apply goes_on; rewrite ?Ea; try done. + by intros ? at_ [= _ <-]. + by left.
  - apply wp_publish. intros w' Q1 Q2 Q3. apply goes_on; rewrite ?Ea; try done. + by intros ? at_ [= _ <-]. + by left.
Qed.

Lemma live_CheckStage : a = Finishing i (CheckStage pt) ->
  wp (finish_step (verdict i m) (CheckStage pt)) (fun at' w' => goes (after_finish i (ok at')) w') w.
Proof.
  intros Ea. completed_by Ea. destruct (verdict_fields error_text env stat docker p n ri j i) as (E1 & E2 & E3 & E4).
  cbv beta iota zeta delta [finish_step]. rewrite E3. destruct own_state as (st & Hst & Hok & Hal).
  eapply wp_with_stage; [exact Hst|]. apply wp_ret. pose proof (complete_in_iff s st own_stage Hst) as Hiff.
  destruct (isStageComplete st); apply goes_on; rewrite ?Ea; try done.
  - intros ? at_ [= _ <-]. by apply Hiff.
  - by left.
  - intros _ Hc. by apply Hiff in Hc.
Qed.

Lemma live_FinishStage : a = Finishing i (FinishStage pt) ->
  wp (finish_step (verdict i m) (FinishStage pt)) (fun at' w' => goes (after_finish i (ok at')) w') w.
Proof.
  intros Ea. completed_by Ea. destruct (verdict_fields error_text env stat docker p n ri j i) as (E1 & E2 & E3 & E4).
  cbv beta iota zeta delta [finish_step]. rewrite E1, E2, E3.
  apply wp_bind, wp_finishStage; [apply Hcalm|]. intros w' t Lw. apply wp_ret.
  destruct (rows_stage w' (after_finish i (ok (PollNext pt))) s (Some t) (ld_db _ _ _ _ _ _ Lw)) as [Hr Hs]; [by rewrite Ea|].
  apply (goes_still _ _ rt); [rewrite (ld_heap _ _ _ _ _ _ Lw); apply W|by left|apply (ld_map _ _ _ _ _ _ Lw)|done| | |]; rewrite ?Ea; try done.
  - intros ? at_ [= _ <-]. split; [exact (live_point _ Ea)|apply Hs, own_stage].
  - by left.
Qed.

Lemma live_FinishRun : a = Finishing i FinishRun ->
  wp (finish_step (verdict i m) FinishRun) (fun at' w' => goes (after_finish i (ok at')) w') w.
Proof.
  intros Ea. completed_by Ea. destruct (verdict_fields error_text env stat docker p n ri j i) as (E1 & E2 & E3 & E4).
  cbv beta iota zeta delta [finish_step]. rewrite E1, E2.
  destruct (live_point _ Ea) as (Hc & Hst & Hn).
  apply wp_bind, wp_finishRun; [apply Hcalm|by left|]. intros w' t Lw. apply wp_ret.
  destruct (rows_run w' (after_finish i (ok DeleteRun)) t (ld_db _ _ _ _ _ _ Lw)) as [Hr Hs]; [by rewrite Ea|].
  apply (goes_still _ _ rt); [rewrite (ld_heap _ _ _ _ _ _ Lw); apply W|by left|apply (ld_map _ _ _ _ _ _ Lw)|done| | |]; rewrite ?Ea; try done.
  - intros ? at_ [= _ <-]. split_and!; [done| |done|done]. by eapply success_stays; [apply Hr, own_stage|].
  - by left.
Qed.

(** The last stage is complete, and so are all stages before it. *)
Lemma last_complete : nextStageName stage_names s = None -> complete_in rt s -> forall k, k ∈ Pipeline_Jobs p -> has_completed rt k.
Proof.
  intros Hn Hc k Hk. destruct (decide (Job_Stage k = s)) as [E|Hne]; [by apply Hc, jobsForStage_elem|].
  apply (ly_order _ _ _ _ _ L j k); [done..|]. pose proof own_stage as Hs. pose proof (vp_job_stage _ Hvalid k Hk) as Hks.
  apply list_elem_of_split in Hs as (past & future & E). rewrite (next_stage p n Hvalid Hid past s future (eq_sym E)) in Hn.
  destruct future; [|done]. exists past, []. split; [done|]. rewrite E in Hks. set_solver.
Qed.

Lemma live_DeleteRun : a = Finishing i DeleteRun ->
  wp (finish_step (verdict i m) DeleteRun) (fun at' w' => goes (after_finish i (ok at')) w') w.
Proof.
  intros Ea. completed_by Ea. destruct (verdict_fields error_text env stat docker p n ri j i) as (E1 & E2 & E3 & E4).
  cbv beta iota zeta delta [finish_step]. rewrite E1, E2.
  destruct (live_point _ Ea) as (Hc & Hst & Hn & Hr).
  apply wp_bind. unfold wp at 1, deleteRuntime. apply wp_ret.
  apply goes_forget; rewrite ?Ea; try done; [by apply last_complete|].
  split; [done|]. rewrite Hn. split; [done|]. simpl. apply lookup_delete_eq.
Qed.

(** *** After the job is marked: the next stage *)

Lemma polled_intro rt0 x st : rt_stageStates rt0 !! x = Some st -> alive x st -> queued st ≠ ∅ -> polled rt0 x.
Proof.
  intros Hst [_ [(_ & Hq & _)|(sp & Hsp & Hl & _)]] Hne; [done|]. destruct (set_choose_L _ Hne) as [y Hy].
  pose proof (proj1 (si_queued _ _ _ _ _ _ _ (li_inv _ _ _ _ _ _ Hl) y) Hy) as Hin.
  apply (sent_in_jobs x p sp _ _ _ y (li_inv _ _ _ _ _ _ Hl)) in Hin as (k & -> & Hk)%list_elem_of_fmap.
  exists k. split; [done|]. apply (handed_out_at rt0 x st k Hst); [by apply jobsForStage_elem in Hk as [_ ?]|done].
Qed.

Lemma live_PollNext : a = Finishing i (PollNext pt) ->
  wp (finish_step (verdict i m) (PollNext pt)) (fun at' w' => goes (after_finish i (ok at')) w') w.
Proof.
  intros Ea. completed_by Ea. destruct (verdict_fields error_text env stat docker p n ri j i) as (E1 & E2 & E3 & E4).
  cbv beta iota zeta delta [finish_step]. rewrite E3. destruct (live_point _ Ea) as (Hc & Hst).
  apply wp_bind, (wp_load _ rt); [apply W|]. pose proof (ws_runtime _ _ _ _ _ _ _ W) as R.
  rewrite (ro_order _ _ _ _ (rs_ok _ _ _ _ _ R)). destruct (nextStageName stage_names s) as [next|] eqn:En.
  2:{ apply wp_ret. apply goes_on; rewrite ?Ea; try done; [by intros ? at_ [= _ <-]|by left]. }
  assert (Hin : next ∈ stage_names) by (destruct (next_split p n Hvalid Hid _ _ own_stage En) as (? & ? & ->); set_solver).
  destruct (rs_stages _ _ _ _ _ R next Hin) as (st & Hstn & Hok). eapply wp_with_stage; [exact Hstn|].
  pose proof (getReadyJobs_handing p n Hvalid Hid _ st Hok) as Hg. destruct (getReadyJobs st) as [st' ready] eqn:Ep.
  destruct (poll_alive next st st' ready Hin (ly_alive _ _ _ _ _ L _ _ Hin Hstn) Ep) as (Hal & _ & Hq & _).
  apply wp_bind. unfold wp at 1, update_runtime. apply wp_ret.
  eapply (goes_stage _ _ next st st' ready ∅); [done|done|done|exact Hg|done| | | | | |]; rewrite ?Ea; try done.
  - intros _. apply (set_stage_completed next st st' ready ∅ j Hstn Hg). by left.
  - intros k Hk He. destruct (earlier_next p n Hvalid Hid _ _ _ own_stage En He) as [E|He'].
    + by apply Hc, jobsForStage_elem.
    + by apply (ly_order _ _ _ _ _ L j k).
  - by intros ? at_ [= _ <-].
  - intros _ _. right. split; [done|]. rewrite En. eapply polled_intro; [apply lookup_insert_eq|done|done].
Qed.

Lemma live_next at_ : a = Finishing i at_ -> point_ok p n pt ri executed m at_ ->
  match at_ with PublishNext _ _ _ | CheckNext _ _ | FinishNext _ | Returned => True | _ => False end ->
  wp (finish_step (verdict i m) at_) (fun at' w' => goes (after_finish i (ok at')) w') w.
Proof.
  intros Ea Hp Hat. destruct (verdict_fields error_text env stat docker p n ri j i) as (E1 & E2 & E3 & E4).
  destruct at_ as [| | | | | | |q next jobs|q next|next| | | | | |]; try done; simpl in Hp; try destruct Hp as [-> Hin];
    completed_by Ea; cbv beta iota zeta delta [finish_step]; rewrite ?E1, ?E2.
  - destruct jobs as [|job jobs]; [apply wp_ret; apply goes_on; rewrite ?Ea; try done; by intros ? at_ [= _ <-]|].
    apply wp_publish. intros w' Q1 Q2 Q3. apply goes_on; rewrite ?Ea; try done. by intros ? at_ [= _ <-].
  - destruct (rs_stages _ _ _ _ _ (ws_runtime _ _ _ _ _ _ _ W) next Hin) as (st & Hstn & _). eapply wp_with_stage; [exact Hstn|].
    apply wp_ret. destruct (isStageComplete st); apply goes_on; rewrite ?Ea; try done. by intros ? at_ [= _ <-].
  - apply wp_bind, wp_finishStage; [apply Hcalm|]. intros w' t Lw. apply wp_ret.
    destruct (rows_stage w' (after_finish i (ok Returned)) next (Some t) (ld_db _ _ _ _ _ _ Lw)) as [Hr _]; [by rewrite Ea|].
    apply (goes_still _ _ rt); [rewrite (ld_heap _ _ _ _ _ _ Lw); apply W|by left|apply (ld_map _ _ _ _ _ _ Lw)|done| | |]; by rewrite ?Ea.
  - apply wp_ret. apply goes_on; by rewrite ?Ea.
Qed.

Lemma live_finish at_ w' r : a = Finishing i at_ -> point_ok p n pt ri executed m at_ ->
  finish_step (verdict i m) at_ w = (w', r) -> exists at', r = ok at' /\ goes (after_finish i r) w'.
Proof.
  intros Ea Hp Hs. cut (wp (finish_step (verdict i m) at_) (fun at' w' => goes (after_finish i (ok at')) w') w).
  { intros (w1 & at1 & E & H)%wp_run. rewrite Hs in E. injection E as -> ->. by exists at1. }
  pose proof (live_point _ Ea) as Hl. clear Hs.
  destruct at_ as [| |q|q jobs|q|q|q|q next jobs|q next|next|q| | | | |]; try done; try (by apply live_next);
    simpl in Hp; try first [subst q|destruct Hp as [-> _]];
    first [by apply live_FinishJob|by apply live_GetRuntime|by apply live_MarkSucceeded|by apply live_PublishReady|by apply live_CheckStage
          |by apply live_FinishStage|by apply live_PollNext|by apply live_FinishRun|by apply live_DeleteRun].
Qed.

(** *** Before the job is reported *)

Lemma live_start at_ w' r : a = Starting at_ -> start_step (startedRequest m) at_ w = (w', r) ->
  exists at', r = ok at' /\ at' ≠ MarkRunning /\ goes (after_start r) w'.
Proof.
  intros Ea Hs. cut (wp (start_step (startedRequest m) at_) (fun at' w' => at' ≠ MarkRunning /\ goes (after_start (ok at')) w') w).
  { intros (w1 & at1 & E & H)%wp_run. rewrite Hs in E. injection E as -> ->. by exists at1. }
  clear Hs. assert (Hmi : missing_identity (startedRequest m) = false) by (by apply (identity_of_message p n Hvalid Hid j)).
  destruct at_; simpl.
  - rewrite Hmi. apply wp_bind. unfold wp at 1, markJobRunning, store_call. rewrite (proj1 Hcalm). simpl. apply wp_ret. split; [done|].
    apply (goes_still _ _ rt); [apply W|by left|done| |done|done|by rewrite Ea]. eapply rows_job; [done|].
    intros Hp Hr. unfold worker_after in Hr. destruct own; [done|]. by destruct (Hown Hp).
  - unfold noteJobStarted. apply wp_bind. unfold wp at 1, mbind, M_bind, getPipelineRuntime. simpl.
    destruct (ws_map _ _ _ _ _ _ _ W) as [E|E]; rewrite E; simpl.
    2:{ apply wp_ret. split; [done|]. apply goes_on; by rewrite ?Ea. }
    rewrite (ws_heap _ _ _ _ _ _ _ W). simpl. apply wp_ret. split; [done|].
    eapply goes_still; [simpl; by rewrite lookup_alter_eq, (ws_heap _ _ _ _ _ _ _ W)|right; by eexists|done| |done|done|by rewrite Ea].
    by apply rows_same.
  - apply wp_ret. split; [done|]. apply goes_on; by rewrite ?Ea.
Qed.

(** A handler whose worker was lost ends when there is nothing left to do for it. *)
Lemma goes_idle a' w' : own = false -> ~ carries a -> ~ carries a' -> goes a' w' -> goes Idle w'.
Proof.
  intros Eo Ha Ha' (rt' & Hheap & S & _ & _ & Hrows & Hrow). exists rt'. split_and!; [done| | |done|done|].
  - destruct S. split; try done. intros k Hk Hc. destruct (st_newly0 k Hk Hc) as [|[_ ?]]; [by left|done].
  - done.
  - unfold worker_after in *. by rewrite Eo in *.
Qed.

Lemma live_idle : a = Idle -> goes (Starting MarkRunning) w.
Proof. intros Ea. apply goes_on; by rewrite ?Ea. Qed.
Lemma live_execute : a = Executing -> goes (Finishing i FinishJob) w.
Proof. intros Ea. apply goes_on; rewrite ?Ea; try done. by intros ? at_ [= _ <-]. Qed.
Lemma live_lost : a = Executing -> goes Idle w.
Proof. intros Ea. apply goes_on; by rewrite ?Ea. Qed.
End handler.

(** *** One step of the goroutine *)

Section dispatcher.
Context (executed : list JobExecutionMessage) (w : world Q) (rt : pipelineRuntime).
Context (doing : Job -> activity -> Prop) (worker : Job -> activity) (d : dispatch_point).
Context (L : lively w rt doing worker d) (W : world_safe p n pt ri w rt executed) (Hcalm : calm w) (Hd : dispatch_ok p rt d).

Definition dispatcher_goes (w' : world Q) (d' : dispatch_point) : Prop :=
  exists rt', w_heap w' !! pt = Some rt' /\ live_step w w' rt rt' (fun _ => False) /\ w_db w' = w_db w /\ dispatch_live rt' d'.

Lemma still w' : w_db w' = w_db w -> w_runtimes w' = w_runtimes w -> live_step w w' rt rt (fun _ => False).
Proof.
  intros E2 E3. split; unfold run_row, stage_row; rewrite ?E2, ?E3; auto. apply L.
Qed.

Lemma dispatcher_still w' d' :
  w_heap w' = w_heap w -> w_db w' = w_db w -> w_runtimes w' = w_runtimes w -> dispatch_live rt d' -> dispatcher_goes w' d'.
Proof. intros E1 E2 E3 Hp. exists rt. split; [rewrite E1; apply W|]. split; [by apply still|done]. Qed.

Lemma live_Scan l w' r : d = Scan l -> dispatch_step pt (Scan l) w = (w', r) -> dispatcher_goes w' (after_dispatch r).
Proof.
  intros Ed Hs. rewrite Ed in Hd. destruct Hd as [El Hu]. unfold dispatch_step, mbind at 1, M_bind at 1 in Hs.
  rewrite (load_ok pt rt w (ws_heap _ _ _ _ _ _ _ W)) in Hs. unfold ok in Hs. cbv iota beta in Hs. destruct l as [|x l].
  { exfalso. destruct (vp_some_stage _ Hvalid). by destruct (Pipeline_Stages p). }
  assert (Hin : StageExec_Name x ∈ stage_names) by (rewrite <- El; left).
  destruct (rs_stages _ _ _ _ _ (ws_runtime _ _ _ _ _ _ _ W) _ Hin) as (st & Hst & Hok). rewrite Hst in Hs.
  pose proof (getReadyJobs_handing p n Hvalid Hid _ st Hok) as Hg. destruct (getReadyJobs st) as [st' ready] eqn:Ep.
  destruct (Hu _ Hin) as (st0 & Hst0 & Hf). rewrite Hst in Hst0. injection Hst0 as <-.
  destruct (poll_alive _ st st' ready Hin (ly_alive _ _ _ _ _ L _ _ Hin Hst) Ep) as (Hal & _ & Hq & _).
  pose proof (first_ready p n Hvalid Hid _ _ _ _ Hin Hf Ep) as Hne. destruct ready as [|job ready]; [done|]. injection Hs as <- <-.
  exists (set_stage (StageExec_Name x) st' rt). split; [simpl; by rewrite lookup_alter_eq, (ws_heap _ _ _ _ _ _ _ W)|].
  assert (Hpol : polled (set_stage (StageExec_Name x) st' rt) (StageExec_Name x)) by (eapply polled_intro; [apply lookup_insert_eq|done..]).
  pose proof (handing_hands_out p n ri Hvalid Hid _ _ _ _ _ _ Hst Hg) as [_ _ Hhand].
  pose proof (fun k => set_stage_completed rt _ st st' _ ∅ k Hst Hg) as Hcomp.
  split; [|split; [done|intros s rest E; simpl in El; rewrite E in El; by injection El as <- _]].
  split; try done; try by left.
  - intros y sty Hy. simpl. destruct (decide (StageExec_Name x = y)) as [<-|Hn].
    + rewrite lookup_insert_eq. by intros [= <-].
    + rewrite lookup_insert_ne by done. by apply (ly_alive _ _ _ _ _ L).
  - intros k Hk Hkh. apply Hhand; [done|by left].
  - intros k k' Hk Hk' Hkh He. apply Hhand in Hkh as [|Hnew]; [by left| |done]. exfalso.
    apply list_elem_of_fmap in Hnew as (job' & E & _). injection E as E _. rewrite E in He.
    by destruct (nothing_earlier p Hvalid _ _ _ (eq_sym El) He).
  - intros k Hk Hc. apply Hcomp. by left.
  - intros k Hk [Hc|[_ Hx]]%Hcomp; [by left|set_solver].
Qed.

Lemma live_dispatch w' r : dispatch_done d = None -> dispatch_step pt d w = (w', r) -> dispatcher_goes w' (after_dispatch r).
Proof.
  intros Hnd Hs. pose proof (ly_dispatch _ _ _ _ _ L) as Hl. pose proof (fun l => live_Scan l w' r) as Hscan.
  pose proof dispatcher_still as Hstill. destruct d as [l| |x jobs| | |]; try done; [by eapply Hscan|].
  unfold dispatch_step, mbind at 1, M_bind at 1 in Hs. rewrite (load_ok pt rt w (ws_heap _ _ _ _ _ _ _ W)) in Hs.
  unfold ok in Hs. cbv iota beta in Hs. destruct jobs as [|job jobs]; [injection Hs as <- <-; by apply Hstill|].
  unfold or_abort, catch, mbind, M_bind, enqueue in Hs.
  destruct (enqueueJob_healthy (buildJobExecutionMessage (rt_runNo rt) (rt_pipeline rt) x job (rt_runInfo rt)) _ (proj2 Hcalm)) as (q & E & _ & _).
  rewrite E in Hs. injection Hs as <- <-. by apply Hstill.
Qed.
End dispatcher.
End lively.
