(* ===== verification/Completion.v ===== *)
(** * Interleaved runs end, and end as a success when every job passes

    The system of Concurrent over a store and a queue in which nothing fails.
    Theorems: whatever the jobs' verdicts and the schedule, an execution has at most
    two steps, seventeen per job, and seventeen again per worker lost on the way;
    and if every execution of a job passes, when nobody can make another step every
    job was published once and executed, the run and its stages are recorded as
    successful and the runtime is forgotten, however many workers were lost. The
    rows of the jobs are then terminal too, unless a started callback was lost
    before it reached its row. The last part executes schedules: a
    started callback handled late leaves the row of a finished job as running. *)

From stdpp Require Import functions.
From S2P Require Import Prelude GoStrings Archive Models Graph Wellformed Planner Store StageState Mq Publisher Orchestrator Execution Http Worker Validation Parser Endpoints Callbacks System Steps Concurrent Lively.

Section completion.
Context {C : Collation} {Q : Type} {J : JobSink Q} {F : GoFloat}.
Context (error_text : goerr -> string).
Context (env : string -> string) (stat : string -> bool) (docker : JobExecutionMessage -> nat -> docker_env).
Context (p : Pipeline) (n : Z) (pt : ptr) (ri : runInfo) (Hvalid : valid_pipeline p) (Hid : identifiable p n).

Abbreviation step := (step error_text env stat docker p n pt).
Abbreviation schedule := (schedule error_text env stat docker p n pt).
Abbreviation pname := (Pipeline_Name p).
Abbreviation stage_names := (fmap (M:=list) Stage_Name (Pipeline_Stages p)).
Abbreviation job_message := (job_message p n ri).
Abbreviation key := (runtimeKey pname n).
Abbreviation safe_at := (safe_at p n pt ri).
Abbreviation launched := (launched p n pt ri).
Abbreviation published c := (sent_messages p n (cf_world c)).

(** ** Termination *)

Definition ended (c : config (Q := Q)) : Prop := forall a, step a c = None.

Lemma start_measure w rt stages : launched w rt stages ->
  measure p n ri (concurrent_start w stages) rt = 17 * length (Pipeline_Jobs p) + 2.
Proof.
  intros L. unfold measure, work, unsent. simpl.
  assert (E : forall l : list JobExecutionMessage, sum_list ((fun _ => 16) <$> l) = 16 * length l).
  { intros l. induction l as [|x l IH]; [done|]. cbn in *. lia. }
  assert (filter (fun j => ~ handed_out rt j) (Pipeline_Jobs p) = Pipeline_Jobs p) as ->.
  { assert (H : forall l : list Job, (forall j, j ∈ l -> ~ handed_out rt j) -> filter (fun j => ~ handed_out rt j) l = l).
    { induction l as [|j l IH]; intros Hl; [done|]. rewrite filter_cons_True by (apply Hl; left). f_equal. apply IH. set_solver. }
    apply H. intros j Hj Hh. destruct (la_fresh _ _ _ _ _ _ _ L (Job_Stage j)) as (st & Hst & _ & Hq & _).
    { by apply (vp_job_stage _ Hvalid). }
    apply (handed_out_at rt _ st j Hst eq_refl) in Hh. rewrite Hq in Hh. set_solver. }
  rewrite E, length_fmap. lia.
Qed.

(** A handler that is not done. *)
Definition active (a : activity) : Prop := match a with Starting _ | Finishing _ _ => True | _ => False end.

(** Who can make a step. *)
Lemma ended_iff c rt : safe_at c rt -> undoubled p n (cf_world c) ->
  ended c <-> is_Some (dispatch_done (cf_dispatch c)) /\ (forall m, m ∈ published c -> cf_act c m = Reported) /\
    (forall m a, (m, a) ∈ cf_orphans c -> ~ active a).
Proof.
  intros S Hset. split.
  - intros He. split_and!.
    + specialize (He Dispatcher). simpl in He. destruct (dispatch_done _); [done|]. by destruct (dispatch_step _ _ _).
    + intros m Hm. specialize (He (WorkerOf m)). simpl in He. rewrite decide_True in He by done.
      destruct (cf_act c m); try done; [by destruct (start_step _ _ _)|by destruct (finish_step _ _ _)].
    + intros m a [i Hi]%list_elem_of_lookup Ha. specialize (He (Orphan i)). simpl in He. rewrite Hi in He. simpl in He.
      destruct a; try done; [by destruct (start_step _ _ _)|by destruct (finish_step _ _ _)].
  - intros ([r Hd] & Hall & Horph).
    assert (Hact : forall m, cf_act c m = Idle \/ cf_act c m = Reported).
    { intros m. destruct (cf_act c m) eqn:Ea; auto; right; rewrite <- Ea; apply Hall, (sf_act _ _ _ _ _ _ S); by rewrite Ea. }
    intros a. destruct (step a c) as [c'|] eqn:Es; [|done].
    pose proof (undoubled_actor error_text env stat docker p n pt ri a c c' rt S Hset Es) as Hact'. rewrite <- Es. clear Es.
    destruct a as [|m|m|m|i|m|i|i|i]; try done; simpl; [by rewrite Hd| | | |].
    + case_decide as Hm; [by rewrite (Hall m Hm)|]. by destruct (Hact m) as [-> | ->].
    + by destruct (Hact m) as [-> | ->].
    + by destruct (Hact m) as [-> | ->].
    + destruct (cf_orphans c !! i) as [[m a]|] eqn:Ei; [|done]. simpl. apply list_elem_of_lookup_2, Horph in Ei. by destruct a.
Qed.

(** Whatever the verdicts of the jobs, when nothing fails an execution that
    starts with the dispatch of a run ends: it has at most two steps, seventeen per
    job, and seventeen again for each time that a worker is lost while it runs its
    job or reports, whatever the schedule; and it can go on as long as the goroutine
    is not done, some published message is not reported, or the handler of a lost
    report still runs. *)
Theorem concurrent_terminates w rt stages s c :
  launched w rt stages -> calm w -> schedule s (concurrent_start w stages) = Some c ->
  length s <= 17 * (length (Pipeline_Jobs p) + losses s) + 2 /\
  (ended c <-> is_Some (dispatch_done (cf_dispatch c)) /\ (forall m, m ∈ published c -> cf_act c m = Reported) /\
     (forall m a, (m, a) ∈ cf_orphans c -> ~ active a)).
Proof.
  intros L Hc Hs. pose proof (start_safe p n pt ri Hvalid Hid _ _ _ L) as S.
  destruct (schedule_length error_text env stat docker p n pt ri Hvalid Hid _ _ _ _ S Hc (launched_undoubled _ _ _ _ _ _ _ L) Hs)
    as (rt' & S' & _ & Hset & Hl).
  rewrite (start_measure w rt stages L) in Hl. split; [unfold loss in Hl; lia|]. by eapply ended_iff.
Qed.

(** [prompt]: no worker was lost before its started callback reached the row of its job. *)
Section live.
Context (Hpass : forall j k, j ∈ Pipeline_Jobs p -> passes env stat (attempt docker k) p n ri (job_message j)).
Context (prompt : Prop).
Abbreviation lively := (lively p n pt prompt).
Abbreviation goes := (goes p n pt prompt).

(** ** Whole executions *)

(** The activities of the handlers of [j]. *)
Definition doing (c : config (Q := Q)) (j : Job) (a : activity) : Prop :=
  cf_act c (job_message j) = a \/ active a /\ (job_message j, a) ∈ cf_orphans c.

Record live_at (c : config) (rt : pipelineRuntime) : Prop := {
  lv_safe : safe_at c rt;
  lv_calm : calm (cf_world c);
  lv_undoubled : undoubled p n (cf_world c);
  lv_accounted : accounted p n ri c rt;
  lv_prompt : prompt -> forall m, (m, Starting MarkRunning) ∉ cf_orphans c;
  lv_lively : lively (cf_world c) rt (doing c) (fun j => cf_act c (job_message j)) (cf_dispatch c);
}.

Section step.
Context (extra : nat) (c c' : config (Q := Q)) (rt rt' : pipelineRuntime).
Context (H : live_at c rt) (A : advances p n pt ri extra c rt c' rt').

Lemma step_heap rt1 : w_heap (cf_world c') !! pt = Some rt1 -> rt1 = rt'.
Proof. pose proof (ws_heap _ _ _ _ _ _ _ (sf_world _ _ _ _ _ _ (av_safe _ _ _ _ _ _ _ _ _ A))) as E. congruence. Qed.

(** A step of the handler of [j]'s worker, or of a lost worker, from [a] to [a']. *)
Lemma handler_live j a a' own :
  j ∈ Pipeline_Jobs p -> doing c j a -> goes (cf_world c) rt (fun j => cf_act c (job_message j)) j a own a' (cf_world c') ->
  cf_dispatch c' = cf_dispatch c ->
  (forall k b, k ∈ Pipeline_Jobs p -> doing c' k b -> doing c k b \/ k = j /\ b = a') ->
  (forall k b, k ∈ Pipeline_Jobs p -> doing c k b -> carries b -> doing c' k b \/ k = j /\ b = a) ->
  (carries a' -> doing c' j a') ->
  (forall k, k ∈ Pipeline_Jobs p -> k ≠ j -> cf_act c' (job_message k) = cf_act c (job_message k)) ->
  cf_act c' (job_message j) = worker_after (fun j => cf_act c (job_message j)) j own a' ->
  (prompt -> forall m, (m, Starting MarkRunning) ∉ cf_orphans c') -> live_at c' rt'.
Proof.
  intros Hj Ha (rt1 & Hheap & S & Hset & Hcar & Hrows & Hrow) Ed Hnew Hold Hthis Hothers Hown Hp.
  apply step_heap in Hheap as ->. pose proof (lv_lively _ _ H) as L. destruct A as [S' Hadv].
  destruct (Hadv (lv_calm _ _ H)) as (Hc' & Hm). destruct (Hm (lv_undoubled _ _ H)) as (Hset' & _ & Ha').
  split; [done|done|done|by apply Ha', (lv_accounted _ _ H)|done|].
  eapply (lively_preserved p n pt Hvalid prompt _ _ _ _ _ S); [exact L| | | | |].
  - intros k b Hk [?|[-> ->]]%Hnew; [by left|by right|done].
  - intros k b Hk Hb Hcb Hcs. destruct (Hold k b Hk Hb Hcb) as [|[-> ->]]; [left; by exists b|].
    destruct (Hcar Hcb Hcs) as [Hca|]; [left; exists a'; split; [by apply Hthis|done]|by right].
  - intros k Hk [-> Hca]. exists a'. split; [by apply Hthis|done].
  - intros k Hk. destruct (decide (k = j)) as [->|Hne]; [by rewrite Hown|].
    destruct (ly_jobs _ _ _ _ _ _ _ _ _ L k Hk) as (st & Est & Hst). exists st. rewrite Hothers by done. split; [|done].
    by rewrite Hrows.
  - rewrite Ed. eapply dispatch_stays; [exact S|apply L].
Qed.

(** A step of a worker, which may leave its handler behind. *)
Lemma worker_live j a a' ex left_behind :
  c' = MkConfig (cf_world c') (cf_dispatch c) (<[job_message j := a']> (cf_act c)) ex (cf_orphans c ++ left_behind) (cf_copies c) ->
  j ∈ Pipeline_Jobs p -> cf_act c (job_message j) = a ->
  goes (cf_world c) rt (fun j => cf_act c (job_message j)) j a true a' (cf_world c') ->
  (forall m b, (m, b) ∈ left_behind -> m = job_message j /\ b = a /\ (prompt -> a ≠ Starting MarkRunning)) -> live_at c' rt'.
Proof.
  intros Ec Hj Ha Hg Hleft.
  assert (Hother : forall k, k ∈ Pipeline_Jobs p -> k ≠ j -> cf_act c' (job_message k) = cf_act c (job_message k)).
  { intros k Hk Hne. rewrite Ec. simpl. rewrite fn_lookup_insert_ne; [done|]. intros E. apply Hne.
    by apply (job_message_inj p n ri Hvalid). }
  assert (Hown : cf_act c' (job_message j) = a') by (rewrite Ec; simpl; by rewrite fn_lookup_insert).
  assert (Eo : cf_orphans c' = cf_orphans c ++ left_behind) by (by rewrite Ec).
  eapply (handler_live j a a' true); [done|by left|exact Hg|by rewrite Ec| | |by left|done|done|].
  - intros k b Hk [E|[Hact Ho]].
    + destruct (decide (k = j)) as [->|Hne]; [right; by rewrite Hown in E|]. left. left. by rewrite <- Hother.
    + rewrite Eo in Ho. apply elem_of_app in Ho as [Ho|Ho]; [left; by right|]. destruct (Hleft _ _ Ho) as (E & -> & _).
      left. left. by rewrite E.
  - intros k b Hk [E|[Hact Ho]] _.
    + destruct (decide (k = j)) as [->|Hne]; [right; by rewrite <- E, Ha|]. left. left. by rewrite Hother.
    + left. right. split; [done|]. rewrite Eo. apply elem_of_app. by left.
  - intros Hp m. rewrite Eo. intros [Ho|Ho]%elem_of_app; [by apply (lv_prompt _ _ H Hp m)|].
    destruct (Hleft _ _ Ho) as (_ & <- & Hne). by apply Hne.
Qed.

(** A step of the handler of a lost report. *)
Lemma orphan_live i j a a' :
  c' = orphan_acts i (job_message j) a' (cf_world c') c -> cf_orphans c !! i = Some (job_message j, a) -> active a ->
  j ∈ Pipeline_Jobs p -> (carries a' -> active a') -> a' ≠ Starting MarkRunning ->
  goes (cf_world c) rt (fun j => cf_act c (job_message j)) j a false a' (cf_world c') -> live_at c' rt'.
Proof.
  intros Ec Hi Hact Hj Hca Hne Hg. destruct (insert_apart _ i _ (job_message j, a') Hi) as (l1 & l2 & E1 & E2).
  assert (Eo : cf_orphans c' = l1 ++ (job_message j, a') :: l2) by (by rewrite Ec; simpl).
  assert (Ea : cf_act c' = cf_act c) by (by rewrite Ec).
  eapply (handler_live j a a' false); [done| |exact Hg|by rewrite Ec| | | |by rewrite Ea|by rewrite Ea|].
  - right. split; [done|]. by eapply list_elem_of_lookup_2.
  - intros k b Hk [E|[Hb Ho]]; [left; left; by rewrite <- Ea|]. rewrite Eo in Ho.
    apply elem_of_app in Ho as [Ho|[[E ->]%pair_equal_spec|Ho]%elem_of_cons].
    + left. right. split; [done|]. rewrite E1. set_solver.
    + right. split; [|done]. by apply (job_message_inj p n ri Hvalid).
    + left. right. split; [done|]. rewrite E1. set_solver.
  - intros k b Hk [E|[Hb Ho]] _; [left; left; by rewrite Ea|]. rewrite E1 in Ho.
    apply elem_of_app in Ho as [Ho|[[E ->]%pair_equal_spec|Ho]%elem_of_cons].
    + left. right. split; [done|]. rewrite Eo. set_solver.
    + right. split; [|done]. by apply (job_message_inj p n ri Hvalid).
    + left. right. split; [done|]. rewrite Eo. set_solver.
  - intros Hc. right. split; [by apply Hca|]. rewrite Eo. set_solver.
  - intros Hp m. rewrite Eo. intros [Ho|[E|Ho]%elem_of_cons]%elem_of_app; [|by injection E|];
      apply (lv_prompt _ _ H Hp m); rewrite E1; set_solver.
Qed.
End step.

(** What somebody works on is a published job of the run. *)
Lemma published_job_live c rt m : live_at c rt -> m ∈ published c -> exists j, j ∈ Pipeline_Jobs p /\ m = job_message j /\ handed_out rt j.
Proof. intros H Hm. by apply (published_job p n pt ri c rt m (lv_safe _ _ H)). Qed.

(** No worker is lost before its started callback has reached the row of its job. *)
Definition kept (a : actor) (c : config (Q := Q)) : bool :=
  match a with ReportLost m => match cf_act c m with Starting MarkRunning => false | _ => true end | _ => true end.
Fixpoint starts_kept (s : list actor) (c : config) : bool :=
  match s with
  | [] => true
  | a :: s' => kept a c && match step a c with Some c' => starts_kept s' c' | None => true end
  end.

Lemma worker_step_live c c' rt m : live_at c rt -> step (WorkerOf m) c = Some c' -> exists rt', live_at c' rt'.
Proof.
  intros H Hstep. pose proof H as [S Hc Hset Ha Hp L].
  destruct (step_advances error_text env stat docker p n pt ri Hvalid Hid _ _ _ _ S Hstep) as [rt' A]. exists rt'. simpl in Hstep.
  assert (Hm : m ∈ published c).
  { destruct (cf_act c m) eqn:Ea; [by case_decide|apply (sf_act _ _ _ _ _ _ S); by rewrite Ea..]. }
  destruct (published_job_live c rt m H Hm) as (j & Hj & -> & Hh). pose proof (sf_world _ _ _ _ _ _ S) as W.
  pose proof (fun a a' ex => worker_live _ c c' rt rt' H A j a a' ex []) as Hlive. setoid_rewrite app_nil_r in Hlive.
  assert (Hnone : forall a m b, (m, b) ∈ [] -> m = job_message j /\ b = a /\ (prompt -> a ≠ Starting MarkRunning)) by (by intros ??? ?%elem_of_nil).
  destruct (cf_act c (job_message j)) as [|at_| |k at_|] eqn:Ea; [| | | |done].
  - rewrite decide_True in Hstep by done. injection Hstep as <-. eapply Hlive; [reflexivity|done|done| |apply Hnone].
    eapply live_idle; first [done|by left].
  - destruct (start_step _ _ _) as [w' r] eqn:E. injection Hstep as <-. eapply Hlive; [reflexivity|done|done| |apply Hnone].
    eapply live_start in E as (at' & -> & _ & Hg); first [done|by left].
  - injection Hstep as <-. eapply Hlive; [reflexivity|done|done| |apply Hnone]. eapply live_execute; first [done|by left].
  - destruct (finish_step _ _ _) as [w' r] eqn:E. injection Hstep as <-. eapply Hlive; [reflexivity|done|done| |apply Hnone].
    eapply live_finish in E as (at' & _ & Hg); try done; [by left|]. by apply (sf_handlers _ _ _ _ _ _ S (job_message j) k).
Qed.

Lemma worker_lost_live c c' rt m : live_at c rt -> step (WorkerLost m) c = Some c' -> exists rt', live_at c' rt'.
Proof.
  intros H Hstep. pose proof H as [S Hc Hset Ha Hp L].
  destruct (step_advances error_text env stat docker p n pt ri Hvalid Hid _ _ _ _ S Hstep) as [rt' A]. exists rt'. simpl in Hstep.
  destruct (cf_act c m) eqn:Ea; try done.
  destruct (published_job_live c rt m H) as (j & Hj & -> & Hh); [apply (sf_act _ _ _ _ _ _ S); by rewrite Ea|].
  injection Hstep as <-. pose proof (sf_world _ _ _ _ _ _ S) as W.
  eapply (worker_live _ c _ rt rt' H A j Executing Idle (cf_executed c) []);
    [simpl; by rewrite app_nil_r|done|done| |by intros ?? ?%elem_of_nil].
  eapply live_lost; first [done|by left].
Qed.

(** A lost report goes on without its worker, which starts again. *)
Lemma report_lost_live c c' rt m : live_at c rt -> (prompt -> kept (ReportLost m) c = true) ->
  step (ReportLost m) c = Some c' -> exists rt', live_at c' rt'.
Proof.
  intros H Hkept Hstep. pose proof H as [S Hc Hset Ha Hp L].
  destruct (step_advances error_text env stat docker p n pt ri Hvalid Hid _ _ _ _ S Hstep) as [rt' A]. exists rt'.
  assert (E : exists a, cf_act c m = a /\ active a /\ (prompt -> a ≠ Starting MarkRunning) /\
    c' = MkConfig (cf_world c) (cf_dispatch c) (<[m := Idle]> (cf_act c)) (cf_executed c) (cf_orphans c ++ [(m, a)]) (cf_copies c)).
  { exists (cf_act c m). simpl in *. destruct (cf_act c m) as [|[]| | |]; try done; injection Hstep as <-; split_and!; try done;
      intros Hpr; by specialize (Hkept Hpr). }
  destruct E as (a & Ea & Hact & Hne & Ec). clear Hstep Hkept.
  destruct (published_job_live c rt m H) as (j & Hj & -> & Hh); [apply (sf_act _ _ _ _ _ _ S); rewrite Ea; by destruct a|].
  assert (rt = rt') as <-.
  { apply (step_heap _ _ _ _ _ A). rewrite Ec. apply (ws_heap _ _ _ _ _ _ _ (sf_world _ _ _ _ _ _ S)). }
  destruct A as [S' Hadv]. destruct (Hadv Hc) as (Hc' & Hm'). destruct (Hm' Hset) as (Hset' & _ & Ha').
  assert (Hidle : forall k, k ∈ Pipeline_Jobs p -> cf_act c' (job_message k) = if decide (k = j) then Idle else cf_act c (job_message k)).
  { intros k Hk. rewrite Ec. simpl. case_decide as E; [by rewrite E, fn_lookup_insert|]. rewrite fn_lookup_insert_ne; [done|].
    intros E'. apply E. by apply (job_message_inj p n ri Hvalid). }
  assert (Eo : cf_orphans c' = cf_orphans c ++ [(job_message j, a)]) by (by rewrite Ec).
  assert (Ew : cf_world c' = cf_world c) by (by rewrite Ec). assert (Ed : cf_dispatch c' = cf_dispatch c) by (by rewrite Ec).
  split; [done|done|done|by apply Ha'| |].
  - intros Hpr m. rewrite Eo. intros [Ho|[-> <-]%list_elem_of_singleton%pair_equal_spec]%elem_of_app; [by apply (Hp Hpr m)|by apply Hne].
  - rewrite Ew, Ed. eapply (lively_preserved p n pt Hvalid prompt); [by eapply still|exact L| | |done| |apply L].
    + intros k b Hk [E|[Hb Ho]].
      * rewrite Hidle in E by done. case_decide as Ek; [right|by left; left]. rewrite <- E. by split.
      * rewrite Eo in Ho. apply elem_of_app in Ho as [Ho|[E ->]%list_elem_of_singleton%pair_equal_spec]; left; [by right|]. left. by rewrite E.
    + intros k b Hk [E|[Hb Ho]] Hcb _; left; exists b; (split; [|done]).
      * destruct (decide (k = j)) as [->|Hn]; [right|left; rewrite Hidle by done; by rewrite decide_False].
        rewrite Ea in E. rewrite <- E, Eo. split; [done|]. set_solver.
      * right. split; [done|]. rewrite Eo. set_solver.
    + intros k Hk. destruct (ly_jobs _ _ _ _ _ _ _ _ _ L k Hk) as (st & Est & Hst). exists st. split; [done|].
      rewrite Hidle by done. by case_decide.
Qed.

Lemma orphan_step_live c c' rt i : live_at c rt -> step (Orphan i) c = Some c' -> exists rt', live_at c' rt'.
Proof.
  intros H Hstep. pose proof H as [S Hc Hset Ha Hp L].
  destruct (step_advances error_text env stat docker p n pt ri Hvalid Hid _ _ _ _ S Hstep) as [rt' A]. exists rt'. simpl in Hstep.
  apply bind_Some in Hstep as ([m a] & Hi & Hstep). pose proof (list_elem_of_lookup_2 _ _ _ Hi) as Hin.
  destruct (published_job_live c rt m H (sf_orphan _ _ _ _ _ _ S m a Hin)) as (j & Hj & -> & Hh).
  pose proof (sf_world _ _ _ _ _ _ S) as W. assert (Hkept : prompt -> a ≠ Starting MarkRunning) by (intros Hpr ->; by apply (Hp Hpr (job_message j))).
  destruct a as [|at_| |k at_|]; try done.
  - destruct (start_step _ _ _) as [w' r] eqn:E. injection Hstep as <-.
    eapply live_start with (own := false) in E as (at' & -> & Hne & Hg); try done; try (by right).
    eapply (orphan_live _ c _ rt rt' H A i j (Starting at_)); [reflexivity|done|done|done| | |]; [by destruct at'..|].
    destruct at'; try done. eapply goes_idle; [exact Hkept|done| | |exact Hg]; by intros [].
  - destruct (finish_step _ _ _) as [w' r] eqn:E. injection Hstep as <-.
    eapply live_finish with (own := false) in E as (at' & -> & Hg); try done; try (by right); try (by apply (sf_orphan_handlers _ _ _ _ _ _ S _ _ Hin k)).
    eapply (orphan_live _ c _ rt rt' H A i j (Finishing k at_)); [reflexivity|done|done|done|by destruct at'|by destruct at'|exact Hg].
Qed.

Lemma dispatcher_step_live c c' rt : live_at c rt -> step Dispatcher c = Some c' -> exists rt', live_at c' rt'.
Proof.
  intros H Hstep. pose proof H as [S Hc Hset Ha Hp L].
  destruct (step_advances error_text env stat docker p n pt ri Hvalid Hid _ _ _ _ S Hstep) as [rt' A]. exists rt'. simpl in Hstep.
  destruct (dispatch_done (cf_dispatch c)) eqn:Ed; [done|]. destruct (dispatch_step _ _ _) as [w' r] eqn:E. injection Hstep as <-.
  eapply live_dispatch in E as (rt1 & Hheap & Hs & Hdb & Hd); try done; try apply S.
  apply (step_heap _ _ _ _ _ A) in Hheap as ->. destruct A as [S' Hadv]. destruct (Hadv Hc) as (Hc' & Hm'). destruct (Hm' Hset) as (Hset' & _ & Ha').
  split; [done|done|done|by apply Ha'|done|]. simpl. eapply (lively_preserved p n pt Hvalid prompt); [exact Hs|exact L|by left| |done| |done].
  - intros k b Hk Hb Hcb _. left. by exists b.
  - intros k Hk. destruct (ly_jobs _ _ _ _ _ _ _ _ _ L k Hk) as (st & Est & Hst). exists st. split; [|done].
    unfold job_row. by rewrite Hdb.
Qed.

Lemma step_live a c c' rt : live_at c rt -> (prompt -> kept a c = true) -> step a c = Some c' -> exists rt', live_at c' rt'.
Proof.
  intros H Hk Hs. pose proof (undoubled_actor error_text env stat docker p n pt ri a c c' rt (lv_safe _ _ H) (lv_undoubled _ _ H) Hs) as Hno.
  destruct a; try done; [by eapply dispatcher_step_live|by eapply worker_step_live|by eapply worker_lost_live
                        |by eapply report_lost_live|by eapply orphan_step_live].
Qed.

Lemma schedule_live l c c' rt : live_at c rt -> (prompt -> starts_kept l c = true) -> schedule l c = Some c' -> exists rt', live_at c' rt'.
Proof.
  revert c rt. induction l as [|a l IH]; intros c rt H Hk; simpl; [intros [= <-]; by exists rt|].
  intros (c1 & E & Hs)%bind_Some. destruct (step_live a c c1 rt H) as [rt1 H1]; [|done|].
  - intros Hpr. by apply andb_prop in Hk as [? _].
  - eapply IH; [done| |done]. intros Hpr. specialize (Hk Hpr). simpl in Hk. apply andb_prop in Hk as [_ Hk]. by rewrite E in Hk.
Qed.

Lemma initialized_launched w rt ep : sent_messages p n w = [] -> requested_messages p n w = [] -> initialized p n ri pt w rt ep -> launched w rt (Plan_Stages ep).
Proof.
  intros Hs Hr P. split; [apply P..| | |done|done].
  - apply (planned_names p), P.
  - intros s (sg & -> & Hg)%list_elem_of_fmap. apply (cr_state _ _ _ _ _ (pr_created _ _ _ _ _ _ _ P sg Hg)).
Qed.

Lemma prepared_launched base w rt ep : Forall (fun m => ~ own_message p n m) base -> requested_messages p n w = [] -> prepared p n ri pt base w rt ep -> launched w rt (Plan_Stages ep).
Proof.
  intros Hb Hr P. apply initialized_launched; [|done|apply P].
  unfold sent_messages. rewrite <- (pr_confirmed _ _ _ _ _ _ _ _ P). by apply list_filter_none.
Qed.

Lemma fresh_untouched w rt stages j : launched w rt stages -> j ∈ Pipeline_Jobs p -> ~ handed_out rt j /\ ~ has_completed rt j.
Proof.
  intros La Hj. destruct (la_fresh _ _ _ _ _ _ _ La (Job_Stage j)) as (st & Hst & _ & Hq & Hc & _); [by apply (vp_job_stage _ Hvalid)|].
  rewrite (handed_out_at rt _ st j Hst eq_refl), (has_completed_at rt _ st j Hst eq_refl), Hq, Hc. set_solver.
Qed.

(** What a run in a calm world finds in the tables besides. *)
Record rows_queued (w : world Q) : Prop := {
  rq_run : run_row p n w = Some StatusQueued;
  rq_stages : forall s, s ∈ stage_names -> stage_row p n w s = Some StatusQueued;
  rq_jobs : forall j, j ∈ Pipeline_Jobs p -> job_row p n w j = Some StatusQueued;
  rq_configs : forall rt s st, w_heap w !! pt = Some rt -> s ∈ stage_names -> rt_stageStates rt !! s = Some st -> configs_ok p s st;
}.

Lemma start_live w rt stages : launched w rt stages -> calm w -> rows_queued w -> live_at (concurrent_start w stages) rt.
Proof.
  intros La Hc [Q1 Q2 Q3 Q4]. pose proof (fun j => fresh_untouched w rt _ j La) as Hno.
  split; [by apply (start_safe p n pt ri Hvalid Hid)|done|by eapply launched_undoubled|intros j Hj Hh; by destruct (Hno j Hj)|by intros _ m ?%elem_of_nil|]. simpl.
  split; try done.
  - intros s st Hs Hst. destruct (la_fresh _ _ _ _ _ _ _ La s Hs) as (st0 & Hst0 & Hf). rewrite Hst in Hst0. injection Hst0 as <-.
    split; [|by left]. eapply Q4; [apply La|done|done].
  - intros j a Hj [<-|[_ Ho]]; [done|by apply elem_of_nil in Ho].
  - intros j j' Hj _ Hh. by destruct (Hno j Hj).
  - intros j k at_ Hj [|[_ Ho]]; [done|by apply elem_of_nil in Ho].
  - intros s Hs Hcs. destruct (stage_jobs_nonempty p Hvalid s Hs) as [j Hin]. exfalso.
    destruct (Hno j); [by apply jobsForStage_elem in Hin as [? _]|]. by specialize (Hcs j Hin).
  - left. apply La.
  - intros s Hs. exists StatusQueued. by apply Q2.
  - intros j Hj. exists StatusQueued. split; [by apply Q3|done].
Qed.

Lemma initialized_rows w rt ep : initialized p n ri pt w rt ep -> rows_queued w.
Proof.
  intros P. pose proof (pr_created _ _ _ _ _ _ _ P) as Hcr. split.
  - apply P.
  - intros s (sg & -> & Hs)%list_elem_of_fmap. apply (cr_stage _ _ _ _ _ (Hcr sg Hs)).
  - intros j Hj. pose proof (vp_job_stage _ Hvalid j Hj) as (sg & Es & Hs)%list_elem_of_fmap.
    unfold job_row. rewrite Es. apply (cr_jobs _ _ _ _ _ (Hcr sg Hs)). by apply jobsForStage_elem.
  - intros rt0 s st Hrt (sg & -> & Hs)%list_elem_of_fmap Hst. rewrite (pr_heap _ _ _ _ _ _ _ P) in Hrt. injection Hrt as <-.
    destruct (cr_state _ _ _ _ _ (Hcr sg Hs)) as (st0 & Hst0 & Hf). rewrite Hst in Hst0. injection Hst0 as <-. apply Hf.
Qed.

(** When nobody can make a step. *)
Lemma ended_acts c : ended c -> (forall m, cf_act c m = Reported \/ cf_act c m = Idle /\ m ∉ published c) /\
  exists r, cf_dispatch c = Dispatched r.
Proof.
  intros He. split.
  - intros m. specialize (He (WorkerOf m)). simpl in He. destruct (cf_act c m); [case_decide; [done|auto]| |done| |auto].
    + by destruct (start_step _ _ _).
    + by destruct (finish_step _ _ _).
  - specialize (He Dispatcher). simpl in He. destruct (cf_dispatch c); simpl in He; try (by destruct (dispatch_step _ _ _)). by eexists.
Qed.

Lemma ended_orphans c m a : ended c -> (m, a) ∈ cf_orphans c -> ~ active a.
Proof.
  intros He [i Hi]%list_elem_of_lookup Ha. specialize (He (Orphan i)). simpl in He. rewrite Hi in He. simpl in He.
  destruct a; try done; [by destruct (start_step _ _ _)|by destruct (finish_step _ _ _)].
Qed.

Section final.
Context (c : config) (rt : pipelineRuntime) (H : live_at c rt) (Hend : ended c).

Lemma handed_reported j : j ∈ Pipeline_Jobs p -> handed_out rt j -> cf_act c (job_message j) = Reported /\ job_message j ∈ published c.
Proof.
  intros Hj Hh. destruct (ended_acts c Hend) as [Hacts [r Hd]].
  assert (Hp : pending p n ri c = []).
  { pose proof (proj2 (undoubled_single p n pt ri c rt (lv_safe _ _ H) (lv_undoubled _ _ H))) as Hcop.
    unfold pending. rewrite Hd, Hcop. simpl. rewrite app_nil_r. assert (E : cf_orphans c ≫= (fun o => act_todo p n ri o.1 o.2) = []).
    { pose proof (fun m a => ended_orphans c m a Hend) as Ho. revert Ho. generalize (cf_orphans c) as l.
      induction l as [|[m a] l IH]; intros Ho; [done|]. rewrite bind_cons, IH by (intros m' a' Hin; apply (Ho m'); by right).
      specialize (Ho m a ltac:(left)). rewrite app_nil_r. simpl. by destruct a. }
    rewrite E, app_nil_r. induction (job_message <$> Pipeline_Jobs p) as [|m l IH]; [done|].
    rewrite bind_cons, IH, app_nil_r. destruct (Hacts m) as [->|[-> _]]; done. }
  pose proof (lv_accounted _ _ H j Hj Hh) as Hin. rewrite Hp, app_nil_r, <- (lv_undoubled _ _ H) in Hin. split; [|done].
  by destruct (Hacts (job_message j)) as [|[_ Hn]].
Qed.

Lemma polled_complete s : s ∈ stage_names -> polled p rt s -> complete_in p rt s.
Proof.
  intros Hs (k & Hk & Hkh). pose proof (lv_lively _ _ H) as L. pose proof (ws_runtime _ _ _ _ _ _ _ (sf_world _ _ _ _ _ _ (lv_safe _ _ H))) as R.
  destruct (rs_stages _ _ _ _ _ R s Hs) as (st & Hst & _). pose proof (proj1 (jobsForStage_elem _ _ _) Hk) as [_ Es].
  apply (handed_out_at rt s st k Hst Es) in Hkh. destruct (ly_alive _ _ _ _ _ _ _ _ _ L s st Hs Hst) as [_ [(_ & Hq & _)|(sp & Hsp & Hl & _)]].
  { rewrite Hq in Hkh. set_solver. }
  assert (Hall : isStageComplete st = true).
  { destruct (isStageComplete st) eqn:Hc; [done|]. destruct (live_incomplete _ p sp Hvalid Hsp _ _ _ Hl Hc) as (pl & Hpl & Hn).
    exfalso. apply list_elem_of_fmap in Hpl as (x & -> & [Hq Hx]%list_elem_of_filter). apply Hn. simpl.
    pose proof (proj1 (jobsForStage_elem _ _ _) Hx) as [Hxp Ex]. apply (has_completed_at rt s st x Hst Ex).
    destruct (handed_reported x Hxp) as [E _]; [by apply (handed_out_at rt s st x Hst Ex)|].
    apply (ly_marked _ _ _ _ _ _ _ _ _ L x Reported Hxp); [by left|done]. }
  intros j Hjs. pose proof (proj1 (jobsForStage_elem _ _ _) Hjs) as [_ Ej]. apply (has_completed_at rt s st j Hst Ej).
  by apply (stage_complete_iff p n ri rt _ s st R Hs Hst).
Qed.

Lemma complete_followed s : s ∈ stage_names -> complete_in p rt s -> followed p n (cf_world c) rt s.
Proof.
  intros Hs Hc. destruct (ly_next _ _ _ _ _ _ _ _ _ (lv_lively _ _ H) s Hs Hc) as [(j & a & _ & Hdo & Hcar)|]; [|done]. exfalso.
  destruct Hdo as [E|[Hact Ho]]; [|by apply (ended_orphans c _ a Hend Ho)].
  destruct (ended_acts c Hend) as [Hacts _]. by destruct (Hacts (job_message j)) as [E'|[E' _]]; rewrite <- E, E' in Hcar.
Qed.

Lemma all_polled past s future : stage_names = past ++ s :: future -> polled p rt s.
Proof.
  revert s future. induction past as [|s' past IH] using rev_ind; intros s future E.
  - destruct (ended_acts c Hend) as [_ [r Hd]]. pose proof (ly_dispatch _ _ _ _ _ _ _ _ _ (lv_lively _ _ H)) as Hl.
    rewrite Hd in Hl. by apply (Hl s future).
  - rewrite <- app_assoc in E. simpl in E. assert (Hs' : s' ∈ stage_names) by (rewrite E; set_solver).
    pose proof (IH s' (s :: future) E) as Hp. destruct (complete_followed s' Hs' (polled_complete s' Hs' Hp)) as [_ Hf].
    by rewrite (next_stage p n Hvalid Hid past s' (s :: future) (eq_sym E)) in Hf.
Qed.

Lemma every_stage_over s : s ∈ stage_names -> complete_in p rt s /\ followed p n (cf_world c) rt s.
Proof.
  intros Hs. pose proof Hs as (past & future & E)%list_elem_of_split.
  pose proof (polled_complete s Hs (all_polled past s future E)) as Hc. split; [done|]. by apply complete_followed.
Qed.

(** A completed job was executed, and is reported. *)
Lemma job_over j : j ∈ Pipeline_Jobs p -> job_message j ∈ cf_executed c /\ cf_act c (job_message j) = Reported.
Proof.
  intros Hj. pose proof (lv_safe _ _ H) as S. pose proof (vp_job_stage _ Hvalid j Hj) as Hs.
  destruct (every_stage_over (Job_Stage j) Hs) as [Hc _]. pose proof (proj2 (jobsForStage_elem (Job_Stage j) p j) (conj Hj eq_refl)) as Hjs.
  pose proof (ws_runtime _ _ _ _ _ _ _ (sf_world _ _ _ _ _ _ S)) as R. destruct (rs_stages _ _ _ _ _ R _ Hs) as (st & Hst & _).
  pose proof (proj1 (has_completed_at rt _ st j Hst eq_refl) (Hc j Hjs)) as Hin.
  destruct (rs_completed _ _ _ _ _ R _ st _ Hs Hst Hin) as (k & Hk & E & Hex).
  assert (Hkj : k = j). { apply jobsForStage_elem in Hk as [Hk _]. by apply (NoDup_name_inj _ _ _ (vp_jobs_unique _ Hvalid) Hk Hj). }
  rewrite Hkj in Hex. split; [done|]. destruct (ended_acts c Hend) as [Hacts _].
  destruct (Hacts (job_message j)) as [|[Ei Hn]]; [done|]. destruct Hn.
  by apply (safe_facts p n pt ri Hvalid c rt S).
Qed.

(** What is recorded of the run, and of its jobs if no started report was lost early. *)
Record recorded (w : world Q) : Prop := {
  rd_run : run_row p n w = Some StatusSuccess;
  rd_stages : forall s, s ∈ stage_names -> stage_row p n w s = Some StatusSuccess;
  rd_jobs : forall j, j ∈ Pipeline_Jobs p -> exists st, job_row p n w j = Some st /\ (prompt -> st = StatusSuccess \/ st = StatusFailed);
  rd_forgotten : w_runtimes w !! key = None;
}.

Lemma last_stage : exists past s, stage_names = past ++ [s].
Proof. destruct (exists_last (l := stage_names)) as (past & s & E); [by destruct (Pipeline_Stages p) eqn:E; [destruct (vp_some_stage _ Hvalid)|]|]. eauto. Qed.

Lemma end_recorded : recorded (cf_world c).
Proof.
  destruct last_stage as (past & s & E). assert (Hs : s ∈ stage_names) by (rewrite E; set_solver).
  destruct (every_stage_over s Hs) as [_ [_ Hf]]. rewrite (next_stage p n Hvalid Hid past s [] (eq_sym E)) in Hf. destruct Hf as [Hr Hm].
  split; [done| | |done].
  - intros y Hy. by destruct (every_stage_over y Hy) as [_ [? _]].
  - intros j Hj. destruct (ly_jobs _ _ _ _ _ _ _ _ _ (lv_lively _ _ H) j Hj) as (st & Est & Hst). exists st. split; [done|].
    intros Hp. apply Hst; [done|]. by rewrite (proj2 (job_over j Hj)).
Qed.

(** Every job was published once. *)
Lemma end_published : published c ≡ₚ job_message <$> Pipeline_Jobs p.
Proof.
  pose proof (lv_safe _ _ H) as S. apply NoDup_Permutation.
  - by apply (undoubled_single p n pt ri c rt S), (lv_undoubled _ _ H).
  - by apply job_messages_unique.
  - intros m. split.
    + intros Hm. destruct (published_job_live c rt m H Hm) as (j & Hj & -> & _). by apply list_elem_of_fmap_2.
    + intros (j & -> & Hj)%list_elem_of_fmap. apply (sf_act _ _ _ _ _ _ S). by rewrite (proj2 (job_over j Hj)).
Qed.

Lemma executed_published m : m ∈ cf_executed c -> m ∈ published c.
Proof. by apply (safe_facts p n pt ri Hvalid c rt (lv_safe _ _ H)). Qed.

Lemma end_executed m : m ∈ cf_executed c <-> m ∈ job_message <$> Pipeline_Jobs p.
Proof.
  split; [intros Hm%executed_published; by rewrite end_published in Hm|].
  intros (j & -> & Hj)%list_elem_of_fmap. by apply job_over.
Qed.
End final.
End live.

(** If nothing fails and every execution of a job passes, then in whatever order
    the steps of the workers, of the handlers and of the goroutine interleave, and
    however many workers are lost while they run their jobs or report, when nobody
    can make another step every job was published exactly once and executed, once
    if no report was lost, the run and all its stages are recorded as successful,
    and the runtime is forgotten; and all jobs are recorded as ended, unless a
    worker was lost before its started callback had reached the row of its job. *)
Theorem concurrent_succeeds base w rt ep s c :
  (forall j k, j ∈ Pipeline_Jobs p -> passes env stat (attempt docker k) p n ri (job_message j)) ->
  prepared p n ri pt base w rt ep -> Forall (fun m => ~ own_message p n m) base -> requested_messages p n w = [] ->
  schedule s (concurrent_start w (Plan_Stages ep)) = Some c -> ended c ->
  published c ≡ₚ job_message <$> Pipeline_Jobs p /\
  (forall m, m ∈ cf_executed c <-> m ∈ job_message <$> Pipeline_Jobs p) /\
  ((forall m, ReportLost m ∉ s) -> cf_executed c ≡ₚ job_message <$> Pipeline_Jobs p) /\
  recorded (starts_kept s (concurrent_start w (Plan_Stages ep)) = true) (cf_world c).
Proof.
  intros Hpass P Hb Hr Hs He. pose proof (prepared_launched base w rt ep Hb Hr P) as La.
  set (prompt := starts_kept s (concurrent_start w (Plan_Stages ep)) = true).
  assert (Hstart : live_at prompt (concurrent_start w (Plan_Stages ep)) rt).
  { apply start_live; [done|done|split; apply P|by eapply initialized_rows, P]. }
  destruct (schedule_live Hpass prompt _ _ _ _ Hstart (fun H => H) Hs) as [rt' Hl].
  split_and!; [by eapply end_published|by eapply end_executed| |by eapply end_recorded].
  intros Hno. apply NoDup_Permutation.
  - pose proof (proj2 (undoubled_single p n pt ri c rt' (lv_safe _ _ _ Hl) (lv_undoubled _ _ _ Hl))) as Hcop.
    apply (sf_executed_once _ _ _ _ _ _ (lv_safe _ _ _ Hl)); [|done].
    by apply (no_orphans error_text env stat docker p n pt s (concurrent_start w (Plan_Stages ep))).
  - by apply job_messages_unique.
  - by eapply end_executed.
Qed.
End completion.

(** ** Concrete schedules *)

#[local] Existing Instance binary_collation.
#[local] Existing Instance no_floats.

(** The world that [Run] of a pipeline leaves, before the goroutine runs. *)
Definition run_world (orders : nat -> list string) (p : Pipeline) (ep : ExecutionPlan) : world sink :=
  (runPlan demo_sha (Some "0af7") orders demo_request (MkPipelinePlan p ep) (demo_world [])).1.
Definition run_schedule (docker : JobExecutionMessage -> nat -> docker_env) (orders : nat -> list string) (p : Pipeline) (ep : ExecutionPlan) (s : list actor) : option config :=
  schedule no_text demo_env demo_stat docker p 1 0 s (concurrent_start (run_world orders p ep) (Plan_Stages ep)).

(** Whether a message is done with. *)
Definition is_reported (a : activity) : bool := match a with Reported => true | _ => false end.
Definition is_active (a : activity) : bool := match a with Starting _ | Finishing _ _ => true | _ => false end.
Definition quiescent (p : Pipeline) (c : config (Q := sink)) : bool :=
  forallb (fun m => is_reported (cf_act c m)) (sent_messages p 1 (cf_world c)) && bool_decide (is_Some (dispatch_done (cf_dispatch c))) &&
  forallb (fun o => negb (is_active o.2)) (cf_orphans c).
Lemma quiescent_reported p c : quiescent p c = true ->
  is_Some (dispatch_done (cf_dispatch c)) /\ (forall m, m ∈ sent_messages p 1 (cf_world c) -> cf_act c m = Reported) /\
  (forall m a, (m, a) ∈ cf_orphans c -> ~ active a).
Proof.
  intros [[H1 H2%bool_decide_eq_true]%andb_prop H3]%andb_prop. rewrite !forallb_forall in *. split_and!; [done| |].
  - intros m Hm. specialize (H1 m (proj1 (list_elem_of_In _ _) Hm)). by destruct (cf_act c m).
  - intros m a Ha. specialize (H3 _ (proj1 (list_elem_of_In _ _) Ha)). intros Hac. by destruct a; simpl in *.
Qed.

(** A scheduler: the first of [actors] that can make a step makes it. *)
Section greedy.
Context (docker : JobExecutionMessage -> nat -> docker_env) (p : Pipeline) (actors : list actor).
Abbreviation demo_next := (step no_text demo_env demo_stat docker p 1 0).

Fixpoint first_step (l : list actor) (c : config (Q := sink)) : option (actor * config (Q := sink)) :=
  match l with
  | [] => None
  | a :: l' => match demo_next a c with Some c' => Some (a, c') | None => first_step l' c end
  end.
Fixpoint greedy (fuel : nat) (c : config (Q := sink)) : list actor :=
  match fuel with
  | 0 => []
  | S fuel' => match first_step actors c with Some (a, c') => a :: greedy fuel' c' | None => [] end
  end.
End greedy.

Definition demo_run_world : world sink := run_world demo_orders demo_pipeline demo_ep.
Abbreviation demo_launched w rt := (launched demo_pipeline 1 0 (newRunInfo demo_request) w rt (Plan_Stages demo_ep)).

Lemma demo_prepared : exists rt, prepared demo_pipeline 1 (newRunInfo demo_request) 0 [] demo_run_world rt demo_ep.
Proof.
  destruct (run_prepared demo_pipeline demo_valid (Some "0af7") demo_orders demo_orders demo_ep demo_request demo_sha
    (demo_world []) demo_ready demo_identifiable demo_orders_legal demo_ep_eq demo_orders_legal) as (w1 & rt & E & _ & _ & P).
  exists rt. unfold demo_run_world, run_world. rewrite E. exact P.
Qed.

Lemma demo_unasked : requested_messages demo_pipeline 1 demo_run_world = [].
Proof. vm_compute. reflexivity. Qed.

(** The workers of the jobs, most dependent first, then the goroutine, then the
    handler of a lost report. *)
Definition demo_actors : list actor := (WorkerOf ∘ demo_message <$> [4; 0; 1; 2; 3]) ++ [Dispatcher; Orphan 0].
Definition demo_start (w : world sink) : config := concurrent_start w (Plan_Stages demo_ep).
Abbreviation demo_schedule docker := (schedule no_text demo_env demo_stat docker demo_pipeline 1 0).
(** Every execution of a job goes the same way. *)
Definition each_time (docker : JobExecutionMessage -> docker_env) (m : JobExecutionMessage) (k : nat) : docker_env := docker m.
(** After the steps of [first], the scheduler. *)
Definition demo_greedy (docker : JobExecutionMessage -> nat -> docker_env) (w : world sink) (first : list actor) (k : nat) : list actor :=
  first ++ greedy docker demo_pipeline demo_actors k (default (demo_start w) (demo_schedule docker first (demo_start w))).
Definition demo_concurrent (docker : JobExecutionMessage -> nat -> docker_env) (w : world sink) (first : list actor) (k : nat) : config :=
  default (demo_start w) (demo_schedule docker (demo_greedy docker w first k) (demo_start w)).
(** The worker of the first job is lost while it runs it. *)
Definition demo_lost : list actor := demo_greedy (each_time demo_docker) demo_run_world [] 5 ++ [WorkerLost (demo_message 3)].
(** It is lost while it reports. *)
Definition demo_report_lost : list actor := demo_greedy (each_time demo_docker) demo_run_world [] 9 ++ [ReportLost (demo_message 3)].

Lemma demo_concurrent_schedule docker w first k :
  bool_decide (is_Some (demo_schedule docker (demo_greedy docker w first k) (demo_start w))) = true ->
  demo_schedule docker (demo_greedy docker w first k) (demo_start w) = Some (demo_concurrent docker w first k).
Proof. intros [c E]%bool_decide_eq_true. unfold demo_concurrent. by rewrite E. Qed.

(** *** Witnesses *)

(** The second and the sixth call of the store fail. *)
Lemma no_report_lost (s : list actor) : forallb (fun a => match a with ReportLost _ => false | _ => true end) s = true ->
  forall m, ReportLost m ∉ s.
Proof. rewrite forallb_forall. intros H m Hm. by specialize (H _ (proj1 (list_elem_of_In _ _) Hm)). Qed.

Definition faulty_world : world sink :=
  with_db demo_run_world (w_db demo_run_world)
    [None; Some (ErrIs "connection reset"); None; None; None; Some (ErrIs "connection reset")].

Lemma faulty_launched : exists rt, demo_launched faulty_world rt.
Proof.
  destruct demo_prepared as [rt P]. exists rt. pose proof (prepared_launched _ _ _ _ [] _ _ _ (Forall_nil_2 _) demo_unasked P) as La. by destruct La; split.
Qed.

(** A store that fails, and a worker that is lost while it reports: its job is
    executed again. *)
Lemma concurrent_safe_witness :
  (let c := demo_concurrent (each_time broken_docker) faulty_world [] 40 in
   length (sent_messages demo_pipeline 1 (cf_world c)) = 3 /\ w_faults (cf_world c) = [] /\ NoDup (requested_messages demo_pipeline 1 (cf_world c)) /\ NoDup (cf_executed c)) /\
  (let c := demo_concurrent (each_time demo_docker) demo_run_world demo_report_lost 120 in
   quiescent demo_pipeline c = true /\ length (cf_executed c) = 6 /\ length (sent_messages demo_pipeline 1 (cf_world c)) = 5 /\ NoDup (requested_messages demo_pipeline 1 (cf_world c)) /\
   well_ordered demo_pipeline 1 (newRunInfo demo_request) (cf_executed c)).
Proof.
  split; intros c.
  - split; [vm_compute; reflexivity|]. split; [vm_compute; reflexivity|]. destruct faulty_launched as [rt La].
    destruct (concurrent_safe no_text demo_env demo_stat (each_time broken_docker) demo_pipeline 1 0 (newRunInfo demo_request)
      demo_valid demo_identifiable _ _ _ (demo_greedy (each_time broken_docker) faulty_world [] 40) c La) as (H1 & _ & _ & _ & _ & H5).
    + apply demo_concurrent_schedule. vm_compute. reflexivity.
    + split; [exact H1|]. apply H5; [apply no_report_lost; vm_compute; reflexivity|].
      apply (bool_decide_unpack _). vm_compute. exact I.
  - split; [vm_compute; reflexivity|]. split; [vm_compute; reflexivity|]. split; [vm_compute; reflexivity|].
    destruct demo_prepared as [rt P].
    destruct (concurrent_safe no_text demo_env demo_stat (each_time demo_docker) demo_pipeline 1 0 (newRunInfo demo_request)
      demo_valid demo_identifiable _ _ _ (demo_greedy (each_time demo_docker) demo_run_world demo_report_lost 120) c
      (prepared_launched _ _ _ _ [] _ _ _ (Forall_nil_2 _) demo_unasked P)) as (H1 & H2 & _).
    + apply demo_concurrent_schedule. vm_compute. reflexivity.
    + split; [exact H1|exact H2].
Defined.

Lemma demo_calm : calm demo_run_world.
Proof. destruct demo_prepared as [rt P]. split; apply P. Qed.

Lemma concurrent_terminates_witness :
  let s := demo_greedy (each_time broken_docker) demo_run_world demo_lost 87 in
  length s = 34 /\ length s <= 17 * (5 + 1) + 2 /\ ended no_text demo_env demo_stat (each_time broken_docker) demo_pipeline 1 0 (demo_concurrent (each_time broken_docker) demo_run_world demo_lost 87).
Proof.
  intros s. destruct demo_prepared as [rt P].
  destruct (concurrent_terminates no_text demo_env demo_stat (each_time broken_docker) demo_pipeline 1 0 (newRunInfo demo_request)
    demo_valid demo_identifiable demo_run_world rt (Plan_Stages demo_ep) s (demo_concurrent (each_time broken_docker) demo_run_world demo_lost 87)
    (prepared_launched _ _ _ _ [] _ _ _ (Forall_nil_2 _) demo_unasked P) demo_calm) as [Hle Hend].
  { apply demo_concurrent_schedule. vm_compute. reflexivity. }
  split; [vm_compute; reflexivity|]. assert (El : losses s = 1) by (vm_compute; reflexivity). rewrite El in Hle. split; [exact Hle|]. apply Hend, quiescent_reported. vm_compute. reflexivity.
Defined.

Lemma demo_passes j : j ∈ Pipeline_Jobs demo_pipeline ->
  passes demo_env demo_stat demo_docker demo_pipeline 1 (newRunInfo demo_request) (job_message demo_pipeline 1 (newRunInfo demo_request) j).
Proof.
  intros Hj. destruct (Job_Failures j) eqn:Ef; [by right; exists j|left].
  cut (Job_Failures j = true \/ (execution demo_env demo_stat demo_docker (job_message demo_pipeline 1 (newRunInfo demo_request) j)).2.2 = None).
  { intros [E|E]; [by rewrite E in Ef|done]. }
  clear Ef. revert j Hj. apply Forall_forall. repeat (apply Forall_cons; split; [first [by left|right; vm_compute; reflexivity]|]). constructor.
Qed.

Lemma demo_ended first k : let c := demo_concurrent (each_time demo_docker) demo_run_world first k in
  bool_decide (is_Some (demo_schedule (each_time demo_docker) (demo_greedy (each_time demo_docker) demo_run_world first k) (demo_start demo_run_world))) = true ->
  quiescent demo_pipeline c = true -> ended no_text demo_env demo_stat (each_time demo_docker) demo_pipeline 1 0 c.
Proof.
  intros c Hs%demo_concurrent_schedule Hq. destruct demo_prepared as [rt P].
  pose proof (prepared_launched _ _ _ _ [] _ _ _ (Forall_nil_2 _) demo_unasked P) as La.
  destruct (schedule_safe no_text demo_env demo_stat (each_time demo_docker) demo_pipeline 1 0 (newRunInfo demo_request) demo_valid demo_identifiable
    _ _ _ _ (start_safe _ _ _ _ demo_valid demo_identifiable _ _ _ La) Hs) as [rt' S].
  destruct (schedule_length no_text demo_env demo_stat (each_time demo_docker) demo_pipeline 1 0 (newRunInfo demo_request) demo_valid demo_identifiable
    _ _ _ _ (start_safe _ _ _ _ demo_valid demo_identifiable _ _ _ La) demo_calm (launched_undoubled _ _ _ _ _ _ _ La) Hs) as (_ & _ & _ & Hset & _).
  eapply ended_iff; [exact S|exact Hset|]. by apply quiescent_reported.
Qed.

(** The worker of the first job is lost while it runs it, and the next one to take
    it while it reports. *)
Definition demo_losses : list actor := demo_greedy (each_time demo_docker) demo_run_world demo_lost 9 ++ [ReportLost (demo_message 3)].

Lemma concurrent_succeeds_witness :
  let s := demo_greedy (each_time demo_docker) demo_run_world demo_losses 150 in
  let c := demo_concurrent (each_time demo_docker) demo_run_world demo_losses 150 in
  length (cf_executed c) = 6 /\
  sent_messages demo_pipeline 1 (cf_world c) ≡ₚ job_message demo_pipeline 1 (newRunInfo demo_request) <$> Pipeline_Jobs demo_pipeline /\
  recorded demo_pipeline 1 (starts_kept no_text demo_env demo_stat (each_time demo_docker) demo_pipeline 1 0 s (demo_start demo_run_world) = true) (cf_world c) /\
  starts_kept no_text demo_env demo_stat (each_time demo_docker) demo_pipeline 1 0 s (demo_start demo_run_world) = true.
Proof.
  intros s c. split; [vm_compute; reflexivity|]. destruct demo_prepared as [rt P].
  destruct (concurrent_succeeds no_text demo_env demo_stat (each_time demo_docker) demo_pipeline 1 0 (newRunInfo demo_request) demo_valid demo_identifiable
    [] demo_run_world rt demo_ep s c) as (H1 & H2 & H3 & H4).
  - intros j k. apply demo_passes.
  - exact P.
  - constructor.
  - exact demo_unasked.
  - apply demo_concurrent_schedule. vm_compute. reflexivity.
  - apply demo_ended; vm_compute; reflexivity.
  - split; [exact H1|]. split; [exact H4|]. vm_compute. reflexivity.
Defined.

(** The worker of the first job is lost as soon as it has posted its started
    callback, whose handler is the last to make a step. *)
Definition demo_start_lost : list actor := demo_greedy (each_time demo_docker) demo_run_world [] 3 ++ [ReportLost (demo_message 3)].

(** A started callback that is handled late wins: nothing fails and every job
    passes, but the row of a job stays "running" although the run is recorded as a
    success, nobody can make another step and the job was executed once. *)
Theorem finished_job_stays_running : exists s c,
  demo_schedule (each_time demo_docker) s (demo_start demo_run_world) = Some c /\ quiescent demo_pipeline c = true /\
  run_status_of (w_db (cf_world c)) "demo" 1 = Some StatusSuccess /\
  (exists j, j ∈ Pipeline_Jobs demo_pipeline /\
     job_status_of (w_db (cf_world c)) "demo" 1 (Job_Stage j) (Job_Name j) = Some StatusRunning) /\ NoDup (cf_executed c).
Proof.
  exists (demo_greedy (each_time demo_docker) demo_run_world demo_start_lost 150), (demo_concurrent (each_time demo_docker) demo_run_world demo_start_lost 150).
  split; [apply demo_concurrent_schedule; vm_compute; reflexivity|]. split; [vm_compute; reflexivity|]. split; [vm_compute; reflexivity|].
  split; [|apply (bool_decide_unpack _); vm_compute; exact I].
  exists (default zeroJob (Pipeline_Jobs demo_pipeline !! 3)). split; [|vm_compute; reflexivity].
  apply (list_elem_of_lookup_2 _ 3). vm_compute. reflexivity.
Qed.

Lemma steps_alone_witness :
  exists w', alone (dispatch_step 0) dispatch_done (Scan (Plan_Stages demo_ep)) demo_run_world w' (ok tt).
Proof.
  destruct demo_prepared as [rt P]. exists (dispatchPipelineStartJobs 0 demo_run_world).1.
  rewrite <- (pr_plan _ _ _ _ _ _ _ P).
  apply (proj2 (proj2 (steps_alone (demo_report "build" "fetch" "success") demo_run_world))); [apply P|].
  vm_compute. reflexivity.
Defined.
