(* ===== verification/Race.v ===== *)
(** * The race of two finished callbacks

    The handlers of the orchestrator hold no lock around the runtime from fetching
    it to forgetting it. Theorem: from any configuration that the system of
    Concurrent reaches without a fault, in which a job that may not fail has failed
    and is about to be reported, while the handler of another job of its stage has
    fetched the runtime, there are steps after which a run that was recorded as
    failed is recorded as a success, or jobs of the next stage are published. The
    last part executes such schedules. *)

From stdpp Require Import functions.
From S2P Require Import Prelude GoStrings Archive Models Graph Wellformed Planner Store StageState Mq Publisher Orchestrator Execution Http Worker Validation Parser Endpoints Callbacks System Steps Concurrent Lively Completion.

Section race.
Context {C : Collation} {Q : Type} {J : JobSink Q} {F : GoFloat}.
Context (error_text : goerr -> string).
Context (env : string -> string) (stat : string -> bool) (docker : JobExecutionMessage -> nat -> docker_env).
Context (p : Pipeline) (n : Z) (pt : ptr) (ri : runInfo) (Hvalid : valid_pipeline p) (Hid : identifiable p n).

Abbreviation schedule := (schedule error_text env stat docker p n pt).
Abbreviation pname := (Pipeline_Name p).
Abbreviation stage_names := (fmap (M:=list) Stage_Name (Pipeline_Stages p)).
Abbreviation job_message := (job_message p n ri).
Abbreviation message s job := (buildJobExecutionMessage n pname s job ri).
Abbreviation key := (runtimeKey pname n).
Abbreviation verdict k := (verdict error_text env stat (attempt docker k)).
Abbreviation safe_at := (safe_at p n pt ri).
Abbreviation published c := (sent_messages p n (cf_world c)).

(** ** One worker at a time *)

(** A handler of a finished callback that runs alone and answers 200 is steps of its worker. *)
Lemma alone_scheduled k m at_ (w w' : world Q) (c : config) :
  alone (finish_step (verdict k m)) finish_done at_ w w' (ok tt) -> finish_done at_ = None ->
  cf_act c m = Finishing k at_ -> cf_world c = w ->
  exists i c', schedule (replicate i (WorkerOf m)) c = Some c' /\ cf_world c' = w' /\ cf_act c' m = Reported /\
    forall m', m' ≠ m -> cf_act c' m' = cf_act c m'.
Proof.
  remember (ok tt : res unit) as r eqn:Er. intros H. revert c.
  induction H as [at_ w r Hd|at_ w w' e Hd Hs|at_ w w1 at1 w' r Hd Hs H1 IH]; intros c Hne Ha Hw; [congruence|done|subst].
  set (c1 := acts m (after_finish k (inl at1)) w1 c).
  assert (Hstep : step error_text env stat docker p n pt (WorkerOf m) c = Some c1) by (simpl; rewrite Ha; by rewrite Hs).
  assert (Hother : forall m', m' ≠ m -> cf_act c1 m' = cf_act c m') by (intros m' Hm; simpl; by rewrite fn_lookup_insert_ne).
  destruct (finish_done at1) as [r1|] eqn:Hd1.
  - inversion H1 as [? ? ? Hd2|? ? ? ? Hd2|? ? ? ? ? ? Hd2]; subst; [|congruence..]. exists 1, c1. simpl. rewrite Ha, Hs.
    split_and!; [done..| |done]. simpl. rewrite fn_lookup_insert. by destruct at1.
  - destruct (IH eq_refl c1 eq_refl) as (i & c' & Hi & Hw' & Ha' & Ho); [|done|].
    { simpl. rewrite fn_lookup_insert. by destruct at1. }
    exists (S i), c'. split_and!; [|done..|].
    + cbn [replicate Concurrent.schedule]. by rewrite Hstep.
    + intros m' Hm. by rewrite Ho, Hother.
Qed.

(** ** The failed job *)

Section stage.
Context (s : string) (bad good : Job) (Hs : s ∈ stage_names) (Hbad : bad ∈ jobsForStage s p) (Hgood : good ∈ jobsForStage s p).
Context (rt : pipelineRuntime) (st : stageState).

Lemma verdict_of_job k j : j ∈ jobsForStage s p ->
  Cb_Pipeline (verdict k (job_message j)) = pname /\ Cb_RunNo (verdict k (job_message j)) = n /\
  Cb_Stage (verdict k (job_message j)) = s /\ Cb_Job (verdict k (job_message j)) = Job_Name j.
Proof. intros [_ <-]%jobsForStage_elem. apply verdict_identity. Qed.

(** The callback of a failed job, to its end. *)
Lemma wp_failed kb (w : world Q) :
  w_faults w = [] -> w_runtimes w !! key = Some pt -> w_heap w !! pt = Some rt -> rt_stageStates rt !! s = Some st ->
  allowFailures (default zeroJobConfig (jobConfigs st !! Job_Name bad)) = false ->
  TrimSpace (Cb_Status (verdict kb (job_message bad))) = StatusFailed ->
  wp (HandleJobFinished (verdict kb (job_message bad))) (fun _ w1 =>
    w_faults w1 = [] /\ w_queue w1 = w_queue w /\ w_runtimes w1 = delete key (w_runtimes w) /\
    w_heap w1 !! pt = Some (set_stage s (markJobTerminal st (Job_Name bad)) rt) /\
    run_status_of (w_db w1) pname n = (fun _ => StatusFailed) <$> run_status_of (w_db w) pname n /\
    stage_status_of (w_db w1) pname n s = (fun _ => StatusFailed) <$> stage_status_of (w_db w) pname n s) w.
Proof.
  intros Hf Hmap Hheap Hst Hallow Hstatus. destruct (verdict_of_job kb bad Hbad) as (E1 & E2 & E3 & E4).
  unfold HandleJobFinished. rewrite (identity_of_message p n Hvalid Hid bad); [|by apply jobsForStage_elem in Hbad as []|done..| |done].
  2:{ rewrite E3. by apply jobsForStage_elem in Hbad as []. }
  rewrite Hstatus, bool_decide_eq_false_2 by naive_solver. rewrite E1, E2, E3, E4.
  apply wp_bind, wp_finishJob; [done|]. intros w1 t1 L1.
  apply wp_bind, (wp_getRuntime _ _ pt rt); [by rewrite (ld_map _ _ _ _ _ _ L1)|by rewrite (ld_heap _ _ _ _ _ _ L1)|].
  rewrite Hst, Hallow, decide_True by done.
  apply wp_bind, wp_update_runtime; [apply L1|]. intros w2 L2.
  apply wp_bind, wp_finishStage; [apply L2|]. intros w3 t3 L3.
  apply wp_bind, wp_finishRun; [apply L3|by right|]. intros w4 t4 L4.
  apply wp_deleteRuntime; [apply L4|]. intros w5 L5.
  destruct L1 as [D1 Q1 H1 M1 _ _ _], L2 as [D2 Q2 H2 M2 _ _ _], L3 as [D3 Q3 H3 M3 _ _ _], L4 as [D4 Q4 H4 M4 _ _ _], L5 as [D5 Q5 H5 M5 _ _ F5].
  split_and!; [done|congruence|by rewrite M5, M4, M3, M2, M1| | |].
  - by rewrite H5, H4, H3, H2, H1, lookup_alter_eq, Hheap.
  - rewrite D5, D4, run_status_finish. by rewrite D3, D2, D1.
  - rewrite D5, D4. pose proof (stage_status_update (w_db w2) pname n s (Some t3) StatusFailed s) as E.
    rewrite decide_True in E by done. rewrite <- D3 in E. rewrite D2, D1 in E. exact E.
Qed.

(** ** The job that succeeded *)

(** What the handler of the other job leaves: the stage is recorded as successful,
    and the run too, or the next stage is started. *)
Definition carries_on (w w' : world Q) : Prop :=
  stage_status_of (w_db w') pname n s = (fun _ => StatusSuccess) <$> stage_status_of (w_db w) pname n s /\
  match nextStageName stage_names s with
  | None => run_status_of (w_db w') pname n = (fun _ => StatusSuccess) <$> run_status_of (w_db w) pname n /\
            held (w_queue w') = held (w_queue w)
  | Some next =>
    run_status_of (w_db w') pname n = run_status_of (w_db w) pname n /\
    forall nst, rt_stageStates rt !! next = Some nst ->
      held (w_queue w') = held (w_queue w) ++ ((fun job => message next job) <$> (getReadyJobs nst).2)
  end.

Lemma wp_advance req (w : world Q) rt1 st2 :
  w_faults w = [] -> healthy (w_queue w) -> w_heap w !! pt = Some rt1 -> isStageComplete st2 = true ->
  rt_stageOrder rt1 = stage_names -> rt_runInfo rt1 = ri ->
  (forall x, x ≠ s -> rt_stageStates rt1 !! x = rt_stageStates rt !! x) ->
  (forall next, nextStageName stage_names s = Some next -> next ≠ s) ->
  Cb_Pipeline req = pname -> Cb_RunNo req = n -> Cb_Stage req = s ->
  wp (advance req pt st2) (fun _ w' => carries_on w w') w.
Proof.
  intros Hf Hh Hheap Hc Ho Hri Hsame Hne E1 E2 E3. unfold advance, carries_on. rewrite Hc, E1, E2, E3. cbn [negb].
  apply wp_bind, wp_finishStage; [done|]. intros w1 t1 L1.
  assert (Est : forall w' : world Q, stage_runs (w_db w') = stage_runs (w_db w1) ->
    stage_status_of (w_db w') pname n s = (fun _ => StatusSuccess) <$> stage_status_of (w_db w) pname n s).
  { intros w' E. unfold stage_status_of at 1. rewrite E, (ld_db _ _ _ _ _ _ L1).
    pose proof (stage_status_update (w_db w) pname n s (Some t1) StatusSuccess s) as H. by rewrite decide_True in H. }
  assert (Erun : run_status_of (w_db w1) pname n = run_status_of (w_db w) pname n) by (by rewrite (ld_db _ _ _ _ _ _ L1)).
  apply wp_bind, (wp_load _ rt1); [by rewrite (ld_heap _ _ _ _ _ _ L1)|]. rewrite Ho.
  destruct (nextStageName stage_names s) as [next|].
  - rewrite Hsame by (by apply Hne). destruct (rt_stageStates rt !! next) as [nst|] eqn:En.
    2:{ apply wp_ret. split_and!; [by apply Est|done|by intros ? ?]. }
    destruct (getReadyJobs nst) as [nst' ready] eqn:Er.
    apply wp_bind, wp_update_runtime; [apply L1|]. intros w2 L2.
    apply wp_bind, wp_enqueueReadyJobs; [apply L2|by rewrite (ld_queue _ _ _ _ _ _ L2), (ld_queue _ _ _ _ _ _ L1)|].
    intros w3 q Hq Hheld L3.
    assert (Hpub : forall nst0, Some nst = Some nst0 -> held q = held (w_queue w) ++ ((fun job => message next job) <$> (getReadyJobs nst0).2)).
    { intros ? [= <-]. by rewrite Er, Hheld, Hri, (ld_queue _ _ _ _ _ _ L2), (ld_queue _ _ _ _ _ _ L1). }
    assert (Edb : w_db w3 = w_db w1) by (by rewrite (ld_db _ _ _ _ _ _ L3), (ld_db _ _ _ _ _ _ L2)).
    destruct (isStageComplete nst').
    + apply wp_finishStage; [apply L3|]. intros w4 t4 L4. split_and!.
      * rewrite (ld_db _ _ _ _ _ _ L4), stage_status_update, Edb, (Est w1 eq_refl). case_decide; [|done].
        by destruct (stage_status_of (w_db w) pname n s).
      * by rewrite (ld_db _ _ _ _ _ _ L4), Edb.
      * by rewrite (ld_queue _ _ _ _ _ _ L4), (ld_queue _ _ _ _ _ _ L3).
    + apply wp_ret. split_and!; [apply Est; by rewrite Edb|by rewrite Edb|]. by rewrite (ld_queue _ _ _ _ _ _ L3).
  - apply wp_bind, wp_finishRun; [apply L1|by left|]. intros w2 t2 L2.
    apply wp_deleteRuntime; [apply L2|]. intros w3 L3.
    assert (Edb : w_db w3 = w_db w2) by (by rewrite (ld_db _ _ _ _ _ _ L3)).
    split_and!.
    + apply Est. by rewrite Edb, (ld_db _ _ _ _ _ _ L2).
    + by rewrite Edb, (ld_db _ _ _ _ _ _ L2), run_status_finish, Erun.
    + by rewrite (ld_queue _ _ _ _ _ _ L3), (ld_queue _ _ _ _ _ _ L2), (ld_queue _ _ _ _ _ _ L1).
Qed.

Lemma wp_carries_on req (w : world Q) rt1 st1 st2 :
  w_faults w = [] -> healthy (w_queue w) -> w_heap w !! pt = Some rt1 -> rt1 = set_stage s st1 rt -> runtime_ok p n ri rt ->
  markJobSucceeded st1 (Job_Name good) = (st2, []) -> isStageComplete st2 = true ->
  Cb_Pipeline req = pname -> Cb_RunNo req = n -> Cb_Stage req = s -> Cb_Job req = Job_Name good ->
  wp (jobSucceeded req pt rt1 st1) (fun _ w' => carries_on w w') w.
Proof.
  intros Hf Hh Hheap -> Hok Hm Hc E1 E2 E3 E4. unfold jobSucceeded. rewrite E4, Hm.
  apply wp_bind, wp_update_runtime; [done|]. intros w1 [D1 Q1 H1 M1 _ _ F1]. cbn [enqueueReadyJobs]. apply wp_bind, wp_ret.
  unfold carries_on. rewrite <- D1, <- Q1.
  apply (wp_advance req w1 (set_stage s st2 (set_stage s st1 rt)) st2); [done|by rewrite Q1| |done| | | | |done..].
  - by rewrite H1, E3, lookup_alter_eq, Hheap.
  - apply Hok.
  - apply Hok.
  - intros x Hx. simpl. by rewrite !lookup_insert_ne.
  - intros next Hn ->. destruct (next_split p n Hvalid Hid s s Hs Hn) as (past & future & E).
    pose proof (vp_stages_unique _ Hvalid) as Hu. rewrite E in Hu. apply NoDup_app in Hu as (_ & _ & Hu).
    apply NoDup_cons in Hu as [Hu _]. apply Hu. left.
Qed.

(** ** The race *)

(** The two jobs are executed and being reported; the others of the stage have completed. *)
Record last_two (c : config (Q := Q)) : Prop := {
  l2_safe : safe_at c rt;
  l2_stage : rt_stageStates rt !! s = Some st;
  l2_bad : past_execution (cf_act c (job_message bad));
  l2_good : past_execution (cf_act c (job_message good));
  l2_rest : forall j, j ∈ jobsForStage s p -> j = bad \/ j = good \/ Job_Name j ∈ completed st;
}.

Lemma executed_handed_out (c : config (Q := Q)) j :
  safe_at c rt -> j ∈ Pipeline_Jobs p -> job_message j ∈ cf_executed c -> handed_out rt j.
Proof.
  intros S Hj He. assert (Hm : job_message j ∈ published c).
  { destruct (sf_executed _ _ _ _ _ _ S _ He) as [Ha|[Ho|Ho]].
    - apply (sf_act _ _ _ _ _ _ S). intros E. by rewrite E in Ha.
    - apply list_elem_of_fmap in Ho as ([m a] & E & Ho). simpl in E. rewrite E. by eapply (sf_orphan _ _ _ _ _ _ S).
    - apply list_elem_of_fmap in Ho as ([m a] & E & Ho). simpl in E. rewrite E. by eapply (sf_copy _ _ _ _ _ _ S). }
  destruct (published_job p n pt ri c rt _ S Hm) as (j' & Hj' & E & Hh).
  by rewrite (job_message_inj p n ri Hvalid _ _ Hj Hj' E).
Qed.

Lemma last_two_complete (c : config (Q := Q)) : last_two c ->
  exists st2, markJobSucceeded (markJobTerminal st (Job_Name bad)) (Job_Name good) = (st2, []) /\ isStageComplete st2 = true.
Proof.
  intros [S Hst Hb Hg Hrest]. pose proof (ws_runtime _ _ _ _ _ _ _ (sf_world _ _ _ _ _ _ S)) as R.
  pose proof (sf_past _ _ _ _ _ _ S _ Hb) as Hbe. pose proof (sf_past _ _ _ _ _ _ S _ Hg) as Hge.
  destruct (rs_stages _ _ _ _ _ R s Hs) as (st0 & E & Hok). rewrite Hst in E. injection E as <-.
  pose proof (markJobTerminal_handing p Hvalid s st (Job_Name bad) Hok) as G1.
  set (st1 := markJobTerminal st (Job_Name bad)) in *.
  assert (R1 : runtime_safe p n ri (set_stage s st1 rt) (cf_executed c)).
  { eapply (runtime_safe_stage p n ri Hvalid Hid); [done|done|exact Hst|exact G1| |by left].
    intros x ->%elem_of_singleton. by exists bad. }
  assert (E1 : rt_stageStates (set_stage s st1 rt) !! s = Some st1) by apply lookup_insert_eq.
  pose proof (markJobSucceeded_handing p n Hvalid Hid s st1 (Job_Name good) (hg_ok _ _ _ _ _ _ G1)) as G2.
  destruct (markJobSucceeded st1 (Job_Name good)) as [st2 ready].
  assert (ready = []) as ->.
  { destruct ready as [|job ready]; [done|]. exfalso.
    destruct (ho_new _ _ _ _ _ _ (handing_hands_out p n ri Hvalid Hid _ _ _ _ _ _ E1 G2) (message s job)) as (j & Hj & Ej & Hn); [left|].
    assert (Hjs : j ∈ jobsForStage s p) by (apply jobsForStage_elem; split; [done|by injection Ej]).
    apply Hn, (handed_out_at _ s st1 j E1); [by apply jobsForStage_elem in Hjs as []|].
    change (queued st1) with (queued st). apply (handed_out_at rt s st j Hst); [by apply jobsForStage_elem in Hjs as []|].
    apply (executed_handed_out c); [done|done|]. destruct (Hrest j Hjs) as [-> |[-> |Hc]]; [done|done|].
    destruct (rs_completed _ _ _ _ _ R s st _ Hs Hst Hc) as (k & Hk & En & He).
    by rewrite (NoDup_name_inj _ _ _ (stage_unique s p Hvalid) Hk Hjs En) in He. }
  exists st2. split; [done|].
  assert (R2 : runtime_safe p n ri (set_stage s st2 (set_stage s st1 rt)) (cf_executed c)).
  { eapply (runtime_safe_stage p n ri Hvalid Hid); [done|done|exact E1|exact G2| |by left].
    intros x ->%elem_of_singleton. by exists good. }
  apply (stage_complete_iff p n ri _ _ s st2 R2 Hs); [apply lookup_insert_eq|].
  intros j Hj. rewrite (hg_completed _ _ _ _ _ _ G2), (hg_completed _ _ _ _ _ _ G1).
  destruct (Hrest j Hj) as [-> |[-> |Hc]]; set_solver.
Qed.
End stage.

(** C7: the handlers hold no lock around the runtime between fetching it and
    forgetting it, so the finished callbacks of two jobs of a stage can race. In any
    execution of a run whose names are told apart, over a store and a queue in which
    nothing fails, let the last two jobs of a stage be executed and the others have
    completed; one of the two, [bad], failed and may not, and its handler is about to
    start, while the handler of the other has already fetched the runtime. Then some
    steps of the first handler alone end it with the callback accepted, run and stage
    recorded as failed and the runtime forgotten; and after those, some steps of the
    other handler alone end it with its callback accepted and the stage recorded as
    successful, since it counts [bad] as completed. If it was the last stage, the run
    is then recorded as successful; if not, the run stays failed, and the jobs that
    the next stage has ready are published. *)
Theorem failed_run_recorded_success w0 rt0 stages l c s bad good rt st kb kg :
  launched p n pt ri w0 rt0 stages -> calm w0 -> schedule l (concurrent_start w0 stages) = Some c ->
  s ∈ stage_names -> bad ∈ jobsForStage s p -> good ∈ jobsForStage s p -> bad ≠ good ->
  w_runtimes (cf_world c) !! key = Some pt -> w_heap (cf_world c) !! pt = Some rt -> rt_stageStates rt !! s = Some st ->
  (forall j, j ∈ jobsForStage s p -> j = bad \/ j = good \/ Job_Name j ∈ completed st) ->
  allowFailures (default zeroJobConfig (jobConfigs st !! Job_Name bad)) = false ->
  TrimSpace (Cb_Status (verdict kb (job_message bad))) = StatusFailed ->
  cf_act c (job_message bad) = Finishing kb FinishJob -> cf_act c (job_message good) = Finishing kg (MarkSucceeded pt) ->
  is_Some (run_status_of (w_db (cf_world c)) pname n) -> is_Some (stage_status_of (w_db (cf_world c)) pname n s) ->
  exists i1 c1 i2 c2,
    schedule (replicate i1 (WorkerOf (job_message bad))) c = Some c1 /\ cf_act c1 (job_message bad) = Reported /\
    run_status_of (w_db (cf_world c1)) pname n = Some StatusFailed /\
    stage_status_of (w_db (cf_world c1)) pname n s = Some StatusFailed /\
    w_runtimes (cf_world c1) !! key = None /\ published c1 = published c /\
    schedule (replicate i2 (WorkerOf (job_message good))) c1 = Some c2 /\ cf_act c2 (job_message good) = Reported /\
    stage_status_of (w_db (cf_world c2)) pname n s = Some StatusSuccess /\
    match nextStageName stage_names s with
    | None => run_status_of (w_db (cf_world c2)) pname n = Some StatusSuccess
    | Some next =>
      run_status_of (w_db (cf_world c2)) pname n = Some StatusFailed /\
      forall nst, rt_stageStates rt !! next = Some nst ->
        published c2 = published c1 ++ ((fun job => message next job) <$> (getReadyJobs nst).2)
    end.
Proof.
  intros L Hcalm Hl Hs Hb Hg Hne Hmap Hheap Hst Hrest Hallow Hstatus Hab Hag [sr Hrun] [ss Hstage].
  destruct (schedule_length error_text env stat docker p n pt ri Hvalid Hid _ _ _ _
    (start_safe p n pt ri Hvalid Hid _ _ _ L) Hcalm (launched_undoubled _ _ _ _ _ _ _ L) Hl) as (rt' & S & [Hf Hh] & _).
  assert (rt' = rt) as -> by (pose proof (ws_heap _ _ _ _ _ _ _ (sf_world _ _ _ _ _ _ S)); congruence).
  destruct (last_two_complete s bad good Hs Hb Hg rt st c) as (st2 & Hm & Hc); [by split; rewrite ?Hab, ?Hag|].
  destruct (wp_run _ _ _ (wp_failed s bad good Hs Hb Hg rt st kb _ Hf Hmap Hheap Hst Hallow Hstatus)) as (w1 & [] & E1 & F1 & Q1 & M1 & H1 & Run1 & St1).
  pose proof (runs_HandleJobFinished (verdict kb (job_message bad)) (cf_world c)) as A1. unfold runs in A1. rewrite E1 in A1. cbn [fst snd] in A1.
  destruct (alone_scheduled kb (job_message bad) FinishJob _ _ c A1 eq_refl Hab eq_refl) as (i1 & c1 & Hi1 & Hw1 & Hr1 & Ho1).
  destruct (verdict_of_job s bad good Hs Hb Hg kg good Hg) as (V1 & V2 & V3 & V4).
  destruct (wp_run _ _ _ (wp_carries_on s good Hs rt (verdict kg (job_message good)) w1 _ _ _ F1 ltac:(by rewrite Q1) H1 eq_refl
    (rs_ok _ _ _ _ _ (ws_runtime _ _ _ _ _ _ _ (sf_world _ _ _ _ _ _ S))) Hm Hc V1 V2 V3 V4)) as (w2 & [] & E2 & St2 & Run2).
  assert (Hst1 : rt_stageStates (set_stage s (markJobTerminal st (Job_Name bad)) rt) !! Cb_Stage (verdict kg (job_message good))
    = Some (markJobTerminal st (Job_Name bad))) by (rewrite V3; apply lookup_insert_eq).
  pose proof (runs_jobSucceeded (verdict kg (job_message good)) pt _ _ w1 H1 Hst1) as A2. unfold runs in A2. rewrite E2 in A2. cbn [fst snd] in A2.
  destruct (alone_scheduled kg (job_message good) (MarkSucceeded pt) _ _ c1 A2 eq_refl) as (i2 & c2 & Hi2 & Hw2 & Hr2 & _); [|done|].
  { rewrite Ho1; [done|]. intros E. apply Hne. apply (job_message_inj p n ri Hvalid); [by apply jobsForStage_elem in Hb as []|by apply jobsForStage_elem in Hg as []|done]. }
  exists i1, c1, i2, c2. rewrite Hw1, Hw2, M1, Run1, St1, Hrun, Hstage, St2, St1, Hstage.
  split_and!; try done; [apply lookup_delete_eq|unfold sent_messages; by rewrite Q1|].
  rewrite Run1, Hrun in Run2. destruct (nextStageName stage_names s) as [next|]; [|apply Run2].
  destruct Run2 as [-> Hp]. split; [done|]. intros nst Hn. unfold sent_messages. rewrite (Hp nst Hn), filter_app. f_equal.
  induction (getReadyJobs nst).2 as [|job jobs IH]; [done|]. cbn [fmap list_fmap]. rewrite filter_cons_True by done. by f_equal.
Qed.
End race.

(** ** Concrete races *)

#[local] Existing Instance binary_collation.
#[local] Existing Instance no_floats.

(** Two jobs of one stage, of which one fails and may not, and possibly a second stage. *)
Definition race_job (name stage : string) : Job := MkJob name stage "alpine" ["make"] [] false.
Definition race_bad : Job := race_job "bad" "build".
Definition race_good : Job := race_job "good" "build".
Definition race_pipeline (second : bool) : Pipeline :=
  MkPipeline "race" (MkStage <$> "build" :: if second then ["deploy"] else [])
    (race_bad :: race_good :: if second then [race_job "deploy" "deploy"] else []).
Definition race_orders (i : nat) : list string := match i with 0 => ["bad"; "good"] | _ => ["deploy"] end.
Definition race_plan (second : bool) : ExecutionPlan :=
  default (MkExecutionPlan []) (GenerateExecutionPlan race_orders (race_pipeline second)).
Definition race_docker (m : JobExecutionMessage) (k : nat) : docker_env :=
  MkDocker None (ok "/tmp/job") (fun _ => None) None None (ok "c1") (fun _ => Directory demo_names) (fun _ => None) None
    (WaitExit (if decide (JobPlan_Name (Msg_Job m) = "bad") then 2 else 0)) (ok ("", "")).
Definition race_world (second : bool) : world sink := run_world race_orders (race_pipeline second) (race_plan second).
Definition race_message (second : bool) (j : Job) : JobExecutionMessage := job_message (race_pipeline second) 1 (newRunInfo demo_request) j.

(** Both jobs are executed, and the handler of the one that succeeded has fetched the runtime. *)
Definition race_actors (second : bool) : list actor :=
  replicate 4 Dispatcher ++ replicate 4 (WorkerOf (race_message second race_bad)) ++ replicate 6 (WorkerOf (race_message second race_good)).
Abbreviation race_schedule second := (schedule no_text demo_env demo_stat race_docker (race_pipeline second) 1 0).
Definition race_start (second : bool) : config := concurrent_start (race_world second) (Plan_Stages (race_plan second)).
Definition race_config (second : bool) : config := default (race_start second) (race_schedule second (race_actors second) (race_start second)).
Definition race_rt (second : bool) : pipelineRuntime := default (MkRuntime "" 0 [] ∅ (newRunInfo demo_request) 0 ∅ (race_plan second)) (w_heap (cf_world (race_config second)) !! 0).
Definition race_st (second : bool) : stageState :=
  default (newStageState (MkStagePlan "" [] ∅ ∅ ∅ ∅)) (rt_stageStates (race_rt second) !! "build").

Lemma race_valid second : valid_pipeline (race_pipeline second).
Proof. apply (valid_by_certificate []). by destruct second. Qed.

Lemma race_identifiable second : identifiable (race_pipeline second) 1.
Proof.
  split; try discriminate.
  - intros s Hs. cut (Forall (fun s => TrimSpace s ≠ "") (Stage_Name <$> Pipeline_Stages (race_pipeline second))).
    + rewrite Forall_forall. auto.
    + destruct second; by_decide.
  - intros j Hj. cut (Forall (fun j => TrimSpace (Job_Name j) ≠ "") (Pipeline_Jobs (race_pipeline second))).
    + rewrite Forall_forall. auto.
    + destruct second; by_decide.
  - by intros s s' _ _ E.
  - by intros j j' _ _ _ E.
Qed.

Lemma race_prepared second : exists rt,
  prepared (race_pipeline second) 1 (newRunInfo demo_request) 0 [] (race_world second) rt (race_plan second).
Proof.
  assert (Ho : legal_orders race_orders (race_pipeline second)) by (destruct second; intros [|[|i]] stage [= <-]; legal_order).
  assert (Hr : ready_world (race_pipeline second) (Some "0af7") demo_request demo_sha (demo_world [])).
  { split; [split; first [done|apply empty_db_wf]|apply demo_sink_healthy]. }
  destruct (run_prepared (race_pipeline second) (race_valid second) (Some "0af7") race_orders race_orders (race_plan second) demo_request demo_sha
    (demo_world []) Hr (race_identifiable second) Ho) as (w1 & rt & E & _ & _ & P); [|done|].
  { destruct second; vm_compute; reflexivity. }
  exists rt. unfold race_world, run_world. rewrite E. exact P.
Qed.

Lemma race_launched second : exists rt,
  launched (race_pipeline second) 1 0 (newRunInfo demo_request) (race_world second) rt (Plan_Stages (race_plan second)).
Proof.
  destruct (race_prepared second) as [rt P]. exists rt. eapply (prepared_launched _ _ _ _ []); [constructor| |exact P].
  destruct second; vm_compute; reflexivity.
Qed.

Lemma race_calm second : calm (race_world second).
Proof. destruct (race_prepared second) as [rt P]. split; apply P. Qed.

Lemma race_rest second j : j ∈ jobsForStage "build" (race_pipeline second) ->
  j = race_bad \/ j = race_good \/ Job_Name j ∈ completed (race_st second).
Proof.
  assert (jobsForStage "build" (race_pipeline second) = [race_bad; race_good]) as -> by (by destruct second).
  intros [->|[->|[]%elem_of_nil]%elem_of_cons]%elem_of_cons; auto.
Qed.
#[local] Ltac at_race :=
  lazymatch goal with
  | |- forall _, _ => apply race_rest
  | |- is_Some _ => by_decide
  | |- _ ∈ _ => by_decide
  | |- _ ≠ _ => by_decide
  | |- _ = _ => vm_compute; reflexivity
  end.

Lemma failed_run_recorded_success_witness :
  (exists i1 c1 i2 c2,
     race_schedule false (replicate i1 (WorkerOf (race_message false race_bad))) (race_config false) = Some c1 /\
     run_status_of (w_db (cf_world c1)) "race" 1 = Some StatusFailed /\
     race_schedule false (replicate i2 (WorkerOf (race_message false race_good))) c1 = Some c2 /\
     run_status_of (w_db (cf_world c2)) "race" 1 = Some StatusSuccess) /\
  (exists i1 c1 i2 c2,
     race_schedule true (replicate i1 (WorkerOf (race_message true race_bad))) (race_config true) = Some c1 /\
     run_status_of (w_db (cf_world c1)) "race" 1 = Some StatusFailed /\
     race_schedule true (replicate i2 (WorkerOf (race_message true race_good))) c1 = Some c2 /\
     run_status_of (w_db (cf_world c2)) "race" 1 = Some StatusFailed /\
     sent_messages (race_pipeline true) 1 (cf_world c2)
     = sent_messages (race_pipeline true) 1 (cf_world c1) ++ [race_message true (race_job "deploy" "deploy")]).
Proof.
  split.
  - destruct (race_launched false) as [rt0 L].
    destruct (failed_run_recorded_success no_text demo_env demo_stat race_docker (race_pipeline false) 1 0 (newRunInfo demo_request)
      (race_valid false) (race_identifiable false) (race_world false) rt0 (Plan_Stages (race_plan false)) (race_actors false) (race_config false)
      "build" race_bad race_good (race_rt false) (race_st false) 0 0 L (race_calm false))
      as (i1 & c1 & i2 & c2 & H1 & _ & H2 & _ & _ & _ & H3 & _ & _ & H4).
    1-15: at_race.
    exists i1, c1, i2, c2. split_and!; assumption.
  - destruct (race_launched true) as [rt0 L].
    destruct (failed_run_recorded_success no_text demo_env demo_stat race_docker (race_pipeline true) 1 0 (newRunInfo demo_request)
      (race_valid true) (race_identifiable true) (race_world true) rt0 (Plan_Stages (race_plan true)) (race_actors true) (race_config true)
      "build" race_bad race_good (race_rt true) (race_st true) 0 0 L (race_calm true))
      as (i1 & c1 & i2 & c2 & H1 & _ & H2 & _ & _ & _ & H3 & _ & _ & H4).
    1-15: at_race.
    exists i1, c1, i2, c2. split_and!; [assumption..|exact (proj1 H4)|].
    etrans; [apply (proj2 H4 (default (race_st true) (rt_stageStates (race_rt true) !! "deploy"))); vm_compute; reflexivity|].
    by f_equal.
Defined.
