(* ===== verification/Footprint.v ===== *)
(** * What the handlers of a run touch

    The orchestrator serves many runs at once; they share the tables, the queue,
    the heap and the map of runtimes. Theorems: a step of a run's handlers, of its
    workers or of its goroutine changes rows of the run's own number, the runtime
    behind its own pointer and its own entry of the map, and publishes messages of
    its own; so what is true of another run stays true. *)

From S2P Require Import Prelude GoStrings Archive Models Graph Wellformed Planner Store StageState Mq Publisher Orchestrator Execution Http Worker Validation Parser Endpoints Callbacks System Steps Concurrent Lively Completion.

(** ** Computations that respect a relation *)

Section respects.
Context {Q : Type} (R : relation (world Q)).

Definition respects {A} (m : M (Q := Q) A) : Prop := forall w, R w (m w).1.

Context `{!PreOrder R}.

Lemma respects_ret {A} (a : A) : respects (mret a).
Proof. by intros w. Qed.
Lemma respects_fail {A} e : respects (fail (A := A) e).
Proof. by intros w. Qed.
Lemma respects_bind {A B} (m : M A) (f : A -> M B) : respects m -> (forall a, respects (f a)) -> respects (m ≫= f).
Proof.
  intros Hm Hf w. specialize (Hm w). unfold mbind, M_bind. destruct (m w) as [w1 [a|e]]; simpl in *; [|done].
  etrans; [done|]. apply Hf.
Qed.
Lemma respects_catch {A} (m : M A) h : respects m -> (forall e, respects (h e)) -> respects (catch m h).
Proof.
  intros Hm Hh w. specialize (Hm w). unfold catch. destruct (m w) as [w1 [a|e]]; simpl in *; [done|].
  etrans; [done|]. apply Hh.
Qed.
Lemma respects_ignore m : respects m -> respects (ignore m).
Proof. intros Hm. apply respects_catch; [done|]. intros e. apply respects_ret. Qed.
Lemma respects_load q : respects (load q).
Proof. intros w. unfold load. by destruct (w_heap w !! q). Qed.
Lemma respects_get name n : respects (getPipelineRuntime name n).
Proof. by intros w. Qed.
Lemma respects_with_stage {A} q s (none : A) k : (forall rt st, respects (k rt st)) -> respects (with_stage q s none k).
Proof.
  intros Hk. apply respects_bind; [apply respects_load|]. intros rt. destruct (rt_stageStates rt !! s); [apply Hk|apply respects_ret].
Qed.
End respects.

Create HintDb footprint.
#[export] Hint Resolve respects_ret respects_fail respects_bind respects_catch respects_ignore respects_load respects_get respects_with_stage : footprint.

Section footprint.
Context {C : Collation} {Q : Type} {J : JobSink Q}.

(** ** What is of a run *)

(** From [d] to [d'] at most the rows of run [n] of the pipeline changed. *)
Record rows_within (name : string) (n : Z) (d d' : db) : Prop := {
  rwi_runs : forall k, k ≠ (ci name, n) -> pipeline_runs d' !! k = pipeline_runs d !! k;
  rwi_stages : forall q m s, (q, m) ≠ (ci name, n) -> stage_runs d' !! (q, m, s) = stage_runs d !! (q, m, s);
  rwi_jobs : forall q m s j, (q, m) ≠ (ci name, n) -> job_runs d' !! (q, m, s, j) = job_runs d !! (q, m, s, j);
  rwi_sequences : pipeline_sequences d' = pipeline_sequences d;
  rwi_wf : db_wf d -> db_wf d';
}.

#[export] Instance rows_within_preorder name n : PreOrder (rows_within name n).
Proof.
  split; [by split|]. intros d1 d2 d3 [A1 A2 A3 A4 A5] [B1 B2 B3 B4 B5]. split.
  - intros k Hk. by rewrite B1, A1.
  - intros q m s Hk. by rewrite B2, A2.
  - intros q m s j Hk. by rewrite B3, A3.
  - by rewrite B4.
  - auto.
Qed.

Section rows.
Context (name : string) (n : Z).

Lemma rows_UpdateRun d t st : rows_within name n d (UpdateRun d name n t st).1.
Proof.
  split; [| | | |apply (apply_op_wf d (OpUpdateRun name n t st))];
    unfold UpdateRun; destruct (pipeline_runs d !! _) as [r|]; try done; try (destruct (active_conflict _ _ _); done).
  intros k Hk. destruct (active_conflict _ _ _); [done|]. simpl. by apply lookup_insert_ne.
Qed.
Lemma rows_CreateStage d s t st : rows_within name n d (CreateStage d name n s t st).1.
Proof.
  split; [| | | |apply (apply_op_wf d (OpCreateStage name n s t st))]; unfold CreateStage; destruct (stage_runs d !! _); try done.
  intros q m x Hk. simpl. apply lookup_insert_ne. congruence.
Qed.
Lemma rows_UpdateStage d s t st : rows_within name n d (UpdateStage d name n s t st).1.
Proof.
  split; [done| |done|done|apply (apply_op_wf d (OpUpdateStage name n s t st))].
  intros q m x Hk. simpl. apply lookup_alter_ne. congruence.
Qed.
Lemma rows_CreateJob d s j t st f : rows_within name n d (CreateJob d name n s j t st f).1.
Proof.
  split; [| | | |apply (apply_op_wf d (OpCreateJob name n s j t st f))]; unfold CreateJob; destruct (job_runs d !! _); try done.
  intros q m x y Hk. simpl. apply lookup_insert_ne. congruence.
Qed.
Lemma rows_UpdateJob d s j t st : rows_within name n d (UpdateJob d name n s j t st).1.
Proof.
  split; [done|done| |done|apply (apply_op_wf d (OpUpdateJob name n s j t st))].
  intros q m x y Hk. simpl. apply lookup_alter_ne. congruence.
Qed.
End rows.

(** From [w] to [w'] at most what is of the run with the pointer [pt] changed. *)
Record within (p : Pipeline) (n : Z) (pt : ptr) (w w' : world Q) : Prop := {
  wi_heap : forall q, q ≠ pt -> w_heap w' !! q = w_heap w !! q;
  wi_bound : forall q, is_Some (w_heap w' !! q) -> is_Some (w_heap w !! q);
  wi_next : w_next w' = w_next w;
  wi_spawned : w_spawned w' = w_spawned w;
  wi_map : forall k, k ≠ runtimeKey (Pipeline_Name p) n -> w_runtimes w' !! k = w_runtimes w !! k;
  wi_queue : exists extra, requested (w_queue w') = requested (w_queue w) ++ extra /\ Forall (own_message p n) extra;
  wi_held : exists copies, held (w_queue w') = held (w_queue w) ++ copies /\ Forall (own_message p n) copies;
  wi_rows : rows_within (Pipeline_Name p) n (w_db w) (w_db w');
  wi_faults : w_faults w = [] -> w_faults w' = [];
}.

#[export] Instance within_preorder p n pt : PreOrder (within p n pt).
Proof.
  split; [split; try done; exists []; (split; [by rewrite app_nil_r|done])|].
  intros w1 w2 w3 [A1 A2 A3 A4 A5 (x & A6 & A7) (x' & A6' & A7') A8 A9] [B1 B2 B3 B4 B5 (y & B6 & B7) (y' & B6' & B7') B8 B9].
  split; try congruence; auto.
  - intros q Hq. by rewrite B1, A1.
  - intros k Hk. by rewrite B5, A5.
  - exists (x ++ y). split; [by rewrite B6, A6, app_assoc|by apply Forall_app].
  - exists (x' ++ y'). split; [by rewrite B6', A6', app_assoc|by apply Forall_app].
  - by etrans.
Qed.

Section touches.
Context (p : Pipeline) (n : Z) (pt : ptr).
Abbreviation pname := (Pipeline_Name p).
Abbreviation touches m := (respects (within p n pt) m).

Lemma within_intro w w' :
  (forall q, q ≠ pt -> w_heap w' !! q = w_heap w !! q) -> (forall q, is_Some (w_heap w' !! q) -> is_Some (w_heap w !! q)) ->
  w_next w' = w_next w -> w_spawned w' = w_spawned w -> w_queue w' = w_queue w ->
  (forall k, k ≠ runtimeKey pname n -> w_runtimes w' !! k = w_runtimes w !! k) ->
  rows_within pname n (w_db w) (w_db w') -> (w_faults w = [] -> w_faults w' = []) -> within p n pt w w'.
Proof. intros ? ? ? ? E ? ? ?. split; try done; rewrite E; exists []; (split; [by rewrite app_nil_r|done]). Qed.

Lemma touches_store {A} (f : db -> db * res A) : (forall d, rows_within pname n d (f d).1) -> touches (store_call f).
Proof.
  intros Hf w. specialize (Hf (w_db w)). unfold store_call.
  destruct (w_faults w) as [|[e|] fs] eqn:Ef; [|by apply within_intro; rewrite ?Ef|];
    destruct (f (w_db w)); by apply within_intro; rewrite ?Ef.
Qed.
Lemma touches_now : touches now.
Proof. intros w. by apply within_intro. Qed.
Lemma touches_timed (g : Z -> db -> db * res unit) : (forall t d, rows_within pname n d (g t d).1) -> touches (t ← now; store_call (g t)).
Proof. intros Hg. apply respects_bind; [apply _|apply touches_now|]. intros t. apply touches_store, Hg. Qed.
Lemma touches_finishStage s st : touches (finishStageWithMetrics pname n s st).
Proof. apply (touches_timed (fun t d => UpdateStage d pname n s (Some t) st)). intros t d. apply rows_UpdateStage. Qed.
Lemma touches_finishJob s j st : touches (finishJob pname n s j st).
Proof. apply (touches_timed (fun t d => UpdateJob d pname n s j (Some t) st)). intros t d. apply rows_UpdateJob. Qed.
Lemma touches_finishRun st : touches (finishPipelineRunWithMetrics pname n st).
Proof. apply (touches_timed (fun t d => UpdateRun d pname n (Some t) st)). intros t d. apply rows_UpdateRun. Qed.
Lemma touches_startStage s : touches (startStage pname n s).
Proof. apply (touches_timed (fun t d => CreateStage d pname n s t StatusQueued)). intros t d. apply rows_CreateStage. Qed.
Lemma touches_startJob s j f : touches (startJob pname n s j f).
Proof. apply (touches_timed (fun t d => CreateJob d pname n s j t StatusQueued f)). intros t d. apply rows_CreateJob. Qed.
Lemma touches_markJobRunning s j : touches (markJobRunning pname n s j).
Proof. apply touches_store. intros d. apply rows_UpdateJob. Qed.
Lemma touches_enqueue m : own_message p n m -> touches (enqueue m).
Proof.
  intros Hm w. unfold enqueue. destruct (enqueueJob m (w_queue w)) as [q r] eqn:E. split; try done. simpl.
  - exists [m]. split; [by eapply enqueueJob_requested|by apply Forall_singleton].
  - destruct (enqueueJob_held _ _ _ _ E) as (k & _ & Hk & _). exists (replicate k m). split; [done|].
    apply Forall_forall. by intros x [-> _]%elem_of_replicate.
Qed.
Lemma touches_update f : touches (update_runtime pt f).
Proof.
  intros w. apply within_intro; try done.
  - intros q Hq. simpl. by apply lookup_alter_ne.
  - intros q. simpl. by rewrite lookup_alter_is_Some.
Qed.
Lemma touches_delete : touches (deleteRuntime pname n).
Proof. intros w. apply within_intro; try done. intros k Hk. simpl. by apply lookup_delete_ne. Qed.
End touches.

End footprint.

#[export] Hint Resolve touches_now touches_finishStage touches_finishJob touches_finishRun touches_startStage touches_startJob
  touches_markJobRunning touches_enqueue touches_update touches_delete : footprint.

(** ** The steps of the handlers *)

Section handlers.
Context {C : Collation} {Q : Type} {J : JobSink Q}.
Context (p : Pipeline) (n : Z) (pt : ptr).
Abbreviation pname := (Pipeline_Name p).
Abbreviation touches m := (respects (within p n pt) m).

Definition points_to (at_ : point) : Prop :=
  match at_ with
  | MarkSucceeded q | PublishReady q _ | CheckStage q | FinishStage q | PollNext q | PublishNext q _ _ | CheckNext q _ | MarkTerminal q => q = pt
  | _ => True
  end.

#[local] Ltac by_footprint :=
  repeat (intros; first [progress auto with footprint typeclass_instances | apply respects_bind; [apply _| |] | apply respects_catch; [apply _| |] | apply respects_with_stage; [apply _|]
    | apply touches_enqueue; done | case_match]).

Lemma touches_finish req at_ : Cb_Pipeline req = pname -> Cb_RunNo req = n -> points_to at_ -> touches (finish_step req at_).
Proof.
  intros Ep En Hp. destruct at_; cbv beta iota zeta delta [finish_step]; simpl in Hp; subst; rewrite ?Ep; by_footprint.
Qed.
Lemma start_within req at_ w :
  Cb_Pipeline req = pname -> Cb_RunNo req = n ->
  w_runtimes w !! runtimeKey pname n = Some pt \/ w_runtimes w !! runtimeKey pname n = None ->
  within p n pt w (start_step req at_ w).1.
Proof.
  intros Ep En Hm. destruct at_; cbv beta iota zeta delta [start_step]; rewrite ?Ep, ?En; [| |done].
  - revert w Hm. intros w _. revert w. change (touches (if missing_identity req then fail identity_error else
      markJobRunning pname n (Cb_Stage req) (Cb_Job req);; mret NoteStarted)). by_footprint.
  - unfold noteJobStarted, mbind, M_bind, getPipelineRuntime. simpl. destruct Hm as [-> | ->]; simpl; [|done].
    destruct (w_heap w !! pt) as [rt|]; [|done]. simpl. etrans; [apply touches_now|].
    exact (touches_update p n pt (set_startTimes (<[(Cb_Stage req, Cb_Job req) := w_clock w]> (rt_jobStartTimes rt))) (now w).1).
Qed.

Lemma dispatch_within rt at_ w :
  w_heap w !! pt = Some rt -> rt_pipeline rt = pname -> rt_runNo rt = n -> within p n pt w (dispatch_step pt at_ w).1.
Proof.
  intros Hh Ep En. destruct (dispatch_step pt at_ w) as [w' r] eqn:E. apply (load_inv _ rt) in E; [|done]. rewrite Ep, En in E. simpl.
  match type of E with ?m w = _ => cut (touches m) end; [intros Ht; specialize (Ht w); by rewrite E in Ht|].
  destruct at_; unfold or_abort; by_footprint.
Qed.
(** *** The steps of the run *)

Section steps.
Context {F : GoFloat} (error_text : goerr -> string).
Context (env : string -> string) (stat : string -> bool) (docker : JobExecutionMessage -> nat -> docker_env).
Context (ri : runInfo) (Hvalid : valid_pipeline p) (Hid : identifiable p n).
Abbreviation step := (step error_text env stat docker p n pt).
Abbreviation safe_at := (safe_at p n pt ri).
Abbreviation published c := (sent_messages p n (cf_world c)).

Lemma own_published c m : m ∈ published c -> Msg_PipelineName m = pname /\ Msg_RunNo m = n.
Proof. by intros [? _]%list_elem_of_filter. Qed.

Lemma handled_start c rt m at_ : safe_at c rt -> m ∈ published c -> within p n pt (cf_world c) (start_step (startedRequest m) at_ (cf_world c)).1.
Proof.
  intros S Hm. destruct (own_published c m Hm) as [Ep En]. apply start_within; [done..|]. apply (sf_world _ _ _ _ _ _ S).
Qed.

Lemma point_ok_points executed m at_ : point_ok p n pt ri executed m at_ -> points_to at_.
Proof. destruct at_; simpl; naive_solver. Qed.

Lemma handled_finish c rt m k at_ :
  safe_at c rt -> m ∈ published c -> handler_ok p n pt ri (cf_executed c) m (Finishing k at_) ->
  within p n pt (cf_world c) (finish_step (verdict error_text env stat (attempt docker k) m) at_ (cf_world c)).1.
Proof.
  intros S Hm Hok. destruct (own_published c m Hm) as [Ep En].
  destruct (verdict_identity error_text env stat (attempt docker k) m) as (E1 & E2 & _).
  apply touches_finish; [congruence|congruence|]. destruct (Hok k at_ eq_refl) as [Hp _]. by eapply point_ok_points.
Qed.

Lemma step_within c c' rt a : safe_at c rt -> step a c = Some c' -> within p n pt (cf_world c) (cf_world c').
Proof.
  intros S. pose proof (sf_world _ _ _ _ _ _ S) as W. destruct a as [|m|m|m|i|m|i|i|i]; simpl.
  - destruct (dispatch_done _); [done|]. destruct (ws_runtime _ _ _ _ _ _ _ W) as [[E1 E2 _ _] _ _ _].
    pose proof (dispatch_within rt (cf_dispatch c) (cf_world c) (ws_heap _ _ _ _ _ _ _ W) E1 E2) as H.
    destruct (dispatch_step _ _ _) as [w' r]. by intros [= <-].
  - destruct (cf_act c m) as [|at_| |k at_|] eqn:Ea; [case_decide; [|done]| | | |done]; [by intros [= <-]| |by intros [= <-]|].
    + assert (Hm : m ∈ published c) by (apply (sf_act _ _ _ _ _ _ S); by rewrite Ea).
      pose proof (handled_start c rt m at_ S Hm) as H. destruct (start_step _ _ _). by intros [= <-].
    + assert (Hm : m ∈ published c) by (apply (sf_act _ _ _ _ _ _ S); by rewrite Ea).
      pose proof (sf_handlers _ _ _ _ _ _ S m) as Hok. rewrite Ea in Hok.
      pose proof (handled_finish c rt m k at_ S Hm Hok) as H. destruct (finish_step _ _ _). by intros [= <-].
  - destruct (cf_act c m); try done. by intros [= <-].
  - destruct (cf_act c m); try done; by intros [= <-].
  - intros ([m a] & Hi & Hs)%bind_Some. apply list_elem_of_lookup_2 in Hi.
    pose proof (sf_orphan _ _ _ _ _ _ S m a Hi) as Hm. pose proof (sf_orphan_handlers _ _ _ _ _ _ S m a Hi) as Hok.
    destruct a as [|at_| |k at_|]; try done.
    + pose proof (handled_start c rt m at_ S Hm) as H. destruct (start_step _ _ _). by injection Hs as <-.
    + pose proof (handled_finish c rt m k at_ S Hm Hok) as H. destruct (finish_step _ _ _). by injection Hs as <-.
  - case_decide; [|done]. by intros [= <-].
  - intros ([m a] & Hi & Hs)%bind_Some. apply list_elem_of_lookup_2 in Hi.
    pose proof (sf_copy _ _ _ _ _ _ S m a Hi) as Hm. pose proof (sf_copy_handlers _ _ _ _ _ _ S m a Hi) as Hok.
    destruct a as [|at_| |k at_|]; try done; try (by injection Hs as <-).
    + pose proof (handled_start c rt m at_ S Hm) as H. destruct (start_step _ _ _). by injection Hs as <-.
    + pose proof (handled_finish c rt m k at_ S Hm Hok) as H. destruct (finish_step _ _ _). by injection Hs as <-.
  - intros ([m a] & Hi & Hs)%bind_Some. destruct a; try done. by injection Hs as <-.
  - intros ([m a] & Hi & Hs)%bind_Some. destruct a; try done; by injection Hs as <-.
Qed.
End steps.
End handlers.

(** ** What stays of the other runs *)

Section elsewhere.
Context {C : Collation} {Q : Type} {J : JobSink Q}.

(** From [w] to [w'] nothing changed of the run. *)
Record elsewhere (p : Pipeline) (n : Z) (pt : ptr) (w w' : world Q) : Prop := {
  el_heap : w_heap w' !! pt = w_heap w !! pt;
  el_map : w_runtimes w' !! runtimeKey (Pipeline_Name p) n = w_runtimes w !! runtimeKey (Pipeline_Name p) n;
  el_sent : sent_messages p n w' = sent_messages p n w;
  el_requested : requested_messages p n w' = requested_messages p n w;
  el_run : pipeline_runs (w_db w') !! (ci (Pipeline_Name p), n) = pipeline_runs (w_db w) !! (ci (Pipeline_Name p), n);
  el_stages : forall s, stage_runs (w_db w') !! (ci (Pipeline_Name p), n, s) = stage_runs (w_db w) !! (ci (Pipeline_Name p), n, s);
  el_jobs : forall s j, job_runs (w_db w') !! (ci (Pipeline_Name p), n, s, j) = job_runs (w_db w) !! (ci (Pipeline_Name p), n, s, j);
}.

#[export] Instance elsewhere_preorder p n pt : PreOrder (elsewhere p n pt).
Proof.
  split; [by split|]. intros w1 w2 w3 [A1 A2 A3 A4 A5 A6 A7] [B1 B2 B3 B4 B5 B6 B7]. split; congruence.
Qed.

(** Two runs of different numbers, or of pipelines that the tables tell apart. *)
Definition apart (p : Pipeline) (n : Z) (p' : Pipeline) (n' : Z) : Prop := (ci (Pipeline_Name p), n) ≠ (ci (Pipeline_Name p'), n').

Lemma within_elsewhere p n pt p' n' pt' w w' :
  apart p n p' n' -> pt ≠ pt' -> within p' n' pt' w w' -> elsewhere p n pt w w'.
Proof.
  intros Ha Hpt [H1 _ _ _ H5 (extra & E & Hown) (copies & E' & Hown') [R1 R2 R3 _ _]].
  assert (Hname : Pipeline_Name p = Pipeline_Name p' -> n = n' -> False) by (intros E1 E2; apply Ha; by rewrite E1, E2).
  assert (Hnot : forall l, Forall (own_message p' n') l -> Forall (fun m => ~ own_message p n m) l).
  { intros l Hl. eapply Forall_impl; [exact Hl|]. intros m [E1 E2] [E3 E4]. apply Hname; congruence. }
  split; [by apply H1| | | |by apply R1|intros s; by apply R2|intros s j; by apply R3].
  - apply H5. intros [E1 E2]%runtimeKey_inj. by apply Hname.
  - unfold sent_messages. by rewrite E', filter_app, (list_filter_none _ copies), app_nil_r by auto.
  - unfold requested_messages. by rewrite E, filter_app, (list_filter_none _ extra), app_nil_r by auto.
Qed.

Section run.
Context {F : GoFloat} (p : Pipeline) (n : Z) (pt : ptr) (ri : runInfo).
Abbreviation safe_at := (safe_at p n pt ri).

(** The same handlers and workers in another world. *)
Definition in_world (w : world Q) (c : config (Q := Q)) : config (Q := Q) := MkConfig w (cf_dispatch c) (cf_act c) (cf_executed c) (cf_orphans c) (cf_copies c).

Lemma safe_elsewhere c rt w : elsewhere p n pt (cf_world c) w -> safe_at c rt -> safe_at (in_world w c) rt.
Proof.
  intros [E1 E2 E3 E4 _ _ _] [[S1 S2 S3] S4 S5 S6 S7 S8 S9 S10 S11 S12 S13 S14 S15 S16 S17 S18 S19].
  split; simpl; rewrite ?E3, ?E4; try done. split; [by rewrite E1|done|by rewrite E2].
Qed.

Lemma undoubled_elsewhere w w' : elsewhere p n pt w w' -> undoubled p n w -> undoubled p n w'.
Proof. intros E. unfold undoubled. by rewrite (el_sent _ _ _ _ _ E), (el_requested _ _ _ _ _ E). Qed.

Lemma lively_elsewhere prompt w w' rt doing worker d :
  elsewhere p n pt w w' -> lively p n pt prompt w rt doing worker d -> lively p n pt prompt w' rt doing worker d.
Proof.
  intros [_ E2 _ _ E4 E5 E6] L.
  assert (Hr : run_row p n w' = run_row p n w) by (unfold run_row, run_status_of; by rewrite E4).
  assert (Hs : forall s, stage_row p n w' s = stage_row p n w s) by (intros s; unfold stage_row, stage_status_of; by rewrite E5).
  assert (Hj : forall j, job_row p n w' j = job_row p n w j) by (intros j; unfold job_row, job_status_of; by rewrite E6).
  destruct L as [L1 L2 L3 L4 L5 L6 L7 L8 L9 L10]. split; try done.
  - intros j k at_ Hin Hdo. specialize (L4 j k at_ Hin Hdo). destruct at_; simpl in *; rewrite ?Hs, ?Hr; done.
  - intros s Hin Hc. destruct (L5 s Hin Hc) as [|H]; [by left|right]. unfold followed in *. by rewrite Hs, Hr, E2.
  - by rewrite E2, Hr.
  - by rewrite Hr.
  - intros s. rewrite Hs. apply L8.
  - intros j Hin. unfold row_live. rewrite Hj. by apply L9.
Qed.

Lemma live_elsewhere prompt c rt w :
  elsewhere p n pt (cf_world c) w -> calm w -> live_at p n pt ri prompt c rt -> live_at p n pt ri prompt (in_world w c) rt.
Proof.
  intros E Hc [L1 L2 L6 L3 L4 L5]. split; [by apply safe_elsewhere|done|by eapply undoubled_elsewhere| |done|by eapply lively_elsewhere].
  intros j Hj Hh. specialize (L3 j Hj Hh). unfold accounted, pending in *. simpl. by rewrite (el_requested _ _ _ _ _ E).
Qed.
End run.
End elsewhere.
