(* ===== verification/Fleet.v ===== *)
(** * The runs of an orchestrator (services/orchestrator)

    Any number of runs in one world: a request to start a run may arrive at any
    time, and the steps of all runs interleave, those of their handlers, workers and
    dispatching goroutines as in Concurrent. [Run] itself is one step: before its end
    nothing refers to its run but its own rows. Theorems: whatever the schedule and
    the failures, every run is safe as if it were alone; when nothing fails every
    execution ends, and the runs whose jobs pass are recorded as successes. *)

From stdpp Require Import functions.
From S2P Require Import Prelude GoStrings Archive Models Graph Wellformed Planner Store StageState Mq Publisher Orchestrator Execution Http Worker Validation Parser Endpoints Callbacks System Steps Concurrent Lively Completion Footprint.

(** ** [Run] in any world *)

Section launch.
Context {C : Collation} {Q : Type}.

(** The same world without faults to come. *)
Definition clear (w : world Q) : world Q := with_db w (w_db w) [].

(** When [m] succeeds, no fault happened on the way. *)
Definition unfaulted {A} (m : M (Q := Q) A) : Prop := forall w w' a, m w = (w', ok a) -> m (clear w) = (clear w', ok a).
Definition failing {A} (m : M (Q := Q) A) : Prop := forall w, exists e, (m w).2 = err e.

Lemma failing_fail {A} e : failing (fail (A := A) e).
Proof. intros w. by exists e. Qed.
Lemma failing_bind {A B} (m : M A) (f : A -> M B) : (forall a, failing (f a)) -> failing (m ≫= f).
Proof.
  intros Hf w. unfold mbind, M_bind. destruct (m w) as [w1 [a|e]]; [apply Hf|by exists e].
Qed.

Lemma unfaulted_ret {A} (a : A) : unfaulted (mret a).
Proof. by intros w w' b [= <- <-]. Qed.
Lemma unfaulted_fail {A} e : unfaulted (fail (A := A) e).
Proof. by intros w w' b [=]. Qed.
Lemma unfaulted_bind {A B} (m : M A) (f : A -> M B) : unfaulted m -> (forall a, unfaulted (f a)) -> unfaulted (m ≫= f).
Proof.
  intros Hm Hf w w' b. unfold mbind, M_bind. destruct (m w) as [w1 [a|e]] eqn:E; [|done]. apply Hm in E. rewrite E. apply Hf.
Qed.
Lemma unfaulted_catch {A} (m : M A) h : unfaulted m -> (forall e, failing (h e)) -> unfaulted (catch m h).
Proof.
  intros Hm Hh w w' b. unfold catch. destruct (m w) as [w1 [a|e]] eqn:E.
  - apply Hm in E. rewrite E. by intros [= <- <-].
  - intros E'. destruct (Hh e w1) as [e' He]. rewrite E' in He. done.
Qed.
Lemma unfaulted_store {A} (f : db -> db * res A) : unfaulted (store_call f).
Proof.
  intros w w' a. unfold store_call. simpl. destruct (w_faults w) as [|[e|] fs]; [|done|];
    destruct (f (w_db w)) as [d r]; by intros [= <- ->].
Qed.
Lemma unfaulted_now : unfaulted now.
Proof. by intros w w' a [= <- <-]. Qed.
Lemma unfaulted_alloc rt : unfaulted (alloc rt).
Proof. by intros w w' a [= <- <-]. Qed.
Lemma unfaulted_put name n q : unfaulted (putRuntime name n q).
Proof. by intros w w' a [= <- <-]. Qed.
Lemma unfaulted_spawn q : unfaulted (spawn q).
Proof. by intros w w' a [= <- <-]. Qed.
Lemma unfaulted_load q : unfaulted (load q).
Proof. intros w w' a. unfold load. simpl. destruct (w_heap w !! q); by intros [= <- <-]. Qed.

Create HintDb unfaulted.
#[local] Hint Resolve failing_fail failing_bind unfaulted_ret unfaulted_fail unfaulted_bind unfaulted_catch unfaulted_store
  unfaulted_now unfaulted_alloc unfaulted_put unfaulted_spawn unfaulted_load : unfaulted.
#[local] Ltac by_unfaulted :=
  repeat (intros; first [progress auto with unfaulted | apply unfaulted_bind | apply unfaulted_catch | apply failing_bind | case_match]).

Lemma unfaulted_createJobRecords name n s configs jobs st : unfaulted (createJobRecords name n s configs jobs st).
Proof. revert st. induction jobs as [|job jobs IH]; intros st; cbn [createJobRecords]; unfold startJob; by_unfaulted. Qed.
Lemma unfaulted_createStageRecords orders i p n configs stages states : unfaulted (createStageRecords orders i p n configs stages states).
Proof.
  revert i states. induction stages as [|s stages IH]; intros i states; cbn [createStageRecords]; unfold startStage;
    by_unfaulted; apply unfaulted_createJobRecords.
Qed.
Lemma unfaulted_runPlan sha256_hex c orders req plan : unfaulted (runPlan sha256_hex c orders req plan).
Proof.
  unfold runPlan, initializePipelineRuntime, wrapf, startPipelineRun, finishPipelineRunWithMetrics, finishPipelineRun.
  by_unfaulted; apply unfaulted_createStageRecords.
Qed.
End launch.

Section start.
Context {C : Collation} {Q : Type} {J : JobSink Q}.
Context (p : Pipeline) (Hvalid : valid_pipeline p).
Abbreviation pname := (Pipeline_Name p).

(** The records of stages and jobs. *)
Section records.
Context (R : relation (world Q)) `{!PreOrder R} (n : Z).
Context (Hnow : respects R now) (Hrun : forall st, respects R (finishPipelineRunWithMetrics pname n st))
  (Hstage : forall s st, respects R (finishStageWithMetrics pname n s st)) (Hstage' : forall s, respects R (startStage pname n s))
  (Hjob : forall s j f, respects R (startJob pname n s j f)).
#[local] Ltac by_respects := auto with footprint typeclass_instances.

Lemma respects_createJobRecords s configs jobs st : respects R (createJobRecords pname n s configs jobs st).
Proof.
  revert st. induction jobs as [|job jobs IH]; intros st; cbn [createJobRecords]; [by_respects|].
  apply respects_bind; [done| |intros []; apply IH]. apply respects_catch; [done|done|].
  intros e. repeat (apply respects_bind; [done|by_respects|intros ?]). by_respects.
Qed.

Lemma respects_createStageRecords orders i configs stages states :
  respects R (createStageRecords orders i p n configs stages states).
Proof.
  revert i states. induction stages as [|s stages IH]; intros i states; cbn [createStageRecords]; [by_respects|].
  apply respects_bind; [done| |intros []].
  - apply respects_catch; [done|done|]. intros e. apply respects_bind; [done|by_respects|]. intros []. by_respects.
  - destruct (BuildStagePlan _ _ p); [|by_respects].
    apply respects_bind; [done|done|intros t]. apply respects_bind; [done|apply respects_createJobRecords|intros st; apply IH].
Qed.
End records.

Lemma records_within n pt orders i configs stages states : respects (within p n pt) (createStageRecords orders i p n configs stages states).
Proof. apply respects_createStageRecords; auto with footprint typeclass_instances. Qed.

(** They leave the queue alone. *)
Definition same_queue (w w' : world Q) : Prop := w_queue w' = w_queue w.
#[local] Instance same_queue_preorder : PreOrder same_queue.
Proof. unfold same_queue. split; [done|]. intros w1 w2 w3 E1 E2. congruence. Qed.
Lemma same_queue_timed (g : Z -> db -> db * res unit) : respects same_queue (t ← now; store_call (g t)).
Proof.
  intros w. unfold same_queue, mbind, M_bind, now, store_call. simpl. destruct (w_faults w) as [|[e|] fs]; [|done|]; by destruct (g _ _).
Qed.
Lemma records_queue n orders i configs stages states (w : world Q) :
  w_queue (createStageRecords orders i p n configs stages states w).1 = w_queue w.
Proof.
  apply (respects_createStageRecords same_queue n); [done|..]; intros *.
  - apply (same_queue_timed (fun t d => UpdateRun d pname n (Some t) st)).
  - apply (same_queue_timed (fun t d => UpdateStage d pname n s (Some t) st)).
  - apply (same_queue_timed (fun t d => CreateStage d pname n s t StatusQueued)).
  - apply (same_queue_timed (fun t d => CreateJob d pname n s j t StatusQueued f)).
Qed.

(** Between two worlds everything that the runs below the numbers of the first
    have stays, and so does what nobody owns. *)
Record starts_beside (w w' : world Q) : Prop := {
  sb_runs : forall p0 n0 pt0, (n0 < next_run_no (w_db w) (Pipeline_Name p0))%Z -> pt0 < w_next w -> elsewhere p0 n0 pt0 w w';
  sb_queue : w_queue w' = w_queue w;
  sb_next : w_next w <= w_next w';
  sb_numbers : forall name, (next_run_no (w_db w) name <= next_run_no (w_db w') name)%Z;
}.

(** What every world keeps: the tables are consistent, everything is of a number
    that was given out, and behind a pointer that was. *)
Record tidy (w : world Q) : Prop := {
  td_wf : db_wf (w_db w);
  td_stages : forall q m s, is_Some (stage_runs (w_db w) !! (q, m, s)) -> (m < default 1 (pipeline_sequences (w_db w) !! q))%Z;
  td_jobs : forall q m s j, is_Some (job_runs (w_db w) !! (q, m, s, j)) -> (m < default 1 (pipeline_sequences (w_db w) !! q))%Z;
  td_sent : forall m, m ∈ held (w_queue w) ++ requested (w_queue w) -> (Msg_RunNo m < next_run_no (w_db w) (Msg_PipelineName m))%Z;
  td_heap : forall q, is_Some (w_heap w !! q) -> q < w_next w;
}.

Lemma tidy_within n pt w w' : tidy w -> (n < next_run_no (w_db w) pname)%Z -> within p n pt w w' -> tidy w'.
Proof.
  intros [T1 T2 T3 T4 T5] Hn [_ W2 W3 _ _ (extra & W6 & Hown) (copies & W7 & Hown') [_ R2 R3 R4 R5] _].
  split; unfold next_run_no in *; rewrite ?R4; [auto| | | |].
  - intros q m s Hs. destruct (decide ((q, m) = (ci pname, n))) as [[= -> ->]|Hne]; [done|]. rewrite R2 in Hs by done. by eapply T2.
  - intros q m s j Hj. destruct (decide ((q, m) = (ci pname, n))) as [[= -> ->]|Hne]; [done|]. rewrite R3 in Hj by done. by eapply T3.
  - intros m. rewrite W6, W7, !elem_of_app. rewrite Forall_forall in Hown, Hown'. setoid_rewrite elem_of_app in T4.
    intros [[Hm|Hm]|[Hm|Hm]]; [by apply T4; left|by destruct (Hown' m Hm) as [-> ->]|by apply T4; right|by destruct (Hown m Hm) as [-> ->]].
  - intros q Hq. rewrite W3. auto.
Qed.
Lemma beside_same w w' :
  w_db w' = w_db w -> w_queue w' = w_queue w -> w_heap w' = w_heap w -> w_runtimes w' = w_runtimes w -> w_next w' = w_next w ->
  tidy w -> starts_beside w w' /\ tidy w'.
Proof.
  intros E1 E2 E3 E4 E5 [T1 T2 T3 T4 T5]. split; split; rewrite ?E1, ?E2, ?E3, ?E5; try done.
  intros p0 n0 pt0 _ _. split; rewrite ?E1, ?E3, ?E4; try done; [unfold sent_messages|unfold requested_messages]; by rewrite E2.
Qed.

(** The row of the run. *)
Lemma created_beside w w' row :
  let n := next_run_no (w_db w) pname in
  tidy w -> db_wf (w_db w') ->
  w_queue w' = w_queue w -> w_heap w' = w_heap w -> w_runtimes w' = w_runtimes w -> w_next w' = w_next w ->
  pipeline_runs (w_db w') = <[(ci pname, n) := row]> (pipeline_runs (w_db w)) ->
  pipeline_sequences (w_db w') = <[ci pname := (n + 1)%Z]> (pipeline_sequences (w_db w)) ->
  stage_runs (w_db w') = stage_runs (w_db w) -> job_runs (w_db w') = job_runs (w_db w) ->
  starts_beside w w' /\ tidy w'.
Proof.
  intros n [T1 T2 T3 T4 T5] Hwf E2 E3 E4 E5 Er Eq Es Ej.
  assert (Hseq : forall q, (default 1 (pipeline_sequences (w_db w) !! q) <= default 1 (pipeline_sequences (w_db w') !! q))%Z).
  { intros q. rewrite Eq. destruct (decide (q = ci pname)) as [->|Hne]; [|by rewrite lookup_insert_ne].
    rewrite lookup_insert_eq. simpl. unfold n, next_run_no. lia. }
  split; split; rewrite ?E2, ?E3, ?E5, ?Es, ?Ej; try done.
  - intros p0 n0 pt0 Hn0 _. split; rewrite ?E3, ?E4, ?Es, ?Ej; try done; [unfold sent_messages; by rewrite E2|unfold requested_messages; by rewrite E2|].
    rewrite Er, lookup_insert_ne; [done|]. intros [= E En]. unfold next_run_no in Hn0. rewrite <- E in Hn0. subst n0.
    unfold n, next_run_no in Hn0. lia.
  - intros name. apply Hseq.
  - intros q m s Hs. eapply Z.lt_le_trans; [by eapply T2|done].
  - intros q m s j Hj. eapply Z.lt_le_trans; [by eapply T3|done].
  - intros m Hm. eapply Z.lt_le_trans; [by apply T4|apply Hseq].
Qed.

(** The outcome of creating the row. *)
Record opens (c : ctx) (req : RunRequest) (sha256_hex : string -> string) (w w1 : world Q) (r : res (CreateRunResult * Z)) : Prop := {
  op_beside : starts_beside w w1;
  op_tidy : tidy w1;
  op_heap : w_heap w1 = w_heap w;
  op_next : w_next w1 = w_next w;
  op_spawned : w_spawned w1 = w_spawned w;
  op_calm : w_faults w = [] -> w_faults w1 = [];
  op_result : (forall x t, r = ok (x, t) -> Deduped x = true) \/
    startable p c req sha256_hex (clear w) /\ (next_run_no (w_db w) pname < next_run_no (w_db w1) pname)%Z /\
    (forall x t, r = ok (x, t) -> RunNo x = next_run_no (w_db w) pname);
}.

Section opening.
Context (c : ctx) (req : RunRequest) (sha256_hex : string -> string) (w : world Q) (T : tidy w).

Lemma opens_same w1 r : w_db w1 = w_db w -> w_queue w1 = w_queue w -> w_heap w1 = w_heap w -> w_runtimes w1 = w_runtimes w ->
  w_next w1 = w_next w -> w_spawned w1 = w_spawned w -> (w_faults w = [] -> w_faults w1 = []) ->
  (forall x t, r = ok (x, t) -> Deduped x = true) -> opens c req sha256_hex w w1 r.
Proof. intros E1 E2 E3 E4 E5 E6 Hf Hr. destruct (beside_same w w1) as [B T1]; [done..|]. split; auto. Qed.

Lemma opens_call (w0 : world Q) inp d' r' fs :
  w_db w0 = w_db w -> w_queue w0 = w_queue w -> w_heap w0 = w_heap w -> w_runtimes w0 = w_runtimes w ->
  w_next w0 = w_next w -> w_spawned w0 = w_spawned w -> (w_faults w = [] -> fs = []) ->
  In_Pipeline inp = pname -> In_RequestKey inp = buildRunRequestKey sha256_hex req pname -> In_TraceID inp = getSpanTraceId c ->
  In_RequestKey inp ≠ "" -> CreateRunOrGetActive (w_db w) (w_db w) inp = (d', r') ->
  opens c req sha256_hex w (with_db w0 d' fs) (match r' with inl x => ok (x, w_clock w) | inr e => err e end).
Proof.
  intros E1 E2 E3 E4 E5 E6 Hf Ep Ek Et Hkey E.
  pose proof (apply_op_wf (w_db w) (OpCreateRunOrGetActive (w_db w) inp) (td_wf _ T)) as Hwf. simpl in Hwf. rewrite E in Hwf.
  destruct (CreateRunOrGetActive_cases _ _ _ _ Hkey E) as [[-> Hd]|(Htr & Hroom & Hno)].
  - apply opens_same; try done. intros x t. destruct r' as [y|]; [|done]. intros [= <- _]. by apply Hd.
  - rewrite (CreateRunOrGetActive_adds _ inp (td_wf _ T) (fun k x _ => Hno k x) Htr Hroom) in E. injection E as <- <-.
    rewrite Ep, Ek, Et in *. set (n := next_run_no (w_db w) pname) in *.
    match goal with |- opens _ _ _ _ ?w2 _ => destruct (created_beside w w2 (new_run_row inp n) T Hwf) as [B T1]; [done..|] end.
    split; try done. right.
    split_and!; [|simpl; unfold next_run_no at 2; simpl; rewrite lookup_insert_eq; simpl; lia|by intros x t [= <- _]].
    split; try done; [apply T| |].
    + intros s. apply eq_None_not_Some. intros Hs%T. unfold next_run_no in Hs. simpl in Hs. lia.
    + intros s j. apply eq_None_not_Some. intros Hj%T. unfold next_run_no in Hj. simpl in Hj. lia.
Qed.

Lemma startPipelineRun_opens w1 r : (forall x, ci (sha256_hex x) ≠ ci "") ->
  startPipelineRun c pname (newRunInfo req) (buildRunRequestKey sha256_hex req pname) w = (w1, r) -> opens c req sha256_hex w w1 r.
Proof.
  intros Hsha. unfold startPipelineRun, mbind, M_bind, now, store_call. simpl.
  set (inp := MkCreateRun _ _ _ _ _ _ _ _). set (w0 := MkWorld Q _ _ _ _ _ _ _ _).
  assert (Hkey : In_RequestKey inp ≠ "") by (intros E; exact (Hsha _ (f_equal ci E))).
  destruct (CreateRunOrGetActive (w_db w) (w_db w) inp) as [d' r'] eqn:E.
  destruct (w_faults w) as [|[e|] fs] eqn:Ef.
  - intros E1. pose proof (opens_call w0 inp d' r' [] eq_refl eq_refl eq_refl eq_refl eq_refl eq_refl ltac:(done) eq_refl eq_refl eq_refl Hkey E).
    destruct r'; by injection E1 as <- <-.
  - intros [= <- <-]. apply opens_same; try done. by rewrite Ef.
  - intros E1. pose proof (opens_call w0 inp d' r' fs eq_refl eq_refl eq_refl eq_refl eq_refl eq_refl ltac:(by rewrite Ef) eq_refl eq_refl eq_refl Hkey E).
    destruct r'; by injection E1 as <- <-.
Qed.
End opening.
Lemma beside_within w w1 w2 :
  starts_beside w w1 -> within p (next_run_no (w_db w) pname) (w_next w) w1 w2 -> w_queue w2 = w_queue w1 -> starts_beside w w2.
Proof.
  intros [B1 B2 B3 B4] W Hq. split.
  - intros p0 n0 pt0 Hn0 Hpt0. etrans; [by apply B1|]. eapply within_elsewhere; [| |exact W]; [|lia].
    intros [= E En]. unfold next_run_no in Hn0, En. rewrite E in Hn0. lia.
  - congruence.
  - by rewrite (wi_next _ _ _ _ _ W).
  - intros name. unfold next_run_no in *. rewrite (rwi_sequences _ _ _ _ (wi_rows _ _ _ _ _ W)). apply B4.
Qed.

Section launched.
Context (c : ctx) (orders orders' : nat -> list string) (ep : ExecutionPlan) (req : RunRequest) (sha256_hex : string -> string).
Context (Hsha : forall x, ci (sha256_hex x) ≠ ci "") (Hid : forall n, n ≠ 0%Z -> identifiable p n).
Context (Ho' : legal_orders orders' p) (Hep : GenerateExecutionPlan orders' p = Some ep) (Ho : legal_orders orders p).

(** The outcome of [Run]; a run that it starts is new. *)
Record launches (w w' : world Q) (r : res RunResponse) : Prop := {
  lc_beside : starts_beside w w';
  lc_tidy : tidy w';
  lc_calm : w_faults w = [] -> w_faults w' = [];
  lc_result : w_spawned w' = w_spawned w \/
    let n := next_run_no (w_db w) pname in
    w_spawned w' = w_spawned w ++ [w_next w] /\ r = ok (MkRunResponse pname n StatusQueued [] "") /\
    w_next w < w_next w' /\ (n < next_run_no (w_db w') pname)%Z /\
    exists rt, initialized p n (newRunInfo req) (w_next w) w' rt ep;
}.

Lemma next_run_positive w : tidy w -> (1 <= next_run_no (w_db w) pname)%Z.
Proof.
  intros T. unfold next_run_no. destruct (pipeline_sequences (w_db w) !! ci pname) as [m|] eqn:E; [|done].
  simpl. pose proof (wf_seq _ (td_wf _ T) _ _ E). lia.
Qed.

(** The runtime, put into the heap, the map and the hands of the goroutine. *)
Lemma registered w w2 rt :
  let n := next_run_no (w_db w) pname in
  let w' := MkWorld Q (w_db w2) (w_queue w2) (<[w_next w := rt]> (w_heap w2)) (S (w_next w))
              (<[runtimeKey pname n := w_next w]> (w_runtimes w2)) (w_spawned w2 ++ [w_next w]) (w_clock w2) (w_faults w2) in
  w_next w2 = w_next w -> starts_beside w w2 -> tidy w2 -> starts_beside w w' /\ tidy w'.
Proof.
  intros n w' En [B1 B2 B3 B4] [T1 T2 T3 T4 T5]. split; split; simpl; try done; [|lia|].
  - intros p0 n0 pt0 Hn0 Hpt0. etrans; [by apply B1|]. split; simpl; try done.
    + apply lookup_insert_ne. lia.
    + apply lookup_insert_ne. intros [E1 E2]%runtimeKey_inj. rewrite <- E1 in Hn0. unfold n in E2. lia.
  - intros q. rewrite lookup_insert_is_Some'. intros [->|Hq]; [lia|]. specialize (T5 q Hq). lia.
Qed.

Lemma initialized_clear n pt ri (w : world Q) rt : initialized p n ri pt (clear w) rt ep -> initialized p n ri pt w rt ep.
Proof. intros [P1 P2 P3 P4 P5 P6 P7]. split; try done. intros s Hs. destruct (P6 s Hs). by split. Qed.

Lemma runPlan_launches w w' r : tidy w ->
  runPlan sha256_hex c orders req (MkPipelinePlan p ep) w = (w', r) -> launches w w' r.
Proof.
  intros T E. pose proof (unfaulted_runPlan sha256_hex c orders req (MkPipelinePlan p ep) w) as Hun. rewrite E in Hun.
  unfold runPlan, initializePipelineRuntime, wrapf, catch in E. unfold mbind, M_bind in E. simpl in E.
  destruct (startPipelineRun _ _ _ _ w) as [w1 r1] eqn:E1. apply (startPipelineRun_opens c req sha256_hex w T w1 r1 Hsha) in E1 as O.
  destruct O as [B1 T1 Eh En Es Hf Hr].
  destruct r1 as [[x t]|e]; [|injection E as <- <-; split; [done|done|done|by left]].
  destruct (Deduped x) eqn:Ed; [injection E as <- <-; split; [done|done|done|by left]|].
  destruct Hr as [Hr|(Hst & Hlt & Hn)]; [by rewrite (Hr x t eq_refl) in Ed|]. rewrite (Hn x t eq_refl) in E.
  set (n := next_run_no (w_db w) pname) in *.
  match type of E with context [createStageRecords ?a ?b ?d ?e ?f ?g ?h w1] =>
    pose proof (records_within n (w_next w) a b f g h w1) as W; pose proof (records_queue n a b f g h w1) as Hq;
    destruct (createStageRecords a b d e f g h w1) as [w2 [states|e2]] end; simpl in W, Hq.
  - pose proof (GenerateExecutionPlan_planned p Hvalid _ _ Ho' Hep) as HF.
    destruct (Plan_Stages ep) as [|sp sps] eqn:Eps; [exfalso; apply Forall2_nil_inv_r in HF; by destruct (vp_some_stage _ Hvalid)|].
    simpl in E. unfold load in E. simpl in E. rewrite lookup_insert_eq in E. injection E as Ew Er.
    rewrite (wi_next _ _ _ _ _ W), En in Ew.
    assert (B2 : starts_beside w w2) by (by apply (beside_within w w1 w2)).
    assert (T2 : tidy w2) by (by apply (tidy_within n (w_next w) w1 w2)).
    destruct (registered w w2 (MkRuntime pname n (StageExec_Name <$> sp :: sps) states (newRunInfo req) t ∅ ep)) as [B' T'];
      [by rewrite (wi_next _ _ _ _ _ W)|done|done|].
    rewrite <- Er in Hun. subst w'.
    destruct (run_initialized p Hvalid c orders orders' ep req sha256_hex (clear w) Hst) as (wc & rt & Ec & Esp & _ & _ & P); [|done..|].
    { apply Hid. pose proof (next_run_positive w T). simpl. lia. }
    rewrite (Hun _ _ eq_refl) in Ec. injection Ec as <-.
    split; [exact B'|exact T'| |right].
    + intros Hcalm. simpl. by apply W, Hf.
    + split_and!; [exact Esp|by rewrite <- Er|simpl; lia| |exists rt; by apply initialized_clear].
      * simpl. unfold next_run_no in *. by rewrite (rwi_sequences _ _ _ _ (wi_rows _ _ _ _ _ W)).
  - injection E as <- <-. assert (B2 : starts_beside w w2) by (by apply (beside_within w w1 w2)).
    split; [done|by apply (tidy_within n (w_next w) w1 w2)| |left].
    + intros Hcalm. apply W. by apply Hf.
    + by rewrite (wi_spawned _ _ _ _ _ W).
Qed.
End launched.
End start.

(** ** The runs and their events *)

(** A request that was validated and planned: the arguments of [runPlan]. *)
Record start := MkStart {
  st_ctx : ctx;
  st_orders : nat -> list string;
  st_request : RunRequest;
  st_plan : PipelinePlan;
}.

(** A run that was started, with its workers and goroutine. *)
Record member := MkMember {
  mb_pipeline : Pipeline;
  mb_no : Z;
  mb_ptr : ptr;
  mb_info : runInfo;
  mb_dispatch : dispatch_point;
  mb_act : JobExecutionMessage -> activity;
  mb_executed : list JobExecutionMessage;
  mb_orphans : list (JobExecutionMessage * activity);
  mb_copies : list (JobExecutionMessage * activity);
}.

Inductive event := Starts (s : start) | Moves (i : nat) (a : actor).

Section fleet.
Context {C : Collation} {Q : Type} {J : JobSink Q} {F : GoFloat}.
Context (error_text : goerr -> string).
Context (env : string -> string) (stat : string -> bool) (docker : JobExecutionMessage -> nat -> docker_env).
Context (sha256_hex : string -> string).

Record fleet := MkFleet { fl_world : world Q; fl_members : list member }.

(** The run as the only one. *)
Definition view (w : world Q) (m : member) : config (Q := Q) := MkConfig w (mb_dispatch m) (mb_act m) (mb_executed m) (mb_orphans m) (mb_copies m).
Definition moved (m : member) (c : config (Q := Q)) : member :=
  MkMember (mb_pipeline m) (mb_no m) (mb_ptr m) (mb_info m) (cf_dispatch c) (cf_act c) (cf_executed c) (cf_orphans c) (cf_copies c).
(** The goroutines that [Run] left behind. *)
Definition started (s : start) (ptrs : list ptr) (r : res RunResponse) : list member :=
  match r with
  | inl resp =>
    (fun pt => MkMember (PP_Pipeline (st_plan s)) (RunResp_RunNo resp) pt (newRunInfo (st_request s))
                 (Scan (Plan_Stages (PP_ExecutionPlan (st_plan s)))) (fun _ => Idle) [] [] []) <$> ptrs
  | inr _ => []
  end.

Definition member_step (m : member) : actor -> config (Q := Q) -> option config :=
  step error_text env stat docker (mb_pipeline m) (mb_no m) (mb_ptr m).

Definition fleet_step (e : event) (f : fleet) : option fleet :=
  match e with
  | Starts s =>
    let '(w', r) := runPlan sha256_hex (st_ctx s) (st_orders s) (st_request s) (st_plan s) (fl_world f) in
    Some (MkFleet w' (fl_members f ++ started s (drop (length (w_spawned (fl_world f))) (w_spawned w')) r))
  | Moves i a =>
    m ← fl_members f !! i; c ← member_step m a (view (fl_world f) m);
    Some (MkFleet (cf_world c) (<[i := moved m c]> (fl_members f)))
  end.
Fixpoint fleet_run (es : list event) (f : fleet) : option fleet :=
  match es with [] => Some f | e :: es' => f' ← fleet_step e f; fleet_run es' f' end.

(** What [prepareRun] makes sure of, and names that the tables and handlers tell apart. *)
Record sound (s : start) : Prop := {
  so_valid : valid_pipeline (PP_Pipeline (st_plan s));
  so_names : forall n, n ≠ 0%Z -> identifiable (PP_Pipeline (st_plan s)) n;
  so_orders : legal_orders (st_orders s) (PP_Pipeline (st_plan s));
  so_plan : exists orders, legal_orders orders (PP_Pipeline (st_plan s)) /\
    GenerateExecutionPlan orders (PP_Pipeline (st_plan s)) = Some (PP_ExecutionPlan (st_plan s));
}.
Definition sound_event (e : event) : Prop := match e with Starts s => sound s | Moves _ _ => True end.

(** ** The invariant *)

Context (Hsha : forall x, ci (sha256_hex x) ≠ ci "").

Record member_ok (w : world Q) (m : member) : Prop := {
  mo_valid : valid_pipeline (mb_pipeline m);
  mo_names : identifiable (mb_pipeline m) (mb_no m);
  mo_no : (mb_no m < next_run_no (w_db w) (Pipeline_Name (mb_pipeline m)))%Z;
  mo_ptr : mb_ptr m < w_next w;
  mo_safe : exists rt, safe_at (mb_pipeline m) (mb_no m) (mb_ptr m) (mb_info m) (view w m) rt;
}.
Definition unlike (m m' : member) : Prop :=
  apart (mb_pipeline m) (mb_no m) (mb_pipeline m') (mb_no m') /\ mb_ptr m ≠ mb_ptr m'.

Record fleet_ok (f : fleet) : Prop := {
  fo_tidy : tidy (fl_world f);
  fo_members : forall i m, fl_members f !! i = Some m -> member_ok (fl_world f) m;
  fo_apart : forall i j m m', fl_members f !! i = Some m -> fl_members f !! j = Some m' -> i ≠ j -> unlike m m';
}.

(** What an event means to the [i]th run. *)
Inductive fate (e : event) (f f' : fleet) (i : nat) (m' : member) : Prop :=
| Untouched : fl_members f !! i = Some m' ->
    elsewhere (mb_pipeline m') (mb_no m') (mb_ptr m') (fl_world f) (fl_world f') -> (forall a, e ≠ Moves i a) -> fate e f f' i m'
| Moved m a : e = Moves i a -> fl_members f !! i = Some m -> m' = moved m (view (fl_world f') m') ->
    member_step m a (view (fl_world f) m) = Some (view (fl_world f') m') -> fate e f f' i m'
| New s rt : e = Starts s -> fl_members f !! i = None ->
    initialized (mb_pipeline m') (mb_no m') (mb_info m') (mb_ptr m') (fl_world f') rt (PP_ExecutionPlan (st_plan s)) ->
    sent_messages (mb_pipeline m') (mb_no m') (fl_world f') = [] -> requested_messages (mb_pipeline m') (mb_no m') (fl_world f') = [] ->
    view (fl_world f') m' = concurrent_start (fl_world f') (Plan_Stages (PP_ExecutionPlan (st_plan s))) -> fate e f f' i m'.
Lemma view_moved m c : view (cf_world c) (moved m c) = c.
Proof. by destruct c. Qed.

Lemma member_elsewhere w w' m :
  elsewhere (mb_pipeline m) (mb_no m) (mb_ptr m) w w' -> w_next w <= w_next w' ->
  (forall name, (next_run_no (w_db w) name <= next_run_no (w_db w') name)%Z) -> member_ok w m -> member_ok w' m.
Proof.
  intros E Hn Hs [H1 H2 H3 H4 [rt S]]. split; [done|done| |lia|exists rt; by apply (safe_elsewhere _ _ _ _ (view w m))].
  eapply Z.lt_le_trans; [exact H3|apply Hs].
Qed.

Lemma member_moves w m a c :
  member_ok w m -> member_step m a (view w m) = Some c ->
  member_ok (cf_world c) (moved m c) /\ within (mb_pipeline m) (mb_no m) (mb_ptr m) w (cf_world c).
Proof.
  intros [H1 H2 H3 H4 [rt S]] E.
  pose proof (step_within (mb_pipeline m) (mb_no m) (mb_ptr m) error_text env stat docker (mb_info m) _ _ _ _ S E) as W.
  destruct (step_advances error_text env stat docker _ _ _ (mb_info m) H1 H2 _ _ _ _ S E) as [rt' A]. split; [|done].
  split; simpl; [done|done| | |].
  - unfold next_run_no in *. by rewrite (rwi_sequences _ _ _ _ (wi_rows _ _ _ _ _ W)).
  - by rewrite (wi_next _ _ _ _ _ W).
  - exists rt'. rewrite view_moved. apply A.
Qed.

Lemma moves_fate i a f f' : fleet_ok f -> fleet_step (Moves i a) f = Some f' ->
  fleet_ok f' /\ forall k m', fl_members f' !! k = Some m' -> fate (Moves i a) f f' k m'.
Proof.
  intros [T Hm Ha] E. simpl in E. apply bind_Some in E as (m & Em & E). apply bind_Some in E as (c & Ec & E). injection E as <-.
  destruct (member_moves _ _ _ _ (Hm i m Em) Ec) as [Hok W]. pose proof (mo_no _ _ (Hm i m Em)) as Hno.
  assert (Hother : forall k m', k ≠ i -> fl_members f !! k = Some m' ->
    elsewhere (mb_pipeline m') (mb_no m') (mb_ptr m') (fl_world f) (cf_world c)).
  { intros k m' Hk Hkm. destruct (Ha k i m' m Hkm Em Hk) as [H1 H2]. by eapply within_elsewhere. }
  pose proof (lookup_lt_Some _ _ _ Em) as Hi. split; [split; simpl|].
  - by eapply tidy_within.
  - intros k m' Hk. destruct (decide (k = i)) as [->|Hne].
    + rewrite list_lookup_insert_eq in Hk by done. by injection Hk as <-.
    + rewrite list_lookup_insert_ne in Hk by done. eapply (member_elsewhere (fl_world f)); [by eapply Hother| | |by eapply Hm].
      * by rewrite (wi_next _ _ _ _ _ W).
      * intros name. unfold next_run_no. by rewrite (rwi_sequences _ _ _ _ (wi_rows _ _ _ _ _ W)).
  - intros k l x y Hk Hl Hne.
    assert (Hsame : forall k x, <[i:=moved m c]> (fl_members f) !! k = Some x -> exists x0, fl_members f !! k = Some x0 /\
      mb_pipeline x = mb_pipeline x0 /\ mb_no x = mb_no x0 /\ mb_ptr x = mb_ptr x0).
    { intros k0 x0 H. destruct (decide (k0 = i)) as [->|Hne0].
      - rewrite list_lookup_insert_eq in H by done. injection H as <-. by exists m.
      - rewrite list_lookup_insert_ne in H by done. by exists x0. }
    destruct (Hsame k x Hk) as (x0 & Hx & X1 & X2 & X3), (Hsame l y Hl) as (y0 & Hy & Y1 & Y2 & Y3).
    unfold unlike. rewrite X1, X2, X3, Y1, Y2, Y3. by apply (Ha k l).
  - intros k m' Hk. simpl in Hk. destruct (decide (k = i)) as [->|Hne].
    + rewrite list_lookup_insert_eq in Hk by done. injection Hk as <-. eapply (Moved _ _ _ _ _ m a); simpl; rewrite ?view_moved; try done.
    + rewrite list_lookup_insert_ne in Hk by done. apply Untouched; [done|by eapply Hother|congruence].
Qed.
(** A run that was started. *)
Definition newcomer (w : world Q) (s : start) : member :=
  MkMember (PP_Pipeline (st_plan s)) (next_run_no (w_db w) (Pipeline_Name (PP_Pipeline (st_plan s)))) (w_next w) (newRunInfo (st_request s))
    (Scan (Plan_Stages (PP_ExecutionPlan (st_plan s)))) (fun _ => Idle) [] [] [].

Lemma unsent_number p w w' : tidy w -> w_queue w' = w_queue w ->
  sent_messages p (next_run_no (w_db w) (Pipeline_Name p)) w' = [] /\ requested_messages p (next_run_no (w_db w) (Pipeline_Name p)) w' = [].
Proof.
  intros T E. unfold sent_messages, requested_messages. rewrite E.
  assert (H : forall l, (forall m, m ∈ l -> m ∈ held (w_queue w) ++ requested (w_queue w)) ->
    filter (own_message p (next_run_no (w_db w) (Pipeline_Name p))) l = []).
  { intros l Hl. apply list_filter_none, Forall_forall. intros m Hm [E1 E2].
    pose proof (td_sent _ T m (Hl m Hm)) as H. rewrite E1, E2 in H. lia. }
  split; apply H; set_solver.
Qed.

Lemma newcomer_fresh w s m : member_ok w m -> unlike m (newcomer w s).
Proof.
  intros [_ _ H3 H4 _]. split; [|simpl; lia]. intros [= E En]. unfold next_run_no in H3, En. rewrite E in H3. lia.
Qed.

(** What a request comes to: nothing for the other runs, and perhaps a new run. *)
Lemma starts_shape s f f' : fleet_ok f -> sound s -> fleet_step (Starts s) f = Some f' ->
  starts_beside (fl_world f) (fl_world f') /\ tidy (fl_world f') /\ (w_faults (fl_world f) = [] -> w_faults (fl_world f') = []) /\
  (fl_members f' = fl_members f \/
   exists rt, fl_members f' = fl_members f ++ [newcomer (fl_world f) s] /\
     (mb_no (newcomer (fl_world f) s) < next_run_no (w_db (fl_world f')) (Pipeline_Name (PP_Pipeline (st_plan s))))%Z /\
     w_next (fl_world f) < w_next (fl_world f') /\
     initialized (PP_Pipeline (st_plan s)) (mb_no (newcomer (fl_world f) s)) (newRunInfo (st_request s)) (w_next (fl_world f))
       (fl_world f') rt (PP_ExecutionPlan (st_plan s))).
Proof.
  intros [T _ _] [So1 So2 So3 (orders & So4 & So5)] E. simpl in E. destruct (runPlan _ _ _ _ _ _) as [w' r] eqn:Er. injection E as <-. simpl.
  destruct s as [cx os rq [p ep]]. simpl in *.
  destruct (runPlan_launches p So1 cx os orders ep rq sha256_hex Hsha So2 So4 So5 So3 _ _ _ T Er) as [B T' Hc Hr].
  split_and!; [done..|]. destruct Hr as [->|(-> & -> & Hn & Hno & rt & P)].
  - left. rewrite drop_all. destruct r; simpl; by rewrite app_nil_r.
  - right. exists rt. rewrite drop_app_length. simpl. done.
Qed.

Lemma newcomer_ok w w' s rt : tidy w -> sound s -> w_queue w' = w_queue w -> w_next w < w_next w' ->
  (mb_no (newcomer w s) < next_run_no (w_db w') (Pipeline_Name (PP_Pipeline (st_plan s))))%Z ->
  initialized (PP_Pipeline (st_plan s)) (mb_no (newcomer w s)) (newRunInfo (st_request s)) (w_next w) w' rt (PP_ExecutionPlan (st_plan s)) ->
  member_ok w' (newcomer w s).
Proof.
  intros T So Hq Hn Hno P.
  assert (Hid : identifiable (mb_pipeline (newcomer w s)) (mb_no (newcomer w s))).
  { apply (so_names _ So). simpl. pose proof (next_run_positive (PP_Pipeline (st_plan s)) w T). lia. }
  split; [apply (so_valid _ So)|done|done|done|]. exists rt.
  apply (start_safe _ _ _ _ (so_valid _ So) Hid w' rt). destruct (unsent_number (PP_Pipeline (st_plan s)) w w' T Hq). by eapply initialized_launched.
Qed.

Lemma starts_fate s f f' : fleet_ok f -> sound s -> fleet_step (Starts s) f = Some f' ->
  fleet_ok f' /\ forall k m', fl_members f' !! k = Some m' -> fate (Starts s) f f' k m'.
Proof.
  intros Hf So E. destruct (starts_shape s f f' Hf So E) as (B & T' & _ & Hm). destruct Hf as [T Hok Ha].
  assert (Hold : forall k m, fl_members f !! k = Some m ->
    elsewhere (mb_pipeline m) (mb_no m) (mb_ptr m) (fl_world f) (fl_world f') /\ member_ok (fl_world f') m).
  { intros k m Hk. pose proof (Hok k m Hk) as Hmok. assert (El : elsewhere (mb_pipeline m) (mb_no m) (mb_ptr m) (fl_world f) (fl_world f')).
    { apply (sb_runs _ _ B); apply Hmok. }
    split; [done|]. eapply member_elsewhere; [exact El|apply B|apply B|done]. }
  destruct Hm as [Em|(rt & Em & Hno & Hn & P)].
  - split; [split; rewrite ?Em; [done| |done]; intros k m Hk; by eapply Hold|].
    intros k m' Hk. rewrite Em in Hk. apply Untouched; [done|by eapply Hold|done].
  - pose proof (newcomer_ok _ _ s rt T So (sb_queue _ _ B) Hn Hno P) as Hnew.
    assert (Hcase : forall k m, fl_members f' !! k = Some m -> fl_members f !! k = Some m \/ k = length (fl_members f) /\ m = newcomer (fl_world f) s).
    { intros k m. rewrite Em. intros [H|[Hlt H]]%lookup_app_Some; [by left|right]. apply list_lookup_singleton_Some in H as [H ->]. split; [lia|done]. }
    split; [split; [done| |]|].
    + intros k m [Hk|[_ ->]]%Hcase; [by eapply Hold|done].
    + intros k l x y [Hk|[-> ->]]%Hcase [Hl|[-> ->]]%Hcase Hne; [by apply (Ha k l)| | |done].
      * by eapply newcomer_fresh, Hok.
      * destruct (newcomer_fresh (fl_world f) s y (Hok _ _ Hl)) as [H1 H2]. split; [by apply not_eq_sym|by apply not_eq_sym].
    + intros k m [Hk|[-> ->]]%Hcase; [apply Untouched; [done|by eapply Hold|done]|].
      eapply (New _ _ _ _ _ s rt); [done|by apply lookup_ge_None_2|exact P|apply unsent_number; [done|apply B]|apply unsent_number; [done|apply B]|done].
Qed.

Lemma step_fate e f f' : fleet_ok f -> sound_event e -> fleet_step e f = Some f' ->
  fleet_ok f' /\ forall k m', fl_members f' !! k = Some m' -> fate e f f' k m'.
Proof. destruct e; intros H So; [by apply starts_fate|by apply moves_fate]. Qed.

Lemma fleet_run_app es es' f : fleet_run (es ++ es') f = (f' ← fleet_run es f; fleet_run es' f').
Proof. revert f. induction es as [|e es IH]; intros f; [done|]. simpl. destruct (fleet_step e f); [apply IH|done]. Qed.

(** What holds of each run from its start on, step by step. *)
Lemma run_each (P : list event -> fleet -> nat -> member -> Prop) es f0 f :
  fleet_ok f0 -> fl_members f0 = [] -> Forall sound_event es -> fleet_run es f0 = Some f ->
  (forall past e f1 f2 k m', fleet_run past f0 = Some f1 -> fleet_ok f1 -> sound_event e -> fleet_step e f1 = Some f2 -> past ++ [e] `prefix_of` es ->
     (forall l m, fl_members f1 !! l = Some m -> P past f1 l m) -> fl_members f2 !! k = Some m' -> fate e f1 f2 k m' -> P (past ++ [e]) f2 k m') ->
  fleet_ok f /\ forall k m, fl_members f !! k = Some m -> P es f k m.
Proof.
  intros Hok Hnil Hes Hrun Hstep.
  cut (forall past f1 es', es = past ++ es' -> fleet_run past f0 = Some f1 -> fleet_ok f1 ->
    (forall k m, fl_members f1 !! k = Some m -> P past f1 k m) -> Forall sound_event es' -> fleet_run es' f1 = Some f ->
    fleet_ok f /\ forall k m, fl_members f !! k = Some m -> P es f k m).
  { intros H. apply (H [] f0 es); try done. intros k m. by rewrite Hnil. }
  clear Hrun Hes. intros past f1 es'. revert past f1. induction es' as [|e es' IH]; intros past f1 Ees Hpast Hf1 HP Hes Hrun.
  - simpl in Hrun. injection Hrun as <-. rewrite app_nil_r in Ees. by subst past.
  - apply Forall_cons in Hes as [He Hes]. simpl in Hrun. apply bind_Some in Hrun as (f2 & E & Hrun).
    destruct (step_fate e f1 f2 Hf1 He E) as [Hf2 Hfate].
    assert (Ees' : es = (past ++ [e]) ++ es') by (by rewrite Ees, <- app_assoc).
    apply (IH (past ++ [e]) f2); [done|by rewrite fleet_run_app, Hpast; simpl; rewrite E|done| |done|done].
    intros k m Hk. eapply Hstep; [exact Hpast|done|done|done| |done|done|by apply Hfate]. by exists es'.
Qed.
(** ** The theorems *)

(** The steps that the run itself made. *)
Definition moves_of (i : nat) (es : list event) : list actor :=
  omap (fun e => match e with Moves j a => if decide (j = i) then Some a else None | Starts _ => None end) es.

Lemma moves_of_snoc i es e :
  moves_of i (es ++ [e]) = moves_of i es ++ match e with Moves j a => if decide (j = i) then [a] else [] | Starts _ => [] end.
Proof. unfold moves_of. rewrite omap_app. f_equal. simpl. destruct e; [done|]. by case_decide. Qed.
Lemma moves_of_other i es e : (forall a, e ≠ Moves i a) -> moves_of i (es ++ [e]) = moves_of i es.
Proof.
  intros H. rewrite moves_of_snoc. destruct e as [|j a]; [by rewrite app_nil_r|]. rewrite decide_False; [by rewrite app_nil_r|].
  intros ->. by apply (H a).
Qed.

(** Only runs that were started make steps. *)
Lemma moves_of_none i es f0 f : fleet_run es f0 = Some f -> fl_members f !! i = None -> moves_of i es = [].
Proof.
  revert f. induction es as [|e es IH] using rev_ind; intros f Hrun Hi; [done|].
  rewrite fleet_run_app in Hrun. apply bind_Some in Hrun as (f1 & H1 & E). simpl in E. apply bind_Some in E as (f2 & E & [= ->]).
  assert (Hi1 : fl_members f1 !! i = None).
  { rewrite lookup_ge_None in *. destruct e as [s|j a]; simpl in E.
    - destruct (runPlan _ _ _ _ _ _). injection E as <-. simpl in Hi. rewrite length_app in Hi. lia.
    - apply bind_Some in E as (m & _ & E). apply bind_Some in E as (c & _ & [= <-]). simpl in Hi. by rewrite length_insert in Hi. }
  rewrite moves_of_other; [by eapply IH|]. intros a ->. simpl in E. by rewrite Hi1 in E.
Qed.

Section from_start.
Context (es : list event) (w : world Q) (f : fleet).
Context (T : tidy w) (Hes : Forall sound_event es) (Hrun : fleet_run es (MkFleet w []) = Some f).

Lemma empty_fleet_ok : fleet_ok (MkFleet w []).
Proof. split; [done|by intros i m|by intros i j m m']. Qed.

Lemma run_ok : fleet_ok f.
Proof. apply (run_each (fun _ _ _ _ => True) es _ f empty_fleet_ok eq_refl Hes Hrun); done. Qed.

Lemma no_orphans_of i m : fl_members f !! i = Some m -> (forall x, ReportLost x ∉ moves_of i es) -> mb_copies m = [] -> mb_orphans m = [].
Proof.
  apply (run_each (fun es f i m => (forall x, ReportLost x ∉ moves_of i es) -> mb_copies m = [] -> mb_orphans m = []) es _ f empty_fleet_ok eq_refl Hes Hrun).
  intros past e f1 f2 k m' _ _ _ _ _ HP Hk Hfate Hno Hcop. destruct Hfate as [Hk1 _ Hne|m1 a -> Hk1 _ Hs|s rt -> _ _ _ _ Hv].
  - apply (HP k m' Hk1); [|done]. intros x. rewrite <- (moves_of_other k past e Hne). apply Hno.
  - assert (Hc1 : mb_copies m1 = []) by exact (no_copies error_text env stat docker _ _ _ a _ _ Hs Hcop).
    change (cf_orphans (view (fl_world f2) m') = []). apply (no_orphan error_text env stat docker (mb_pipeline m1) (mb_no m1) (mb_ptr m1) a (view (fl_world f1) m1)); [|exact Hc1| |exact Hs].
    + intros x ->. apply (Hno x). rewrite moves_of_snoc, decide_True by done. apply elem_of_app. right. left.
    + apply (HP k m1 Hk1); [|exact Hc1]. intros x Hx. apply (Hno x). rewrite moves_of_snoc. apply elem_of_app. by left.
  - change (cf_orphans (view (fl_world f2) m') = []). by rewrite Hv.
Qed.

(** C4: any number of runs. Requests to start runs may come at any time, of valid
    pipelines whose names the tables and handlers tell apart; any call of the store and
    any publish may fail, and a publish that is not confirmed may have put copies of
    its message into the queue, and be tried again; any worker may be lost. The runs that
    were started have numbers and runtimes of their own, and each is as safe among
    the others as alone: the orchestrator asks at most once for each of its jobs to be
    published, and only when all that the job waits for was executed; the broker holds
    messages of these jobs only; only jobs of such a message are executed, each after
    all it waits for; and none is executed twice unless a worker was lost while it
    reported, or the broker was left with two copies of a message (a job counts as
    executed once a worker has run it to its end). *)
Theorem fleet_safe :
  (forall i j m m', fl_members f !! i = Some m -> fl_members f !! j = Some m' -> i ≠ j -> unlike m m') /\
  (forall i m, fl_members f !! i = Some m ->
     let p := mb_pipeline m in
     let published := requested_messages p (mb_no m) (fl_world f) in
     let at_broker := sent_messages p (mb_no m) (fl_world f) in
     let message := job_message p (mb_no m) (mb_info m) in
     NoDup published /\ well_ordered p (mb_no m) (mb_info m) (mb_executed m) /\
     (forall x, x ∈ mb_executed m -> x ∈ at_broker) /\ (forall x, x ∈ at_broker -> x ∈ published) /\
     (forall x, x ∈ published -> exists j, j ∈ Pipeline_Jobs p /\ x = message j /\
        forall j', j' ∈ Pipeline_Jobs p -> waits_for p j j' -> message j' ∈ mb_executed m) /\
     ((forall x, ReportLost x ∉ moves_of i es) -> NoDup at_broker -> NoDup (mb_executed m))).
Proof.
  destruct run_ok as [_ Hm Ha].
  split; [exact Ha|]. intros i m Hi. destruct (Hm i m Hi) as [H1 H2 _ _ [rt S]].
  destruct (safe_facts _ _ _ _ H1 _ _ S) as (F1 & F2 & F3 & F4 & F5). split_and!; [done..|].
  intros Hno Hd. pose proof (sf_single _ _ _ _ _ _ S Hd) as Hc. apply (sf_executed_once _ _ _ _ _ _ S); [|done].
  by apply (no_orphans_of i m Hi).
Qed.

Section calm.
Context (Hcalm : calm w).

Lemma step_calm e f1 f2 : fleet_ok f1 -> sound_event e -> fleet_step e f1 = Some f2 -> calm (fl_world f1) -> calm (fl_world f2).
Proof.
  intros Hok So E Hc. destruct e as [s|i a].
  - destruct (starts_shape s f1 f2 Hok So E) as (B & _ & Hf & _). split; [by apply Hf, Hc|]. rewrite (sb_queue _ _ B). apply Hc.
  - simpl in E. apply bind_Some in E as (m & Em & E). apply bind_Some in E as (c & Ec & [= <-]).
    destruct (fo_members _ Hok i m Em) as [H1 H2 _ _ [rt S]].
    destruct (step_advances error_text env stat docker _ _ _ (mb_info m) H1 H2 _ _ _ _ S Ec) as [rt' A]. by apply A.
Qed.

Lemma run_calm es' f1 f2 : fleet_ok f1 -> Forall sound_event es' -> fleet_run es' f1 = Some f2 -> calm (fl_world f1) -> calm (fl_world f2).
Proof.
  revert f1. induction es' as [|e es' IH]; intros f1 Hok So E Hc; simpl in E; [by injection E as <-|].
  apply Forall_cons in So as [So1 So]. apply bind_Some in E as (f3 & E1 & E). destruct (step_fate e f1 f3 Hok So1 E1) as [Hok3 _].
  apply (IH f3); [done|done|done|]. by apply (step_calm e f1).
Qed.

(** The steps that a run has made and those it has left. *)
Definition spent (past : list event) (f1 : fleet) (i : nat) (m : member) : Prop :=
  exists rt, safe_at (mb_pipeline m) (mb_no m) (mb_ptr m) (mb_info m) (view (fl_world f1) m) rt /\
    undoubled (mb_pipeline m) (mb_no m) (fl_world f1) /\
    length (moves_of i past) + measure (mb_pipeline m) (mb_no m) (mb_info m) (view (fl_world f1) m) rt
    <= 17 * (length (Pipeline_Jobs (mb_pipeline m)) + losses (moves_of i past)) + 2.

Lemma spent_always i m : fl_members f !! i = Some m -> spent es f i m.
Proof.
  apply (run_each spent es _ f empty_fleet_ok eq_refl Hes Hrun).
  intros past e f1 f2 k m' Hpast Hok So E [rest Hpre] HP Hk Hfate.
  assert (Hpast' : Forall sound_event past) by (rewrite Hpre, <- app_assoc in Hes; by apply Forall_app in Hes as [? _]).
  pose proof (run_calm past _ f1 empty_fleet_ok Hpast' Hpast Hcalm) as Hc.
  destruct Hfate as [Hk1 El Hne|m1 a -> Hk1 Em Hs|s rt -> Hn P Hsent Hreq Hv].
  - destruct (HP k m' Hk1) as (rt & S & Hset & Hle). exists rt. rewrite (moves_of_other k past e Hne).
    split_and!; [by apply (safe_elsewhere _ _ _ _ (view (fl_world f1) m'))|by eapply undoubled_elsewhere|exact Hle].
  - destruct (HP k m1 Hk1) as (rt & S & Hset & Hle). destruct (fo_members _ Hok k m1 Hk1) as [H1 H2 _ _ _].
    destruct (step_advances error_text env stat docker _ _ _ (mb_info m1) H1 H2 _ _ _ _ S Hs) as [rt' A].
    destruct (av_calm _ _ _ _ _ _ _ _ _ A Hc) as (_ & Hm). destruct (Hm Hset) as (Hset' & Hlt & _).
    pose proof (av_safe _ _ _ _ _ _ _ _ _ A) as S'.
    rewrite Em in *. exists rt'. split; [exact S'|]. split; [exact Hset'|]. rewrite moves_of_snoc, decide_True, length_app by done. simpl in *.
    unfold losses in *. rewrite filter_app, length_app, filter_cons. unfold loss in Hlt.
    destruct (is_loss a); [rewrite decide_True by done|rewrite decide_False by done]; simpl; lia.
  - destruct (step_fate _ f1 f2 Hok So E) as [Hok2 _]. destruct (fo_members _ Hok2 k m' Hk) as [H1 H2 _ _ _].
    pose proof (initialized_launched _ _ _ _ _ _ _ Hsent Hreq P) as La. exists rt. rewrite Hv.
    split; [by apply start_safe|]. split; [by eapply launched_undoubled|]. erewrite start_measure, moves_of_other by done.
    rewrite (moves_of_none k past _ _ Hpast Hn). simpl. lia.
Qed.
(** No run can make another step. *)
Definition at_rest (f1 : fleet) : Prop := forall i a, fleet_step (Moves i a) f1 = None.

Lemma at_rest_ended i m : at_rest f -> fl_members f !! i = Some m ->
  ended error_text env stat docker (mb_pipeline m) (mb_no m) (mb_ptr m) (view (fl_world f) m).
Proof.
  intros Hr Hi a. specialize (Hr i a). simpl in Hr. rewrite Hi in Hr. simpl in Hr. unfold member_step in Hr. by destruct (step _ _ _ _ _ _ _ _ _).
Qed.

Lemma at_rest_iff f1 : fleet_ok f1 -> (forall i m, fl_members f1 !! i = Some m -> undoubled (mb_pipeline m) (mb_no m) (fl_world f1)) ->
  at_rest f1 <-> forall i m, fl_members f1 !! i = Some m ->
  is_Some (dispatch_done (mb_dispatch m)) /\
  (forall x, x ∈ sent_messages (mb_pipeline m) (mb_no m) (fl_world f1) -> mb_act m x = Reported) /\
  (forall x a, (x, a) ∈ mb_orphans m -> ~ active a).
Proof.
  intros Hok Hset. split.
  - intros Hr i m Hi. destruct (fo_members _ Hok i m Hi) as [_ _ _ _ [rt S]].
    apply (ended_iff error_text env stat docker _ _ _ _ (view (fl_world f1) m) rt S (Hset i m Hi)).
    intros a. specialize (Hr i a). simpl in Hr. rewrite Hi in Hr. simpl in Hr. unfold member_step in Hr. by destruct (step _ _ _ _ _ _ _ _ _).
  - intros Hall i a. simpl. destruct (fl_members f1 !! i) as [m|] eqn:Hi; [|done]. simpl.
    destruct (fo_members _ Hok i m Hi) as [_ _ _ _ [rt S]]. unfold member_step.
    by rewrite (proj2 (ended_iff error_text env stat docker _ _ _ _ (view (fl_world f1) m) rt S (Hset i m Hi)) (Hall i m Hi) a).
Qed.

Lemma always_undoubled i m : fl_members f !! i = Some m -> undoubled (mb_pipeline m) (mb_no m) (fl_world f).
Proof. intros Hi. by destruct (spent_always i m Hi) as (rt & _ & Hset & _). Qed.

(** C5: termination, for runs of valid pipelines whose names the tables and handlers
    tell apart. When no call of the store and no publish fails, each run makes, however
    many others run beside it, at most two steps, seventeen per job, and seventeen
    again for each of its workers that is lost; nobody makes a step for a run that
    was not started; and no run can make another step exactly when all goroutines are
    done, all messages at the broker are reported and no handler of a lost report
    runs. *)
Theorem fleet_terminates :
  (forall i m, fl_members f !! i = Some m ->
     length (moves_of i es) <= 17 * (length (Pipeline_Jobs (mb_pipeline m)) + losses (moves_of i es)) + 2) /\
  (forall i, fl_members f !! i = None -> moves_of i es = []) /\
  (at_rest f <-> forall i m, fl_members f !! i = Some m ->
     is_Some (dispatch_done (mb_dispatch m)) /\
     (forall x, x ∈ sent_messages (mb_pipeline m) (mb_no m) (fl_world f) -> mb_act m x = Reported) /\
     (forall x a, (x, a) ∈ mb_orphans m -> ~ active a)).
Proof.
  split_and!.
  - intros i m Hi. destruct (spent_always i m Hi) as (rt & _ & _ & Hle). lia.
  - intros i Hi. by eapply moves_of_none.
  - apply at_rest_iff; [apply run_ok|apply always_undoubled].
Qed.

(** All executions of the jobs of a run pass. *)
Definition all_pass (m : member) : Prop :=
  forall j k, j ∈ Pipeline_Jobs (mb_pipeline m) ->
    passes env stat (attempt docker k) (mb_pipeline m) (mb_no m) (mb_info m) (job_message (mb_pipeline m) (mb_no m) (mb_info m) j).
(** No worker of the run was lost before its started callback reached the row of its job. *)
Definition reports_kept (i : nat) : Prop :=
  forall past x rest f1 m, es = past ++ Moves i (ReportLost x) :: rest -> fleet_run past (MkFleet w []) = Some f1 ->
    fl_members f1 !! i = Some m -> mb_act m x ≠ Starting MarkRunning.

Lemma live_always i m : fl_members f !! i = Some m -> all_pass m ->
  exists rt, live_at (mb_pipeline m) (mb_no m) (mb_ptr m) (mb_info m) (reports_kept i) (view (fl_world f) m) rt.
Proof.
  apply (run_each (fun _ f1 i m => all_pass m ->
    exists rt, live_at (mb_pipeline m) (mb_no m) (mb_ptr m) (mb_info m) (reports_kept i) (view (fl_world f1) m) rt) es _ f empty_fleet_ok eq_refl Hes Hrun).
  intros past e f1 f2 k m' Hpast Hok So E [rest Hpre] HP Hk Hfate Hpass.
  assert (Hpast' : Forall sound_event past) by (rewrite Hpre, <- app_assoc in Hes; by apply Forall_app in Hes as [? _]).
  pose proof (step_calm e f1 f2 Hok So E (run_calm past _ f1 empty_fleet_ok Hpast' Hpast Hcalm)) as Hc.
  destruct (step_fate _ f1 f2 Hok So E) as [Hok2 _]. destruct (fo_members _ Hok2 k m' Hk) as [H1 H2 _ _ _].
  destruct Hfate as [Hk1 El Hne|m1 a -> Hk1 Em Hs|s rt -> Hn P Hsent Hreq Hv].
  - destruct (HP k m' Hk1 Hpass) as (rt & L). exists rt. by apply (live_elsewhere _ _ _ _ _ (view (fl_world f1) m')).
  - assert (Hpass1 : all_pass m1) by (by rewrite Em in Hpass). destruct (HP k m1 Hk1 Hpass1) as (rt & L). rewrite Em in H1, H2. simpl in H1, H2.
    assert (Hkept : reports_kept k -> kept a (view (fl_world f1) m1) = true).
    { intros Hkept. destruct a as [|x|x|x|x|x|x|x|x]; try done. simpl. specialize (Hkept past x rest f1 m1).
      destruct (mb_act m1 x) as [|[]| | |]; try done. destruct Hkept; [by rewrite Hpre, <- app_assoc|done|done|done]. }
    destruct (step_live error_text env stat docker _ _ _ _ H1 H2 Hpass1 _ a _ _ rt L Hkept Hs) as [rt' L'].
    exists rt'. rewrite Em in L' |- *. exact L'.
  - pose proof (initialized_launched _ _ _ _ _ _ _ Hsent Hreq P) as La. exists rt. rewrite Hv.
    apply (start_live env stat docker); [done|done|done|done|done|by eapply initialized_rows].
Qed.

(** C6: when nothing fails and no run can make another step, every run whose jobs
    pass has ended as a success, however the others went: its jobs were published
    once and executed, once if none of its reports was lost, its row and those of
    its stages say so, those of its jobs are terminal unless a started callback was
    lost early, and its runtime is forgotten. *)
Theorem fleet_succeeds i m :
  at_rest f -> fl_members f !! i = Some m -> all_pass m ->
  let p := mb_pipeline m in
  let messages := job_message p (mb_no m) (mb_info m) <$> Pipeline_Jobs p in
  sent_messages p (mb_no m) (fl_world f) ≡ₚ messages /\
  (forall x, x ∈ mb_executed m <-> x ∈ messages) /\
  ((forall x, ReportLost x ∉ moves_of i es) -> mb_executed m ≡ₚ messages) /\
  recorded p (mb_no m) (reports_kept i) (fl_world f).
Proof.
  intros Hr Hi Hpass p messages. destruct (live_always i m Hi Hpass) as [rt L]. pose proof (at_rest_ended i m Hr Hi) as He.
  destruct (fo_members _ run_ok i m Hi) as [H1 H2 _ _ _].
  pose proof (end_executed error_text env stat docker _ _ _ _ H1 H2 Hpass _ _ _ L He) as Hex.
  split_and!; [exact (end_published error_text env stat docker _ _ _ _ H1 H2 Hpass _ _ _ L He)|exact Hex|
    |exact (end_recorded error_text env stat docker _ _ _ _ H1 H2 Hpass _ _ _ L He)].
  intros Hno. apply NoDup_Permutation; [|by apply job_messages_unique|exact Hex].
  pose proof (proj2 (undoubled_single _ _ _ _ _ _ (lv_safe _ _ _ _ _ _ _ L) (lv_undoubled _ _ _ _ _ _ _ L))) as Hcop.
  apply (sf_executed_once _ _ _ _ _ _ (lv_safe _ _ _ _ _ _ _ L)); [|exact Hcop]. by apply (no_orphans_of i m Hi).
Qed.
End calm.
End from_start.
End fleet.

(** ** Two runs of one pipeline *)

#[local] Existing Instance binary_collation.
#[local] Existing Instance no_floats.

Definition fleet_sha (x : string) : string := "key" +++ x.
Definition demo_branch (b : string) : RunRequest := MkRunRequest "pipeline: ..." b "abc" "https://x/y.git" "".
Definition demo_start_of (b : string) : start := MkStart (Some "0af7") demo_orders (demo_branch b) (MkPipelinePlan demo_pipeline demo_ep).
(** In run 1 the compiler fails. *)
Definition two_dockers (m : JobExecutionMessage) (k : nat) : docker_env :=
  if decide (Msg_RunNo m = 1%Z) then broken_docker m else demo_docker m.

Abbreviation demo_fleet_step := (fleet_step (F:=no_floats) no_text demo_env demo_stat two_dockers fleet_sha).
Abbreviation demo_fleet_run := (fleet_run (F:=no_floats) no_text demo_env demo_stat two_dockers fleet_sha).

(** A scheduler: the next event that is possible, in turn. *)
Fixpoint first_event (l : list event) (f : fleet (Q := sink)) : option (event * fleet (Q := sink)) :=
  match l with
  | [] => None
  | e :: l' => match demo_fleet_step e f with Some f' => Some (e, f') | None => first_event l' f end
  end.
Fixpoint in_turn (fuel : nat) (l : list event) (f : fleet (Q := sink)) : list event :=
  match fuel with
  | 0 => []
  | S fuel' => match first_event l f with Some (e, f') => e :: in_turn fuel' (tail l ++ take 1 l) f' | None => [] end
  end.
Definition demo_moves (n : Z) (b : string) (i : nat) : list event :=
  (Moves i ∘ WorkerOf ∘ job_message demo_pipeline n (newRunInfo (demo_branch b)) <$> Pipeline_Jobs demo_pipeline) ++ [Moves i Dispatcher; Moves i (Orphan 0)].
Definition demo_all_moves : list event := demo_moves 2 "dev" 1 ++ demo_moves 1 "main" 0.

Definition after (es : list event) (k : nat) (f0 : fleet (Q := sink)) : list event :=
  es ++ in_turn k demo_all_moves (default f0 (demo_fleet_run es f0)).
Definition demo_empty (w : world sink) : fleet (Q := sink) := MkFleet w [].
(** The first run is under way when its request comes again, and then another one. *)
Definition demo_first (w : world sink) (k : nat) : list event := after [Starts (demo_start_of "main")] k (demo_empty w).
Definition demo_events (w : world sink) (first : list event) (k : nat) : list event :=
  after (first ++ [Starts (demo_start_of "main"); Starts (demo_start_of "dev")]) k (demo_empty w).

Definition fleet_seen (o : option (fleet (Q := sink))) : list (Z * string * list string) * list (option string) :=
  match o with
  | None => ([], [])
  | Some f => ((fun m => (mb_no m, Pipeline_Name (mb_pipeline m), JobPlan_Name ∘ Msg_Job <$> mb_executed m)) <$> fl_members f,
      [run_status_of (w_db (fl_world f)) "demo" 1; run_status_of (w_db (fl_world f)) "demo" 2; run_status_of (w_db (fl_world f)) "demo" 3])
  end.
Lemma demo_sound b : sound (demo_start_of b).
Proof. split; [apply demo_valid|apply demo_numbered|apply demo_orders_legal|]. exists demo_orders. split; [apply demo_orders_legal|apply demo_ep_eq]. Qed.
Lemma fleet_sha_keys x : ci (fleet_sha x) ≠ ci "".
Proof. done. Qed.

Lemma sound_in_turn k l f : Forall sound_event l -> Forall sound_event (in_turn k l f).
Proof.
  revert l f. induction k as [|k IH]; intros l f Hl; simpl; [done|]. destruct (first_event l f) as [[e f']|] eqn:E; [|done].
  assert (H : forall l', Forall sound_event l' -> first_event l' f = Some (e, f') -> sound_event e).
  { induction l' as [|e' l' IHl]; intros Hl' E'; [done|]. apply Forall_cons in Hl' as [He Hl']. simpl in E'.
    destruct (demo_fleet_step e' f); [by injection E' as <- _|by apply IHl]. }
  apply Forall_cons. split; [by apply (H l)|]. apply IH. destruct l; simpl; [done|]. apply Forall_cons in Hl as [? ?].
  apply Forall_app. split; [done|]. by rewrite firstn_O, Forall_singleton.
Qed.

Lemma sound_demo_moves n b i : Forall sound_event (demo_moves n b i).
Proof. apply Forall_app. split; [|repeat constructor]. apply Forall_fmap, Forall_true. done. Qed.
Lemma sound_after es k f : Forall sound_event es -> Forall sound_event (after es k f).
Proof. intros H. apply Forall_app. split; [done|]. apply sound_in_turn, Forall_app. split; apply sound_demo_moves. Qed.
Lemma demo_first_sound w k : Forall sound_event (demo_first w k).
Proof. apply sound_after. constructor; [apply demo_sound|constructor]. Qed.
Lemma demo_events_sound w first k : Forall sound_event first -> Forall sound_event (demo_events w first k).
Proof.
  intros H. apply sound_after, Forall_app. split; [done|].
  constructor; [apply demo_sound|]. constructor; [apply demo_sound|constructor].
Qed.

(** Calls of the store fail, and the worker of the first job is lost while it reports. *)
Definition faulty_start : world sink :=
  with_db (demo_world []) empty_db (replicate 10 None ++ [Some (ErrIs "connection reset")] ++ replicate 20 None ++ [Some (ErrIs "connection reset"); None; Some (ErrIs "connection reset")]).
Definition lost_events : list event :=
  demo_events faulty_start (demo_first faulty_start 9 ++ [Moves 0 (ReportLost (demo_message 3))]) 200.

Definition demo_fleet (w : world sink) (es : list event) : fleet := default (demo_empty w) (demo_fleet_run es (demo_empty w)).
Lemma demo_fleet_ran w es :
  bool_decide (is_Some (demo_fleet_run es (demo_empty w))) = true -> demo_fleet_run es (demo_empty w) = Some (demo_fleet w es).
Proof. intros [f E]%bool_decide_eq_true. unfold demo_fleet. by rewrite E. Qed.

Lemma demo_tidy fs : tidy (with_db (demo_world []) empty_db fs).
Proof.
  split; simpl; [apply empty_db_wf|..].
  - intros q m s [x Hx]. by rewrite lookup_empty in Hx.
  - intros q m s j [x Hx]. by rewrite lookup_empty in Hx.
  - by intros m ?%elem_of_nil.
  - intros q [x Hx]. by rewrite lookup_empty in Hx.
Qed.

Definition resting (f : fleet (Q := sink)) : bool :=
  forallb (fun m => bool_decide (is_Some (dispatch_done (mb_dispatch m))) &&
    forallb (fun x => is_reported (mb_act m x)) (sent_messages (mb_pipeline m) (mb_no m) (fl_world f)) &&
    forallb (fun o => negb (is_active o.2)) (mb_orphans m)) (fl_members f).
Lemma resting_at_rest f : fleet_ok f -> (forall i m, fl_members f !! i = Some m -> undoubled (mb_pipeline m) (mb_no m) (fl_world f)) ->
  resting f = true -> at_rest no_text demo_env demo_stat two_dockers fleet_sha f.
Proof.
  intros Hok Hset Hr. apply at_rest_iff; [done|exact Hset|]. intros i m Hi%list_elem_of_lookup_2. unfold resting in Hr. rewrite forallb_forall in Hr.
  specialize (Hr m (proj1 (list_elem_of_In _ _) Hi)). apply andb_prop in Hr as [[H1%bool_decide_eq_true H2]%andb_prop H3].
  rewrite forallb_forall in H2, H3. split_and!; [done| |].
  - intros x Hx. specialize (H2 x (proj1 (list_elem_of_In _ _) Hx)). by destruct (mb_act m x).
  - intros x a Ha. specialize (H3 _ (proj1 (list_elem_of_In _ _) Ha)). intros Hac. by destruct a; simpl in *.
Qed.

Definition faulty_fleet : fleet (Q := sink) := demo_fleet faulty_start lost_events.
Lemma faulty_ran : demo_fleet_run lost_events (demo_empty faulty_start) = Some faulty_fleet.
Proof. apply demo_fleet_ran. vm_compute. reflexivity. Qed.
Lemma lost_sound : Forall sound_event lost_events.
Proof. apply demo_events_sound, Forall_app. split; [apply demo_first_sound|repeat constructor]. Qed.

(** The confirmation of the first publish is lost, but not its message, which is
    published again: two workers take a copy each. *)
Definition doubling : call_env := MkCallEnv (fun n => if decide (n < 2) then unconfirmed_attempt else good_attempt) (ok []).
Definition doubled_start : world sink := demo_world [doubling].
Definition doubled_events : list event :=
  demo_events doubled_start (demo_first doubled_start 9 ++ Moves 0 (TakesCopy (demo_message 3)) :: replicate 4 (Moves 0 (CopyOf 0))) 200.
Definition doubled_fleet : fleet (Q := sink) := demo_fleet doubled_start doubled_events.
Definition all_names (f : fleet (Q := sink)) (l : world sink -> list JobExecutionMessage) : list string := JobPlan_Name ∘ Msg_Job <$> l (fl_world f).

Lemma fmap_true {A} (g : A -> bool) (o : option A) x : g <$> o = Some true -> o = Some x -> g x = true.
Proof. intros H ->. by injection H. Qed.

(** The first run loses a report and fails; the second one does not notice. *)
Lemma fleet_safe_witness :
  fleet_seen (Some faulty_fleet) =
    ([(1%Z, "demo", ["fetch"; "fetch"; "compile"; "lint"]); (2%Z, "demo", ["fetch"; "compile"; "lint"; "package"; "unit"])],
     [Some StatusFailed; Some StatusSuccess; None]) /\
  (exists m, fl_members faulty_fleet !! 1 = Some m /\ mb_no m = 2%Z /\
     NoDup (requested_messages (mb_pipeline m) (mb_no m) (fl_world faulty_fleet)) /\ NoDup (mb_executed m)) /\
  all_names doubled_fleet (requested_messages demo_pipeline 1) = ["fetch"; "compile"; "lint"] /\
  all_names doubled_fleet (sent_messages demo_pipeline 1) = ["fetch"; "fetch"; "compile"; "lint"] /\
  (fun m => JobPlan_Name ∘ Msg_Job <$> mb_executed m) <$> fl_members doubled_fleet !! 0 = Some ["fetch"; "fetch"; "compile"; "lint"].
Proof.
  split; [vm_compute; reflexivity|]. split; [|split_and!; vm_compute; reflexivity].
  destruct (fleet_safe no_text demo_env demo_stat two_dockers fleet_sha fleet_sha_keys lost_events faulty_start faulty_fleet
    (demo_tidy _) lost_sound faulty_ran) as [_ H].
  assert (Hno : (fl_members faulty_fleet !! 1) ≫= (fun m => Some (mb_no m)) = Some 2%Z) by (vm_compute; reflexivity).
  destruct (fl_members faulty_fleet !! 1) as [m|] eqn:Hi; [|discriminate Hno]. exists m.
  destruct (H 1 m Hi) as (H1 & _ & _ & _ & _ & H5). split; [reflexivity|]. split; [by injection Hno|]. split; [exact H1|].
  apply H5; [apply no_report_lost; vm_compute; reflexivity|].
  refine (bool_decide_eq_true_1 _ (fmap_true (fun m => bool_decide (NoDup (sent_messages (mb_pipeline m) (mb_no m) (fl_world faulty_fleet)))) _ m _ Hi)).
  vm_compute. reflexivity.
Defined.

Definition two_events : list event := demo_events (demo_world []) (demo_first (demo_world []) 12) 300.
Definition two_fleet : fleet (Q := sink) := demo_fleet (demo_world []) two_events.
Lemma two_ran : demo_fleet_run two_events (demo_empty (demo_world [])) = Some two_fleet.
Proof. apply demo_fleet_ran. vm_compute. reflexivity. Qed.
Lemma two_sound : Forall sound_event two_events.
Proof. apply demo_events_sound, demo_first_sound. Qed.
Lemma two_calm : calm (demo_world []).
Proof. split; [done|apply demo_sink_healthy]. Qed.
Lemma two_rests : at_rest no_text demo_env demo_stat two_dockers fleet_sha two_fleet.
Proof.
  apply resting_at_rest; [|exact (always_undoubled no_text demo_env demo_stat two_dockers fleet_sha fleet_sha_keys two_events (demo_world [])
    two_fleet (demo_tidy []) two_sound two_ran two_calm)|vm_compute; reflexivity].
  exact (run_ok no_text demo_env demo_stat two_dockers fleet_sha fleet_sha_keys two_events (demo_world []) two_fleet (demo_tidy []) two_sound two_ran).
Qed.

Lemma fleet_terminates_witness :
  length (moves_of 0 two_events) = 30 /\ length (moves_of 1 two_events) = 64 /\
  exists m, fl_members two_fleet !! 1 = Some m /\
    length (moves_of 1 two_events) <= 17 * (length (Pipeline_Jobs (mb_pipeline m)) + losses (moves_of 1 two_events)) + 2.
Proof.
  split; [vm_compute; reflexivity|]. split; [vm_compute; reflexivity|].
  destruct (fleet_terminates no_text demo_env demo_stat two_dockers fleet_sha fleet_sha_keys two_events (demo_world []) two_fleet
    (demo_tidy []) two_sound two_ran two_calm) as (H & _ & _).
  assert (Hno : (fl_members two_fleet !! 1) ≫= (fun m => Some (mb_no m)) = Some 2%Z) by (vm_compute; reflexivity).
  destruct (fl_members two_fleet !! 1) as [m|] eqn:Hi; [|discriminate Hno]. exists m. split; [reflexivity|exact (H 1 m Hi)].
Defined.

Lemma two_passes j : j ∈ Pipeline_Jobs demo_pipeline ->
  passes demo_env demo_stat demo_docker demo_pipeline 2 (newRunInfo (demo_branch "dev")) (job_message demo_pipeline 2 (newRunInfo (demo_branch "dev")) j).
Proof.
  intros Hj. destruct (Job_Failures j) eqn:Ef; [by right; exists j|left].
  cut (Job_Failures j = true \/ (execution demo_env demo_stat demo_docker (job_message demo_pipeline 2 (newRunInfo (demo_branch "dev")) j)).2.2 = None).
  { intros [E|E]; [by rewrite E in Ef|done]. }
  clear Ef. revert j Hj. apply Forall_forall. repeat (apply Forall_cons; split; [first [by left|right; vm_compute; reflexivity]|]). constructor.
Qed.

(** The second run succeeds although the first one, under way beside it, fails. *)
Lemma fleet_succeeds_witness :
  run_status_of (w_db (fl_world two_fleet)) "demo" 1 = Some StatusFailed /\
  exists m, fl_members two_fleet !! 1 = Some m /\ mb_executed m ≡ₚ job_message (mb_pipeline m) (mb_no m) (mb_info m) <$> Pipeline_Jobs (mb_pipeline m) /\
    run_row (mb_pipeline m) (mb_no m) (fl_world two_fleet) = Some StatusSuccess.
Proof.
  split; [vm_compute; reflexivity|].
  assert (Hno : (fl_members two_fleet !! 1) ≫= (fun m => Some (mb_pipeline m, mb_no m, mb_info m)) = Some (demo_pipeline, 2%Z, newRunInfo (demo_branch "dev")))
    by (vm_compute; reflexivity).
  destruct (fl_members two_fleet !! 1) as [m|] eqn:Hi; [|discriminate Hno]. injection Hno as Hp Hn Hri.
  assert (Hpass : all_pass demo_env demo_stat two_dockers m).
  { unfold all_pass. rewrite Hp, Hn, Hri. intros j k. apply two_passes. }
  destruct (fleet_succeeds no_text demo_env demo_stat two_dockers fleet_sha fleet_sha_keys two_events (demo_world []) two_fleet
    (demo_tidy []) two_sound two_ran two_calm 1 m two_rests Hi Hpass) as (_ & _ & H3 & H4).
  exists m. split; [reflexivity|]. split; [|exact (rd_run _ _ _ _ H4)].
  apply H3, no_report_lost. vm_compute. reflexivity.
Defined.
